(* ===== verification/_CoqProject ===== *)
-Q . S2P
Prelude.v
CxxFloat.v
FloatRound.v
FloatBounds.v
FloatSigned.v
StdAlg.v
ConcurrentDeque.v
Message.v
ControlMsg.v
ControlRep.v
Descriptors.v
Server.v
ServerLife.v
Client.v
ClientFacts.v
Utils.v
Dispatcher.v
DispatcherFacts.v
Job.v
Printing.v
Executor.v
ExecutorFacts.v
ModelFiles.v
Ownership.v
DynLib.v
Scheduler.v
StatsFacts.v
Members.v
Handshake.v
EndToEnd.v
SchedulerFacts.v
IteratorRace.v
Algs.v
Requests.v
ScoreFacts.v
AlgFacts.v
ManagedFacts.v
AlgProps.v
SchedLoop.v
System.v
SystemCount.v
Liveness.v
MsgTypes.v
Programs.v
Tests.v
Shutdown.v
Answers.v
Waiting.v
