(* ===== verification/Prelude.v ===== *)
(** * Hydrogen: a verification library for the elastic DFE cloud (src/)

    ** The program

    Hydrogen shares a pool of dataflow engines (DFEs) among clients.  A client
    calls the stubs of src/src/client/client_api.cpp; they send a request, a
    packed struct (common/message.hpp), over TCP (common/Client.cpp).  The
    request goes to the scheduler (scheduler/Scheduler.cpp), or to an executor
    (executor/Executor.cpp) that first predicts the run time of each
    implementation of the task and forwards the request to the best one.  The
    scheduler's handler puts a job into the ready queue and waits; the
    scheduling thread chooses an allocation of jobs to resources among those
    of five algorithms (scheduler/algs.cpp), lets the elasticity manager grow
    or shrink the pool, and moves the chosen jobs to the run queue; the
    dispatcher thread starts a thread per job, which sends the request to the
    dispatcher (dispatcher/DispatcherServer.cpp), waits for the result and
    returns the resources; the finished thread updates the statistics and wakes
    the handler, which answers the client.  All three servers are built on the
    connections of common/MultiThreadedTCPServer.cpp, and the queues are the
    monitors of common/concurrent_deque.hpp.

    ** The files

    - Prelude (this file): the [outcome] monad (a value, undefined behaviour
      with its reason, an exception, a thread blocked for ever, fuel used up),
      machine integers, little-endian memory images, tactics, hints, lemmas on
      lists.
    - CxxFloat, FloatRound, FloatBounds, FloatSigned: binary32 and binary64 as the Standard
      Library's SpecFloat defines them, the conversions of the sources, and the
      rounding bounds that the scores of allocations and the statistics need.
    - StdAlg: find_if, erase, min_element, max_element, remove and rotate of
      the C++ library, and the interface [StdSort] for std::sort: the clients
      are verified against every instance that sorts.
    - ConcurrentDeque: [Deque] and [Queue], the operations of
      concurrent_deque.hpp and concurrent_queue.hpp on their contents;
      [Monitor], the same operations with mutex, condition variable and
      notify_one as interleaved threads.
    - Message: common/message.cpp, the struct, its constructors and its memory
      image.
    - ControlMsg: the control messages of common/protobuf (the fields, the
      serialisation and the parsing of ControlMSG, the constructors of its
      message.cpp) and the messages of common/old_message; ControlRep: the
      generated class in memory, with its pointers, has-bits and ownership;
      Descriptors: the descriptor it registers, the registration and the shutdown
      of packet.pb.cc.
    - Server: connection::start and connection::handle_read, over any handler.
    - ServerLife: the constructor, the accept loop, the thread pool and the stop
      of MultiThreadedTCPServer as a transition system over such connections.
    - Client, ClientFacts: common/Client.cpp and client/client_api.cpp.
    - Utils: common/utils.cpp and parse of common/Logging.cpp.
    - Dispatcher, DispatcherFacts: the CPU kernel, the calls of the DFE library
      and handle_request; the kernel against the averages and against the
      reference of test/TestLib.cpp.
    - Job: Resource, Job, JobInfo and Allocations.
    - Printing: msg::print (of the three message.cpp), the output and the string
      constructor of resources, Job::str.
    - Executor, ExecutorFacts: PerfModel, Task, Executor and
      Resource::dispatch; ModelFiles: models in files, their output and the
      executor's main; Ownership: the pointers of Task and Executor, deletion
      and the destructors.
    - DynLib: common/dynlib.
    - Scheduler: the state of the scheduler (queues, pool, job states,
      statistics), its methods, the handler, the job threads, one iteration of
      the dispatcher and finished threads, Allocations.cpp and
      ElasticityManager.cpp; SchedulerFacts: what the pool operations and
      serviceAllocations do; StatsFacts: the statistics stay finite and their
      conversions to integers defined; Members: the accessors and small classes
      of the headers that nothing above uses.
    - EndToEnd: client, scheduler, dispatcher and both TCP streams composed for a
      moving average, with Scheduler::handle_request; Requests: option pricing,
      averages through the executor, termination; MsgTypes: the types of
      messages, with the interface [TypedHandler] between a connection and its
      server.
    - Algs: the six algorithms of algs.cpp, score, selectMaxScore, schedule and
      an iteration of schedLoop.  ScoreFacts, AlgFacts and ManagedFacts hold the
      lemmas, AlgProps the theorems; SchedLoop the theorems on an iteration.
    - Handshake: a handler waiting for its job against the finished thread.
    - System: handlers and threads interleaved as one transition system;
      SystemCount: its jobs counted; Liveness: its clients answered; Answers:
      each with the result of its own job; Waiting: System and Handshake composed,
      with handlers that test, wait and are notified; IteratorRace: the iterators of
      removeJobFromReadyQ against handlers that push jobs.
    - Programs: main of the dispatcher and of the scheduler; Tests: the programs
      of the test directory.
    - Shutdown: the destructor of the scheduler against its threads.

    ** State and operations

    A definition has the name of the function it translates where that is
    free.  Stateful methods take the state and return it, in the outcome monad
    wherever the code may throw, block or be undefined.  Lists stand for deques
    and vectors; a pointer to a job is its id, with the mutable members in a
    store ([jobStates]); tasks of the executor are pointers into a heap.
    Arrays on the wire are bytes; integers keep their C++ width ([i32], [u64],
    [i8], and [int_of] for signed arithmetic).

    ** The theorems

    - System: in every interleaving no resource is used twice or lost, no job
      is lost or duplicated, the dispatcher thread starts every job, serving an
      allocation succeeds unless the elasticity manager removed one of its
      resources, and job threads have a resource to talk to; an iteration of
      schedLoop is a run of this system; every id handed out is a job in a
      queue, with a thread or recorded, which determines what stop prints; the
      destructor ends with empty queues.  Each client gets what its own job's
      resource replied.  When predicted times are positive and no objective is
      set, no thread fails, and every client is answered within 8 n + 2 steps
      without a new submission, n being the number of clients that wait.
    - Waiting: with the wait of the handlers the system still implements System, and
      what a client sees of it implements Handshake; it stops after at most 34 n + 11
      steps, and can go on while a client is not forgotten; it has a run that answers
      all but the forgotten ones, and a client that is about to wait can be
      forgotten for ever.
    - Algs: each algorithm refines a plan on the window of jobs; ManagedMode
      returns and schedules at least one job when predicted times are positive;
      an iteration of schedLoop moves exactly the allocated jobs and resources.
    - Dispatcher: the kernel computes the averages on its domain and passes the
      repository's check; requests are answered with the kernel's results.
    - Server, ServerLife: a connection answers its requests however TCP cuts
      them; every connection starts once, with one thread accepting at a time;
      a stopped server ends.
    - Client, EndToEnd, Requests: a moving average called by a client, through
      the scheduler or through an executor, ends with the averages in the
      caller's array, an option with the library's price; TerminateServer ends
      the executor's and the scheduler's server.
    - MsgTypes: the servers write bytes only and reply with fields in the range
      of their types, so that replies survive the wire.
    - Executor: fitting is gradient descent and safe; the implementation with
      the smallest prediction is chosen; a saved model is loaded with the same
      predictions; the program starts from the files of its models; the
      destructor deletes each object once exactly when ownership is unique.
    - ControlMsg, ControlRep, Utils: what ControlMSG serialises is parsed back;
      the generated class implements the abstract message and frees each string
      once; its file is registered once and with the right descriptor; prd prints the
      nearest decimal.
    - Tests: the tests of the moving average pass when the servers serve them.
    - ConcurrentDeque: mutual exclusion, linearizability, no lost wake-up.
    - Defects of the code are theorems too: the conditions under which jobs
      starve and the destructor hangs, erasing end(), connections that never return and servers they
      exhaust, lost wake-ups in the deque and of a waiting handler, a busy time that
      is never initialised, iterators
      that a concurrent push invalidates, the width that is read as one char,
      SJTF's empty resource lists, option prices read past the executor's
      buffer, control messages written into blocks of no bytes, tests that pass
      whatever happens.

    ** Fuel

    Loops whose bound the code does not compute in advance have fuel; the
    theorems give an amount and prove that it is enough.  The kernel's loops
    take one more than the length of the array; the greedy loop of Priority and
    SJTF one more than the window; ManagedMode calls algorithms that do not
    call it, so one level suffices; GenerateTestData makes at most 200 rounds;
    a connection takes one round per request; the loops that wait for a result
    one more than the bytes of the stream; parsing a control message one more
    than its bytes.

    ** Bounds

    The liveness theorems bound the run: at most 2^20 jobs are submitted, so that
    the ids and the sums of scores stay in their types, and clock readings are
    below 2^62 ns, so that differences fit 64 bits and the statistics stay far
    below the range of the conversions to integers.  The constructor of the scheduler
    does not initialise the busy time: what its memory holds is an argument of the
    model, arbitrary in the invariants, between 0 and 2^61 in the liveness
    theorems.  The tests' arrays fit the
    buffer of a connection (192 MiB), which is proved for the four sizes.

    ** Parameters

    Code that is not part of the sources is a parameter: the DFE library
    ([DfeLib]), boost::asio's connection attempt ([network]) and sockets
    ([TcpSocket], pieces in any division), the C library's pow, clock readings
    and measured times, the wire format of the protobuf runtime ([WireFormat],
    with the varint encoding as an instance) and its pool of descriptors
    ([DescriptorPool]), the text of boost's archives
    ([TextArchive]), what the dynamic linker finds ([DynamicLinker]).

    ** Not modelled

    The configuration of boost::log (initLogging), which is calls of that library
    only; what the reflection object of the protobuf runtime does; the
    parsing of the executor's command line (boost::program_options);
    test/AddResource.cpp, which calls a function that exists only in a comment;
    Server.hpp, an interface without code; functions that are declared and not
    defined; connection::handle_write, which nothing calls; the template of
    DynLibFunc::getFunction, whose body is that of the function it overloads; the
    output operator of Job, which prints durations in the format of boost::chrono.
    Handlers in System notice a finished job; Waiting has the wait itself.  Queues are updated
    atomically in System: the operations of a queue are those [Monitor] proves
    linearizable, and IteratorRace shows what is lost for the one operation that
    uses iterators across calls.  Floating point is IEEE round-to-nearest without
    fused operations.  Memory is freed in Ownership and ControlRep
    only. *)

From Stdlib Require Export ZArith Lia Sorting.Sorted.
From stdpp Require Export base numbers strings gmap list.

#[local] Open Scope Z_scope.

(** ** Outcomes of C++ code

    A fallible operation returns an [outcome]: a value, an undefined
    behaviour with the reason, an exception, a thread blocked for ever in the
    state it is in, or a computation that was cut off by its fuel. *)

Inductive ub : Type :=
| NullDeref
| OutOfBounds
| EraseEnd
| EmptyFront
| SignedOverflow
| DivByZero
| BadFloatToInt
| NoReturn
| BadFree        (** an object deleted twice, or one that was never created *)
| Uninitialised  (** a value read before it was written *)
| StaleIterator  (** an iterator used after its container has changed *)
| BadFormat      (** a conversion of printf that does not fit its argument *)
| Dangling.      (** a reference to an object whose lifetime has ended *)

Inductive outcome (A : Type) : Type :=
| Ret (a : A)
| Undef (u : ub)
| Throw (what : string)
| Blocked
| OutOfFuel.

Arguments Ret {A} _.
Arguments Undef {A} _.
Arguments Throw {A} _.
Arguments Blocked {A}.
Arguments OutOfFuel {A}.

#[export] Instance outcome_ret : MRet outcome := @Ret.

#[export] Instance outcome_bind : MBind outcome := λ A B f m,
  match m with
  | Ret a => f a
  | Undef u => Undef u
  | Throw e => Throw e
  | Blocked => Blocked
  | OutOfFuel => OutOfFuel
  end.

#[export] Instance ub_eq_dec : EqDecision ub.
Proof. solve_decision. Defined.

#[export] Instance outcome_eq_dec `{EqDecision A} : EqDecision (outcome A).
Proof. solve_decision. Defined.

Definition is_ret {A} (m : outcome A) : bool :=
  match m with Ret _ => true | _ => false end.

(** Unwraps an optional pointer: dereferencing [nullptr] is undefined. *)
Definition deref {A} (p : option A) : outcome A :=
  match p with Some a => Ret a | None => Undef NullDeref end.

(** ** Machine integers

    A w-bit integer is a [Z] with its wrap-around written out; signed
    arithmetic that leaves its range is undefined. *)

Definition wrap (w z : Z) : Z := z `mod` 2 ^ w.

Definition swrap (w z : Z) : Z :=
  let m := z `mod` 2 ^ w in
  if m <? 2 ^ (w - 1) then m else m - 2 ^ w.

Abbreviation u64 := (wrap 64).
Abbreviation u32 := (wrap 32).
Abbreviation u8 := (wrap 8).
Abbreviation i32 := (swrap 32).
Abbreviation i8 := (swrap 8).

Definition INT_MAX : Z := 2147483647.
Definition INT_MIN : Z := -2147483648.

Definition in_int (z : Z) : bool := (INT_MIN <=? z) && (z <=? INT_MAX).

(** The value of a signed [int] expression whose mathematical value is [z]. *)
Definition int_of (z : Z) : outcome Z :=
  if in_int z then Ret z else Undef SignedOverflow.

(** ** Memory images: little-endian bytes (bytes are [Z] in [0,256)) *)

Fixpoint le_bytes (n : nat) (z : Z) : list Z :=
  match n with
  | O => []
  | S n => z `mod` 256 :: le_bytes n (z / 256)
  end.

Fixpoint le_val (bs : list Z) : Z :=
  match bs with
  | [] => 0
  | b :: bs => b + 256 * le_val bs
  end.

Definition byte_ok (b : Z) : Prop := 0 ≤ b < 256.

(** [slice off n l]: the [n] elements of [l] starting at [off]. *)
Definition slice {A} (off n : nat) (l : list A) : list A := take n (drop off l).

(** ** Tactics *)

Ltac case_match_eqn := case_match; simplify_eq/=.

(** Inverts [x ← m; k = Ret v] hypotheses into the steps that returned. *)
Ltac inv_ret :=
  repeat match goal with
  | H : mbind _ ?m = Ret _ |- _ =>
      let E := fresh "E" in
      destruct m eqn:E; cbn [mbind outcome_bind] in H; try discriminate H
  | H : mret _ = Ret _ |- _ => unfold mret, outcome_ret in H
  | H : Ret _ = Ret _ |- _ => injection H; clear H; intros; subst
  end.

Ltac zbool :=
  repeat match goal with
  | H : (_ <? _)%Z = true |- _ => apply Z.ltb_lt in H
  | H : (_ <? _)%Z = false |- _ => apply Z.ltb_ge in H
  | H : (_ <=? _)%Z = true |- _ => apply Z.leb_le in H
  | H : (_ <=? _)%Z = false |- _ => apply Z.leb_gt in H
  | H : (_ =? _)%Z = true |- _ => apply Z.eqb_eq in H
  | H : (_ =? _)%Z = false |- _ => apply Z.eqb_neq in H
  | H : (_ <? _)%nat = true |- _ => apply Nat.ltb_lt in H
  | H : (_ <? _)%nat = false |- _ => apply Nat.ltb_ge in H
  | H : (_ <=? _)%nat = true |- _ => apply Nat.leb_le in H
  | H : (_ <=? _)%nat = false |- _ => apply Nat.leb_gt in H
  | H : (_ =? _)%nat = true |- _ => apply Nat.eqb_eq in H
  | H : (_ =? _)%nat = false |- _ => apply Nat.eqb_neq in H
  | H : (_ && _)%bool = true |- _ => apply andb_true_iff in H; destruct H
  | H : (_ && _)%bool = false |- _ => apply andb_false_iff in H
  end.

(** Membership in concatenations. *)
Ltac in_app :=
  repeat match goal with
  | H : _ ∈ _ ++ _ |- _ => rewrite !elem_of_app in H
  | H : _ ∈ _ :: _ |- _ => rewrite !elem_of_cons in H
  | H : _ ∉ _ ++ _ |- _ => rewrite !not_elem_of_app in H
  end;
  rewrite ?not_elem_of_app, ?elem_of_app, ?elem_of_cons, ?elem_of_nil;
  intuition congruence.

Create HintDb hydrogen.

(** ** Lemmas on outcomes *)

Lemma bind_ret_inv {A B} (m : outcome A) (k : A → outcome B) b :
  m ≫= k = Ret b → ∃ a, m = Ret a ∧ k a = Ret b.
Proof. destruct m; cbn; eauto; discriminate. Qed.

Lemma is_ret_true {A} (m : outcome A) : is_ret m = true ↔ ∃ a, m = Ret a.
Proof. split; [destruct m; cbn; eauto; discriminate | by intros [a ->]]. Qed.

Lemma mapM_ret {A B} (f : A → outcome B) (Q : A → B → Prop) l :
  Forall (λ a, ∃ b, f a = Ret b ∧ Q a b) l → ∃ k, mapM f l = Ret k ∧ Forall2 Q l k.
Proof.
  induction 1 as [|a l (b & Hb & HQ) _ (k & Hk & HQs)]; [by exists []|].
  exists (b :: k). split; [|by constructor].
  change (mapM f (a :: l)) with (x ← f a; k ← mapM f l; mret (x :: k)).
  by rewrite Hb, Hk.
Qed.

Lemma mapM_ret_inv {A B} (f : A → outcome B) l k :
  mapM f l = Ret k → Forall2 (λ a b, f a = Ret b) l k.
Proof.
  revert k. induction l as [|a l IH]; intros k.
  - intros H. injection H as <-. constructor.
  - change (mapM f (a :: l)) with (x ← f a; k ← mapM f l; mret (x :: k)).
    destruct (f a) as [b| | | |] eqn:Ea; try done. cbn [mbind outcome_bind].
    destruct (mapM f l) as [k'| | | |]; try done. cbn [mbind outcome_bind].
    intros H. injection H as <-. constructor; auto.
Qed.

Lemma int_of_in z : INT_MIN ≤ z ≤ INT_MAX → int_of z = Ret z.
Proof.
  intros H. unfold int_of, in_int.
  rewrite (proj2 (Z.leb_le _ _)) by lia. rewrite (proj2 (Z.leb_le _ _)) by lia. done.
Qed.

Lemma int_of_inv z v : int_of z = Ret v → v = z ∧ INT_MIN ≤ z ≤ INT_MAX.
Proof. unfold int_of, in_int. case_match; intros; simplify_eq; zbool; lia. Qed.

(** ** Lemmas on machine integers *)

Lemma wrap_range w z : 0 ≤ w → 0 ≤ wrap w z < 2 ^ w.
Proof. intros. apply Z.mod_pos_bound. lia. Qed.

Lemma wrap_small w z : 0 ≤ z < 2 ^ w → wrap w z = z.
Proof. apply Z.mod_small. Qed.

Lemma swrap_small w z :
  0 < w → - 2 ^ (w - 1) ≤ z < 2 ^ (w - 1) → swrap w z = z.
Proof.
  intros Hw Hz. unfold swrap.
  assert (2 ^ w = 2 * 2 ^ (w - 1)) as E.
  { rewrite <-Z.pow_succ_r by lia. f_equal. lia. }
  destruct (decide (0 ≤ z)).
  - rewrite Z.mod_small by lia. rewrite (proj2 (Z.ltb_lt _ _)) by lia. done.
  - rewrite <-(Z.mod_unique z (2 ^ w) (-1) (z + 2 ^ w)) by lia.
    rewrite (proj2 (Z.ltb_ge _ _)) by lia. lia.
Qed.

Lemma swrap_range w z : 0 < w → - 2 ^ (w - 1) ≤ swrap w z < 2 ^ (w - 1).
Proof.
  intros Hw. unfold swrap.
  assert (2 ^ w = 2 * 2 ^ (w - 1)) as E.
  { rewrite <-Z.pow_succ_r by lia. f_equal. lia. }
  pose proof (Z.mod_pos_bound z (2 ^ w) ltac:(lia)).
  case_match; zbool; lia.
Qed.

Lemma swrap_wrap w z : 0 ≤ w → swrap w (wrap w z) = swrap w z.
Proof. intros. unfold swrap, wrap. rewrite Z.mod_mod by lia. done. Qed.

(** ** Lemmas on memory images *)

Lemma length_le_bytes n z : length (le_bytes n z) = n.
Proof. revert z; induction n; simpl; intros; auto. Qed.

Lemma le_bytes_ok n z : Forall byte_ok (le_bytes n z).
Proof.
  revert z; induction n; simpl; intros; constructor; auto.
  unfold byte_ok. apply Z.mod_pos_bound. lia.
Qed.

Lemma le_val_le_bytes n z : le_val (le_bytes n z) = wrap (8 * Z.of_nat n) z.
Proof.
  unfold wrap. revert z; induction n as [|n IH]; intros z.
  - simpl. rewrite Z.mod_1_r. done.
  - cbn [le_bytes le_val]. rewrite IH, Nat2Z.inj_succ.
    replace (8 * Z.succ (Z.of_nat n)) with (8 + 8 * Z.of_nat n) by lia.
    rewrite Z.pow_add_r by lia. change (2 ^ 8) with 256.
    rewrite Z.rem_mul_r by lia. lia.
Qed.

Lemma le_val_range bs :
  Forall byte_ok bs → 0 ≤ le_val bs < 2 ^ (8 * Z.of_nat (length bs)).
Proof.
  induction 1 as [|b bs Hb _ IH]; [simpl; lia|].
  cbn [le_val length]. rewrite Nat2Z.inj_succ.
  replace (8 * Z.succ (Z.of_nat (length bs))) with (8 + 8 * Z.of_nat (length bs)) by lia.
  rewrite Z.pow_add_r by lia. change (2 ^ 8) with 256. unfold byte_ok in Hb. nia.
Qed.

Lemma le_bytes_le_val bs : Forall byte_ok bs → le_bytes (length bs) (le_val bs) = bs.
Proof.
  induction 1 as [|b bs Hb _ IH]; [done|].
  cbn [length le_bytes le_val]. unfold byte_ok in Hb. f_equal.
  - rewrite Z.mul_comm, Z.mod_add by lia. rewrite Z.mod_small; lia.
  - rewrite Z.mul_comm, Z.div_add by lia. rewrite Z.div_small by lia. done.
Qed.

#[global] Arguments le_bytes : simpl never.
#[global] Arguments le_val : simpl never.

(** ** Lemmas on lists *)

Lemma slice_app_skip {A} (l1 l2 : list A) off n :
  off = length l1 → slice off n (l1 ++ l2) = take n l2.
Proof. intros ->. unfold slice. rewrite drop_app_length. done. Qed.

Lemma length_slice {A} off n (l : list A) :
  (off + n ≤ length l)%nat → length (slice off n l) = n.
Proof. intros. unfold slice. rewrite length_take, length_drop. lia. Qed.

Lemma Forall_slice {A} (P : A → Prop) off n l :
  Forall P l → Forall P (slice off n l).
Proof. intros. apply Forall_take, Forall_drop. done. Qed.

Lemma NoDup_app_comm_perm {A} (l1 l2 : list A) :
  NoDup (l1 ++ l2) → NoDup (l2 ++ l1).
Proof. intros H. by rewrite Permutation_app_comm. Qed.

Lemma list_snoc_inv {A} (l : list A) n :
  length l = S n → ∃ l' x, l = l' ++ [x] ∧ length l' = n.
Proof.
  intros H. destruct l as [|x l _] using rev_ind; [done|].
  exists l, x. split; [done|]. rewrite length_app in H. simpl in H. lia.
Qed.

Lemma StronglySorted_weaken {A} (P : A → Prop) (R S : A → A → Prop) l :
  (∀ x y, P x → P y → R x y → S x y) → Forall P l → StronglySorted R l → StronglySorted S l.
Proof.
  intros HRS HP Hs. induction Hs as [|x l Hs IH Hf]; constructor.
  - apply IH. by inversion HP.
  - apply Forall_cons in HP as [Hx Hl]. rewrite Forall_forall in Hf, Hl |- *. auto.
Qed.

#[export] Hint Resolve le_bytes_ok : hydrogen.
Create Rewrite HintDb hlen.
#[export] Hint Rewrite @length_app @length_rev @length_take @length_drop length_le_bytes
  @length_reverse @length_replicate @length_fmap : hlen.
