(* ===== verification/CxxFloat.v ===== *)
(** * C++ [float] and [double]

    IEEE-754 binary32 and binary64 with round-to-nearest-even, as the
    executable specification of the Standard Library ([SpecFloat]) defines
    them, and the conversions the sources use: integer to float, double to
    float, float to [int] (truncation, undefined outside the range of [int]).
    Durations of boost::chrono with a [double] representation are binary64
    numbers of seconds; [bc::milliseconds] and the clock's nanoseconds are
    converted to them by one division, as duration_cast does. *)

From S2P Require Import Prelude.
From Stdlib Require Export SpecFloat.

#[local] Open Scope Z_scope.

(** ** Formats *)

Abbreviation float32 := spec_float.
Abbreviation float64 := spec_float.

Definition f32_prec : Z := 24.
Definition f32_emax : Z := 128.
Definition f64_prec : Z := 53.
Definition f64_emax : Z := 1024.

Definition f32_add : float32 → float32 → float32 := SFadd f32_prec f32_emax.
Definition f32_div : float32 → float32 → float32 := SFdiv f32_prec f32_emax.
Definition f64_add : float64 → float64 → float64 := SFadd f64_prec f64_emax.
Definition f64_sub : float64 → float64 → float64 := SFsub f64_prec f64_emax.
Definition f64_mul : float64 → float64 → float64 := SFmul f64_prec f64_emax.
Definition f64_div : float64 → float64 → float64 := SFdiv f64_prec f64_emax.

Definition f_zero : spec_float := S754_zero false.

(** Integer to floating point, rounded to nearest even. *)
Definition f32_of_Z (z : Z) : float32 := binary_normalize f32_prec f32_emax z 0 false.
Definition f64_of_Z (z : Z) : float64 := binary_normalize f64_prec f64_emax z 0 false.

(** [(float)x] for a [double] x. *)
Definition f32_of_f64 (x : float64) : float32 :=
  match x with
  | S754_finite s m e => binary_normalize f32_prec f32_emax (cond_Zopp s (Zpos m)) e s
  | _ => x
  end.

(** Truncation towards zero; infinities and NaN have no integral part. *)
Definition trunc (x : spec_float) : option Z :=
  match x with
  | S754_zero _ => Some 0
  | S754_finite s m e =>
      Some (cond_Zopp s (if e <? 0 then Zpos m / 2 ^ (- e) else Zpos m * 2 ^ e))
  | _ => None
  end.

(** Conversion of a floating-point number to [int]. *)
Definition int_of_float (x : spec_float) : outcome Z :=
  match trunc x with
  | Some z => if in_int z then Ret z else Undef BadFloatToInt
  | None => Undef BadFloatToInt
  end.

(** Durations in seconds. *)
Definition seconds_of_millis (ms : Z) : float64 := f64_div (f64_of_Z ms) (f64_of_Z 1000).
Definition seconds_of_nanos (ns : Z) : float64 := f64_div (f64_of_Z ns) (f64_of_Z 1000000000).

Definition is_nan (x : spec_float) : bool :=
  match x with S754_nan => true | _ => false end.

(** ** The order on floats *)

(** Rank of a non-NaN float in the order [SFcompare] decides: sign class,
    then exponent and mantissa (reversed for negative numbers). *)
Definition frank (x : spec_float) : Z * Z * Z :=
  match x with
  | S754_infinity true => (-2, 0, 0)
  | S754_finite true m e => (-1, - e, Zneg m)
  | S754_zero _ => (0, 0, 0)
  | S754_finite false m e => (1, e, Zpos m)
  | S754_infinity false => (2, 0, 0)
  | S754_nan => (0, 0, 0)
  end.

Definition rank_le (a b : Z * Z * Z) : Prop :=
  let '(a1, a2, a3) := a in let '(b1, b2, b3) := b in
  a1 < b1 ∨ (a1 = b1 ∧ (a2 < b2 ∨ (a2 = b2 ∧ a3 ≤ b3))).

Lemma SFleb_rank x y :
  is_nan x = false → is_nan y = false → SFleb x y = true ↔ rank_le (frank x) (frank y).
Proof.
  unfold SFleb, rank_le.
  destruct x as [|[]| |[] mx ex], y as [|[]| |[] my ey]; cbn; try discriminate; intros _ _;
    try (split; [done || lia | done || lia]).
  all: try (destruct (Z.compare_spec ex ey) as [E|E|E];
    change (Pos.compare_cont Eq mx my) with (Pos.compare mx my);
    try (destruct (Pos.compare_spec mx my); subst); cbn; split; try done; try lia).
Qed.

Lemma SFltb_rank x y :
  is_nan x = false → is_nan y = false → SFltb x y = true ↔ ¬ rank_le (frank y) (frank x).
Proof.
  unfold SFltb, rank_le.
  destruct x as [|[]| |[] mx ex], y as [|[]| |[] my ey]; cbn; try discriminate; intros _ _;
    try (split; [done || lia | done || lia]).
  all: try (destruct (Z.compare_spec ex ey) as [E|E|E];
    change (Pos.compare_cont Eq mx my) with (Pos.compare mx my);
    try (destruct (Pos.compare_spec mx my); subst); cbn; split; try done; try lia).
Qed.

Lemma SFleb_nan_l x y : SFleb x y = true → is_nan x = false.
Proof. destruct x; done. Qed.

Lemma SFleb_nan_r x y : SFleb x y = true → is_nan y = false.
Proof. destruct x as [|[]| |], y; done. Qed.

Lemma SFleb_refl x : is_nan x = false → SFleb x x = true.
Proof. intros H. apply SFleb_rank; auto. destruct (frank x) as [[??]?]. cbn. lia. Qed.

Lemma SFleb_trans x y z : SFleb x y = true → SFleb y z = true → SFleb x z = true.
Proof.
  intros Hxy Hyz.
  pose proof (SFleb_nan_l _ _ Hxy). pose proof (SFleb_nan_r _ _ Hxy).
  pose proof (SFleb_nan_r _ _ Hyz).
  apply SFleb_rank in Hxy, Hyz; auto. apply SFleb_rank; auto.
  destruct (frank x) as [[??]?], (frank y) as [[??]?], (frank z) as [[??]?]. cbn in *. lia.
Qed.

Lemma SFltb_negb_SFleb x y :
  is_nan x = false → is_nan y = false → SFltb x y = negb (SFleb y x).
Proof.
  intros. destruct (SFleb y x) eqn:E; cbn.
  - apply SFleb_rank in E; auto. destruct (SFltb x y) eqn:E'; auto.
    apply SFltb_rank in E'; auto. done.
  - apply SFltb_rank; auto. intros H'. apply SFleb_rank in H'; auto. congruence.
Qed.

Lemma SFleb_total x y :
  is_nan x = false → is_nan y = false → SFleb x y = true ∨ SFleb y x = true.
Proof.
  intros Hx Hy. destruct (SFleb x y) eqn:E; [by left|right].
  apply SFleb_rank; auto. assert (¬ rank_le (frank x) (frank y)) as N.
  { intros N. apply SFleb_rank in N; auto. congruence. }
  destruct (frank x) as [[??]?], (frank y) as [[??]?]. cbn in *. lia.
Qed.
