(* ===== verification/FloatRound.v ===== *)
(** * Rounding of the IEEE operations

    What the executable operations of [SpecFloat] guarantee for non-negative
    arguments, without real numbers: a valid non-negative float has an integer
    value in units of the smallest subnormal, the order on floats is the order
    on these values, and rounding is monotone: it stays between two floats that
    bound the exact result. *)

From S2P Require Import Prelude CxxFloat.

#[local] Open Scope Z_scope.

Section rounding.
Context (prec emax : Z) (Hprec : 1 < prec) (Hemax : prec < emax).

Abbreviation emin := (emin prec emax).
Abbreviation fexp := (fexp prec emax).

(** ** Digits *)

Lemma digits2_pos_bounds m :
  2 ^ (Zpos (digits2_pos m) - 1) ≤ Zpos m < 2 ^ Zpos (digits2_pos m).
Proof.
  induction m as [m IH|m IH|]; cbn [digits2_pos]; rewrite ?Pos2Z.inj_succ; [| |simpl; lia];
    replace (Z.succ (Zpos (digits2_pos m)) - 1) with (Zpos (digits2_pos m)) by lia;
    rewrite Z.pow_succ_r by lia;
    replace (2 ^ Zpos (digits2_pos m)) with (2 * 2 ^ (Zpos (digits2_pos m) - 1)) in *
      by (rewrite <-Z.pow_succ_r by lia; f_equal; lia); lia.
Qed.

Lemma Zdigits2_bounds m : 0 < m → 2 ^ (Zdigits2 m - 1) ≤ m < 2 ^ Zdigits2 m.
Proof. intros. destruct m; try lia. apply digits2_pos_bounds. Qed.

Lemma Zdigits2_nonneg m : 0 ≤ Zdigits2 m.
Proof. destruct m; simpl; lia. Qed.

Lemma Zdigits2_pos m : 0 < m → 0 < Zdigits2 m.
Proof. destruct m; simpl; lia. Qed.

Lemma Zdigits2_unique m d : 0 < m → 2 ^ (d - 1) ≤ m < 2 ^ d → Zdigits2 m = d.
Proof.
  intros Hm Hd. pose proof (Zdigits2_bounds m Hm).
  assert (Zdigits2 m - 1 < d).
  { destruct (decide (0 ≤ d)); [|rewrite (Z.pow_neg_r 2 d) in Hd by lia; lia].
    apply (Z.pow_lt_mono_r_iff 2); lia. }
  assert (d - 1 < Zdigits2 m).
  { apply (Z.pow_lt_mono_r_iff 2); [lia| |lia]. pose proof (Zdigits2_nonneg m). lia. }
  lia.
Qed.

Lemma Zdigits2_le m d : 0 ≤ m < 2 ^ d → 0 ≤ d → Zdigits2 m ≤ d.
Proof.
  intros Hm Hd. destruct (decide (m = 0)) as [->|]; [done|].
  pose proof (Zdigits2_bounds m ltac:(lia)).
  assert (Zdigits2 m - 1 < d); [|lia]. apply (Z.pow_lt_mono_r_iff 2); lia.
Qed.

(** ** Shifting right with a sticky bit *)

Definition srexact (r : shr_record) : bool := negb (shr_r r) && negb (shr_s r).

Lemma shr_1_spec r :
  0 ≤ shr_m r →
  shr_m (shr_1 r) = shr_m r / 2 ∧
  (srexact (shr_1 r) = true ↔ srexact r = true ∧ shr_m r = shr_m (shr_1 r) * 2).
Proof.
  destruct r as [m rr s]. unfold srexact. cbn [shr_m]. intros Hm.
  destruct m as [|[p|p|]|p]; try lia; cbn [shr_1 shr_m shr_r shr_s].
  - split; [done|]. destruct rr, s; cbn; split; try done; by intros [].
  - split; [apply (Z.div_unique _ _ _ 1); lia|]. cbn.
    split; [done|]. intros [_ H]. lia.
  - split; [apply (Z.div_unique _ _ _ 0); lia|]. destruct rr, s; cbn; split; try done; try lia;
      try (by intros []); intros; split; try done; lia.
  - split; [done|]. cbn. split; [done|]. intros [_ H]. lia.
Qed.

Lemma iter_shr_spec p r :
  0 ≤ shr_m r →
  shr_m (iter_pos shr_1 p r) = shr_m r / 2 ^ Zpos p ∧
  (srexact (iter_pos shr_1 p r) = true ↔
   srexact r = true ∧ shr_m r = shr_m (iter_pos shr_1 p r) * 2 ^ Zpos p).
Proof.
  assert (Hcomp : ∀ (f g : shr_record → shr_record) (a b : Z), 0 ≤ a → 0 ≤ b →
    (∀ r, 0 ≤ shr_m r → shr_m (f r) = shr_m r / 2 ^ a ∧
       (srexact (f r) = true ↔ srexact r = true ∧ shr_m r = shr_m (f r) * 2 ^ a)) →
    (∀ r, 0 ≤ shr_m r → shr_m (g r) = shr_m r / 2 ^ b ∧
       (srexact (g r) = true ↔ srexact r = true ∧ shr_m r = shr_m (g r) * 2 ^ b)) →
    ∀ r, 0 ≤ shr_m r → shr_m (g (f r)) = shr_m r / 2 ^ (a + b) ∧
       (srexact (g (f r)) = true ↔
        srexact r = true ∧ shr_m r = shr_m (g (f r)) * 2 ^ (a + b))).
  { intros f g a b Ha Hb Hf Hg x Hx. destruct (Hf x Hx) as [Ef Xf].
    assert (0 ≤ shr_m (f x)) as Hfx by (rewrite Ef; apply Z.div_pos; lia).
    destruct (Hg (f x) Hfx) as [Eg Xg].
    rewrite Z.pow_add_r by lia. split.
    - rewrite Eg, Ef, Z.div_div by lia. done.
    - rewrite Xg, Xf. split; [intros ([? E1] & E2); split; [done|lia]|].
      intros [? E]. pose proof (Z.pow_pos_nonneg 2 a ltac:(lia) Ha).
      assert (shr_m x = shr_m (g (f x)) * 2 ^ b * 2 ^ a) as E' by lia.
      assert (shr_m (f x) = shr_m (g (f x)) * 2 ^ b) as E2.
      { rewrite Ef, E'. apply Z.div_mul. lia. }
      split_and!; auto. rewrite E2. exact E'. }
  revert r. induction p as [p IH|p IH|]; intros r Hr; cbn [iter_pos].
  - replace (Zpos p~1) with (1 + (Zpos p + Zpos p)) by lia.
    apply (Hcomp shr_1 (λ x, iter_pos shr_1 p (iter_pos shr_1 p x))); try lia; auto.
    + exact shr_1_spec.
    + apply Hcomp; try lia; auto.
  - replace (Zpos p~0) with (Zpos p + Zpos p) by lia. apply Hcomp; try lia; auto.
  - exact (shr_1_spec r Hr).
Qed.

Lemma shr_fexp_spec mx ex lx :
  0 ≤ mx → ex ≤ fexp (Zdigits2 mx + ex) →
  ∃ r, shr_fexp prec emax mx ex lx = (r, fexp (Zdigits2 mx + ex)) ∧
    shr_m r = mx / 2 ^ (fexp (Zdigits2 mx + ex) - ex) ∧
    (srexact r = true ↔ lx = loc_Exact ∧ mx = shr_m r * 2 ^ (fexp (Zdigits2 mx + ex) - ex)).
Proof.
  intros Hm He. unfold shr_fexp, shr.
  assert (shr_m (shr_record_of_loc mx lx) = mx) as Em by (by destruct lx as [|[]]).
  assert (srexact (shr_record_of_loc mx lx) = true ↔ lx = loc_Exact) as Ex
    by (destruct lx as [|[]]; cbn; split; done).
  destruct (fexp (Zdigits2 mx + ex) - ex) as [|p|p] eqn:Ek; [| |lia].
  - eexists. split; [f_equal; lia|]. rewrite Em, Ex. rewrite Z.pow_0_r, Z.div_1_r.
    split; [done|]. split; [intros ->; split; [done|lia]|by intros []].
  - destruct (iter_shr_spec p (shr_record_of_loc mx lx)) as [H1 H2]; [by rewrite Em|].
    eexists. split; [f_equal; lia|]. rewrite H2, H1, Ex, Em. done.
Qed.

(** ** Valid floats and their values *)

Lemma bounded_spec m e :
  bounded prec emax m e = true ↔
  e ≤ emax - prec ∧ emin ≤ e ∧ Zpos m < 2 ^ prec ∧ (emin < e → 2 ^ (prec - 1) ≤ Zpos m).
Proof.
  unfold bounded, canonical_mantissa, SpecFloat.fexp. rewrite andb_true_iff, Z.eqb_eq, Z.leb_le.
  pose proof (digits2_pos_bounds m) as Hd. set (d := Zpos (digits2_pos m)) in *. split.
  - intros [H1 H2]. assert (d ≤ prec) by lia.
    split_and!; [lia|lia| |].
    + pose proof (Z.pow_le_mono_r 2 d prec ltac:(lia) ltac:(lia)). lia.
    + intros. replace d with prec in Hd by lia. lia.
  - intros (H1 & H2 & H3 & H4). split; [|done].
    assert (d ≤ prec).
    { assert (d - 1 < prec); [|lia]. apply (Z.pow_lt_mono_r_iff 2); lia. }
    destruct (decide (emin < e)) as [Hl|]; [|lia].
    specialize (H4 Hl). assert (prec - 1 < d); [|lia].
    apply (Z.pow_lt_mono_r_iff 2); lia.
Qed.

(** Valid, finite and not negative. *)
Definition nn (x : spec_float) : bool :=
  match x with
  | S754_zero _ => true
  | S754_finite false m e => bounded prec emax m e
  | _ => false
  end.

(** The value in units of [2 ^ b]. *)
Definition val (b : Z) (x : spec_float) : Z :=
  match x with
  | S754_finite false m e => Zpos m * 2 ^ (e - b)
  | _ => 0
  end.

Lemma val_nonneg b x : 0 ≤ val b x.
Proof.
  destruct x as [| | |[] m e]; simpl; try done.
  destruct (decide (0 ≤ e - b)); [|rewrite Z.pow_neg_r; lia].
  pose proof (Z.pow_pos_nonneg 2 (e - b)). lia.
Qed.

Lemma val_scale b c x : c ≤ b → b ≤ emin → nn x = true → val c x = val b x * 2 ^ (b - c).
Proof.
  intros Hc Hb. destruct x as [| | |[] m e]; simpl; try lia; try done.
  rewrite bounded_spec. intros (_ & He & _).
  rewrite <-Z.mul_assoc, <-Z.pow_add_r by lia. do 2 f_equal. lia.
Qed.

Lemma pow_gt0 a : 0 ≤ a → 0 < 2 ^ a.
Proof. intros. apply Z.pow_pos_nonneg; lia. Qed.

(** A float with a larger exponent has a larger value. *)
Lemma val_lt_exp b m1 e1 m2 e2 :
  b ≤ emin → emin ≤ e1 → Zpos m1 < 2 ^ prec → e1 < e2 → 2 ^ (prec - 1) ≤ Zpos m2 →
  Zpos m1 * 2 ^ (e1 - b) < Zpos m2 * 2 ^ (e2 - b).
Proof.
  intros Hb He1 Hm1 He Hm2.
  replace (e2 - b) with (1 + (e2 - e1 - 1) + (e1 - b)) by lia.
  rewrite !Z.pow_add_r by lia. pose proof (pow_gt0 (e1 - b) ltac:(lia)).
  pose proof (pow_gt0 (e2 - e1 - 1) ltac:(lia)).
  assert (2 ^ prec = 2 * 2 ^ (prec - 1)) as E.
  { rewrite <-Z.pow_succ_r by lia. f_equal. lia. }
  assert (Zpos m1 < Zpos m2 * (2 ^ 1 * 2 ^ (e2 - e1 - 1))); nia.
Qed.

Lemma SFleb_val x y :
  nn x = true → nn y = true → SFleb x y = true ↔ val emin x ≤ val emin y.
Proof.
  intros Hx Hy. assert (is_nan x = false) by (by destruct x).
  assert (is_nan y = false) by (by destruct y). rewrite SFleb_rank by done.
  destruct x as [| | |[] mx ex], y as [| | |[] my ey]; simpl in *; try done.
  - split; lia.
  - apply bounded_spec in Hy as (_ & Hy & _). pose proof (pow_gt0 (ey - emin) ltac:(lia)).
    split; [lia|intros; lia].
  - apply bounded_spec in Hx as (_ & Hx & _). pose proof (pow_gt0 (ex - emin) ltac:(lia)).
    split; [lia|nia].
  - apply bounded_spec in Hx as (Hx1 & Hx2 & Hx3 & Hx4), Hy as (Hy1 & Hy2 & Hy3 & Hy4).
    destruct (Z.lt_trichotomy ex ey) as [He|[->|He]].
    + pose proof (val_lt_exp emin mx ex my ey ltac:(lia) Hx2 Hx3 He ltac:(apply Hy4; lia)). lia.
    + pose proof (pow_gt0 (ey - emin) ltac:(lia)). split; [intros; nia|]. intros.
      right. split; [done|]. right. split; [done|]. nia.
    + pose proof (val_lt_exp emin my ey mx ex ltac:(lia) Hy2 Hy3 He ltac:(apply Hx4; lia)). lia.
Qed.

(** ** Rounding *)

(** The last part of [binary_round_aux]: renormalization and overflow. *)
Definition finish (sx : bool) (m e : Z) : spec_float :=
  if m =? 0 then S754_zero sx else
  let '(m, e) := if m =? 2 ^ prec then (2 ^ (prec - 1), e + 1) else (m, e) in
  if e <=? emax - prec then S754_finite sx (Z.to_pos m) e else S754_infinity sx.

Lemma round_even_cases m l :
  round_nearest_even m l = m ∨ (l ≠ loc_Exact ∧ round_nearest_even m l = m + 1).
Proof. destruct l as [|[]]; simpl; auto; try (by right). by destruct (Z.even m); [left|right]. Qed.

(** The second shift of [binary_round_aux] only renormalizes a mantissa that
    rounding made a power of two. *)
Lemma renormalize sx m2 e1 :
  0 ≤ m2 ≤ 2 ^ prec → emin ≤ e1 →
  (let '(r, e) := shr_fexp prec emax m2 e1 loc_Exact in
   match shr_m r with
   | Z0 => S754_zero sx
   | Zpos m => if Z.leb e (emax - prec) then S754_finite sx m e else S754_infinity sx
   | _ => S754_nan
   end) = finish sx m2 e1.
Proof.
  intros Hm2 He1. unfold finish. destruct (Z.eqb_spec m2 0) as [->|Hne].
  { unfold shr_fexp, shr. simpl Zdigits2.
    destruct (fexp (0 + e1) - e1) eqn:E; try done. unfold SpecFloat.fexp in E. lia. }
  destruct (Z.eqb_spec m2 (2 ^ prec)) as [->|Hne2].
  - assert (Zdigits2 (2 ^ prec) = prec + 1) as Hd.
    { apply Zdigits2_unique; [apply pow_gt0; lia|].
      replace (prec + 1 - 1) with prec by lia.
      pose proof (Z.pow_lt_mono_r 2 prec (prec + 1)). lia. }
    destruct (shr_fexp_spec (2 ^ prec) e1 loc_Exact) as (r2 & -> & Hm3 & _).
    { lia. }
    { rewrite Hd. unfold SpecFloat.fexp. lia. }
    rewrite Hd in *. replace (fexp (prec + 1 + e1)) with (e1 + 1) in *
      by (unfold SpecFloat.fexp; lia).
    rewrite Hm3. replace (e1 + 1 - e1) with 1 by lia.
    replace (2 ^ prec / 2 ^ 1) with (2 ^ (prec - 1))
      by (rewrite <-Z.pow_sub_r by lia; done).
    pose proof (pow_gt0 (prec - 1) ltac:(lia)).
    destruct (2 ^ (prec - 1)) eqn:E; try lia. done.
  - assert (Zdigits2 m2 ≤ prec) by (apply Zdigits2_le; lia).
    assert (shr_fexp prec emax m2 e1 loc_Exact = (Build_shr_record m2 false false, e1)) as ->.
    { unfold shr_fexp, shr, SpecFloat.fexp. simpl shr_record_of_loc.
      destruct (_ - e1) eqn:E; try done. lia. }
    simpl. destruct m2; try lia. done.
Qed.

Lemma round_core mx ex lx :
  0 ≤ mx → ex ≤ fexp (Zdigits2 mx + ex) →
  ∃ m1 m2 e1, ex ≤ e1 ∧ emin ≤ e1 ∧
    0 ≤ m1 ∧ m1 * 2 ^ (e1 - ex) ≤ mx < (m1 + 1) * 2 ^ (e1 - ex) ∧
    m1 < 2 ^ prec ∧ (emin < e1 → 2 ^ (prec - 1) ≤ m1) ∧
    (m2 = m1 ∨ (m2 = m1 + 1 ∧ ¬ (lx = loc_Exact ∧ mx = m1 * 2 ^ (e1 - ex)))) ∧
    ∀ sx, binary_round_aux prec emax sx mx ex lx = finish sx m2 e1.
Proof.
  intros Hm He. destruct (shr_fexp_spec mx ex lx Hm He) as (r & Hr & Hrm & Hrx).
  set (e1 := fexp (Zdigits2 mx + ex)) in *. set (k := e1 - ex) in *.
  assert (Hpk : 0 < 2 ^ k) by (apply pow_gt0; lia).
  assert (Hdiv : mx / 2 ^ k * 2 ^ k ≤ mx < (mx / 2 ^ k + 1) * 2 ^ k).
  { pose proof (Z.div_mod mx (2 ^ k)). pose proof (Z.mod_pos_bound mx (2 ^ k)). nia. }
  assert (H1 : mx / 2 ^ k < 2 ^ prec).
  { apply Z.div_lt_upper_bound; [done|]. rewrite <-Z.pow_add_r by lia.
    destruct (decide (mx = 0)) as [->|]; [apply pow_gt0; lia|].
    pose proof (Zdigits2_bounds mx ltac:(lia)).
    assert (Zdigits2 mx ≤ k + prec) by (unfold k, e1, SpecFloat.fexp; lia).
    pose proof (Z.pow_le_mono_r 2 (Zdigits2 mx) (k + prec) ltac:(lia) ltac:(lia)). lia. }
  assert (H2 : emin < e1 → 2 ^ (prec - 1) ≤ mx / 2 ^ k).
  { intros Hl. apply Z.div_le_lower_bound; [done|]. rewrite <-Z.pow_add_r by lia.
    destruct (decide (mx = 0)) as [->|].
    { exfalso. unfold e1, SpecFloat.fexp in *. simpl in *. lia. }
    pose proof (Zdigits2_bounds mx ltac:(lia)).
    replace (k + (prec - 1)) with (Zdigits2 mx - 1); [lia|].
    unfold k, e1, SpecFloat.fexp in *. lia. }
  exists (mx / 2 ^ k), (round_nearest_even (mx / 2 ^ k) (loc_of_shr_record r)), e1.
  change (e1 - ex) with k. split_and!; try lia; auto.
  - unfold e1, SpecFloat.fexp. lia.
  - apply Z.div_pos; lia.
  - destruct (round_even_cases (mx / 2 ^ k) (loc_of_shr_record r)) as [H|[Hx H]]; [by left|].
    right. split; [done|]. intros Hex. rewrite <-Hrm in Hex. apply Hrx in Hex.
    destruct r as [? [] []]; done.
  - intros sx. unfold binary_round_aux. rewrite Hr, Hrm. apply renormalize.
    + pose proof (Z.div_pos mx (2 ^ k)).
      destruct (round_even_cases (mx / 2 ^ k) (loc_of_shr_record r)) as [->|[_ ->]]; lia.
    + unfold e1, SpecFloat.fexp. lia.
Qed.

(** What [finish] returns for a rounded mantissa. *)
Lemma finish_val b m e :
  b ≤ emin → emin ≤ e → 0 ≤ m ≤ 2 ^ prec → (emin < e → 2 ^ (prec - 1) ≤ m) →
  (nn (finish false m e) = true ∧ val b (finish false m e) = m * 2 ^ (e - b)) ∨
  (finish false m e = S754_infinity false ∧
   ∀ z, nn z = true → val b z < m * 2 ^ (e - b)).
Proof.
  intros Hb He Hm Hn. unfold finish. destruct (Z.eqb_spec m 0) as [->|Hne]; [left; by split|].
  assert (Hp : 2 ^ prec = 2 * 2 ^ (prec - 1)).
  { rewrite <-Z.pow_succ_r by lia. f_equal. lia. }
  pose proof (pow_gt0 (prec - 1) ltac:(lia)).
  set (me := if m =? 2 ^ prec then (2 ^ (prec - 1), e + 1) else (m, e)).
  assert (∃ m' e', me = (m', e') ∧ emin ≤ e' ∧ 0 < m' < 2 ^ prec ∧
    (emin < e' → 2 ^ (prec - 1) ≤ m') ∧ m' * 2 ^ (e' - b) = m * 2 ^ (e - b))
    as (m' & e' & -> & He' & Hm' & Hn' & Hv).
  { unfold me. destruct (Z.eqb_spec m (2 ^ prec)) as [->|].
    - do 2 eexists. split_and!; [done|lia|lia|lia|lia|].
      replace (e + 1 - b) with (1 + (e - b)) by lia. rewrite Z.pow_add_r by lia. lia.
    - do 2 eexists. split_and!; try done; lia. }
  destruct (Z.leb_spec e' (emax - prec)); [left|right].
  - split; simpl; [|rewrite Z2Pos.id by lia; done].
    apply bounded_spec. rewrite Z2Pos.id by lia. lia.
  - split; [done|]. intros z Hz. rewrite <-Hv.
    pose proof (pow_gt0 (e' - b) ltac:(lia)).
    destruct z as [| | |[] mz ez]; simpl in *; try done; [lia|].
    apply bounded_spec in Hz as (Hz1 & Hz2 & Hz3 & _).
    rewrite <-(Z2Pos.id m') by lia. apply val_lt_exp; try lia.
    all: rewrite Z2Pos.id by lia; apply Hn'; unfold SpecFloat.emin; lia.
Qed.

Definition loc_up (l : location) : Z := match l with loc_Exact => 0 | _ => 1 end.

(** Rounding stays between the floats that bound the exact value. *)
Lemma round_bounds b mx ex lx :
  0 ≤ mx → ex ≤ fexp (Zdigits2 mx + ex) → b ≤ ex → b ≤ emin →
  let r := binary_round_aux prec emax false mx ex lx in
  (r = S754_infinity false ∨ nn r = true) ∧
  (∀ z, nn z = true → val b z ≤ mx * 2 ^ (ex - b) →
     r = S754_infinity false ∨ val b z ≤ val b r) ∧
  (∀ z, nn z = true → (mx + loc_up lx) * 2 ^ (ex - b) ≤ val b z →
     nn r = true ∧ val b r ≤ val b z).
Proof.
  intros Hm He Hbx Hb r.
  destruct (round_core mx ex lx Hm He) as (m1 & m2 & e1 & Hxe & Hee & Hm1 & Hdiv & Hlt & Hn & Hm2 & Hr).
  unfold r. rewrite Hr. clear r Hr.
  assert (Hs : 2 ^ (e1 - b) = 2 ^ (e1 - ex) * 2 ^ (ex - b)).
  { rewrite <-Z.pow_add_r by lia. f_equal. lia. }
  pose proof (pow_gt0 (ex - b) ltac:(lia)) as Hpx. pose proof (pow_gt0 (e1 - ex) ltac:(lia)).
  pose proof (pow_gt0 (e1 - b) ltac:(lia)) as Hp1.
  (* a valid float is a multiple of 2 ^ e1 or below m1 * 2 ^ e1 *)
  assert (Hgrid : ∀ z, nn z = true → (∃ q, val b z = q * 2 ^ (e1 - b)) ∨ val b z < m1 * 2 ^ (e1 - b)).
  { intros z Hz. destruct z as [| | |[] mz ez]; simpl in *; try done; [left; by exists 0|].
    apply bounded_spec in Hz as (_ & Hz2 & Hz3 & _). destruct (decide (e1 ≤ ez)).
    - left. exists (Zpos mz * 2 ^ (ez - e1)).
      rewrite <-Z.mul_assoc, <-Z.pow_add_r by lia. do 2 f_equal. lia.
    - right. pose proof (Hn ltac:(lia)). pose proof (pow_gt0 (prec - 1) ltac:(lia)).
      rewrite <-(Z2Pos.id m1) by lia. apply val_lt_exp; lia. }
  destruct (finish_val b m2 e1 Hb Hee) as [[Hnn Hv]|[Hinf Hbig]]; [lia|intros; specialize (Hn ltac:(lia)); lia| |].
  - split; [by right|]. split.
    + intros z Hz Hle. right. rewrite Hv.
      destruct (Hgrid z Hz) as [[q Hq]|Hq]; [|nia].
      rewrite Hq in *. assert (q < m1 + 1) by nia. nia.
    + intros z Hz Hle. split; [done|]. rewrite Hv. destruct Hm2 as [->|[-> Hnx]].
      { rewrite Hs. destruct lx; simpl in *; nia. }
      assert (m1 * 2 ^ (e1 - b) < val b z) as Hstrict.
      { rewrite Hs. destruct lx as [|c]; simpl in *; [|nia].
        assert (m1 * 2 ^ (e1 - ex) ≠ mx) by (intros E; apply Hnx; split; [done|lia]). nia. }
      destruct (Hgrid z Hz) as [[q Hq]|Hq]; [|lia]. rewrite Hq in *.
      assert (m1 < q) by nia. nia.
  - split; [by left|]. split; [by left|]. intros z Hz Hle. exfalso.
    specialize (Hbig z Hz). destruct Hm2 as [->|[-> Hnx]].
    + rewrite Hs in Hbig. destruct lx; simpl in *; nia.
    + destruct (Hgrid z Hz) as [[q Hq]|Hq].
      * rewrite Hq in *. assert (m1 * 2 ^ (e1 - b) < q * 2 ^ (e1 - b)); [|assert (m1 < q) by nia; assert (q < m1 + 1) by nia; lia].
        rewrite Hs at 1. destruct lx as [|c]; simpl in *; [|nia].
        assert (m1 * 2 ^ (e1 - ex) ≠ mx) by (intros E; apply Hnx; split; [done|lia]). nia.
      * rewrite Hs in Hq. destruct lx; simpl in *; nia.
Qed.

(** ** Intervals

    [rounds b lo hi r]: [r] is a rounding of a number between [lo] and [hi]
    units of [2 ^ b]; [rep b v]: the value [v] is representable. *)

Definition rounds (b lo hi : Z) (r : spec_float) : Prop :=
  (r = S754_infinity false ∨ nn r = true) ∧
  (∀ z, nn z = true → val b z ≤ lo → r = S754_infinity false ∨ val b z ≤ val b r) ∧
  (∀ z, nn z = true → hi ≤ val b z → nn r = true ∧ val b r ≤ val b z).

Definition rep (b v : Z) : Prop := ∃ z, nn z = true ∧ val b z = v.

Definition within (b lo hi : Z) (x : spec_float) : Prop := nn x = true ∧ lo ≤ val b x ≤ hi.

Lemma rounds_within b lo hi L H r :
  rounds b lo hi r → rep b L → rep b H → L ≤ lo → hi ≤ H → within b L H r.
Proof.
  intros (_ & Hlo & Hhi) (z & Hz & <-) (z' & Hz' & <-) HL HH.
  destruct (Hhi z' Hz' HH) as [Hn Hv]. split; [done|]. split; [|done].
  by destruct (Hlo z Hz HL) as [->|].
Qed.

Lemma rounds_self b r : nn r = true → rounds b (val b r) (val b r) r.
Proof. intros. split_and!; auto. Qed.

Lemma rounds_not_nan b lo hi r : rounds b lo hi r → is_nan r = false.
Proof. intros [[->|H] _]; [done|]. by destruct r. Qed.

Lemma iter_xO_val m d : Zpos (Pos.iter xO m d) = Zpos m * 2 ^ Zpos d.
Proof.
  induction d as [|d IH] using Pos.peano_ind; [simpl; lia|].
  rewrite Pos.iter_succ, Pos2Z.inj_succ, Z.pow_succ_r, Pos2Z.inj_xO, IH by lia. lia.
Qed.

Lemma shl_align_spec mx ex e :
  ∃ mz ez, shl_align mx ex e = (mz, ez) ∧ ez = Z.min ex e ∧
    Zpos mz = Zpos mx * 2 ^ (ex - ez).
Proof.
  unfold shl_align. destruct (e - ex) as [|p|p] eqn:E.
  - exists mx, ex. split_and!; [done|lia|]. rewrite Z.sub_diag. lia.
  - exists mx, ex. split_and!; [done|lia|]. rewrite Z.sub_diag. lia.
  - do 2 eexists. split_and!; [done|lia|]. rewrite iter_xO_val. do 2 f_equal. lia.
Qed.

Lemma Zdigits2_shift m k : 0 < m → 0 ≤ k → Zdigits2 (m * 2 ^ k) = Zdigits2 m + k.
Proof.
  intros Hm Hk. pose proof (Zdigits2_bounds m Hm). pose proof (pow_gt0 k Hk).
  pose proof (Zdigits2_pos m Hm). apply Zdigits2_unique; [nia|].
  replace (Zdigits2 m + k - 1) with (Zdigits2 m - 1 + k) by lia.
  rewrite !Z.pow_add_r by lia. nia.
Qed.

Lemma normalize_rounds b m e :
  0 ≤ m → b ≤ e → b ≤ emin →
  rounds b (m * 2 ^ (e - b)) (m * 2 ^ (e - b)) (binary_normalize prec emax m e false).
Proof.
  intros Hm Hbe Hb. destruct m as [|m|m]; [|clear Hm|lia].
  { simpl. by apply (rounds_self b (S754_zero false)). }
  unfold binary_normalize, binary_round.
  destruct (shl_align_spec m e (fexp (Zpos (digits2_pos m) + e))) as (mz & ez & -> & Hez & Hmz).
  assert (Zdigits2 (Zpos mz) = Zdigits2 (Zpos m) + (e - ez)) as Hd.
  { rewrite Hmz. apply Zdigits2_shift; lia. }
  simpl Zdigits2 in Hd.
  assert (emin ≤ fexp (Zpos (digits2_pos m) + e)) by (unfold SpecFloat.fexp; lia).
  pose proof (round_bounds b (Zpos mz) ez loc_Exact ltac:(lia)) as Hr.
  simpl Zdigits2 in Hr. rewrite Hd in Hr.
  replace (Zpos (digits2_pos m) + (e - ez) + ez) with (Zpos (digits2_pos m) + e) in Hr by lia.
  specialize (Hr ltac:(lia) ltac:(lia) Hb). simpl loc_up in Hr. rewrite Z.add_0_r in Hr.
  replace (Zpos mz * 2 ^ (ez - b)) with (Zpos m * 2 ^ (e - b)) in Hr; [exact Hr|].
  rewrite Hmz, <-Z.mul_assoc, <-Z.pow_add_r by lia. do 2 f_equal. lia.
Qed.

Lemma add_rounds b x y :
  b ≤ emin → nn x = true → nn y = true →
  rounds b (val b x + val b y) (val b x + val b y) (SFadd prec emax x y).
Proof.
  intros Hb Hx Hy.
  destruct x as [sx| | |[] mx ex], y as [sy| | |[] my ey]; try done.
  - simpl. destruct sx, sy; by apply (rounds_self b (S754_zero _)).
  - by apply (rounds_self b (S754_finite false my ey)).
  - simpl SFadd. replace (val b (S754_zero sy)) with 0 by done. rewrite Z.add_0_r.
    by apply (rounds_self b (S754_finite false mx ex)).
  - simpl in Hx, Hy. apply bounded_spec in Hx as (_ & Hx & _), Hy as (_ & Hy & _).
    unfold SFadd. cbn [cond_Zopp].
    destruct (shl_align_spec mx ex (Z.min ex ey)) as (m1 & e1 & -> & He1 & Hm1).
    destruct (shl_align_spec my ey (Z.min ex ey)) as (m2 & e2 & -> & He2 & Hm2).
    cbn [fst].
    pose proof (normalize_rounds b (Zpos m1 + Zpos m2) (Z.min ex ey) ltac:(lia) ltac:(lia) Hb) as Hr.
    replace ((Zpos m1 + Zpos m2) * 2 ^ (Z.min ex ey - b))
      with (val b (S754_finite false mx ex) + val b (S754_finite false my ey)) in Hr; [exact Hr|].
    simpl val. rewrite Hm1, Hm2, Z.mul_add_distr_r, <-!Z.mul_assoc, <-!Z.pow_add_r by lia.
    f_equal; do 2 f_equal; lia.
Qed.

Lemma rep_intro b m e :
  b ≤ emin → 0 ≤ m < 2 ^ prec → emin ≤ e ≤ emax - prec → rep b (m * 2 ^ (e - b)).
Proof.
  intros Hb Hm He. destruct (decide (m = 0)) as [->|Hne]; [by exists (S754_zero false)|].
  set (k := Z.min (prec - Zdigits2 m) (e - emin)).
  assert (Zdigits2 m ≤ prec) by (apply Zdigits2_le; lia).
  pose proof (Zdigits2_bounds m ltac:(lia)) as Hd. pose proof (Zdigits2_pos m ltac:(lia)).
  assert (Hk : 0 ≤ k) by lia. pose proof (pow_gt0 k Hk).
  exists (S754_finite false (Z.to_pos (m * 2 ^ k)) (e - k)). simpl.
  rewrite bounded_spec, Z2Pos.id by nia. split.
  - split_and!; [lia|lia| |].
    + assert (m * 2 ^ k < 2 ^ (Zdigits2 m + k)) by (rewrite Z.pow_add_r by lia; nia).
      pose proof (Z.pow_le_mono_r 2 (Zdigits2 m + k) prec). lia.
    + intros. replace (prec - 1) with (Zdigits2 m - 1 + k) by lia.
      rewrite Z.pow_add_r by lia. nia.
  - rewrite <-Z.mul_assoc, <-Z.pow_add_r by lia. do 2 f_equal. lia.
Qed.

(** ** Division *)

Lemma new_location_up n k : 0 ≤ k → loc_up (new_location n k) = if k =? 0 then 0 else 1.
Proof.
  intros. unfold new_location, new_location_even, new_location_odd.
  by destruct (Z.even n), (k =? 0).
Qed.

Lemma quot_ge a m N q r : N = m * q + r → 0 ≤ r < m → a * m ≤ N → a ≤ q.
Proof.
  intros -> Hr Ha. assert (a < q + 1); [|lia].
  apply (Z.mul_lt_mono_pos_r m); lia.
Qed.

Lemma quot_le h m N q r up :
  N = m * q + r → 0 ≤ r < m → N ≤ h * m → up = 0 ∧ r = 0 ∨ up = 1 ∧ 0 < r → q + up ≤ h.
Proof.
  intros -> Hr Hh Hup. assert (q + up < h + 1); [|lia].
  apply (Z.mul_lt_mono_pos_r m); [lia|]. destruct Hup as [[-> ->]|[-> ?]]; lia.
Qed.

Lemma pow_prod_le A B C E m n : A * B = C * E → 0 < A → 0 < E → m ≤ B → C ≤ n → A * m ≤ n * E.
Proof. intros HAB HA HE Hm Hn. transitivity (A * B); [nia|]. rewrite HAB. nia. Qed.

(** A quotient has at least the difference of the digits of its operands. *)
Lemma quot_digits m1 m2 s q r :
  Zpos m1 * 2 ^ s = Zpos m2 * q + r → 0 ≤ r < Zpos m2 → 0 ≤ s →
  let d := Zdigits2 (Zpos m1) + s - Zdigits2 (Zpos m2) - 1 in
  (0 ≤ d → 2 ^ d ≤ q) ∧ d < Zdigits2 q.
Proof.
  intros Hqr Hr Hs d.
  pose proof (Zdigits2_bounds (Zpos m1) ltac:(lia)). pose proof (Zdigits2_pos (Zpos m1) ltac:(lia)).
  pose proof (Zdigits2_bounds (Zpos m2) ltac:(lia)). pose proof (Zdigits2_pos (Zpos m2) ltac:(lia)).
  assert (Hqd : 0 ≤ d → 2 ^ d ≤ q).
  { intros Hk. apply (quot_ge _ (Zpos m2) (Zpos m1 * 2 ^ s) q r Hqr ltac:(lia)).
    apply (pow_prod_le _ (2 ^ Zdigits2 (Zpos m2)) (2 ^ (Zdigits2 (Zpos m1) - 1)));
      [|by apply pow_gt0| |lia..].
    - rewrite <-!Z.pow_add_r by lia. f_equal. unfold d. lia.
    - by apply pow_gt0. }
  split; [done|]. destruct (decide (0 ≤ d)) as [Hk|]; [|pose proof (Zdigits2_nonneg q); lia].
  specialize (Hqd Hk). pose proof (pow_gt0 d Hk). pose proof (Zdigits2_bounds q ltac:(lia)).
  pose proof (Zdigits2_nonneg q). apply (Z.pow_lt_mono_r_iff 2); lia.
Qed.

(** Representable numbers are multiples of the unit of a normal mantissa [q] of
    exponent [e], or below it. *)
Lemma rep_grid b e q v :
  b ≤ emin → (emin < e → 2 ^ (prec - 1) ≤ q) → b ≤ e → rep b v →
  (∃ k, v = k * 2 ^ (e - b)) ∨ v < q * 2 ^ (e - b).
Proof.
  intros Hb Hq Hbe (z & Hz & <-).
  destruct z as [| | |[] mz ez]; simpl in *; try done; [left; by exists 0|].
  apply bounded_spec in Hz as (_ & Hz2 & Hz3 & _). destruct (decide (e ≤ ez)).
  - left. exists (Zpos mz * 2 ^ (ez - e)).
    rewrite <-Z.mul_assoc, <-Z.pow_add_r by lia. do 2 f_equal. lia.
  - right. specialize (Hq ltac:(lia)). pose proof (pow_gt0 (prec - 1) ltac:(lia)).
    rewrite <-(Z2Pos.id q) by lia. apply val_lt_exp; lia.
Qed.

(** The bounds of a quotient [q] with remainder, on the grid. *)
Lemma quot_within b e q r up m2 E L H :
  b ≤ emin → (emin < e → 2 ^ (prec - 1) ≤ q) → b ≤ e → rep b L → rep b H →
  0 ≤ q → 0 ≤ r < Zpos m2 → up = 0 ∧ r = 0 ∨ up = 1 ∧ 0 < r → 0 < E →
  L * (Zpos m2 * E) ≤ (Zpos m2 * q + r) * 2 ^ (e - b) * E →
  (Zpos m2 * q + r) * 2 ^ (e - b) * E ≤ H * (Zpos m2 * E) →
  L ≤ q * 2 ^ (e - b) ∧ (q + up) * 2 ^ (e - b) ≤ H.
Proof.
  intros Hb Hbig Hbe HL HH Hq Hr Hup HE Hlo Hhi.
  assert (HP : 0 < 2 ^ (e - b)) by (apply pow_gt0; lia). split.
  - destruct (rep_grid b e q L Hb Hbig Hbe HL) as [[k ->]|?]; [|lia].
    apply Z.mul_le_mono_nonneg_r; [lia|].
    apply (quot_ge k (Zpos m2) _ q r eq_refl ltac:(lia)).
    apply (Z.mul_le_mono_pos_r _ _ (2 ^ (e - b) * E)); [nia|]. lia.
  - destruct (rep_grid b e q H Hb Hbig Hbe HH) as [[k ->]|Hlt].
    + apply Z.mul_le_mono_nonneg_r; [lia|].
      apply (quot_le k (Zpos m2) _ q r up eq_refl ltac:(lia)); [|done].
      apply (Z.mul_le_mono_pos_r _ _ (2 ^ (e - b) * E)); [nia|]. lia.
    + exfalso. assert ((Zpos m2 * q + r) * 2 ^ (e - b) ≤ H * Zpos m2).
      { apply (Z.mul_le_mono_pos_r _ _ E); lia. }
      assert (H * Zpos m2 < q * 2 ^ (e - b) * Zpos m2) by (apply Z.mul_lt_mono_pos_r; lia).
      assert (0 ≤ r * 2 ^ (e - b)) by (apply Z.mul_nonneg_nonneg; lia). lia.
Qed.

Lemma div_within b x y L H :
  b ≤ emin - emax → b ≤ 0 → nn x = true → nn y = true → 0 < val b x → 0 < val b y →
  rep b L → rep b H →
  L * val b y ≤ val b x * 2 ^ (- b) → val b x * 2 ^ (- b) ≤ H * val b y →
  within b L H (SFdiv prec emax x y).
Proof.
  intros Hb Hb0 Hx Hy Hpx Hpy HL HH Hlo Hhi.
  destruct x as [sx| | |[] m1 e1], y as [sy| | |[] m2 e2]; try done.
  simpl in Hx, Hy. apply bounded_spec in Hx as (Hx1 & Hx2 & Hx3 & _), Hy as (Hy1 & Hy2 & Hy3 & _).
  unfold SFdiv, SFdiv_core_binary.
  set (D := Zdigits2 (Zpos m1) + e1 - (Zdigits2 (Zpos m2) + e2)).
  set (e' := Z.min (fexp D) (e1 - e2)). set (s := e1 - e2 - e').
  assert (Hs : 0 ≤ s) by lia. assert (He' : b ≤ e') by (unfold e', SpecFloat.fexp; lia).
  replace (match s with 0 => Zpos m1 | Zpos _ => Z.shiftl (Zpos m1) s | Zneg _ => 0 end)
    with (Zpos m1 * 2 ^ s); [|destruct s eqn:Es; [lia|by rewrite Z.shiftl_mul_pow2 by lia|lia]].
  destruct (Z.div_eucl (Zpos m1 * 2 ^ s) (Zpos m2)) as [q r] eqn:Eq.
  pose proof (Z_div_mod (Zpos m1 * 2 ^ s) (Zpos m2) ltac:(lia)) as Hqr. rewrite Eq in Hqr.
  destruct Hqr as [Hqr Hr]. cbn [xorb].
  assert (Hq : 0 ≤ q) by (pose proof (pow_gt0 s Hs); nia).
  destruct (quot_digits m1 m2 s q r Hqr ltac:(lia) Hs) as [Hqd Hdig].
  replace (Zdigits2 (Zpos m1) + s - Zdigits2 (Zpos m2) - 1) with (D - 1 - e') in *
    by (unfold D, s; lia).
  assert (Hpre : e' ≤ fexp (Zdigits2 q + e')).
  { assert (e' ≤ fexp D) by lia. unfold SpecFloat.fexp in *. lia. }
  assert (Hbig : emin < e' → 2 ^ (prec - 1) ≤ q).
  { intros. assert (prec - 1 ≤ D - 1 - e') by (unfold e', SpecFloat.fexp in *; lia).
    pose proof (Z.pow_le_mono_r 2 (prec - 1) (D - 1 - e') ltac:(lia) ltac:(lia)).
    specialize (Hqd ltac:(lia)). lia. }
  pose proof (round_bounds b q e' (new_location (Zpos m2) r) Hq Hpre He' ltac:(lia)) as Hround.
  rewrite new_location_up in Hround by lia. set (up := if r =? 0 then 0 else 1) in *.
  assert (Hxy : val b (S754_finite false m1 e1) * 2 ^ (- b) =
    (Zpos m2 * q + r) * 2 ^ (e' - b) * 2 ^ (e2 - b)).
  { simpl val. rewrite <-Hqr, <-!Z.mul_assoc, <-!Z.pow_add_r by lia. do 2 f_equal. unfold s. lia. }
  rewrite Hxy in Hlo, Hhi. simpl val in Hlo, Hhi.
  destruct (quot_within b e' q r up m2 (2 ^ (e2 - b)) L H); try done; try lia.
  - unfold up. destruct (Z.eqb_spec r 0); lia.
  - by apply (rounds_within b (q * 2 ^ (e' - b)) ((q + up) * 2 ^ (e' - b))).
Qed.

End rounding.
