(* ===== verification/FloatBounds.v ===== *)
(** * Bounds on the scheduler's floating-point quantities

    Instances of FloatRound.v for [float] and [double]: a predicted time of at
    least a millisecond gives a finite positive cost, makespan and score, the
    score is at least (queue length) x (jobs scheduled), and the conversion of
    the score to [int] is defined.  Values are counted in units of 2^u, small
    enough for every number of either format. *)

From S2P Require Import Prelude CxxFloat FloatRound.

#[local] Open Scope Z_scope.

Definition unit_exp : Z := -2100.

(** [2 ^ k] in units. *)
Definition pw (k : Z) : Z := 2 ^ (k - unit_exp).

Lemma pw_pos k : unit_exp ≤ k → 0 < pw k.
Proof. intros. apply pow_gt0. lia. Qed.

Lemma pw_add a c : unit_exp ≤ a → 0 ≤ c → pw (a + c) = pw a * 2 ^ c.
Proof. intros. unfold pw. rewrite <-Z.pow_add_r by lia. f_equal. lia. Qed.

Lemma pw_mul a c :
  unit_exp ≤ a → unit_exp ≤ c → unit_exp ≤ a + c → pw a * pw c = pw (a + c) * 2 ^ (- unit_exp).
Proof.
  intros. assert (unit_exp = -2100) by done. unfold pw.
  rewrite <-!Z.pow_add_r by lia. f_equal. lia.
Qed.

Lemma pw_le a c : a ≤ c → pw a ≤ pw c.
Proof. intros. apply Z.pow_le_mono_r; lia. Qed.

(** A format whose exponents [unit_exp] covers. *)
Class Format (prec emax : Z) : Prop := {
  fmt_prec : 24 ≤ prec;
  fmt_emax : prec + 100 ≤ emax;
  fmt_wide : 128 ≤ emax;
  fmt_unit : unit_exp ≤ 3 - emax - prec - emax
}.

#[export] Instance f32_Format : Format f32_prec f32_emax.
Proof. split; unfold f32_prec, f32_emax, unit_exp; lia. Qed.
#[export] Instance f64_Format : Format f64_prec f64_emax.
Proof. split; unfold f64_prec, f64_emax, unit_exp; lia. Qed.

Section format.
Context (prec emax : Z) `{!Format prec emax}.

Abbreviation between lo hi := (within prec emax unit_exp lo hi).
Abbreviation value := (val unit_exp).

Let Hp : 1 < prec.
Proof. destruct Format0. lia. Qed.
Let He : prec < emax.
Proof. destruct Format0. lia. Qed.
Let Hw : 128 ≤ emax ∧ 24 ≤ prec.
Proof. by destruct Format0. Qed.
Let Hu : unit_exp ≤ emin prec emax - emax ∧ unit_exp ≤ emin prec emax.
Proof. destruct Format0. unfold emin. lia. Qed.

(** The numbers [m 2^e] with a short mantissa and a moderate exponent. *)
Lemma rep_pw m e :
  0 ≤ m ≤ 2 ^ 24 → -100 ≤ e ≤ 80 → rep prec emax unit_exp (m * pw e).
Proof.
  intros Hm Hme. assert (Hr : emin prec emax ≤ -100 ∧ 81 ≤ emax - prec).
  { destruct Format0. unfold emin. lia. }
  assert (2 ^ 24 ≤ 2 ^ prec) by (apply Z.pow_le_mono_r; lia).
  destruct (decide (m = 2 ^ 24)) as [->|Hne].
  - replace (2 ^ 24 * pw e) with (2 ^ 23 * 2 ^ (e + 1 - unit_exp)).
    + apply rep_intro; lia.
    + change (2 ^ 24) with (2 ^ 23 * 2 ^ 1). rewrite <-Z.mul_assoc, (Z.mul_comm (2 ^ 1)).
      rewrite <-pw_add by (unfold unit_exp; lia). done.
  - apply rep_intro; lia.
Qed.

Lemma rep_pw1 e : -100 ≤ e ≤ 80 → rep prec emax unit_exp (pw e).
Proof. intros. rewrite <-(Z.mul_1_l (pw e)). by apply rep_pw. Qed.

(** Integers up to [2^24] are exact. *)
Lemma normalize_between m e lo hi :
  0 ≤ m → unit_exp ≤ e → rep prec emax unit_exp lo → rep prec emax unit_exp hi →
  lo ≤ m * pw e ≤ hi → between lo hi (binary_normalize prec emax m e false).
Proof.
  intros Hm Hue Hlo Hhi Hv.
  apply (rounds_within _ _ _ (m * pw e) (m * pw e)); try (done || lia).
  by apply normalize_rounds; [..|apply Hu].
Qed.

Lemma of_Z_value m :
  0 ≤ m ≤ 2 ^ 24 → between (m * pw 0) (m * pw 0) (binary_normalize prec emax m 0 false).
Proof.
  intros Hm. apply normalize_between; try apply rep_pw; unfold unit_exp; lia.
Qed.

(** Powers of two bound a quotient. *)
Lemma div_between a1 a2 c1 c2 x y :
  between (pw a1) (pw a2) x → between (pw c1) (pw c2) y →
  -40 ≤ a1 → a2 ≤ 35 → -40 ≤ c1 → c2 ≤ 30 → a1 ≤ a2 → c1 ≤ c2 →
  between (pw (a1 - c2)) (pw (a2 - c1)) (SFdiv prec emax x y).
Proof.
  intros [Hx Hxv] [Hy Hyv] ??????. assert (Hu' : unit_exp = -2100) by done.
  assert (0 < pw a1 ∧ 0 < pw c1 ∧ 0 < pw (a1 - c2) ∧ 0 < pw (a2 - c1)) as (?&?&?&?).
  { split_and!; apply pw_pos; lia. }
  pose proof (pow_gt0 (- unit_exp) ltac:(lia)).
  apply div_within; try (done || lia); try (apply rep_pw1; lia).
  - transitivity (pw (a1 - c2) * pw c2); [nia|].
    rewrite pw_mul by lia. replace (a1 - c2 + c2) with a1 by lia. nia.
  - transitivity (pw (a2 - c1) * pw c1); [|nia].
    rewrite pw_mul by lia. replace (a2 - c1 + c1) with a2 by lia. nia.
Qed.

Lemma add_between lo hi x y :
  nn prec emax x = true → nn prec emax y = true →
  rep prec emax unit_exp lo → rep prec emax unit_exp hi →
  lo ≤ value x + value y ≤ hi → between lo hi (SFadd prec emax x y).
Proof.
  intros Hx Hy Hlo Hhi Hv.
  apply (rounds_within _ _ _ (value x + value y) (value x + value y)); try (done || lia).
  by apply add_rounds; [..|apply Hu| |].
Qed.

End format.

(** ** Conversions *)

Abbreviation between32 := (within f32_prec f32_emax unit_exp).
Abbreviation between64 := (within f64_prec f64_emax unit_exp).
Abbreviation nn32 := (nn f32_prec f32_emax).
Abbreviation value := (val unit_exp).

Lemma pw_0_eq k : 0 ≤ k → pw k = pw 0 * 2 ^ k.
Proof. intros. rewrite <-pw_add by (unfold unit_exp; lia). done. Qed.

Lemma pw_0_pos : 0 < pw 0.
Proof. apply pw_pos. by unfold unit_exp. Qed.

(** Discharges the format and the representability of a power of two. *)
Ltac fmt :=
  first [exact f32_Format | exact f64_Format | apply rep_pw1; [|lia]; fmt | idtac].

Lemma f64_of_Z_between m k :
  1 ≤ m ≤ 2 ^ k → 0 ≤ k ≤ 60 → between64 (pw 0) (pw k) (f64_of_Z m).
Proof.
  intros Hm Hk. pose proof pw_0_pos.
  apply normalize_between; fmt;
    [lia|by unfold unit_exp|]. rewrite (pw_0_eq k) by lia. nia.
Qed.

Lemma f32_of_Z_between m k :
  1 ≤ m ≤ 2 ^ k → 0 ≤ k ≤ 60 → between32 (pw 0) (pw k) (f32_of_Z m).
Proof.
  intros Hm Hk. pose proof pw_0_pos.
  apply normalize_between; fmt;
    [lia|by unfold unit_exp|]. rewrite (pw_0_eq k) by lia. nia.
Qed.

(** Narrowing keeps power-of-two bounds. *)
Lemma f32_of_f64_between a c x :
  between64 (pw a) (pw c) x → -100 ≤ a → a ≤ c → c ≤ 60 →
  between32 (pw a) (pw c) (f32_of_f64 x).
Proof.
  intros [Hx Hv] ???. assert (0 < pw a) by (apply pw_pos; unfold unit_exp; lia).
  destruct x as [| | |[] m e]; simpl in Hx, Hv; try (done || lia).
  apply bounded_spec in Hx as (_ & Hx & _); [|done..]. cbn [f32_of_f64 cond_Zopp].
  apply normalize_between; fmt;
    [lia| |exact Hv]. etransitivity; [|exact Hx]. done.
Qed.

(** A predicted time between 1 ms and beyond the largest [int], in seconds. *)
Lemma seconds_of_millis_between ms :
  1 ≤ ms ≤ 2 ^ 31 → between64 (pw (-10)) (pw 22) (seconds_of_millis ms).
Proof.
  intros Hms.
  assert (H1000 : between64 (pw 9) (pw 10) (f64_of_Z 1000)).
  { apply normalize_between; fmt;
      [done..|]. pose proof pw_0_pos. rewrite !(pw_0_eq 9), !(pw_0_eq 10) by done. lia. }
  apply (div_between f64_prec f64_emax 0 31 9 10); fmt; try done.
  apply f64_of_Z_between; lia.
Qed.

(** Truncating a number between two integers. *)
Lemma trunc_within prec emax m M x :
  ∀ `{!Format prec emax}, within prec emax unit_exp (m * pw 0) (M * pw 0) x → 0 ≤ m →
  ∃ z, trunc x = Some z ∧ m ≤ z ≤ M.
Proof.
  intros [Hp He _ Hue] [Hx Hv] Hm. pose proof pw_0_pos as Hpos.
  destruct x as [| | |[] mx ex]; simpl in *; try done; [exists 0; split; [done|nia]|].
  apply bounded_spec in Hx as (_ & Hx & _); [|lia..].
  assert (Hu : unit_exp ≤ ex) by (unfold emin in Hx; lia).
  eexists; split; [done|]. case_match; zbool.
  - assert (Hpw : pw 0 = 2 ^ (- ex) * 2 ^ (ex - unit_exp)).
    { unfold pw. rewrite <-Z.pow_add_r by lia. f_equal. lia. }
    pose proof (pow_gt0 (ex - unit_exp) ltac:(lia)). pose proof (pow_gt0 (- ex) ltac:(lia)).
    rewrite Hpw, !Z.mul_assoc in Hv. destruct Hv as [Hlo Hhi].
    apply Z.mul_le_mono_pos_r in Hlo, Hhi; [|done..]. split.
    + apply Z.div_le_lower_bound; lia.
    + transitivity (M * 2 ^ (- ex) / 2 ^ (- ex)); [by apply Z.div_le_mono|].
      rewrite Z.div_mul; lia.
  - assert (Hpw : 2 ^ (ex - unit_exp) = 2 ^ ex * pw 0).
    { unfold pw. rewrite <-Z.pow_add_r by (unfold unit_exp; lia). done. }
    rewrite Hpw, Z.mul_assoc in Hv. destruct Hv as [Hlo Hhi].
    by apply Z.mul_le_mono_pos_r in Hlo, Hhi.
Qed.

Lemma trunc_between m M x :
  between32 (m * pw 0) (M * pw 0) x → 0 ≤ m → ∃ z, trunc x = Some z ∧ m ≤ z ≤ M.
Proof. intros Hx. by apply (trunc_within f32_prec f32_emax). Qed.

Lemma int_of_float_between m M x :
  between32 (m * pw 0) (M * pw 0) x → 0 ≤ m → M ≤ INT_MAX →
  ∃ z, int_of_float x = Ret z ∧ m ≤ z ≤ M.
Proof.
  intros Hx Hm HM. destruct (trunc_between m M x Hx Hm) as (z & Hz & ?).
  exists z. split; [|done]. unfold int_of_float. rewrite Hz.
  unfold in_int. by rewrite !(proj2 (Z.leb_le _ _)) by (unfold INT_MIN; lia).
Qed.

(** ** The order on converted integers *)

Lemma SFleb_value x y :
  nn32 x = true → nn32 y = true → SFleb x y = true ↔ value x ≤ value y.
Proof.
  intros Hx Hy. rewrite (SFleb_val f32_prec f32_emax eq_refl eq_refl) by done.
  rewrite (val_scale f32_prec f32_emax eq_refl (emin f32_prec f32_emax) unit_exp x) by done.
  rewrite (val_scale f32_prec f32_emax eq_refl (emin f32_prec f32_emax) unit_exp y) by done.
  pose proof (pow_gt0 (emin f32_prec f32_emax - unit_exp) ltac:(done)).
  by apply Z.mul_le_mono_pos_r.
Qed.

Lemma f32_of_Z_exact m :
  0 ≤ m ≤ 2 ^ 24 → nn32 (f32_of_Z m) = true ∧ value (f32_of_Z m) = m * pw 0.
Proof.
  intros Hm. destruct (of_Z_value f32_prec f32_emax m Hm) as [Hn Hv].
  split; [done|]. unfold f32_of_Z. lia.
Qed.

(** Up to [2^24] the conversion to [float] preserves and reflects the order. *)
Lemma SFleb_f32_of_Z m n :
  0 ≤ m ≤ 2 ^ 24 → 0 ≤ n ≤ 2 ^ 24 → SFleb (f32_of_Z m) (f32_of_Z n) = (m <=? n).
Proof.
  intros Hm Hn. destruct (f32_of_Z_exact m Hm) as [Hnm Hvm], (f32_of_Z_exact n Hn) as [Hnn Hvn].
  pose proof pw_0_pos. apply eq_true_iff_eq. rewrite SFleb_value, Z.leb_le, Hvm, Hvn by done.
  symmetry. by apply Z.mul_le_mono_pos_r.
Qed.

(** ** Signs *)

Lemma round_aux_opp prec emax sx m e l :
  binary_round_aux prec emax (negb sx) m e l = SFopp (binary_round_aux prec emax sx m e l).
Proof.
  unfold binary_round_aux. destruct sx; simpl; repeat (case_match; simplify_eq/=); done.
Qed.

Lemma round_opp prec emax m e :
  binary_round prec emax true m e = SFopp (binary_round prec emax false m e).
Proof. unfold binary_round. case_match. apply (round_aux_opp _ _ false). Qed.

Lemma f64_of_Z_opp p : f64_of_Z (Zneg p) = SFopp (f64_of_Z (Zpos p)).
Proof. apply round_opp. Qed.

Lemma f64_div_opp x y : is_nan y = false → f64_div (SFopp x) y = SFopp (f64_div x y).
Proof.
  intros Hy. destruct x as [sx|sx| |sx mx ex], y as [sy|sy| |sy my ey]; try done;
    try (destruct sx, sy; done).
  unfold f64_div, SFdiv. cbn [SFopp]. case_match. case_match.
  by rewrite <-round_aux_opp, negb_xorb_l.
Qed.

Lemma f32_of_f64_opp x : f32_of_f64 (SFopp x) = SFopp (f32_of_f64 x).
Proof.
  destruct x as [| | |s m e]; try done. cbn [f32_of_f64 SFopp].
  destruct s; unfold cond_Zopp, negb, binary_normalize, Z.opp; rewrite round_opp; [|done].
  by destruct (binary_round _ _ false m e) as [[]|[]| |[]].
Qed.

Lemma between64_not_nan lo hi x : between64 lo hi x → is_nan x = false.
Proof. intros [Hx _]. by destruct x. Qed.

Lemma between32_not_nan lo hi x : between32 lo hi x → is_nan x = false.
Proof. intros [Hx _]. by destruct x. Qed.

(** Every [int] number of milliseconds divided by a small positive number of
    resources is a number. *)
Lemma millis_share_not_nan ms n :
  INT_MIN ≤ ms ≤ INT_MAX → 1 ≤ n ≤ 2 ^ 10 →
  is_nan (f32_of_f64 (f64_div (seconds_of_millis ms) (f64_of_Z n))) = false.
Proof.
  intros Hms Hn.
  assert (Hpos : ∀ p, Zpos p ≤ 2 ^ 31 →
    is_nan (f32_of_f64 (f64_div (seconds_of_millis (Zpos p)) (f64_of_Z n))) = false).
  { intros p Hp. eapply between32_not_nan, (f32_of_f64_between (-20) 22); [|done..].
    apply (div_between f64_prec f64_emax (-10) 22 0 10); fmt; try done.
    - apply seconds_of_millis_between. lia.
    - apply f64_of_Z_between; lia. }
  assert (Hnn : is_nan (f64_of_Z n) = false).
  { eapply between64_not_nan, (f64_of_Z_between _ 10); lia. }
  unfold INT_MIN, INT_MAX in Hms. destruct ms as [|p|p].
  - unfold seconds_of_millis. replace (f64_div (f64_of_Z 0) (f64_of_Z 1000)) with f_zero by done.
    destruct (f64_of_Z_between n 10) as [Hx Hv]; [lia..|].
    pose proof pw_0_pos. by destruct (f64_of_Z n) as [| | |[]]; simpl in *; try lia.
  - apply Hpos. lia.
  - unfold seconds_of_millis. rewrite f64_of_Z_opp, f64_div_opp, f64_div_opp, f32_of_f64_opp by done.
    specialize (Hpos p ltac:(lia)). unfold seconds_of_millis in Hpos.
    by destruct (f32_of_f64 _).
Qed.
