(* ===== verification/FloatSigned.v ===== *)
(** * Products and differences of floats

    Bounds for the operations of the statistics that FloatBounds does not cover:
    products, sums of negative numbers, differences, whose sign is not known, and
    the truncation of a [double]. *)

From S2P Require Import Prelude CxxFloat FloatRound FloatBounds.

#[local] Open Scope Z_scope.

Section rounding.
Context (prec emax : Z) (Hp : 1 < prec) (He : prec < emax).

Abbreviation emin := (SpecFloat.emin prec emax).
Abbreviation fexp := (SpecFloat.fexp prec emax).
Abbreviation nn := (FloatRound.nn prec emax).

Lemma Zdigits2_mul m n :
  0 < m → 0 < n → Zdigits2 m + Zdigits2 n - 1 ≤ Zdigits2 (m * n).
Proof.
  intros Hm Hn. pose proof (Zdigits2_bounds m Hm). pose proof (Zdigits2_bounds n Hn).
  pose proof (Zdigits2_pos m Hm). pose proof (Zdigits2_pos n Hn).
  pose proof (Zdigits2_bounds (m * n) ltac:(nia)).
  assert (2 ^ (Zdigits2 m - 1 + (Zdigits2 n - 1)) ≤ m * n).
  { rewrite Z.pow_add_r by lia. apply Z.mul_le_mono_nonneg; lia. }
  assert (Zdigits2 m - 1 + (Zdigits2 n - 1) < Zdigits2 (m * n)); [|lia].
  apply (Z.pow_lt_mono_r_iff 2); [lia|apply Zdigits2_nonneg|]. lia.
Qed.

(** The digits of a canonical mantissa: all of them, or the smallest exponent. *)
Lemma bounded_digits m e :
  bounded prec emax m e = true → Zdigits2 (Zpos m) = prec ∨ e = emin.
Proof.
  unfold bounded, canonical_mantissa, SpecFloat.fexp. rewrite andb_true_iff, Z.eqb_eq.
  change (Zdigits2 (Zpos m)) with (Zpos (digits2_pos m)). lia.
Qed.

Lemma mul_rounds b x y :
  (∀ m e, y = S754_finite false m e → b ≤ emin + e) → b ≤ emin → nn x = true → nn y = true →
  ∃ v, v * 2 ^ (- b) = val b x * val b y ∧ rounds prec emax b v v (SFmul prec emax x y).
Proof.
  intros Hb Hb' Hx Hy. assert (emin < 0) by (unfold SpecFloat.emin; lia).
  destruct x as [sx| | |[] mx ex], y as [sy| | |[] my ey]; try done;
    try (exists 0; split; [simpl; lia|by apply (rounds_self prec emax b (S754_zero _))]).
  specialize (Hb my ey eq_refl). simpl in Hx, Hy. pose proof (bounded_digits _ _ Hx) as Hdx. pose proof (bounded_digits _ _ Hy) as Hdy.
  apply bounded_spec in Hx as (_ & Hx & _), Hy as (_ & Hy & _); [|done..].
  pose proof (Zdigits2_mul (Zpos mx) (Zpos my) ltac:(lia) ltac:(lia)) as Hd.
  pose proof (Zdigits2_pos (Zpos mx) ltac:(lia)). pose proof (Zdigits2_pos (Zpos my) ltac:(lia)).
  exists (Zpos mx * Zpos my * 2 ^ (ex + ey - b)). split.
  - simpl val. rewrite <-!Z.mul_assoc. f_equal.
    rewrite (Z.mul_comm (2 ^ (ex - b))), <-!Z.mul_assoc. f_equal.
    rewrite <-!Z.pow_add_r by lia. f_equal. lia.
  - pose proof (round_bounds prec emax Hp He b (Zpos (mx * my)) (ex + ey) loc_Exact) as Hr.
    simpl loc_up in Hr. rewrite Z.add_0_r in Hr.
    apply Hr; [lia| |lia..]. unfold SpecFloat.fexp. rewrite Pos2Z.inj_mul. lia.
Qed.

(** A difference is, up to its sign, at most the larger operand. *)
Lemma sub_magnitude b hi x y :
  b ≤ emin → nn x = true → nn y = true → rep prec emax b hi → val b x ≤ hi → val b y ≤ hi →
  ∃ z, within prec emax b 0 hi z ∧ (SFsub prec emax x y = z ∨ SFsub prec emax x y = SFopp z).
Proof.
  intros Hb Hx Hy Hhi Hvx Hvy. pose proof (val_nonneg b x). pose proof (val_nonneg b y).
  destruct x as [sx| | |[] mx ex], y as [sy| | |[] my ey]; try done.
  - exists (S754_zero false). split; [by repeat split|]. destruct sx, sy; auto.
  - exists (S754_finite false my ey). split; [by repeat split|]. by right.
  - exists (S754_finite false mx ex). split; [by repeat split|]. by left.
  - simpl in Hx, Hy. apply bounded_spec in Hx as (_ & Hx & _), Hy as (_ & Hy & _); [|done..].
    unfold SFsub. cbn [cond_Zopp].
    destruct (shl_align_spec mx ex (Z.min ex ey)) as (m1 & e1 & -> & He1 & Hm1).
    destruct (shl_align_spec my ey (Z.min ex ey)) as (m2 & e2 & -> & He2 & Hm2).
    cbn [fst]. set (ez := Z.min ex ey) in *.
    assert (Hval : ∀ m e mz, b ≤ ez ≤ e → Zpos mz = Zpos m * 2 ^ (e - ez) →
      val b (S754_finite false m e) = Zpos mz * 2 ^ (ez - b)).
    { intros m e mz Hle E. simpl. rewrite E, <-Z.mul_assoc, <-Z.pow_add_r by lia.
      do 2 f_equal. lia. }
    replace e1 with ez in Hm1 by lia. replace e2 with ez in Hm2 by lia.
    rewrite (Hval mx ex m1) in Hvx by (done || lia). rewrite (Hval my ey m2) in Hvy by (done || lia).
    pose proof (pow_gt0 (ez - b) ltac:(lia)).
    assert (Hin : ∀ m, 0 ≤ m → m ≤ Zpos m1 ∨ m ≤ Zpos m2 →
      within prec emax b 0 hi (binary_normalize prec emax m ez false)).
    { intros m Hm Hle. apply (rounds_within prec emax b (m * 2 ^ (ez - b)) (m * 2 ^ (ez - b)));
        [apply normalize_rounds; lia|by exists (S754_zero false)|done|nia|nia]. }
    destruct (Zpos m1 - Zpos m2) as [|p|p] eqn:E.
    + eexists. split; [apply (Hin 0); lia|by left].
    + eexists. split; [apply (Hin (Zpos p)); lia|by left].
    + eexists. split; [apply (Hin (Zpos p)); lia|]. right. apply round_opp.
Qed.

End rounding.

(** ** Instances for [double] *)

Abbreviation nn64 := (nn f64_prec f64_emax).

Lemma val_zero_nn x : nn64 x = true → value x = 0 → ∃ s, x = S754_zero s.
Proof.
  destruct x as [s| | |[] m e]; simpl; try done; [by exists s|].
  intros Hx Hv. apply bounded_spec in Hx as (_ & Hx & _); [|done..].
  assert (emin f64_prec f64_emax = -1074) by done.
  pose proof (pow_gt0 (e - unit_exp) ltac:(unfold unit_exp; lia)). lia.
Qed.

(** Multiplying by a positive integer constant. *)
Lemma mul_between hx hy hi x y :
  between64 0 hx x → between64 0 hy y → rep f64_prec f64_emax unit_exp hi →
  (∀ m e, y = S754_finite false m e → unit_exp ≤ -1074 + e) →
  hx * hy ≤ hi * pw 0 → between64 0 hi (f64_mul x y).
Proof.
  intros [Hx Hvx] [Hy Hvy] Hhi Hlow Hle.
  destruct (mul_rounds f64_prec f64_emax eq_refl eq_refl unit_exp x y) as (v & Hv & Hr); try done.
  pose proof pw_0_pos. change (2 ^ (- unit_exp)) with (pw 0) in Hv.
  pose proof (val_nonneg unit_exp x). pose proof (val_nonneg unit_exp y).
  apply (rounds_within _ _ _ v v); try done; [by exists (S754_zero false)|nia|].
  apply (Z.mul_le_mono_pos_r _ _ (pw 0)); [done|]. rewrite Hv.
  transitivity (hx * hy); [|done]. apply Z.mul_le_mono_nonneg; lia.
Qed.

(** Dividing by a constant of at least one. *)
Lemma div_between0 hx hi x y :
  between64 0 hx x → nn64 y = true → pw 0 ≤ value y → rep f64_prec f64_emax unit_exp hi →
  hx * pw 0 ≤ hi * value y → between64 0 hi (f64_div x y).
Proof.
  intros [Hx Hvx] Hy Hvy Hhi Hle. pose proof pw_0_pos.
  destruct (decide (value x = 0)) as [E|E].
  - destruct (val_zero_nn x Hx E) as [s ->].
    assert (0 ≤ hi) by (destruct Hhi as (z & _ & <-); apply val_nonneg).
    destruct y as [sy| | |[] m e]; try done; simpl in Hvy; try lia.
  - pose proof (val_nonneg unit_exp x).
    apply (div_within f64_prec f64_emax); try (done || lia); [by exists (S754_zero false)|].
    change (2 ^ (- unit_exp)) with (pw 0). nia.
Qed.

(** Sums of negative numbers. *)
Lemma f64_add_opp x y :
  nn64 x = true → nn64 y = true → 0 < value x → 0 < value y →
  f64_add (SFopp x) (SFopp y) = SFopp (f64_add x y).
Proof.
  intros Hx Hy Hvx Hvy. destruct x as [| | |[] mx ex], y as [| | |[] my ey]; simpl in *; try (done || lia).
  unfold f64_add, SFadd. cbn [SFopp negb cond_Zopp].
  set (m1 := fst (shl_align mx ex _)). set (m2 := fst (shl_align my ey _)).
  change (- Zpos m1 + - Zpos m2) with (- Zpos (m1 + m2)).
  change (Zpos m1 + Zpos m2) with (Zpos (m1 + m2)). apply round_opp.
Qed.

(** Products by a positive constant. *)
Lemma f64_mul_opp x y : is_nan x = false → f64_mul (SFopp x) y = SFopp (f64_mul x y).
Proof.
  intros Hx. destruct x as [sx|sx| |sx mx ex], y as [sy|sy| |sy my ey]; try done;
    try (destruct sx, sy; done).
  unfold f64_mul, SFmul. cbn [SFopp]. by rewrite <-round_aux_opp, negb_xorb_l.
Qed.

(** ** Truncation *)

Lemma trunc_opp x : trunc (SFopp x) = Z.opp <$> trunc x.
Proof.
  destruct x as [| | |[] m e]; try done; cbn; f_equal; f_equal; by rewrite ?Z.opp_involutive.
Qed.

Lemma trunc64_between M x :
  between64 0 (M * pw 0) x → ∃ z, trunc x = Some z ∧ 0 ≤ z ≤ M.
Proof. intros H. apply (trunc_within f64_prec f64_emax 0 M x); [by rewrite Z.mul_0_l|done]. Qed.
