(* ===== verification/StdAlg.v ===== *)
(** * The C++ standard algorithms the scheduler uses

    [std::find_if], [deque::erase], [std::min_element], [std::max_element],
    [std::remove] and [std::rotate] on a deque or array represented as a list,
    with iterators as indices and [end()] as the length.  [std::sort] is an
    interface (class [StdSort]): the standard promises a sorted permutation
    and nothing about equal elements, so the clients are verified against any
    implementation; insertion sort is the executable instance. *)

From S2P Require Import Prelude.

Section algorithms.
Context {A : Type}.

(** ** [std::find_if] and [erase] *)

Fixpoint find_if (p : A → bool) (l : list A) : option nat :=
  match l with
  | [] => None
  | x :: l => if p x then Some 0%nat else S <$> find_if p l
  end.

(** [deque::erase(it)]; erasing [end()] is undefined. *)
Definition erase (it : option nat) (l : list A) : outcome (list A) :=
  match it with
  | Some i => Ret (delete i l)
  | None => Undef EraseEnd
  end.

(** ** [std::max_element] and [std::min_element]

    Over the range [[0, nend)] of an array; the comparison may dereference
    null pointers, so it is an outcome. *)

Fixpoint max_element_from (cmp : A → A → outcome bool) (best : nat) (bx : A)
    (i : nat) (l : list A) : outcome nat :=
  match l with
  | [] => Ret best
  | x :: l =>
      b ← cmp bx x;
      if (b : bool) then max_element_from cmp i x (S i) l
      else max_element_from cmp best bx (S i) l
  end.

Definition max_element (cmp : A → A → outcome bool) (nend : nat) (a : list A) : outcome nat :=
  match take nend a with
  | [] => Ret nend
  | x :: l => max_element_from cmp 0 x 1 l
  end.

Fixpoint min_element_from (cmp : A → A → outcome bool) (best : nat) (bx : A)
    (i : nat) (l : list A) : outcome nat :=
  match l with
  | [] => Ret best
  | x :: l =>
      b ← cmp x bx;
      if (b : bool) then min_element_from cmp i x (S i) l
      else min_element_from cmp best bx (S i) l
  end.

Definition min_element (cmp : A → A → outcome bool) (nend : nat) (a : list A) : outcome nat :=
  match take nend a with
  | [] => Ret nend
  | x :: l => min_element_from cmp 0 x 1 l
  end.

(** ** [std::rotate(first, middle, last)] on a whole array *)

Definition rotate (middle : nat) (l : list A) : list A := drop middle l ++ take middle l.

End algorithms.

(** ** [std::remove(begin, nend, value)] on an array of pointers

    [value] is a reference into the array (the slot [v]), so it is read again
    at every comparison; a slot that is moved from holds [nullptr]. *)

Section remove.
Context {A : Type} (eqb : A → A → bool).

Definition ptr_eqb (p q : option A) : bool :=
  match p, q with
  | Some x, Some y => eqb x y
  | None, None => true
  | _, _ => false
  end.

Definition slot (a : list (option A)) (i : nat) : option A := mjoin (a !! i).

Fixpoint remove_find (n : nat) (i v : nat) (a : list (option A)) : nat :=
  match n with
  | O => i
  | S n => if ptr_eqb (slot a i) (slot a v) then i else remove_find n (S i) v a
  end.

Fixpoint remove_shift (n : nat) (first result v : nat) (a : list (option A))
    : nat * list (option A) :=
  match n with
  | O => (result, a)
  | S n =>
      if ptr_eqb (slot a first) (slot a v)
      then remove_shift n (S first) result v a
      else remove_shift n (S first) (S result) v
             (<[first := None]> (<[result := slot a first]> a))
  end.

Definition std_remove (nend v : nat) (a : list (option A)) : nat * list (option A) :=
  let first := remove_find nend 0 v a in
  if (first =? nend)%nat then (nend, a)
  else remove_shift (nend - S first) (S first) first v a.

End remove.

(** ** [std::sort] *)

(** The strict weak orders [std::sort] is defined for. *)
Class StrictWeak {A} (lt : A → A → bool) : Prop := {
  sw_irrefl x : lt x x = false;
  sw_trans x y z : lt x y = true → lt y z = true → lt x z = true;
  sw_incomp x y z : lt x y = false → lt y z = false → lt x z = false
}.

(** Sortedness as the standard states it: no later element is less than an
    earlier one. *)
Definition sorted_by {A} (lt : A → A → bool) : list A → Prop :=
  StronglySorted (λ x y, lt y x = false).

(** A comparator that is a strict weak order on the elements satisfying [P]
    only (a [<] on floats is one on the numbers, not on NaN). *)
Class StrictWeakOn {A} (P : A → Prop) (lt : A → A → bool) : Prop := {
  swo_irrefl x : P x → lt x x = false;
  swo_trans x y z : P x → P y → P z → lt x y = true → lt y z = true → lt x z = true;
  swo_incomp x y z : P x → P y → P z → lt x y = false → lt y z = false → lt x z = false
}.

#[export] Instance StrictWeak_on {A} (P : A → Prop) (lt : A → A → bool) :
  StrictWeak lt → StrictWeakOn P lt.
Proof. intros [Hi Ht Hc]. split; eauto. Qed.

Class StdSort := {
  std_sort : ∀ {A}, (A → A → bool) → list A → list A;
  std_sort_perm {A} P (lt : A → A → bool) l :
    StrictWeakOn P lt → Forall P l → std_sort lt l ≡ₚ l;
  std_sort_sorted {A} P (lt : A → A → bool) l :
    StrictWeakOn P lt → Forall P l → sorted_by lt (std_sort lt l)
}.

Fixpoint insert_by {A} (lt : A → A → bool) (x : A) (l : list A) : list A :=
  match l with
  | [] => [x]
  | y :: l => if lt x y then x :: y :: l else y :: insert_by lt x l
  end.

Fixpoint insertion_sort {A} (lt : A → A → bool) (l : list A) : list A :=
  match l with
  | [] => []
  | x :: l => insert_by lt x (insertion_sort lt l)
  end.

(** ** Lemmas *)

Section lemmas.
Context {A : Type}.
Implicit Types (l : list A) (p : A → bool).

Lemma find_if_Some p l i :
  find_if p l = Some i →
  ∃ x, l !! i = Some x ∧ p x = true ∧ ∀ j y, (j < i)%nat → l !! j = Some y → p y = false.
Proof.
  revert i. induction l as [|x l IH]; intros i; simpl; [done|].
  destruct (p x) eqn:Hp.
  - intros [= <-]. exists x. split_and!; auto. lia.
  - intros H. destruct (find_if p l) as [k|] eqn:E; simplify_eq/=.
    destruct (IH k eq_refl) as (z & ? & ? & Hlt). exists z. split_and!; auto.
    intros [|j] y Hj Hy; simplify_eq/=; auto. apply (Hlt j); [lia|done].
Qed.

Lemma find_if_None p l : find_if p l = None ↔ Forall (λ x, p x = false) l.
Proof.
  induction l as [|x l IH]; simpl; [split; auto; constructor|].
  rewrite Forall_cons, <-IH. destruct (p x); [by split; [|intros []]|].
  destruct (find_if p l); split; try done; by intros [].
Qed.

Lemma find_if_is_Some p l x : x ∈ l → p x = true → is_Some (find_if p l).
Proof.
  intros Hx Hp. destruct (find_if p l) eqn:E; [by eexists|].
  apply find_if_None in E. rewrite Forall_forall in E. apply E in Hx. congruence.
Qed.

Lemma insert_by_perm (lt : A → A → bool) x l : insert_by lt x l ≡ₚ x :: l.
Proof.
  induction l as [|y l IH]; simpl; [done|]. case_match; [done|].
  rewrite IH. constructor.
Qed.

Lemma insertion_sort_perm (lt : A → A → bool) l : insertion_sort lt l ≡ₚ l.
Proof. induction l as [|x l IH]; simpl; [done|]. by rewrite insert_by_perm, IH. Qed.

Lemma sw_asym (lt : A → A → bool) `{!StrictWeak lt} x y :
  lt x y = true → lt y x = false.
Proof.
  intros H. destruct (lt y x) eqn:E; [|done].
  pose proof (sw_trans _ _ _ H E). rewrite sw_irrefl in *. done.
Qed.

Lemma swo_asym P (lt : A → A → bool) `{!StrictWeakOn P lt} x y :
  P x → P y → lt x y = true → lt y x = false.
Proof.
  intros Px Py H. destruct (lt y x) eqn:E; [|done].
  pose proof (swo_trans x y x Px Py Px H E) as H'. by rewrite (swo_irrefl x Px) in H'.
Qed.

Lemma insert_by_sorted P (lt : A → A → bool) `{!StrictWeakOn P lt} x l :
  P x → Forall P l → sorted_by lt l → sorted_by lt (insert_by lt x l).
Proof.
  unfold sorted_by. intros Px.
  induction l as [|y l IH]; intros HP Hs; simpl; [repeat constructor|].
  apply Forall_cons in HP as [Py HP].
  inversion Hs as [|?? Hs' Hf]; subst. destruct (lt x y) eqn:E.
  - constructor; [done|]. constructor; [by eapply swo_asym|].
    apply Forall_forall. intros z Hz. rewrite Forall_forall in Hf, HP.
    specialize (Hf z Hz). apply (swo_incomp z y x); auto. by eapply swo_asym.
  - constructor; [by apply IH|]. rewrite insert_by_perm. by constructor.
Qed.

Lemma insertion_sort_sorted P (lt : A → A → bool) `{!StrictWeakOn P lt} l :
  Forall P l → sorted_by lt (insertion_sort lt l).
Proof.
  induction 1 as [|x l Px HP IH]; simpl; [constructor|].
  eapply insert_by_sorted; eauto. by rewrite insertion_sort_perm.
Qed.

End lemmas.

#[export] Instance insertion_StdSort : StdSort := {|
  std_sort A := @insertion_sort A;
  std_sort_perm A P lt l _ _ := insertion_sort_perm lt l;
  std_sort_sorted A P lt l H HP := @insertion_sort_sorted A P lt H l HP
|}.

(** ** [max_element] and [min_element] on an array of live pointers *)

Lemma min_element_from_flip {A} (cmp : A → A → outcome bool) best bx i l :
  min_element_from cmp best bx i l = max_element_from (flip cmp) best bx i l.
Proof.
  revert best bx i. induction l as [|x l IH]; intros; simpl; [done|].
  destruct (cmp x bx) as [[]| | | |]; simpl; auto.
Qed.

Lemma min_element_flip {A} (cmp : A → A → outcome bool) nend a :
  min_element cmp nend a = max_element (flip cmp) nend a.
Proof. unfold min_element, max_element. case_match; auto using min_element_from_flip. Qed.

#[export] Instance StrictWeak_flip {A} (lt : A → A → bool) :
  StrictWeak lt → StrictWeak (flip lt).
Proof. intros [Hi Ht Hc]. split; unfold flip; eauto. Qed.

Section element.
Context {A : Type} (lt : A → A → bool) `{!StrictWeak lt}.
Context (cmp : option A → option A → outcome bool)
        (Hcmp : ∀ x y, cmp (Some x) (Some y) = Ret (lt x y)).

Lemma max_element_from_spec best bx i l :
  ∃ k, max_element_from cmp best (Some bx) i (Some <$> l) = Ret k ∧
    ((k = best ∧ Forall (λ y, lt bx y = false) l) ∨
     (∃ x j, k = i + j ∧ l !! j = Some x ∧ lt bx x = true ∧ Forall (λ y, lt x y = false) l))%nat.
Proof.
  revert best bx i. induction l as [|x l IH]; intros best bx i; csimpl.
  - exists best. split; [done|]. left. auto.
  - rewrite Hcmp. csimpl. destruct (lt bx x) eqn:E.
    + destruct (IH i x (S i)) as (k & -> & [[-> Hf]|(z & j & -> & Hz & Hxz & Hf)]);
        eexists; (split; [done|]); right.
      * exists x, 0%nat. split_and!; [lia|done|done|]. constructor; [apply sw_irrefl|done].
      * exists z, (S j). split_and!; [lia|done|by eapply sw_trans|].
        constructor; [by apply sw_asym|done].
    + destruct (IH best bx (S i)) as (k & -> & [[-> Hf]|(z & j & -> & Hz & Hxz & Hf)]);
        eexists; (split; [done|]).
      * left. split; [done|]. by constructor.
      * right. exists z, (S j). split_and!; [lia|done|done|]. constructor; [|done].
        destruct (lt z x) eqn:E2; [|done]. by rewrite (sw_trans bx z x Hxz E2) in E.
Qed.

Lemma max_element_spec live dead :
  live ≠ [] →
  ∃ k x, max_element cmp (length live) ((Some <$> live) ++ dead) = Ret k ∧
    live !! k = Some x ∧ Forall (λ y, lt x y = false) live.
Proof.
  intros Hne. unfold max_element. rewrite take_app_length' by (by rewrite length_fmap).
  destruct live as [|x l]; [done|]. csimpl.
  destruct (max_element_from_spec 0 x 1 l) as (k & -> & [[-> Hf]|(z & j & -> & Hz & Hxz & Hf)]).
  - exists 0%nat, x. split_and!; auto. constructor; [apply sw_irrefl|done].
  - exists (1 + j)%nat, z. split_and!; auto. constructor; [by apply sw_asym|done].
Qed.

Lemma max_element_empty dead : max_element cmp 0 dead = Ret 0%nat.
Proof. done. Qed.

End element.

(** ** [std::remove] on an array of distinct live pointers *)

Section remove_spec.
Context {A B : Type} (eqb : A → A → bool) (key : A → B).
Context (eqb_key : ∀ x y, eqb x y = true ↔ key x = key y).

Lemma eqb_neq x y : key x ≠ key y → eqb x y = false.
Proof. intros H. destruct (eqb x y) eqn:E; [|done]. by apply eqb_key in E. Qed.

Lemma slot_middle (l : list (option A)) g l2 n : n = length l → slot (l ++ g :: l2) n = g.
Proof. intros ->. unfold slot. rewrite list_lookup_middle; [|done]. by destruct g. Qed.

Lemma slot_live (live : list A) l2 i x :
  live !! i = Some x → slot ((Some <$> live) ++ l2) i = Some x.
Proof.
  intros H. unfold slot. rewrite lookup_app_l.
  - by rewrite list_lookup_fmap, H.
  - rewrite length_fmap. by eapply lookup_lt_Some.
Qed.

Lemma remove_find_spec live dead k x n i :
  NoDup (key <$> live) → live !! k = Some x → (i ≤ k)%nat → (k < i + n)%nat →
  remove_find eqb n i k ((Some <$> live) ++ dead) = k.
Proof.
  intros Hnd Hk. revert i. induction n as [|n IH]; intros i Hik Hkn; [lia|]. simpl.
  rewrite (slot_live _ _ k x Hk).
  destruct (decide (i = k)) as [->|Hne].
  - rewrite (slot_live _ _ k x Hk). simpl. by rewrite (proj2 (eqb_key x x)).
  - destruct (lookup_lt_is_Some_2 live i) as [y Hy].
    { apply lookup_lt_Some in Hk. lia. }
    rewrite (slot_live _ _ i y Hy). simpl. rewrite eqb_neq; [apply IH; lia|].
    intros Heq. apply Hne. apply (NoDup_lookup (key <$> live) i k (key y)); [exact Hnd| |];
      rewrite list_lookup_fmap, ?Hk, ?Hy; simpl; congruence.
Qed.

Lemma remove_shift_spec (rest pre sh : list A) (g : option A) dead z :
  key z ∉ key <$> rest → NoDup (key <$> rest) → head ((Some <$> sh) ++ [g]) = Some (Some z) →
  remove_shift eqb (length rest) (S (length pre + length sh)) (length pre + length sh)
    (length pre) ((Some <$> pre ++ sh) ++ g :: (Some <$> rest) ++ dead)
  = ((length pre + length sh + length rest)%nat,
     (Some <$> pre ++ sh ++ rest) ++ (if rest is [] then g else None) :: dead).
Proof.
  revert sh g z. induction rest as [|y rest IH]; intros sh g z Hz Hnd Hhd; csimpl.
  - rewrite app_nil_r. f_equal. lia.
  - apply not_elem_of_cons in Hz as [Hzy Hz]. apply NoDup_cons in Hnd as [Hy Hnd].
    assert (slot ((Some <$> pre ++ sh) ++ g :: Some y :: (Some <$> rest) ++ dead)
              (S (length pre + length sh)) = Some y) as ->.
    { change (g :: ?l) with ([g] ++ l). rewrite (assoc_L (++)). apply slot_middle.
      rewrite length_app, length_fmap, length_app. simpl. lia. }
    assert (slot ((Some <$> pre ++ sh) ++ g :: Some y :: (Some <$> rest) ++ dead)
              (length pre) = Some z) as ->.
    { destruct sh as [|w sh]; simplify_eq/=.
      - rewrite app_nil_r. apply slot_middle. by rewrite length_fmap.
      - rewrite fmap_app, <-(assoc_L (++)). simpl. apply slot_middle. by rewrite length_fmap. }
    simpl. rewrite eqb_neq by done.
    rewrite insert_app_r_alt by (autorewrite with hlen; lia).
    replace (length pre + length sh - length (Some <$> pre ++ sh))%nat with 0%nat
      by (autorewrite with hlen; lia).
    rewrite insert_app_r_alt by (autorewrite with hlen; lia).
    replace (S (length pre + length sh) - length (Some <$> pre ++ sh))%nat with 1%nat
      by (autorewrite with hlen; lia).
    simpl.
    replace ((Some <$> pre ++ sh) ++ Some y :: None :: (Some <$> rest) ++ dead)
      with ((Some <$> pre ++ (sh ++ [y])) ++ None :: (Some <$> rest) ++ dead)
      by (by rewrite !fmap_app, <-!(assoc_L (++))).
    specialize (IH (sh ++ [y]) None (if sh is w :: _ then w else y)).
    rewrite !length_app in IH. simpl in IH.
    replace (length pre + (length sh + 1))%nat with (S (length pre + length sh)) in IH by lia.
    rewrite IH; [|by destruct sh; simplify_eq/=|done|by destruct sh].
    f_equal; [lia|]. f_equal; [by rewrite <-!(assoc_L (++))|]. by destruct rest.
Qed.

(** Removing the live pointer at index [k]: the later ones move down by one,
    and the slot that falls out of the range holds [nullptr], unless it was the
    removed one itself. *)
Lemma std_remove_spec live dead k x :
  NoDup (key <$> live) → live !! k = Some x →
  ∃ g, std_remove eqb (length live) k ((Some <$> live) ++ dead)
       = ((length live - 1)%nat, (Some <$> delete k live) ++ g :: dead) ∧
       (g = None ∨ g = Some x).
Proof.
  intros Hnd Hk. unfold std_remove.
  pose proof (lookup_lt_Some _ _ _ Hk) as Hlt.
  rewrite (remove_find_spec live dead k x) by (done || lia).
  rewrite (proj2 (Nat.eqb_neq _ _)) by lia.
  rewrite <-(take_drop_middle live k x Hk), fmap_app in Hnd. csimpl in Hnd.
  apply NoDup_app in Hnd as (_ & _ & Hnd). apply NoDup_cons in Hnd as [Hx Hnd].
  pose proof (remove_shift_spec (drop (S k) live) (take k live) [] (Some x) dead x Hx Hnd eq_refl) as H.
  rewrite !length_take, !length_drop in H. simpl in H.
  replace (k `min` length live)%nat with k in H by lia. rewrite Nat.add_0_r, app_nil_r in H.
  replace ((Some <$> live) ++ dead)
    with ((Some <$> take k live) ++ Some x :: (Some <$> drop (S k) live) ++ dead).
  - eexists. split; [etransitivity; [exact H|]|].
    + rewrite delete_take_drop. f_equal. lia.
    + case_match; auto.
  - rewrite <-(take_drop_middle live k x Hk) at 3. rewrite fmap_app, <-(assoc_L (++)). done.
Qed.

End remove_spec.
