(* ===== verification/ConcurrentDeque.v ===== *)
(** * The blocking queues: concurrent_deque.hpp and concurrent_queue.hpp

    The contents of a deque are a list, front first.  Module [Deque] gives the
    effect of every operation on the contents (what runs while the mutex is
    held, a wait on an empty deque being [Blocked]).  Module [Monitor] is the
    interleaving semantics of the locking operations: the mutex, the condition
    variable with its wait set and spurious wake-ups, and one program counter
    per thread. *)

From S2P Require Import Prelude StdAlg.

(** ** Operations on the contents *)

Module Deque.
Section ops.
Context {A : Type}.
Implicit Types (d : list A) (x : A).

Definition push_front x d : list A := x :: d.
Definition push_back x d : list A := d ++ [x].
Definition empty d : bool := if d is [] then true else false.

(** [deq.back(); deq.pop_back()] and [deq.front(); deq.pop_front()]. *)
Definition unsnoc d : option (A * list A) :=
  match last d with
  | Some x => Some (x, take (length d - 1) d)
  | None => None
  end.

Definition uncons d : option (A * list A) :=
  match d with [] => None | x :: d => Some (x, d) end.

(** The boolean result and the popped value, and the new contents. *)
Definition try_pop_back d : option A * list A :=
  match unsnoc d with Some (x, d) => (Some x, d) | None => (None, d) end.

Definition try_pop_front d : option A * list A :=
  match uncons d with Some (x, d) => (Some x, d) | None => (None, d) end.

Definition wait_pop_back d : outcome (A * list A) :=
  if empty d then Blocked else
  match unsnoc d with Some r => Ret r | None => Undef EmptyFront end.

Definition wait_pop_front d : outcome (A * list A) :=
  if empty d then Blocked else
  match uncons d with Some r => Ret r | None => Undef EmptyFront end.

Definition wait_not_empty d : outcome unit :=
  if empty d then Blocked else Ret tt.

Definition front d : outcome A :=
  match d with [] => Undef EmptyFront | x :: _ => Ret x end.

Definition back d : outcome A :=
  match last d with Some x => Ret x | None => Undef EmptyFront end.

Definition size d : nat := length d.

(** [deq.at(n)] throws [std::out_of_range]. *)
Definition at_ d (n : nat) : outcome A :=
  match d !! n with Some x => Ret x | None => Throw "out_of_range" end.

Lemma unsnoc_snoc x d : unsnoc (d ++ [x]) = Some (x, d).
Proof.
  unfold unsnoc. rewrite last_snoc, length_app. simpl.
  replace (length d + 1 - 1)%nat with (length d) by lia. by rewrite take_app_length.
Qed.

Lemma wait_pop_back_snoc x d : wait_pop_back (d ++ [x]) = Ret (x, d).
Proof. unfold wait_pop_back. rewrite unsnoc_snoc. by destruct d. Qed.

Lemma wait_pop_back_inv d x d' : wait_pop_back d = Ret (x, d') → d = d' ++ [x].
Proof.
  destruct d as [|y d _] using rev_ind; [done|].
  rewrite wait_pop_back_snoc. by intros [= -> ->].
Qed.

Lemma wait_pop_back_total d : d ≠ [] → ∃ x d', wait_pop_back d = Ret (x, d') ∧ d = d' ++ [x].
Proof.
  destruct d as [|y d _] using rev_ind; [done|]. intros _.
  exists y, d. by rewrite wait_pop_back_snoc.
Qed.

End ops.
End Deque.

(** ** concurrent_queue.hpp: the same monitor over a FIFO queue *)

Module Queue.
Section ops.
Context {A : Type}.
Implicit Types (q : list A).

Definition push (x : A) q : list A := q ++ [x].
Definition empty q : bool := Deque.empty q.
Definition try_pop q : option A * list A := Deque.try_pop_front q.
Definition wait_and_pop q : outcome (A * list A) := Deque.wait_pop_front q.
Definition size q : nat := length q.

End ops.
End Queue.

(** ** Threads on a deque *)

Module Monitor.
Section monitor.
Context {A : Type}.

(** The operations that take the mutex. *)
Inductive op : Type :=
| PushFront (x : A)
| PushBack (x : A)
| Empty
| TryPopBack
| TryPopFront
| WaitPopBack
| WaitPopFront
| WaitNotEmpty
| Erase (i : nat).

Inductive res : Type :=
| RUnit
| RBool (b : bool)
| RVal (x : option A).

(** The body of an operation under the mutex: [None] when it has to wait. *)
Definition body (o : op) (d : list A) : option (res * list A) :=
  match o with
  | PushFront x => Some (RUnit, Deque.push_front x d)
  | PushBack x => Some (RUnit, Deque.push_back x d)
  | Empty => Some (RBool (Deque.empty d), d)
  | TryPopBack => let '(r, d') := Deque.try_pop_back d in Some (RVal r, d')
  | TryPopFront => let '(r, d') := Deque.try_pop_front d in Some (RVal r, d')
  | WaitPopBack =>
      match Deque.unsnoc d with Some (x, d') => Some (RVal (Some x), d') | None => None end
  | WaitPopFront =>
      match Deque.uncons d with Some (x, d') => Some (RVal (Some x), d') | None => None end
  | WaitNotEmpty => if Deque.empty d then None else Some (RUnit, d)
  | Erase i => Some (RUnit, delete i d)
  end.

Definition is_push (o : op) : bool :=
  match o with PushFront _ | PushBack _ => true | _ => false end.

(** Program counters: outside, at the mutex, in the critical section, in the
    wait set of [cv], notified and about to take the mutex again, past
    [lock.unlock()] and about to call [cv.notify_one()]. *)
Inductive pc : Type :=
| Out
| AtLock (o : op)
| InCS (o : op)
| Waiting (o : op)
| Woken (o : op)
| Notify.

Record state := State {
  deq : list A;
  locked : bool;
  threads : list pc;
  hist : list (op * res)  (** bodies executed, newest first *)
}.

Inductive step : state → state → Prop :=
| step_call d lk l1 l2 h o :
    step (State d lk (l1 ++ Out :: l2) h) (State d lk (l1 ++ AtLock o :: l2) h)
| step_lock d l1 l2 h o :
    step (State d false (l1 ++ AtLock o :: l2) h) (State d true (l1 ++ InCS o :: l2) h)
| step_relock d l1 l2 h o :
    step (State d false (l1 ++ Woken o :: l2) h) (State d true (l1 ++ InCS o :: l2) h)
| step_body d lk l1 l2 h o r d' :
    body o d = Some (r, d') →
    step (State d lk (l1 ++ InCS o :: l2) h)
         (State d' false (l1 ++ (if is_push o then Notify else Out) :: l2) ((o, r) :: h))
| step_wait d lk l1 l2 h o :
    body o d = None →
    step (State d lk (l1 ++ InCS o :: l2) h) (State d false (l1 ++ Waiting o :: l2) h)
| step_notify_r d lk l1 l2 l3 h o :
    step (State d lk (l1 ++ Notify :: l2 ++ Waiting o :: l3) h)
         (State d lk (l1 ++ Out :: l2 ++ Woken o :: l3) h)
| step_notify_l d lk l1 l2 l3 h o :
    step (State d lk (l1 ++ Waiting o :: l2 ++ Notify :: l3) h)
         (State d lk (l1 ++ Woken o :: l2 ++ Out :: l3) h)
| step_notify_none d lk l1 l2 h :
    Forall (λ p, ¬ ∃ o, p = Waiting o) (l1 ++ l2) →
    step (State d lk (l1 ++ Notify :: l2) h) (State d lk (l1 ++ Out :: l2) h)
| step_spurious d lk l1 l2 h o :
    step (State d lk (l1 ++ Waiting o :: l2) h) (State d lk (l1 ++ Woken o :: l2) h).

Definition init (n : nat) : state := State [] false (replicate n Out) [].

Definition reachable (n : nat) : state → Prop := rtc step (init n).

(** Replays a history of operations, newest first, on the sequential deque. *)
Fixpoint replay (h : list (op * res)) : option (list A) :=
  match h with
  | [] => Some []
  | (o, r) :: h =>
      match replay h with
      | Some d =>
          match body o d with Some (_, d') => Some d' | None => None end
      | None => None
      end
  end.

(** The results in the history are those of the sequential operations. *)
Fixpoint legal (h : list (op * res)) : Prop :=
  match h with
  | [] => True
  | (o, r) :: h => legal h ∧ ∃ d d', replay h = Some d ∧ body o d = Some (r, d')
  end.

Definition count (f : pc → bool) (l : list pc) : nat := length (List.filter f l).

Definition in_cs (p : pc) : bool := if p is InCS _ then true else false.
Definition is_waiting (p : pc) : bool := if p is Waiting _ then true else false.
Definition is_wait_pop (o : op) : bool :=
  match o with WaitPopBack | WaitPopFront => true | _ => false end.
(** A thread that will still notify a waiter or take an element itself. *)
Definition is_active (p : pc) : bool :=
  match p with Notify | Woken _ => true | InCS o => is_wait_pop o | _ => false end.
(** Threads in or out of the wait set run a waiting operation. *)
Definition waits_ok (p : pc) : bool :=
  match p with Waiting o | Woken o => is_wait_pop o | _ => true end.

(** The operation of every thread is not [wait_not_empty], the one operation
    that returns on a notification without consuming an element. *)
Definition consuming (p : pc) : bool :=
  match p with
  | AtLock WaitNotEmpty | InCS WaitNotEmpty | Waiting WaitNotEmpty | Woken WaitNotEmpty => false
  | _ => true
  end.

(** Steps of threads that do not call [wait_not_empty]. *)
Definition cstep (s s' : state) : Prop :=
  step s s' ∧ Forall (λ p, consuming p = true) (threads s').

(** *** Lemmas *)

Lemma count_app f l1 l2 : count f (l1 ++ l2) = (count f l1 + count f l2)%nat.
Proof. unfold count. by rewrite List.filter_app, length_app. Qed.

Lemma count_cons f p l : count f (p :: l) = ((if f p then 1 else 0) + count f l)%nat.
Proof. unfold count. simpl. by destruct (f p). Qed.

Lemma count_replicate_Out f n : f Out = false → count f (replicate n Out) = 0%nat.
Proof. intros Hf. induction n; simpl; [done|]. by rewrite count_cons, Hf. Qed.

Lemma count_pos f l : (0 < count f l)%nat → ∃ p, p ∈ l ∧ f p = true.
Proof.
  induction l as [|p l IH]; [unfold count; simpl; lia|]. rewrite count_cons.
  destruct (f p) eqn:E; [exists p; split; [constructor|done]|].
  intros H. destruct IH as (q & ? & ?); [lia|]. exists q. split; [by constructor|done].
Qed.

Lemma body_push_length o d r d' :
  is_push o = true → body o d = Some (r, d') → length d' = S (length d).
Proof.
  destruct o; try done; intros _ [= <- <-]; unfold Deque.push_front, Deque.push_back;
    autorewrite with hlen; simpl; lia.
Qed.

Lemma body_length o d r d' :
  is_push o = false → body o d = Some (r, d') →
  (length d' + (if is_wait_pop o then 1 else 0) ≤ length d)%nat.
Proof.
  destruct o; try done; intros _; simpl.
  - intros [= <- <-]. lia.
  - unfold Deque.try_pop_back, Deque.unsnoc. destruct (last d); intros [= <- <-];
      autorewrite with hlen; lia.
  - unfold Deque.try_pop_front, Deque.uncons. destruct d; intros [= <- <-]; simpl; lia.
  - unfold Deque.unsnoc. destruct (last d) eqn:E; [|done]. intros [= <- <-].
    destruct d; [done|]. autorewrite with hlen. simpl. lia.
  - destruct d; [done|]. intros [= <- <-]. simpl. lia.
  - destruct d; [done|]. intros [= <- <-]. simpl. lia.
  - intros [= <- <-]. rewrite delete_take_drop. autorewrite with hlen. lia.
Qed.

Lemma body_None o d : body o d = None → d = [].
Proof.
  destruct o; try done; simpl.
  - unfold Deque.try_pop_back. by case_match; case_match.
  - unfold Deque.try_pop_front. by case_match; case_match.
  - unfold Deque.unsnoc. destruct (last d) eqn:E; [done|]. by apply last_None in E.
  - by destruct d.
  - by destruct d.
Qed.

Lemma body_None_wait o d : body o d = None → is_wait_pop o = true ∨ o = WaitNotEmpty.
Proof.
  destruct o; simpl; auto; try done.
  - unfold Deque.try_pop_back. by case_match; case_match.
  - unfold Deque.try_pop_front. by case_match; case_match.
Qed.

Definition mutex_inv (s : state) : Prop :=
  count in_cs (threads s) = if locked s then 1%nat else 0%nat.

Lemma mutex_inv_step s s' : mutex_inv s → step s s' → mutex_inv s'.
Proof.
  unfold mutex_inv. intros Hi Hs. destruct Hs; simpl in *;
    rewrite ?count_app, ?count_cons, ?count_app, ?count_cons in *; simpl in *; try lia.
  - destruct lk, (is_push o); simpl; lia.
  - destruct lk; lia.
Qed.

Definition lin_inv (s : state) : Prop := legal (hist s) ∧ replay (hist s) = Some (deq s).

Lemma lin_inv_step s s' : lin_inv s → step s s' → lin_inv s'.
Proof.
  intros [Hl Hr] Hs. destruct Hs as [| | |???????? Hb| | | | |]; simpl in *; try done.
  unfold lin_inv. simpl. rewrite Hr, Hb. eauto 10.
Qed.

Definition wake_inv (s : state) : Prop :=
  count waits_ok (threads s) = length (threads s) ∧
  ((0 < count is_waiting (threads s))%nat → (length (deq s) ≤ count is_active (threads s))%nat).

Lemma count_none f (l : list pc) :
  Forall (λ p, f p = false) l → count f l = 0%nat.
Proof. induction 1 as [|p l Hp _ IH]; [done|]. by rewrite count_cons, Hp, IH. Qed.

Lemma count_le f l : (count f l ≤ length l)%nat.
Proof. unfold count. apply List.filter_length_le. Qed.

Ltac counts :=
  repeat match goal with
  | H : context [count _ (_ ++ _)] |- _ => rewrite count_app in H
  | H : context [count _ (_ :: _)] |- _ => rewrite count_cons in H
  end; rewrite ?length_app in *; simpl in *.

Lemma wake_inv_step s s' : wake_inv s → cstep s s' → wake_inv s'.
Proof.
  unfold wake_inv. intros [Hok Hw] [Hs Hc].
  destruct Hs as [d lk l1 l2 h o|d l1 l2 h o|d l1 l2 h o|d lk l1 l2 h o r d' Hb
    |d lk l1 l2 h o Hb|d lk l1 l2 l3 h o|d lk l1 l2 l3 h o|d lk l1 l2 h Hn|d lk l1 l2 h o];
    simpl in *; repeat (rewrite ?count_app, ?count_cons in *; rewrite ?length_app in *; simpl in *);
    pose proof (count_le waits_ok l1); pose proof (count_le waits_ok l2);
    try pose proof (count_le waits_ok l3).
  - split; [lia|]. intros. lia.
  - split; [lia|]. intros. specialize (Hw ltac:(lia)). lia.
  - destruct (is_wait_pop o); [|lia]. split; [lia|]. intros. specialize (Hw ltac:(lia)). lia.
  - destruct (is_push o) eqn:Hp; simpl.
    + pose proof (body_push_length _ _ _ _ Hp Hb).
      assert (is_wait_pop o = false) as Ho by (by destruct o). rewrite Ho in *.
      split; [lia|]. intros. specialize (Hw ltac:(lia)). lia.
    + pose proof (body_length _ _ _ _ Hp Hb). split; [lia|]. intros.
      specialize (Hw ltac:(lia)). destruct (is_wait_pop o); lia.
  - apply body_None in Hb as Hd. subst d. simpl. apply body_None_wait in Hb as [Hb|Hb].
    + rewrite Hb. split; [lia|lia].
    + subst o. rewrite Forall_app, Forall_cons in Hc. by destruct Hc as (_ & ? & _).
  - destruct (is_wait_pop o); [|lia]. split; [lia|]. intros. specialize (Hw ltac:(lia)). lia.
  - destruct (is_wait_pop o); [|lia]. split; [lia|]. intros. specialize (Hw ltac:(lia)). lia.
  - split; [lia|]. intros Hpos. exfalso. apply Forall_app in Hn as [H1 H2].
    assert (∀ l, Forall (λ p : pc, ¬ ∃ o, p = Waiting o) l → count is_waiting l = 0%nat) as Hz.
    { intros l Hl. apply count_none. eapply Forall_impl; [exact Hl|].
      intros [] Hp; try done. by destruct Hp; eexists. }
    rewrite (Hz l1 H1), (Hz l2 H2) in Hpos. lia.
  - destruct (is_wait_pop o); [|lia]. split; [lia|]. intros. specialize (Hw ltac:(lia)). lia.
Qed.

Lemma reachable_ind (P : state → Prop) n s :
  P (init n) → (∀ s s', P s → step s s' → P s') → reachable n s → P s.
Proof.
  intros H0 Hs Hr. revert s Hr. unfold reachable. apply (rtc_ind_r P); eauto.
Qed.

(** *** Properties *)

(** Mutual exclusion.  In every interleaving of any number of threads, the
    number of threads inside a critical section of a concurrent_deque is one
    when its mutex is locked and zero when it is free. *)
Theorem mutex_exclusion n s :
  reachable n s → count in_cs (threads s) = if locked s then 1%nat else 0%nat.
Proof.
  apply (reachable_ind mutex_inv); [|intros; by eapply mutex_inv_step].
  unfold mutex_inv. simpl. by apply count_replicate_Out.
Qed.


(** C28: no lost wake-up.  While no thread uses wait_not_empty, a thread that
    waits on a non-empty deque is not forgotten: some thread is about to call
    notify_one, or has been woken, or holds the mutex and takes an element. *)
Theorem no_lost_wakeup n s :
  rtc cstep (init n) s → (0 < count is_waiting (threads s))%nat → deq s ≠ [] →
  ∃ p, p ∈ threads s ∧ is_active p = true.
Proof.
  intros Hr Hw Hd. assert (wake_inv s) as [_ Hi].
  { remember (init n) as s0 eqn:E0. assert (wake_inv s0) as H0.
    { subst. split; simpl.
      - clear. induction n; simpl; [done|]. by rewrite count_cons, IHn.
      - rewrite count_replicate_Out by done. lia. }
    clear E0 Hw Hd. induction Hr; eauto using wake_inv_step. }
  apply count_pos. specialize (Hi Hw). destruct (deq s); simpl in *; [done|lia].
Qed.

End monitor.
Arguments op : clear implicits.
Arguments res : clear implicits.
Arguments pc : clear implicits.
Arguments state : clear implicits.
End Monitor.

(** ** Witnesses *)

Module MonitorWitness.
Import Monitor.

Definition w0 : state nat := State [] false [Out; Out] [].
Definition w1 : state nat := State [] false [AtLock WaitPopFront; Out] [].
Definition w2 : state nat := State [] true [InCS WaitPopFront; Out] [].
Definition w3 : state nat := State [] false [Waiting WaitPopFront; Out] [].
Definition w4 : state nat := State [] false [Waiting WaitPopFront; AtLock (PushFront 7)] [].
Definition w5 : state nat := State [] true [Waiting WaitPopFront; InCS (PushFront 7)] [].
Definition w6 : state nat := State [7] false [Waiting WaitPopFront; Notify] [(PushFront 7, RUnit)].

Lemma w_steps :
  cstep w0 w1 ∧ cstep w1 w2 ∧ cstep w2 w3 ∧ cstep w3 w4 ∧ cstep w4 w5 ∧ cstep w5 w6.
Proof.
  split_and!; (split; [|by repeat constructor]).
  - apply (step_call [] false [] [Out] []).
  - apply (step_lock [] [] [Out] []).
  - by apply (step_wait [] true [] [Out] []).
  - apply (step_call [] false [Waiting WaitPopFront] [] []).
  - apply (step_lock [] [Waiting WaitPopFront] [] []).
  - by apply (step_body [] true [Waiting WaitPopFront] [] [] (PushFront 7)).
Qed.

Lemma w_rtc : rtc cstep w0 w6.
Proof. pose proof w_steps as (?&?&?&?&?&?). repeat (eapply rtc_l; [eassumption|]). constructor. Qed.

Lemma w_reachable : reachable 2 w5.
Proof.
  unfold reachable. pose proof w_steps as ([]&[]&[]&[]&[]&_).
  change (init 2) with w0. repeat (eapply rtc_l; [eassumption|]). constructor.
Qed.

Lemma mutex_exclusion_witness :
  reachable 2 w5 ∧ count in_cs (threads w5) = 1%nat.
Proof. split; [exact w_reachable|]. exact (mutex_exclusion 2 w5 w_reachable). Defined.


Lemma no_lost_wakeup_witness :
  rtc cstep w0 w6 ∧ ∃ p, p ∈ threads w6 ∧ is_active p = true.
Proof.
  split; [exact w_rtc|]. apply (no_lost_wakeup 2 w6); [exact w_rtc|vm_compute; lia|done].
Defined.

(** A thread in wait_not_empty can swallow the notification another thread
    needs: this state has an element, a waiting consumer and nobody active. *)
Definition stuck : state nat :=
  State [7] false [Out; Waiting WaitPopFront; Out] [(WaitNotEmpty, RUnit); (PushFront 7, RUnit)].

Ltac mstep s := eapply (rtc_l _ _ s); [|].

(** A notification can be lost when wait_not_empty and a popping wait share
    one deque: there is a run after which a consumer waits on a non-empty deque
    and no thread is going to wake it. *)
Theorem wait_not_empty_steals_wakeup :
  reachable 3 stuck ∧ deq stuck ≠ [] ∧ count is_waiting (threads stuck) = 1%nat ∧
  count is_active (threads stuck) = 0%nat.
Proof.
  split; [|by vm_compute]. unfold reachable, init. simpl.
  mstep (State (A:=nat) [] false [AtLock WaitNotEmpty; Out; Out] []); [apply (step_call [] false [])|].
  mstep (State (A:=nat) [] true [InCS WaitNotEmpty; Out; Out] []); [apply (step_lock [] [])|].
  mstep (State (A:=nat) [] false [Waiting WaitNotEmpty; Out; Out] []);
    [by apply (step_wait [] true [])|].
  mstep (State (A:=nat) [] false [Waiting WaitNotEmpty; AtLock WaitPopFront; Out] []);
    [apply (step_call [] false [Waiting WaitNotEmpty])|].
  mstep (State (A:=nat) [] true [Waiting WaitNotEmpty; InCS WaitPopFront; Out] []);
    [apply (step_lock [] [Waiting WaitNotEmpty])|].
  mstep (State (A:=nat) [] false [Waiting WaitNotEmpty; Waiting WaitPopFront; Out] []);
    [by apply (step_wait [] true [Waiting WaitNotEmpty])|].
  mstep (State (A:=nat) [] false [Waiting WaitNotEmpty; Waiting WaitPopFront; AtLock (PushFront 7%nat)] []);
    [apply (step_call [] false [Waiting WaitNotEmpty; Waiting WaitPopFront])|].
  mstep (State (A:=nat) [] true [Waiting WaitNotEmpty; Waiting WaitPopFront; InCS (PushFront 7%nat)] []);
    [apply (step_lock [] [Waiting WaitNotEmpty; Waiting WaitPopFront])|].
  mstep (State (A:=nat) [7%nat] false [Waiting WaitNotEmpty; Waiting WaitPopFront; Notify] [(PushFront 7%nat, RUnit)]);
    [by apply (step_body [] true [Waiting WaitNotEmpty; Waiting WaitPopFront] [] [] (PushFront 7%nat))|].
  mstep (State (A:=nat) [7%nat] false [Woken WaitNotEmpty; Waiting WaitPopFront; Out] [(PushFront 7%nat, RUnit)]);
    [apply (step_notify_l [7%nat] false [] [Waiting WaitPopFront] [])|].
  mstep (State (A:=nat) [7%nat] true [InCS WaitNotEmpty; Waiting WaitPopFront; Out] [(PushFront 7%nat, RUnit)]);
    [apply (step_relock [7%nat] [])|].
  mstep stuck; [|constructor].
  by apply (step_body [7%nat] true [] [Waiting WaitPopFront; Out] [(PushFront 7%nat, RUnit)] WaitNotEmpty).
Qed.

End MonitorWitness.
