(* ===== verification/Message.v ===== *)
(** * Messages: common/message.hpp and common/message.cpp

    [msg_t] is the packed header of 69 bytes followed by the flexible array
    [data].  A field is the value of its C++ type ([int] and [char] signed,
    [size_t] unsigned); the bytes of [data] are the allocated bytes after the
    header.  A [double] argument is the 64-bit pattern of its representation.
    The memory image of a message is what [Client::send] and the servers write
    to a socket and read from it. *)

From S2P Require Import Prelude.

#[local] Open Scope Z_scope.

(** ** Constants *)

Definition DFE : Z := 0.
Definition CPU : Z := 1.

Definition MSG_DONE : Z := 0.
Definition MSG_ACK : Z := 1.
Definition MSG_MOVING_AVG : Z := 2.
Definition MSG_OPTION_PRICE : Z := 3.
Definition MSG_RESULT : Z := 100.
Definition MSG_CONTROL : Z := 200.
Definition MSG_TERM : Z := 300.

Definition sizeof_int : Z := 4.
Definition sizeof_size_t : Z := 8.
Definition sizeof_double : Z := 8.
Definition sizeof_msg : Z := 69.

(** ** The structure *)

Record msg_t := Msg {
  msgId : Z;
  clientId : Z;
  priority : Z;
  avg_wt : Z;
  resourceType : Z;
  predictedTimeMillis : Z;
  targetExecutionTimeMillis : Z;
  rids : Z;
  expDataSizeBytes : Z;
  dataSize : Z;
  paramsSize : Z;
  totalBytes : Z;
  dataBytes : Z;
  data : list Z
}.

#[export] Instance msg_t_eq_dec : EqDecision msg_t.
Proof. solve_decision. Defined.

(** Field updates. *)
Definition set_clientId (m : msg_t) v := Msg (msgId m) v (priority m) (avg_wt m)
  (resourceType m) (predictedTimeMillis m) (targetExecutionTimeMillis m) (rids m)
  (expDataSizeBytes m) (dataSize m) (paramsSize m) (totalBytes m) (dataBytes m) (data m).
Definition set_msgId (m : msg_t) v := Msg v (clientId m) (priority m) (avg_wt m)
  (resourceType m) (predictedTimeMillis m) (targetExecutionTimeMillis m) (rids m)
  (expDataSizeBytes m) (dataSize m) (paramsSize m) (totalBytes m) (dataBytes m) (data m).
Definition set_resourceType (m : msg_t) v := Msg (msgId m) (clientId m) (priority m) (avg_wt m)
  v (predictedTimeMillis m) (targetExecutionTimeMillis m) (rids m)
  (expDataSizeBytes m) (dataSize m) (paramsSize m) (totalBytes m) (dataBytes m) (data m).
Definition set_predictedTimeMillis (m : msg_t) v := Msg (msgId m) (clientId m) (priority m)
  (avg_wt m) (resourceType m) v (targetExecutionTimeMillis m) (rids m)
  (expDataSizeBytes m) (dataSize m) (paramsSize m) (totalBytes m) (dataBytes m) (data m).
Definition set_rids (m : msg_t) v := Msg (msgId m) (clientId m) (priority m) (avg_wt m)
  (resourceType m) (predictedTimeMillis m) (targetExecutionTimeMillis m) v
  (expDataSizeBytes m) (dataSize m) (paramsSize m) (totalBytes m) (dataBytes m) (data m).
Definition set_avg_wt (m : msg_t) v := Msg (msgId m) (clientId m) (priority m) v
  (resourceType m) (predictedTimeMillis m) (targetExecutionTimeMillis m) (rids m)
  (expDataSizeBytes m) (dataSize m) (paramsSize m) (totalBytes m) (dataBytes m) (data m).

Definition set_data (m : msg_t) v := Msg (msgId m) (clientId m) (priority m) (avg_wt m)
  (resourceType m) (predictedTimeMillis m) (targetExecutionTimeMillis m) (rids m)
  (expDataSizeBytes m) (dataSize m) (paramsSize m) (totalBytes m) (dataBytes m) v.

(** ** Memory *)

(** [calloc(n, 1)]: zeroed bytes; a request above PTRDIFF_MAX fails. *)
Definition calloc (n : Z) : option (list Z) :=
  if 2 ^ 63 <=? n then None else Some (replicate (Z.to_nat n) 0).

(** [memcpy] of [bs] to offset [off] of the object [d]. *)
Definition write_bytes (off : Z) (bs : list Z) (d : list Z) : outcome (list Z) :=
  if (0 <=? off) && (off + Z.of_nat (length bs) <=? Z.of_nat (length d))
  then Ret (take (Z.to_nat off) d ++ bs ++ drop (Z.to_nat off + length bs) d)
  else Undef OutOfBounds.

(** Reading [n] bytes at offset [off] of the object [d]. *)
Definition read_bytes (off n : Z) (d : list Z) : outcome (list Z) :=
  if (0 <=? off) && (0 <=? n) && (off + n <=? Z.of_nat (length d))
  then Ret (slice (Z.to_nat off) (Z.to_nat n) d)
  else Undef OutOfBounds.

(** An array of [int] as bytes, and back. *)
Definition ints_bytes (l : list Z) : list Z := mjoin (le_bytes 4 <$> l).

Fixpoint bytes_ints (n : nat) (bs : list Z) : list Z :=
  match n with
  | O => []
  | S n => i32 (le_val (take 4 bs)) :: bytes_ints n (drop 4 bs)
  end.

(** A zeroed message of [sizeBytes] bytes: [(msg_t* )calloc(sizeBytes, 1)]. *)
Definition calloc_msg (sizeBytes : Z) : outcome msg_t :=
  match calloc sizeBytes with
  | None => Undef NullDeref
  | Some bs =>
      if sizeBytes <? sizeof_msg then Undef OutOfBounds
      else Ret (Msg 0 0 0 0 0 0 0 0 0 0 0 0 0 (drop 69 bs))
  end.

(** ** Constructors of messages *)

Definition header_msg (id : Z) : msg_t :=
  Msg id 0 0 0 0 0 0 0 0 0 0 sizeof_msg 0 [].

Definition msg_empty : msg_t := header_msg 0.
Definition msg_ack : msg_t := header_msg MSG_ACK.
Definition msg_done : msg_t := header_msg MSG_DONE.

(** [n] is an [int], [width] a [size_t], [dataIn] the caller's array. *)
Definition msg_moving_avg (n width : Z) (dataIn : list Z) : outcome msg_t :=
  let dataBytes := i32 (u64 (n * sizeof_int + sizeof_size_t)) in
  let sizeBytes := i32 (u64 (sizeof_msg + dataBytes)) in
  m ← calloc_msg (u64 sizeBytes);
  src ← read_bytes 0 (u64 (sizeof_int * n)) (ints_bytes dataIn);
  d ← write_bytes 0 src (data m);
  d ← write_bytes (u64 (sizeof_int * n)) (le_bytes 8 width) d;
  Ret (Msg MSG_MOVING_AVG 0 0 0 0 0 0 0
         (u64 (n * sizeof_int)) (u64 n) 1 (u64 sizeBytes) (u64 dataBytes) d).

Definition msg_option_pricing (strike sigma timestep numMaturity paraNode numPathGroup T : Z)
    : outcome msg_t :=
  let dataBytes := i32 (4 * sizeof_double + 3 * sizeof_int) in
  let sizeBytes := i32 (sizeof_msg + dataBytes) in
  m ← calloc_msg (u64 sizeBytes);
  d ← write_bytes 0 (le_bytes 8 strike) (data m);
  d ← write_bytes sizeof_double (le_bytes 8 sigma) d;
  d ← write_bytes (2 * sizeof_double) (le_bytes 8 timestep) d;
  d ← write_bytes (3 * sizeof_double) (le_bytes 4 numMaturity) d;
  d ← write_bytes (3 * sizeof_double + sizeof_int) (le_bytes 4 paraNode) d;
  d ← write_bytes (3 * sizeof_double + 2 * sizeof_int) (le_bytes 4 numPathGroup) d;
  d ← write_bytes (3 * sizeof_double + 3 * sizeof_int) (le_bytes 8 T) d;
  Ret (Msg MSG_OPTION_PRICE 0 0 0 0 0 0 0
         sizeof_double 0 7 (u64 sizeBytes) (u64 dataBytes) d).

(** ** Methods *)

(** [return *(data + dataSize * sizeof(int))]: one [char], sign-extended. *)
Definition firstParam (m : msg_t) : outcome Z :=
  bs ← read_bytes (u64 (dataSize m * sizeof_int)) 1 (data m);
  Ret (i8 (le_val bs)).

(** The loop over the four low bits of [rids]. *)
Definition nDfes (m : msg_t) : Z :=
  foldl (λ n i, if Z.land (Z.shiftl 1 i) (rids m) =? 0 then n else n + 1) 0 [0; 1; 2; 3].

(** ** Memory image *)

Definition header_bytes (m : msg_t) : list Z :=
  le_bytes 4 (msgId m) ++ le_bytes 4 (clientId m) ++ le_bytes 4 (priority m) ++
  le_bytes 4 (avg_wt m) ++ le_bytes 4 (resourceType m) ++
  le_bytes 4 (predictedTimeMillis m) ++ le_bytes 4 (targetExecutionTimeMillis m) ++
  le_bytes 1 (rids m) ++
  le_bytes 8 (expDataSizeBytes m) ++ le_bytes 8 (dataSize m) ++ le_bytes 8 (paramsSize m) ++
  le_bytes 8 (totalBytes m) ++ le_bytes 8 (dataBytes m).

Definition msg_bytes (m : msg_t) : list Z := header_bytes m ++ data m.

(** A buffer seen through a [msg_t*]; reading a field past the buffer is undefined. *)
Definition msg_of_bytes (b : list Z) : outcome msg_t :=
  if Z.of_nat (length b) <? sizeof_msg then Undef OutOfBounds else
  let int_at off := i32 (le_val (slice off 4 b)) in
  let size_at off := le_val (slice off 8 b) in
  Ret (Msg (int_at 0%nat) (int_at 4%nat) (int_at 8%nat) (int_at 12%nat) (int_at 16%nat)
         (int_at 20%nat) (int_at 24%nat) (i8 (le_val (slice 28 1 b)))
         (size_at 29%nat) (size_at 37%nat) (size_at 45%nat) (size_at 53%nat) (size_at 61%nat)
         (drop 69 b)).

(** The fields hold values of their C++ types. *)
Definition int_range (z : Z) : Prop := INT_MIN ≤ z ≤ INT_MAX.
Definition size_range (z : Z) : Prop := 0 ≤ z < 2 ^ 64.

Definition msg_typed (m : msg_t) : Prop :=
  int_range (msgId m) ∧ int_range (clientId m) ∧ int_range (priority m) ∧
  int_range (avg_wt m) ∧ int_range (resourceType m) ∧
  int_range (predictedTimeMillis m) ∧ int_range (targetExecutionTimeMillis m) ∧
  -128 ≤ rids m < 128 ∧
  size_range (expDataSizeBytes m) ∧ size_range (dataSize m) ∧ size_range (paramsSize m) ∧
  size_range (totalBytes m) ∧ size_range (dataBytes m).

(** ** Lemmas *)

Lemma read_bytes_slice (pre mid post : list Z) off n :
  off = Z.of_nat (length pre) → n = Z.of_nat (length mid) →
  read_bytes off n (pre ++ mid ++ post) = Ret mid.
Proof.
  intros -> ->. unfold read_bytes. rewrite !length_app.
  rewrite !(proj2 (Z.leb_le _ _)) by lia. simpl. f_equal. rewrite !Nat2Z.id.
  rewrite slice_app_skip by done. by rewrite take_app_length.
Qed.

Lemma read_bytes_0 (mid post : list Z) n :
  n = Z.of_nat (length mid) → read_bytes 0 n (mid ++ post) = Ret mid.
Proof. intros. by apply (read_bytes_slice [] mid post). Qed.

Lemma write_bytes_slice (pre mid post bs : list Z) off :
  off = Z.of_nat (length pre) → length bs = length mid →
  write_bytes off bs (pre ++ mid ++ post) = Ret (pre ++ bs ++ post).
Proof.
  intros -> Hl. unfold write_bytes. rewrite !length_app.
  rewrite !(proj2 (Z.leb_le _ _)) by lia. simpl. f_equal. rewrite !Nat2Z.id.
  rewrite take_app_length. f_equal. f_equal. rewrite drop_app_add, Hl, drop_app_length. done.
Qed.

Lemma write_bytes_length off bs d d' :
  write_bytes off bs d = Ret d' → length d' = length d.
Proof.
  unfold write_bytes. case_match; [|done]. zbool. intros [= <-].
  autorewrite with hlen. lia.
Qed.

Lemma write_bytes_ok off bs d d' :
  Forall byte_ok bs → Forall byte_ok d → write_bytes off bs d = Ret d' → Forall byte_ok d'.
Proof.
  unfold write_bytes. case_match; [|done]. intros ? ? [= <-].
  rewrite !Forall_app. auto using Forall_take, Forall_drop.
Qed.

Lemma ints_bytes_cons x l : ints_bytes (x :: l) = le_bytes 4 x ++ ints_bytes l.
Proof. done. Qed.

Lemma length_ints_bytes l : length (ints_bytes l) = (4 * length l)%nat.
Proof.
  induction l as [|x l IH]; [done|].
  rewrite ints_bytes_cons, length_app, length_le_bytes, IH. simpl. lia.
Qed.

Lemma ints_bytes_ok l : Forall byte_ok (ints_bytes l).
Proof.
  induction l; [constructor|]. rewrite ints_bytes_cons, Forall_app.
  auto using le_bytes_ok.
Qed.

Lemma i32_le z : int_range z → i32 (le_val (le_bytes 4 z)) = z.
Proof.
  unfold int_range, INT_MIN, INT_MAX. intros. rewrite le_val_le_bytes. change (8 * Z.of_nat 4) with 32.
  rewrite swrap_wrap by lia. apply swrap_small; simpl; lia.
Qed.

Lemma size_le z : size_range z → le_val (le_bytes 8 z) = z.
Proof. intros. rewrite le_val_le_bytes. by apply wrap_small. Qed.

Lemma i8_le z : -128 ≤ z < 128 → i8 (le_val (le_bytes 1 z)) = z.
Proof.
  intros. rewrite le_val_le_bytes. change (8 * Z.of_nat 1) with 8.
  rewrite swrap_wrap by lia. apply swrap_small; simpl; lia.
Qed.

Lemma bytes_ints_bytes l r :
  Forall int_range l → bytes_ints (length l) (ints_bytes l ++ r) = l.
Proof.
  induction 1 as [|x l Hx _ IH]; [done|].
  cbn [length bytes_ints]. rewrite ints_bytes_cons, <-(assoc_L (++)).
  rewrite take_app_length' by done. rewrite drop_app_length' by done.
  by rewrite IH, i32_le.
Qed.

Lemma calloc_msg_ok n :
  0 ≤ n → sizeof_msg + n < 2 ^ 63 →
  calloc_msg (sizeof_msg + n) = Ret (Msg 0 0 0 0 0 0 0 0 0 0 0 0 0 (replicate (Z.to_nat n) 0)).
Proof.
  intros Hn Hb. unfold calloc_msg, calloc. rewrite (proj2 (Z.leb_gt _ _)) by lia.
  rewrite (proj2 (Z.ltb_ge _ _)) by lia. do 2 f_equal.
  rewrite drop_replicate. f_equal. unfold sizeof_msg. lia.
Qed.

(** The largest [n] whose message size fits an [int]. *)
Definition MAX_N : Z := 536870892.

Lemma msg_moving_avg_ret n width dataIn :
  n = Z.of_nat (length dataIn) → n ≤ MAX_N →
  msg_moving_avg n width dataIn =
    Ret (Msg MSG_MOVING_AVG 0 0 0 0 0 0 0 (4 * n) n 1 (77 + 4 * n) (4 * n + 8)
           (ints_bytes dataIn ++ le_bytes 8 width)).
Proof.
  unfold MAX_N. intros Hn Hmax. unfold msg_moving_avg.
  assert (u64 (n * sizeof_int + sizeof_size_t) = 4 * n + 8) as ->.
  { unfold sizeof_int, sizeof_size_t. rewrite wrap_small; lia. }
  rewrite (swrap_small 32 (4 * n + 8)) by lia.
  assert (u64 (sizeof_msg + (4 * n + 8)) = 77 + 4 * n) as ->.
  { unfold sizeof_msg. rewrite wrap_small; lia. }
  rewrite (swrap_small 32 (77 + 4 * n)) by lia.
  assert (u64 (sizeof_int * n) = 4 * n) as -> by (unfold sizeof_int; rewrite wrap_small; lia).
  rewrite (wrap_small 64 (77 + 4 * n)), (wrap_small 64 n), (wrap_small 64 (4 * n + 8)),
    (wrap_small 64 (n * sizeof_int)) by (unfold sizeof_int; lia).
  replace (calloc_msg (77 + 4 * n)) with (calloc_msg (sizeof_msg + (4 * n + 8)))
    by (f_equal; unfold sizeof_msg; lia).
  rewrite calloc_msg_ok by (unfold sizeof_msg; lia). cbn [mbind outcome_bind data].
  pose proof (length_ints_bytes dataIn) as Hl.
  assert (read_bytes 0 (4 * n) (ints_bytes dataIn) = Ret (ints_bytes dataIn)) as ->.
  { rewrite <-(app_nil_r (ints_bytes dataIn)) at 1. apply read_bytes_0. lia. }
  cbn [mbind outcome_bind].
  replace (replicate (Z.to_nat (4 * n + 8)) 0)
    with (([] : list Z) ++ replicate (length (ints_bytes dataIn)) 0 ++ replicate 8 0).
  2:{ rewrite app_nil_l, <-replicate_add. f_equal. lia. }
  rewrite write_bytes_slice by (rewrite ?length_replicate; done).
  cbn [mbind outcome_bind]. rewrite <-(app_nil_r (replicate 8 0)).
  rewrite app_nil_l. rewrite write_bytes_slice by (rewrite ?length_replicate, ?length_le_bytes; lia).
  cbn [mbind outcome_bind]. rewrite app_nil_r.
  rewrite (Z.mul_comm n sizeof_int). done.
Qed.

Lemma length_header_bytes m : length (header_bytes m) = 69%nat.
Proof. unfold header_bytes. rewrite !length_app, !length_le_bytes. done. Qed.

Lemma wire_roundtrip m : msg_typed m → msg_of_bytes (msg_bytes m) = Ret m.
Proof.
  destruct m as [f1 f2 f3 f4 f5 f6 f7 f8 f9 f10 f11 f12 f13 d].
  unfold msg_typed. simpl. intros (?&?&?&?&?&?&?&?&?&?&?&?&?).
  unfold msg_of_bytes, msg_bytes. rewrite length_app, length_header_bytes.
  rewrite (proj2 (Z.ltb_ge _ _)) by (unfold sizeof_msg; lia).
  transitivity (Ret (Msg (i32 (le_val (le_bytes 4 f1))) (i32 (le_val (le_bytes 4 f2)))
    (i32 (le_val (le_bytes 4 f3))) (i32 (le_val (le_bytes 4 f4)))
    (i32 (le_val (le_bytes 4 f5))) (i32 (le_val (le_bytes 4 f6)))
    (i32 (le_val (le_bytes 4 f7))) (i8 (le_val (le_bytes 1 f8)))
    (le_val (le_bytes 8 f9)) (le_val (le_bytes 8 f10)) (le_val (le_bytes 8 f11))
    (le_val (le_bytes 8 f12)) (le_val (le_bytes 8 f13)) d)); [reflexivity|].
  by rewrite !i32_le, i8_le, !size_le.
Qed.

(** ** Properties *)

(** The moving-average request a client builds for an array of [n] ints (up to
    the size where the byte count fits an int) has the array and then the window
    width in its data, and its three byte counts are those of the buffer. *)
Theorem msg_moving_avg_layout n width dataIn m :
  n = Z.of_nat (length dataIn) → n ≤ MAX_N → Forall int_range dataIn →
  msg_moving_avg n width dataIn = Ret m →
  msgId m = MSG_MOVING_AVG ∧ dataSize m = n ∧ expDataSizeBytes m = 4 * n ∧
  totalBytes m = Z.of_nat (length (msg_bytes m)) ∧
  dataBytes m = Z.of_nat (length (data m)) ∧
  bytes_ints (length dataIn) (data m) = dataIn ∧
  le_val (drop (4 * length dataIn) (data m)) = u64 width.
Proof.
  intros Hn Hmax Hr. rewrite (msg_moving_avg_ret n width dataIn Hn Hmax). intros [= <-].
  unfold msg_bytes. rewrite length_app, length_header_bytes.
  cbn [msgId dataSize expDataSizeBytes totalBytes dataBytes data].
  rewrite length_app, length_le_bytes, length_ints_bytes. split_and!; try done; try lia.
  - by apply bytes_ints_bytes.
  - rewrite drop_app_length' by (by rewrite length_ints_bytes).
    by rewrite le_val_le_bytes.
Qed.

(** C33: firstParam reads one signed char of the eight bytes of the width: the
    dispatcher gets the low byte, sign-extended, and so the width itself exactly
    when it is below 128. *)
Theorem firstParam_moving_avg n width dataIn m :
  n = Z.of_nat (length dataIn) → n ≤ MAX_N → size_range width →
  msg_moving_avg n width dataIn = Ret m →
  firstParam m = Ret (i8 width) ∧ (firstParam m = Ret width ↔ width < 128).
Proof.
  intros Hn Hmax Hw. rewrite (msg_moving_avg_ret n width dataIn Hn Hmax). intros [= <-].
  assert (firstParam (Msg MSG_MOVING_AVG 0 0 0 0 0 0 0 (4 * n) n 1 (77 + 4 * n) (4 * n + 8)
           (ints_bytes dataIn ++ le_bytes 8 width)) = Ret (i8 width)) as E.
  { unfold firstParam. simpl dataSize. simpl data.
    rewrite wrap_small by (unfold sizeof_int, MAX_N in *; lia).
    change (le_bytes 8 width) with (le_bytes 1 width ++ le_bytes 7 (width / 256)).
    rewrite (read_bytes_slice (ints_bytes dataIn) (le_bytes 1 width)).
    - cbn [mbind outcome_bind]. rewrite le_val_le_bytes. f_equal. apply (swrap_wrap 8). lia.
    - rewrite length_ints_bytes. unfold sizeof_int. lia.
    - done. }
  rewrite E. split; [done|]. split.
  - intros [= H]. pose proof (swrap_range 8 width ltac:(lia)). simpl in *. lia.
  - intros. f_equal. apply swrap_small; unfold size_range in *; simpl; lia.
Qed.

(** A message whose fields are values of their types survives the wire: the
    receiver that reads the sender's memory image through a msg_t pointer sees
    the same fields and data. *)
Theorem msg_wire_roundtrip m : msg_typed m → msg_of_bytes (msg_bytes m) = Ret m.
Proof. apply wire_roundtrip. Qed.

(** The bytes of the seven parameters, in the order the dispatcher reads them. *)
Lemma msg_option_pricing_ret strike sigma timestep numMaturity paraNode numPathGroup T :
  msg_option_pricing strike sigma timestep numMaturity paraNode numPathGroup T =
    Ret (Msg MSG_OPTION_PRICE 0 0 0 0 0 0 0 8 0 7 113 44
           (le_bytes 8 strike ++ le_bytes 8 sigma ++ le_bytes 8 timestep ++
            le_bytes 4 numMaturity ++ le_bytes 4 paraNode ++ le_bytes 4 numPathGroup ++
            le_bytes 8 T)).
Proof. reflexivity. Qed.

(** ** Witnesses *)

Definition sample_data : list Z := [5; -6; 7].

Definition sample_msg : msg_t :=
  Msg 2 0 0 0 0 0 0 0 12 3 1 89 20
    [5; 0; 0; 0; 250; 255; 255; 255; 7; 0; 0; 0; 3; 0; 0; 0; 0; 0; 0; 0].

Lemma sample_ints : Forall int_range sample_data.
Proof. repeat constructor; vm_compute; congruence. Qed.

Lemma msg_moving_avg_layout_witness :
  msg_moving_avg 3 3 sample_data = Ret sample_msg ∧
  bytes_ints 3 (data sample_msg) = sample_data.
Proof.
  split; [vm_compute; reflexivity|].
  exact (proj1 (proj2 (proj2 (proj2 (proj2 (proj2 (msg_moving_avg_layout 3 3 sample_data sample_msg
    eq_refl ltac:(vm_compute; congruence) sample_ints ltac:(vm_compute; reflexivity)))))))).
Defined.

Lemma firstParam_moving_avg_witness : firstParam sample_msg = Ret 3.
Proof.
  exact (proj1 (firstParam_moving_avg 3 3 sample_data sample_msg eq_refl
    ltac:(vm_compute; congruence) ltac:(vm_compute; split; congruence)
    ltac:(vm_compute; reflexivity))).
Defined.

Lemma msg_wire_roundtrip_witness : msg_of_bytes (msg_bytes sample_msg) = Ret sample_msg.
Proof.
  apply (msg_wire_roundtrip sample_msg).
  unfold msg_typed, int_range, size_range; simpl; unfold INT_MIN, INT_MAX; lia.
Defined.

(** A width of 200 reaches the dispatcher as -56, one of 256 as 0. *)
Example firstParam_200 :
  (m ← msg_moving_avg 3 200 sample_data; firstParam m) = Ret (-56).
Proof. vm_compute. reflexivity. Qed.

Example firstParam_256 :
  (m ← msg_moving_avg 3 256 sample_data; firstParam m) = Ret 0.
Proof. vm_compute. reflexivity. Qed.
