(* ===== verification/ControlMsg.v ===== *)
(** * Control messages: common/protobuf and common/old_message

    The ControlMSG class of packet.pb.cc (its five string fields, unknown
    fields, byte size, serialization and parsing loop) over the primitives of
    the protobuf library, which is not part of the sources: class [WireFormat]
    states what the generated code relies on, and [varint_format] is the
    documented encoding.  Then the message layer of common/protobuf/message.cpp
    and common/old_message/message.cpp, whose struct has a 24-byte header, on
    blocks of memory. *)

From Stdlib Require Import Ascii.
From S2P Require Import Prelude Message.

#[local] Open Scope Z_scope.

(** ** The primitives of the protobuf library *)

Class WireFormat := {
  (** WriteStringToArray: tag, length and contents *)
  write_string : Z → list Z → list Z;
  (** StringSize: length and contents *)
  string_size : list Z → Z;
  (** ReadTag: 0 at the end of the input *)
  read_tag : list Z → Z * list Z;
  (** ReadString: the contents and the rest of the input *)
  read_string : list Z → option (list Z * list Z);
  (** ExpectTag: may also miss the tag *)
  expect_tag : Z → list Z → option (list Z);
  expect_at_end : list Z → bool;
  (** SkipField: the raw bytes of the field and the rest *)
  skip_field : Z → list Z → option (list Z * list Z);

  write_string_size f s :
    1 ≤ f < 16 → Z.of_nat (length (write_string f s)) = 1 + string_size s;
  read_written f s rest :
    1 ≤ f < 16 → Z.of_nat (length s) < 2 ^ 31 →
    ∃ body, read_tag (write_string f s ++ rest) = (8 * f + 2, body) ∧
      read_string body = Some (s, rest);
  read_tag_end : read_tag [] = (0, []);
  expect_tag_sound t input rest : expect_tag t input = Some rest → read_tag input = (t, rest);
  expect_at_end_sound input : expect_at_end input = true → input = []
}.

(** ** ControlMSG *)

Record ControlMSG := MkControl {
  command : option (list Z);
  arg1 : option (list Z);
  arg2 : option (list Z);
  arg3 : option (list Z);
  arg4 : option (list Z);
  unknown_fields : list Z
}.

Definition new_ControlMSG : ControlMSG := MkControl None None None None None [].

Definition set_command s c := MkControl (Some s) (arg1 c) (arg2 c) (arg3 c) (arg4 c) (unknown_fields c).
Definition set_arg1 s c := MkControl (command c) (Some s) (arg2 c) (arg3 c) (arg4 c) (unknown_fields c).
Definition set_arg2 s c := MkControl (command c) (arg1 c) (Some s) (arg3 c) (arg4 c) (unknown_fields c).
Definition set_arg3 s c := MkControl (command c) (arg1 c) (arg2 c) (Some s) (arg4 c) (unknown_fields c).
Definition set_arg4 s c := MkControl (command c) (arg1 c) (arg2 c) (arg3 c) (Some s) (unknown_fields c).
Definition add_unknown u c :=
  MkControl (command c) (arg1 c) (arg2 c) (arg3 c) (arg4 c) (unknown_fields c ++ u).

Definition set_field (f : Z) (s : list Z) (c : ControlMSG) : ControlMSG :=
  if f =? 1 then set_command s c else if f =? 2 then set_arg1 s c
  else if f =? 3 then set_arg2 s c else if f =? 4 then set_arg3 s c
  else if f =? 5 then set_arg4 s c else c.

Definition IsInitialized (c : ControlMSG) : bool :=
  match command c with Some _ => true | None => false end.

Section generated.
Context `{!WireFormat}.

Definition field_size (s : option (list Z)) : Z :=
  match s with Some s => 1 + string_size s | None => 0 end.

Definition ByteSize (c : ControlMSG) : Z :=
  field_size (command c) + field_size (arg1 c) + field_size (arg2 c) + field_size (arg3 c) +
  field_size (arg4 c) + Z.of_nat (length (unknown_fields c)).

Definition write_field (f : Z) (s : option (list Z)) : list Z :=
  match s with Some s => write_string f s | None => [] end.

Definition Serialize (c : ControlMSG) : list Z :=
  write_field 1 (command c) ++ write_field 2 (arg1 c) ++ write_field 3 (arg2 c) ++
  write_field 4 (arg3 c) ++ write_field 5 (arg4 c) ++ unknown_fields c.

(** The case of field [5 - n]: its string, then the next field without a new
    round of the loop if its tag follows.  The flag says that the whole parse
    is over (ExpectAtEnd). *)
Fixpoint parse_arg (n : nat) (c : ControlMSG) (input : list Z)
    : option (ControlMSG * list Z * bool) :=
  let f := 5 - Z.of_nat n in
  '(s, input) ← read_string input;
  let c := set_field f s c in
  match n with
  | O => Some (c, input, expect_at_end input)
  | S n =>
      match expect_tag (8 * (f + 1) + 2) input with
      | Some input => parse_arg n c input
      | None => Some (c, input, false)
      end
  end.

(** MergePartialFromCodedStream; [None] for the return value false. *)
Fixpoint merge_loop (fuel : nat) (c : ControlMSG) (input : list Z) : outcome (option ControlMSG) :=
  match fuel with
  | O => OutOfFuel
  | S fuel =>
      let '(tag, input) := read_tag input in
      if tag =? 0 then Ret (Some c)
      else
        let field := Z.shiftr tag 3 in
        let wire := Z.land tag 7 in
        if (1 <=? field) && (field <=? 5) && (wire =? 2) then
          match parse_arg (Z.to_nat (5 - field)) c input with
          | None => Ret None
          | Some (c, _, true) => Ret (Some c)
          | Some (c, input, false) => merge_loop fuel c input
          end
        else if wire =? 4 then Ret (Some c)
        else
          match skip_field tag input with
          | None => Ret None
          | Some (u, input) => merge_loop fuel (add_unknown u c) input
          end
  end.

Definition MergePartial (c : ControlMSG) (input : list Z) : outcome (option ControlMSG) :=
  merge_loop (S (length input)) c input.

(** ** The struct of common/protobuf/message.hpp in memory *)

Definition sizeof_old : Z := 24.

(** [calloc(n, size)] *)
Definition calloc2 (n size : Z) : outcome (list Z) :=
  if 2 ^ 63 <=? n * size then Undef NullDeref else Ret (replicate (Z.to_nat (n * size)) 0).

Definition put_msgId (v : Z) (b : list Z) : outcome (list Z) := write_bytes 0 (le_bytes 4 v) b.
Definition put_dataSize (v : Z) (b : list Z) : outcome (list Z) := write_bytes 8 (le_bytes 8 v) b.
Definition put_paramsSize (v : Z) (b : list Z) : outcome (list Z) := write_bytes 16 (le_bytes 8 v) b.

Definition bytes_of (s : string) : list Z :=
  (λ a, Z.of_nat (nat_of_ascii a)) <$> String.list_ascii_of_string s.

(** What every control constructor ends with. *)
Definition control_header (sizeBytes : Z) (b : list Z) : outcome (list Z) :=
  b ← put_msgId MSG_CONTROL b;
  b ← put_dataSize (u64 sizeBytes / sizeof_int) b;
  put_paramsSize 0 b.

Definition msg_control_add_res (type host port : string) : outcome (list Z) :=
  let c := set_arg3 (bytes_of type) (set_arg2 (bytes_of port) (set_arg1 (bytes_of host)
             (set_command (bytes_of "ADD_RESOURCE") new_ControlMSG))) in
  let sizeBytes := i32 (ByteSize c) in
  b ← calloc2 (u64 (sizeBytes + sizeof_old)) 0;
  b ← write_bytes sizeof_old (Serialize c) b;
  control_header sizeBytes b.

Definition msg_control_rm_res (rid : string) : outcome (list Z) :=
  let c := set_arg1 (bytes_of rid) (set_command (bytes_of "RM_RESOURCE") new_ControlMSG) in
  let sizeBytes := i32 (ByteSize c) in
  b ← calloc2 (u64 (sizeBytes + sizeof_old)) 0;
  control_header sizeBytes b.

Definition msg_control_add_imp (funcName libName task_name type : string) : outcome (list Z) :=
  let c := set_arg4 (bytes_of type) (set_arg3 (bytes_of libName) (set_arg2 (bytes_of funcName)
             (set_arg1 (bytes_of task_name)
               (set_command (bytes_of "ADD_IMPLEMENTATION") new_ControlMSG)))) in
  let sizeBytes := i32 (ByteSize c) in
  b ← calloc2 (u64 (sizeBytes + sizeof_old)) 0;
  control_header sizeBytes b.

Definition msg_control_rm_imp (imp_id : string) : outcome (list Z) :=
  let c := set_arg1 (bytes_of imp_id)
             (set_command (bytes_of "RM_IMPLEMENTATION") new_ControlMSG) in
  let sizeBytes := i32 (ByteSize c) in
  b ← calloc2 (u64 (sizeBytes + sizeof_old)) 0;
  control_header sizeBytes b.

Definition msg_control_add_task (task_name : string) : outcome (list Z) :=
  let c := set_arg1 (bytes_of task_name) (set_command (bytes_of "ADD_TASK") new_ControlMSG) in
  let sizeBytes := i32 (ByteSize c) in
  b ← calloc2 (u64 (sizeBytes + sizeof_old)) 0;
  control_header sizeBytes b.

Definition msg_control_rm_task (task_name : string) : outcome (list Z) :=
  let c := set_arg1 (bytes_of task_name) (set_command (bytes_of "RM_TASK") new_ControlMSG) in
  let sizeBytes := i32 (ByteSize c) in
  b ← calloc2 (u64 (sizeBytes + sizeof_old)) 0;
  control_header sizeBytes b.

End generated.

(** ** Constructors and methods shared with common/old_message *)

Definition old_size_at (off : Z) (b : list Z) : outcome Z :=
  bs ← read_bytes off 8 b; Ret (le_val bs).
Definition old_dataSize (b : list Z) : outcome Z := old_size_at 8 b.
Definition old_paramsSize (b : list Z) : outcome Z := old_size_at 16 b.

Definition old_dataBytes (b : list Z) : outcome Z :=
  n ← old_dataSize b;
  p ← old_paramsSize b;
  Ret (u64 (u64 (n + p) * sizeof_int)).

Definition old_sizeBytes (b : list Z) : outcome Z :=
  n ← old_dataBytes b; Ret (u64 (sizeof_old + n)).

Definition old_firstParam (b : list Z) : outcome Z :=
  n ← old_dataSize b;
  bs ← read_bytes (u64 (sizeof_old + u64 (n * sizeof_int))) 1 b;
  Ret (i8 (le_val bs)).

Definition old_msg_empty : outcome (list Z) := calloc2 sizeof_old 1.

Definition old_msg_ack : outcome (list Z) :=
  b ← calloc2 sizeof_old 1; put_msgId MSG_ACK b.

Definition old_msg_moving_avg (n width : Z) (dataIn : list Z) : outcome (list Z) :=
  let sizeBytes := i32 (u64 (sizeof_old + u64 (n * sizeof_int) + sizeof_size_t)) in
  b ← calloc2 (u64 sizeBytes) 1;
  b ← put_msgId MSG_MOVING_AVG b;
  b ← put_dataSize (u64 n) b;
  b ← put_paramsSize 1 b;
  src ← read_bytes 0 (u64 (sizeof_int * n)) (ints_bytes dataIn);
  b ← write_bytes sizeof_old src b;
  write_bytes (sizeof_old + u64 (sizeof_int * n)) (le_bytes 8 width) b.

(** ** The documented encoding *)

(** Base-128 groups, least significant first, with a continuation bit. *)
Fixpoint encode_varint (fuel : nat) (n : Z) : list Z :=
  match fuel with
  | O => []
  | S fuel => if n <? 128 then [n] else (n mod 128 + 128) :: encode_varint fuel (n / 128)
  end.

Fixpoint decode_varint (fuel : nat) (input : list Z) : option (Z * list Z) :=
  match fuel, input with
  | S fuel, b :: input =>
      if b <? 128 then Some (b, input)
      else '(n, input) ← decode_varint fuel input; Some (b - 128 + 128 * n, input)
  | _, _ => None
  end.

Definition take_bytes (n : Z) (input : list Z) : option (list Z * list Z) :=
  if Z.of_nat (length input) <? n then None
  else Some (take (Z.to_nat n) input, drop (Z.to_nat n) input).

Definition varint_write (f : Z) (s : list Z) : list Z :=
  encode_varint 5 (8 * f + 2) ++ encode_varint 5 (Z.of_nat (length s)) ++ s.

Definition varint_read_tag (input : list Z) : Z * list Z :=
  match decode_varint 5 input with Some r => r | None => (0, input) end.

Definition varint_read_string (input : list Z) : option (list Z * list Z) :=
  '(n, input) ← decode_varint 5 input; take_bytes n input.

(** The payload of a field of an unknown number, by its wire type. *)
Definition varint_skip (tag : Z) (input : list Z) : option (list Z * list Z) :=
  let wire := Z.land tag 7 in
  '(payload, rest) ←
    (if wire =? 0 then '(n, rest) ← decode_varint 10 input; Some (encode_varint 10 n, rest)
     else if wire =? 1 then take_bytes 8 input
     else if wire =? 2 then
       '(n, rest) ← decode_varint 5 input;
       '(s, rest) ← take_bytes n rest; Some (encode_varint 5 n ++ s, rest)
     else if wire =? 5 then take_bytes 4 input
     else None);
  Some (encode_varint 5 tag ++ payload, rest).

Lemma decode_encode_varint fuel n rest :
  0 ≤ n < 128 ^ Z.of_nat (S fuel) →
  decode_varint (S fuel) (encode_varint (S fuel) n ++ rest) = Some (n, rest).
Proof.
  revert n. induction fuel as [|fuel IH]; intros n Hn.
  - change (128 ^ Z.of_nat 1) with 128 in Hn. cbn [encode_varint].
    rewrite (proj2 (Z.ltb_lt _ _)) by lia. cbn. by rewrite (proj2 (Z.ltb_lt _ _)) by lia.
  - remember (S fuel) as fuel' eqn:Ef. cbn [encode_varint].
    destruct (Z.ltb_spec n 128) as [Hlt|Hge].
    + cbn. by rewrite (proj2 (Z.ltb_lt _ _)) by lia.
    + pose proof (Z.mod_pos_bound n 128). pose proof (Z.div_mod n 128).
      cbn [app decode_varint]. rewrite (proj2 (Z.ltb_ge _ _)) by lia. rewrite IH.
      * cbn. do 2 f_equal. lia.
      * rewrite Nat2Z.inj_succ, Z.pow_succ_r in Hn by lia.
        split; [apply Z.div_pos; lia|apply Z.div_lt_upper_bound; lia].
Qed.

Lemma take_bytes_app s rest : take_bytes (Z.of_nat (length s)) (s ++ rest) = Some (s, rest).
Proof.
  unfold take_bytes. rewrite length_app, (proj2 (Z.ltb_ge _ _)) by lia.
  by rewrite Nat2Z.id, take_app_length, drop_app_length.
Qed.

Lemma encode_tag f : 1 ≤ f < 16 → encode_varint 5 (8 * f + 2) = [8 * f + 2].
Proof. intros Hf. cbn [encode_varint]. by rewrite (proj2 (Z.ltb_lt _ _)) by lia. Qed.

#[export, refine] Instance varint_format : WireFormat := {|
  write_string := varint_write;
  string_size s := Z.of_nat (length (encode_varint 5 (Z.of_nat (length s)) ++ s));
  read_tag := varint_read_tag;
  read_string := varint_read_string;
  expect_tag t input :=
    let '(t', rest) := varint_read_tag input in if t =? t' then Some rest else None;
  expect_at_end input := bool_decide (input = []);
  skip_field := varint_skip
|}.
Proof.
  - intros f s Hf. unfold varint_write. rewrite encode_tag by done.
    rewrite length_app. cbn [length]. lia.
  - intros f s rest Hf Hs. unfold varint_write, varint_read_tag, varint_read_string.
    assert (128 ^ Z.of_nat 5 = 34359738368) as H128 by done.
    rewrite <-!app_assoc, decode_encode_varint by (rewrite H128; lia).
    eexists. split; [done|]. rewrite decode_encode_varint by (rewrite H128; lia). cbn. apply take_bytes_app.
  - done.
  - intros t input rest. destruct (varint_read_tag input) as [t' r].
    destruct (Z.eqb_spec t t'); [|done]. intros [= ->]. by subst.
  - intros input H. by apply bool_decide_eq_true in H.
Defined.

(** ** Lemmas *)

Section laws.
Context `{!WireFormat}.

Lemma write_string_nonempty f s :
  1 ≤ f < 16 → Z.of_nat (length s) < 2 ^ 31 → write_string f s ≠ [].
Proof.
  intros Hf Hs Hn. destruct (read_written f s [] Hf Hs) as (body&Ht&_).
  rewrite Hn, app_nil_r, read_tag_end in Ht. injection Ht as Ht _. lia.
Qed.

(** Fields of the message in any order. *)
Definition writes (l : list (Z * list Z)) : list Z := mjoin ((λ p, write_string (fst p) (snd p)) <$> l).

Definition known (p : Z * list Z) : Prop := 1 ≤ fst p ≤ 5 ∧ Z.of_nat (length (snd p)) < 2 ^ 31.

Definition set_fields (c : ControlMSG) (l : list (Z * list Z)) : ControlMSG :=
  foldl (λ c p, set_field (fst p) (snd p) c) c l.

(** The case of a field takes that field and possibly some that follow. *)
Lemma parse_arg_spec n : ∀ c s l body,
  (n ≤ 4)%nat → read_string body = Some (s, writes l) → Forall known l →
  ∃ l1 l2 over, l = l1 ++ l2 ∧ (over = true → l2 = []) ∧
    parse_arg n c body = Some (set_fields (set_field (5 - Z.of_nat n) s c) l1, writes l2, over).
Proof.
  induction n as [|n IH]; intros c s l body Hn Hs Hl; cbn [parse_arg]; rewrite Hs; cbn.
  - exists [], l, (expect_at_end (writes l)). split_and!; [done| |done].
    intros He. apply expect_at_end_sound in He. destruct l as [|[f s'] l]; [done|].
    apply Forall_cons in Hl as [[Hf Hs'] _]. cbn in *. apply app_nil in He as [He _].
    by apply write_string_nonempty in He; [|lia|].
  - destruct (expect_tag _ (writes l)) as [rest|] eqn:Et; [|by exists [], l, false].
    apply expect_tag_sound in Et. destruct l as [|[f s'] l].
    { change (writes []) with (@nil Z) in Et. rewrite read_tag_end in Et. injection Et; lia. }
    apply Forall_cons in Hl as [[Hf Hs'] Hl]. cbn in Hf, Hs'.
    change (writes ((f, s') :: l)) with (write_string f s' ++ writes l) in Et.
    destruct (read_written f s' (writes l)) as (body'&Ht&Hb); [lia|done|].
    rewrite Ht in Et. injection Et as Hf' <-.
    destruct (IH (set_field (5 - Z.of_nat (S n)) s c) s' l body') as (l1&l2&over&->&Ho&Hp);
      [lia|done..|].
    exists ((f, s') :: l1), l2, over. split_and!; [done..|]. cbn [set_fields foldl fst snd] in *.
    rewrite Hp. by replace f with (5 - Z.of_nat n) by lia.
Qed.

Lemma merge_loop_spec fuel : ∀ l c,
  Forall known l → (length l < fuel)%nat →
  merge_loop fuel c (writes l) = Ret (Some (set_fields c l)).
Proof.
  induction fuel as [|fuel IH]; intros l c Hl Hfuel; [lia|]. cbn [merge_loop].
  destruct l as [|[f s] l].
  { change (writes []) with (@nil Z). by rewrite read_tag_end. }
  apply Forall_cons in Hl as [[Hf Hs] Hl]. cbn in Hf, Hs.
  change (writes ((f, s) :: l)) with (write_string f s ++ writes l).
  destruct (read_written f s (writes l)) as (body&Ht&Hb); [lia|done|]. rewrite Ht.
  assert (f = 1 ∨ f = 2 ∨ f = 3 ∨ f = 4 ∨ f = 5) as Hcases by lia.
  destruct (parse_arg_spec (Z.to_nat (5 - f)) c s l body) as (l1&l2&over&->&Ho&Hp); [lia|done..|].
  replace (5 - Z.of_nat (Z.to_nat (5 - f))) with f in Hp by lia.
  assert ((8 * f + 2 =? 0) = false ∧ Z.shiftr (8 * f + 2) 3 = f ∧ Z.land (8 * f + 2) 7 = 2
    ∧ (1 <=? f) = true ∧ (f <=? 5) = true) as (->&->&->&->&->)
    by (by destruct Hcases as [->|[->|[->|[->| ->]]]]).
  cbn [andb Z.eqb Pos.eqb]. rewrite Hp. apply Forall_app in Hl as [_ Hl2].
  destruct over.
  - rewrite (Ho eq_refl). unfold set_fields at 2. cbn [foldl fst snd]. by rewrite app_nil_r.
  - rewrite IH; [|done|rewrite length_cons, length_app in Hfuel; lia].
    unfold set_fields. cbn [foldl fst snd]. by rewrite foldl_app.
Qed.

Definition opt_field (f : Z) (s : option (list Z)) : list (Z * list Z) :=
  match s with Some s => [(f, s)] | None => [] end.

Definition fields_of (c : ControlMSG) : list (Z * list Z) :=
  opt_field 1 (command c) ++ opt_field 2 (arg1 c) ++ opt_field 3 (arg2 c) ++
  opt_field 4 (arg3 c) ++ opt_field 5 (arg4 c).

Lemma writes_app l1 l2 : writes (l1 ++ l2) = writes l1 ++ writes l2.
Proof. unfold writes. by rewrite fmap_app, join_app. Qed.

Lemma Serialize_writes c : Serialize c = writes (fields_of c) ++ unknown_fields c.
Proof.
  unfold Serialize, fields_of. rewrite !writes_app, <-!app_assoc.
  assert (∀ f s, writes (opt_field f s) = write_field f s) as Hw.
  { intros f [s|]; [|done]. unfold writes. cbn. by rewrite app_nil_r. }
  by rewrite !Hw.
Qed.

Lemma length_writes l : Forall known l → (length l ≤ length (writes l))%nat.
Proof.
  induction 1 as [|[f s] l [Hf Hs] _ IH]; [done|]. cbn in Hf, Hs.
  change (writes ((f, s) :: l)) with (write_string f s ++ writes l). rewrite length_app.
  pose proof (write_string_nonempty f s ltac:(lia) Hs).
  destruct (write_string f s); [done|]. cbn [length]. lia.
Qed.

(** ** Properties *)


End laws.

Lemma calloc2_0 n : calloc2 n 0 = Ret [].
Proof. unfold calloc2. by rewrite Z.mul_0_r. Qed.

(** A block without bytes cannot be written past its start. *)
Lemma write_nowhere off bs : 0 < off → write_bytes off bs [] = Undef OutOfBounds.
Proof.
  intros. unfold write_bytes. rewrite (proj2 (Z.leb_gt (off + _) _)) by (cbn; lia).
  by rewrite andb_false_r.
Qed.

(** No control message can be built: every constructor allocates its message
    with calloc(n, 0), a block of no bytes, so that its first write is out of
    bounds, whatever the arguments are. *)
Theorem control_constructors_undefined `{!WireFormat} a b c d :
  msg_control_rm_res a = Undef OutOfBounds ∧ msg_control_add_imp a b c d = Undef OutOfBounds ∧
  msg_control_rm_imp a = Undef OutOfBounds ∧ msg_control_add_task a = Undef OutOfBounds ∧
  msg_control_rm_task a = Undef OutOfBounds ∧ msg_control_add_res a b c = Undef OutOfBounds.
Proof.
  assert (∀ sizeBytes, control_header sizeBytes [] = Undef OutOfBounds) as Hheader by done.
  unfold msg_control_rm_res, msg_control_add_imp, msg_control_rm_imp, msg_control_add_task,
    msg_control_rm_task, msg_control_add_res. rewrite !calloc2_0. cbn [mbind outcome_bind].
  rewrite !Hheader, write_nowhere by done. done.
Qed.

(** ** Witnesses *)

Definition sample_control : ControlMSG :=
  set_arg2 (bytes_of "8112") (set_command (bytes_of "ADD_RESOURCE") new_ControlMSG).


Example sample_control_bytes :
  Serialize sample_control = [10; 12; 65; 68; 68; 95; 82; 69; 83; 79; 85; 82; 67; 69;
    26; 4; 56; 49; 49; 50].
Proof. vm_compute. reflexivity. Qed.

(** The moving-average request of the old layout: the struct counts the eight
    bytes of the width as one [int], so the message is four bytes longer than
    its sizeBytes() says. *)
Example old_size_short :
  (b ← old_msg_moving_avg 3 5 [1; 2; 3]; n ← old_sizeBytes b; p ← old_firstParam b;
   Ret (Z.of_nat (length b), n, p)) = Ret (44, 40, 5).
Proof. vm_compute. reflexivity. Qed.
