(* ===== verification/ControlRep.v ===== *)
(** * The generated class ControlMSG in memory: packet.pb.h and packet.pb.cc

    A message as the generated code keeps it: five pointers to strings, each to a
    string of its own or to the shared empty string, and a word of has-bits.  The
    accessors (the same code for every field, here indexed by the field's position)
    and Clear, MergeFrom, CopyFrom, Swap and the destructor are shown to implement
    the operations on the abstract ControlMSG of ControlMsg. *)

From S2P Require Import Prelude Message ControlMsg.

#[local] Open Scope Z_scope.

(** ** State *)

(** The strings allocated by [new]. *)
Abbreviation Heap := (gmap nat (list Z)).

Record CMsg := MkCMsg {
  ptr : list (option nat);  (** [None]: the address of kEmptyString *)
  has_bits : Z;             (** uint32 *)
  unknown : list Z
}.

(** [SharedCtor] *)
Definition SharedCtor : CMsg := MkCMsg (replicate 5 None) 0 [].

Definition set_ptr (i : nat) (p : option nat) (m : CMsg) : CMsg :=
  MkCMsg (<[i := p]> (ptr m)) (has_bits m) (unknown m).
Definition set_bits (b : Z) (m : CMsg) : CMsg := MkCMsg (ptr m) b (unknown m).

(** ** Accessors *)

Definition has (i : nat) (m : CMsg) : bool :=
  negb (Z.land (has_bits m) (Z.shiftl 1 (Z.of_nat i)) =? 0).
Definition set_has (i : nat) (m : CMsg) : CMsg :=
  set_bits (Z.lor (has_bits m) (Z.shiftl 1 (Z.of_nat i))) m.
Definition clear_has (i : nat) (m : CMsg) : CMsg :=
  set_bits (Z.land (has_bits m) (Z.lnot (Z.shiftl 1 (Z.of_nat i)))) m.

(** The pointer of field [i]; there are five. *)
Definition field_ptr (i : nat) (m : CMsg) : outcome (option nat) :=
  match ptr m !! i with Some p => Ret p | None => Undef OutOfBounds end.

Definition get (h : Heap) (i : nat) (m : CMsg) : outcome (list Z) :=
  p ← field_ptr i m;
  match p with None => Ret [] | Some a => deref (h !! a) end.

Definition clear (h : Heap) (i : nat) (m : CMsg) : outcome (Heap * CMsg) :=
  p ← field_ptr i m;
  h ← match p with
      | None => Ret h
      | Some a => _ ← deref (h !! a); Ret (<[a := []]> h)
      end;
  Ret (h, clear_has i m).

(** [mutable_*]: the address that the caller may write to. *)
Definition mutable (h : Heap) (i : nat) (m : CMsg) : outcome (nat * Heap * CMsg) :=
  let m := set_has i m in
  p ← field_ptr i m;
  match p with
  | Some a => Ret (a, h, m)
  | None => let a := fresh (dom h) in Ret (a, <[a := []]> h, set_ptr i (Some a) m)
  end.

(** [set_*]: the same, then [assign]. *)
Definition set (h : Heap) (i : nat) (v : list Z) (m : CMsg) : outcome (Heap * CMsg) :=
  '(a, h, m) ← mutable h i m;
  _ ← deref (h !! a);
  Ret (<[a := v]> h, m).

(** [release_*]: the string now belongs to the caller. *)
Definition release (i : nat) (m : CMsg) : outcome (option nat * CMsg) :=
  let m := clear_has i m in
  p ← field_ptr i m;
  Ret (p, set_ptr i None m).

Definition delete_string (h : Heap) (p : option nat) : outcome Heap :=
  match p with
  | None => Ret h
  | Some a => match h !! a with Some _ => Ret (base.delete a h) | None => Undef BadFree end
  end.

Definition set_allocated (h : Heap) (i : nat) (s : option nat) (m : CMsg) : outcome (Heap * CMsg) :=
  p ← field_ptr i m;
  h ← delete_string h p;
  match s with
  | Some _ => Ret (h, set_ptr i s (set_has i m))
  | None => Ret (h, set_ptr i None (clear_has i m))
  end.

(** ** Whole messages *)

(** The part of [Clear] for one field: only set fields are emptied. *)
Definition clear_if_set (h : Heap) (i : nat) (m : CMsg) : outcome Heap :=
  if has i m then
    p ← field_ptr i m;
    match p with None => Ret h | Some a => _ ← deref (h !! a); Ret (<[a := []]> h) end
  else Ret h.

Fixpoint clear_from (h : Heap) (i n : nat) (m : CMsg) : outcome Heap :=
  match n with
  | O => Ret h
  | S n => h ← clear_if_set h i m; clear_from h (S i) n m
  end.

Definition Clear (h : Heap) (m : CMsg) : outcome (Heap * CMsg) :=
  h ← (if Z.land (has_bits m) 255 =? 0 then Ret h else clear_from h 0 5 m);
  Ret (h, MkCMsg (ptr m) 0 []).

Fixpoint merge_from (h : Heap) (i n : nat) (from m : CMsg) : outcome (Heap * CMsg) :=
  match n with
  | O => Ret (h, m)
  | S n =>
      '(h, m) ← (if has i from then v ← get h i from; set h i v m else Ret (h, m));
      merge_from h (S i) n from m
  end.

(** [alias]: whether the two references are to the same message; GOOGLE_CHECK_NE
    ends the program then. *)
Definition MergeFrom (h : Heap) (alias : bool) (from m : CMsg) : outcome (Heap * CMsg) :=
  if alias then Throw "CHECK failed"
  else
    '(h, m) ← (if Z.land (has_bits from) 255 =? 0 then Ret (h, m) else merge_from h 0 5 from m);
    Ret (h, MkCMsg (ptr m) (has_bits m) (unknown m ++ unknown from)).

Definition CopyFrom (h : Heap) (alias : bool) (from m : CMsg) : outcome (Heap * CMsg) :=
  if alias then Ret (h, m)
  else '(h, m) ← Clear h m; MergeFrom h alias from m.

(** [Swap]: the new values of [this] and of [other]. *)
Definition Swap (alias : bool) (m other : CMsg) : CMsg * CMsg :=
  if alias then (m, other) else (other, m).

Fixpoint delete_all (h : Heap) (ps : list (option nat)) : outcome Heap :=
  match ps with [] => Ret h | p :: ps => h ← delete_string h p; delete_all h ps end.

(** [SharedDtor] *)
Definition SharedDtor (h : Heap) (m : CMsg) : outcome Heap := delete_all h (ptr m).

(** ** Abstraction and ownership *)

Definition owned (m : CMsg) : list nat := omap id (ptr m).

Record wf (h : Heap) (m : CMsg) : Prop := {
  wf_five : length (ptr m) = 5%nat;
  wf_owned : NoDup (owned m);
  wf_live : ∀ a, a ∈ owned m → is_Some (h !! a);
  (** a field that is set has a string of its own *)
  wf_set : ∀ i, (i < 5)%nat → has i m = true → ∃ a, ptr m !! i = Some (Some a);
  (** a field that is not set reads as the empty string *)
  wf_unset : ∀ i a, ptr m !! i = Some (Some a) → has i m = false → h !! a = Some []
}.

Definition abs_field (h : Heap) (m : CMsg) (i : nat) : option (list Z) :=
  if has i m then p ← ptr m !! i; a ← p; h !! a else None.

Definition abs (h : Heap) (m : CMsg) : ControlMSG :=
  MkControl (abs_field h m 0) (abs_field h m 1) (abs_field h m 2) (abs_field h m 3)
    (abs_field h m 4) (unknown m).

(** The abstract [MergeFrom]: fields that are set in [d] replace those of [c]. *)
Definition or_else (x y : option (list Z)) : option (list Z) :=
  match y with Some _ => y | None => x end.

Definition merged (c d : ControlMSG) : ControlMSG :=
  MkControl (or_else (command c) (command d)) (or_else (arg1 c) (arg1 d))
    (or_else (arg2 c) (arg2 d)) (or_else (arg3 c) (arg3 d)) (or_else (arg4 c) (arg4 d))
    (unknown_fields c ++ unknown_fields d).

(** ** Lemmas *)

Lemma land_bit b i : (Z.land b (Z.shiftl 1 (Z.of_nat i)) =? 0) = negb (Z.testbit b (Z.of_nat i)).
Proof.
  rewrite Z.shiftl_1_l. apply eq_true_iff_eq. rewrite Z.eqb_eq, negb_true_iff. split.
  - intros H. apply (f_equal (λ z, Z.testbit z (Z.of_nat i))) in H.
    by rewrite Z.land_spec, Z.pow2_bits_true, andb_true_r, Z.bits_0 in H by lia.
  - intros H. apply Z.bits_inj_iff'. intros k Hk. rewrite Z.land_spec, Z.bits_0, Z.pow2_bits_eqb by lia.
    destruct (Z.eqb_spec (Z.of_nat i) k) as [<-|]; [by rewrite H|apply andb_false_r].
Qed.

Lemma has_testbit i m : has i m = Z.testbit (has_bits m) (Z.of_nat i).
Proof. unfold has. by rewrite land_bit, negb_involutive. Qed.

Lemma has_set i j m : has j (set_has i m) = (i =? j)%nat || has j m.
Proof.
  rewrite !has_testbit. unfold set_has. cbn [set_bits has_bits].
  rewrite Z.lor_spec, Z.shiftl_1_l, Z.pow2_bits_eqb, orb_comm by lia.
  f_equal. destruct (Nat.eqb_spec i j); destruct (Z.eqb_spec (Z.of_nat i) (Z.of_nat j)); done || lia.
Qed.

Lemma has_clear i j m : has j (clear_has i m) = negb (i =? j)%nat && has j m.
Proof.
  rewrite !has_testbit. unfold clear_has. cbn [set_bits has_bits].
  rewrite Z.land_spec, Z.lnot_spec, Z.shiftl_1_l, Z.pow2_bits_eqb, andb_comm by lia.
  f_equal. destruct (Nat.eqb_spec i j); destruct (Z.eqb_spec (Z.of_nat i) (Z.of_nat j)); done || lia.
Qed.

(** Pointers and what they own. *)
Lemma owned_elem m a : a ∈ owned m ↔ ∃ i, ptr m !! i = Some (Some a).
Proof.
  unfold owned. rewrite list_elem_of_omap. split.
  - intros (p & Hp & E). unfold id in E. subst p. by apply list_elem_of_lookup.
  - intros [i Hi]. exists (Some a). split; [|done]. by eapply list_elem_of_lookup_2.
Qed.

Lemma owned_insert (l : list (option nat)) i p q :
  l !! i = Some p → omap id (<[i := q]> l) ≡ₚ option_list q ++ omap id (take i l ++ drop (S i) l) ∧
    omap id l ≡ₚ option_list p ++ omap id (take i l ++ drop (S i) l).
Proof.
  intros Hp. assert (Hi := lookup_lt_Some _ _ _ Hp).
  assert (Hmid : ∀ o, omap id (take i l ++ o :: drop (S i) l) ≡ₚ
    option_list o ++ omap id (take i l ++ drop (S i) l)).
  { intros [x|]; rewrite !omap_app; cbn; [by rewrite <-Permutation_middle|done]. }
  split; [by rewrite insert_take_drop|]. rewrite <-(take_drop_middle l i p Hp) at 1. apply Hmid.
Qed.

Lemma owned_unique m i j a :
  NoDup (owned m) → ptr m !! i = Some (Some a) → ptr m !! j = Some (Some a) → i = j.
Proof.
  intros Hnd Hi Hj. destruct (decide (i = j)) as [|Hne]; [done|exfalso].
  destruct (owned_insert (ptr m) i (Some a) None Hi) as [_ E]. unfold owned in Hnd. rewrite E in Hnd.
  cbn in Hnd. apply NoDup_cons in Hnd as [Hn _]. apply Hn.
  apply list_elem_of_omap. exists (Some a). split; [|done]. apply elem_of_app.
  destruct (decide (j < i)%nat) as [Hlt|].
  - left. apply list_elem_of_lookup. exists j. by rewrite lookup_take_lt.
  - right. apply list_elem_of_lookup. exists (j - S i)%nat. rewrite lookup_drop.
    by replace (S i + (j - S i))%nat with j by lia.
Qed.

Lemma field_ptr_lt i m : length (ptr m) = 5%nat → (i < 5)%nat → ∃ p, ptr m !! i = Some p ∧ field_ptr i m = Ret p.
Proof.
  intros Hl Hi. destruct (lookup_lt_is_Some_2 (ptr m) i) as [p Hp]; [lia|].
  exists p. split; [done|]. unfold field_ptr. by rewrite Hp.
Qed.

(** Reading a field: its value, the empty string where it is not set. *)
Lemma get_spec h i m :
  wf h m → (i < 5)%nat → get h i m = Ret (default [] (abs_field h m i)).
Proof.
  intros Hw Hi. destruct (field_ptr_lt i m (wf_five _ _ Hw) Hi) as (p & Hp & E).
  unfold get. rewrite E. cbn [mbind outcome_bind]. unfold abs_field. rewrite Hp. cbn.
  destruct p as [a|].
  - destruct (wf_live _ _ Hw a) as [s Hs]; [by apply owned_elem; exists i|].
    rewrite Hs. cbn. destruct (has i m) eqn:Eh; [by rewrite Hs|].
    pose proof (wf_unset _ _ Hw i a Hp Eh). by simplify_eq.
  - destruct (has i m) eqn:Eh; [|done]. destruct (wf_set _ _ Hw i Hi Eh) as [a Ha]. by simplify_eq.
Qed.

(** Writing through the pointer of a field that is set. *)
Lemma assign_spec h i a v m :
  wf h m → (i < 5)%nat → ptr m !! i = Some (Some a) → has i m = true →
  wf (<[a := v]> h) m ∧ abs_field (<[a := v]> h) m i = Some v ∧
  ∀ j, j ≠ i → abs_field (<[a := v]> h) m j = abs_field h m j.
Proof.
  intros Hw Hi Hp Hh.
  assert (Hother : ∀ j b, j ≠ i → ptr m !! j = Some (Some b) → b ≠ a).
  { intros j b Hj Hb ->. apply Hj. by apply (owned_unique m _ _ a (wf_owned _ _ Hw)). }
  split_and!.
  - split; try apply Hw.
    + intros b Hb. apply lookup_insert_is_Some'. right. by apply (wf_live _ _ Hw).
    + intros j b Hb Hhj. destruct (decide (j = i)) as [->|Hj]; [congruence|].
      rewrite lookup_insert_ne by (symmetry; by eapply Hother). by apply (wf_unset _ _ Hw j).
  - unfold abs_field. rewrite Hh, Hp. cbn. by rewrite lookup_insert_eq.
  - intros j Hj. unfold abs_field. destruct (has j m); [|done].
    destruct (ptr m !! j) as [[b|]|] eqn:Eb; cbn; [|done..].
    by rewrite lookup_insert_ne by (symmetry; by eapply Hother).
Qed.

(** What an operation on [m] may do to the strings of others. *)
Definition keeps_others (h h' : Heap) (m m' : CMsg) : Prop :=
  (∀ a, a ∉ owned m → is_Some (h !! a) → h' !! a = h !! a) ∧
  ∀ a, a ∈ owned m' → a ∈ owned m ∨ h !! a = None.

Lemma keeps_others_trans h h1 h2 m m1 m2 :
  keeps_others h h1 m m1 → keeps_others h1 h2 m1 m2 → keeps_others h h2 m m2.
Proof.
  intros [H1 H2] [H3 H4]. split.
  - intros a Ha Hs. rewrite H3; [by apply H1| |by rewrite H1].
    intros Ha1. destruct (H2 a Ha1) as [?|E]; [done|]. rewrite E in Hs. by destruct Hs.
  - intros a Ha. destruct (H4 a Ha) as [Ha1|E]; [by apply H2|].
    destruct (decide (a ∈ owned m)) as [|Hn]; [by left|right].
    destruct (h !! a) as [s|] eqn:Es; [|done]. by rewrite (H1 a Hn), Es in E by done.
Qed.

(** The fields and the strings of a message that others do not touch. *)
Lemma abs_field_frame h h' m m' d i :
  wf h d → keeps_others h h' m m' → (∀ a, a ∈ owned d → a ∉ owned m) →
  abs_field h' d i = abs_field h d i.
Proof.
  intros Hw [Hk _] Hd. unfold abs_field. destruct (has i d); [|done].
  destruct (ptr d !! i) as [[a|]|] eqn:E; cbn; [|done..].
  assert (Ha : a ∈ owned d) by (apply owned_elem; by exists i).
  apply Hk; [by apply Hd|by apply (wf_live _ _ Hw)].
Qed.

Lemma wf_frame h h' m m' d :
  wf h d → keeps_others h h' m m' → (∀ a, a ∈ owned d → a ∉ owned m) → wf h' d.
Proof.
  intros Hw [Hk _] Hd. assert (Hsame : ∀ a, a ∈ owned d → h' !! a = h !! a).
  { intros a Ha. apply Hk; [by apply Hd|by apply (wf_live _ _ Hw)]. }
  split; try apply Hw.
  - intros a Ha. rewrite Hsame by done. by apply (wf_live _ _ Hw).
  - intros i a Hp Hh. rewrite Hsame by (apply owned_elem; by exists i). by apply (wf_unset _ _ Hw i).
Qed.

(** A new string for a field that has none. *)
Lemma new_string_spec h i m :
  wf h m → (i < 5)%nat → ptr m !! i = Some None → let a := fresh (dom h) in
  let h' := <[a := []]> h in let m' := set_ptr i (Some a) m in
  length (ptr m') = 5%nat ∧ NoDup (owned m') ∧ (∀ b, b ∈ owned m' → is_Some (h' !! b)) ∧
  keeps_others h h' m m' ∧ a ∉ owned m.
Proof.
  intros Hw Hi Hp a h' m'. assert (Ha : h !! a = None) by (apply not_elem_of_dom, is_fresh).
  destruct (owned_insert (ptr m) i None (Some a) Hp) as [Eo Eo']. cbn in Eo, Eo'. fold (owned m) in Eo'.
  rewrite <-Eo' in Eo. fold (owned m') in Eo. change (owned m' ≡ₚ a :: owned m) in Eo.
  assert (Hfresh : a ∉ owned m).
  { intros Hin. destruct (wf_live _ _ Hw a Hin) as [s Hs]. congruence. }
  split_and!.
  - cbn. rewrite length_insert. apply Hw.
  - rewrite Eo. apply NoDup_cons. split; [done|apply Hw].
  - intros b Hb. rewrite Eo in Hb. apply lookup_insert_is_Some'.
    apply elem_of_cons in Hb as [->|Hb]; [by left|right]. by apply (wf_live _ _ Hw).
  - split.
    + intros b Hb Hs. apply lookup_insert_ne. intros <-. rewrite Ha in Hs. by destruct Hs.
    + intros b Hb. rewrite Eo in Hb. apply elem_of_cons in Hb as [->|Hb]; [by right|by left].
  - done.
Qed.

Lemma has_set_other i j m : j ≠ i → has j (set_has i m) = has j m.
Proof. intros Hj. rewrite has_set. by rewrite (proj2 (Nat.eqb_neq _ _)). Qed.

(** [mutable_*]: the field is set and has a string of its own. *)
Lemma mutable_spec h i m :
  wf h m → (i < 5)%nat →
  ∃ a h' m', mutable h i m = Ret (a, h', m') ∧ wf h' m' ∧ keeps_others h h' m m' ∧
    ptr m' !! i = Some (Some a) ∧ has i m' = true ∧ unknown m' = unknown m ∧
    ∀ j, j ≠ i → abs_field h' m' j = abs_field h m j.
Proof.
  intros Hw Hi. destruct (field_ptr_lt i m (wf_five _ _ Hw) Hi) as (p & Hp & E).
  assert (Hhas : has i (set_has i m) = true) by (rewrite has_set, Nat.eqb_refl; done).
  unfold mutable. change (field_ptr i (set_has i m)) with (field_ptr i m). rewrite E.
  cbn [mbind outcome_bind]. destruct p as [a|].
  - exists a, h, (set_has i m). split_and!; try done.
    + split; try apply Hw; intros j.
      * intros Hj5 Hh. destruct (decide (j = i)) as [->|Hne]; [by exists a|].
        rewrite has_set_other in Hh by done. by apply (wf_set _ _ Hw).
      * intros b Hb Hh. destruct (decide (j = i)) as [->|Hne]; [congruence|].
        rewrite has_set_other in Hh by done. by apply (wf_unset _ _ Hw j).
    + split; [done|]. by left.
    + intros j Hne. unfold abs_field. by rewrite has_set_other.
  - destruct (new_string_spec h i m Hw Hi Hp) as (H5 & Hnd & Hlive & Hk & Hfresh).
    set (a := fresh (dom h)) in *.
    assert (Hlt : (i < length (ptr m))%nat) by (rewrite (wf_five _ _ Hw); lia).
    assert (Hother : ∀ j b, ptr m !! j = Some (Some b) → <[a := []]> h !! b = h !! b).
    { intros j b Hb. apply lookup_insert_ne. intros <-. apply Hfresh, owned_elem. by exists j. }
    exists a, (<[a := []]> h), (set_ptr i (Some a) (set_has i m)). split_and!; try done.
    + split; try done; intros j; cbn [set_ptr ptr]; change (has j (set_ptr _ _ _)) with (has j (set_has i m)).
      * intros Hj5 Hh. destruct (decide (j = i)) as [->|Hne].
        { exists a. by apply list_lookup_insert_eq. }
        rewrite has_set_other in Hh by done. rewrite list_lookup_insert_ne by done.
        by apply (wf_set _ _ Hw).
      * intros b Hb Hh. destruct (decide (j = i)) as [->|Hne]; [congruence|].
        rewrite list_lookup_insert_ne in Hb by done. rewrite has_set_other in Hh by done.
        rewrite (Hother j) by done. by apply (wf_unset _ _ Hw j).
    + cbn. by apply list_lookup_insert_eq.
    + intros j Hne. unfold abs_field. change (has j (set_ptr _ _ _)) with (has j (set_has i m)).
      rewrite has_set_other by done. cbn. rewrite list_lookup_insert_ne by done.
      destruct (has j m); [|done]. destruct (ptr m !! j) as [[b|]|] eqn:Eb; cbn; [|done..].
      by apply (Hother j).
Qed.

(** [set_*]. *)
Lemma set_spec h i v m :
  wf h m → (i < 5)%nat →
  ∃ h' m', set h i v m = Ret (h', m') ∧ wf h' m' ∧ keeps_others h h' m m' ∧
    unknown m' = unknown m ∧ abs_field h' m' i = Some v ∧
    ∀ j, j ≠ i → abs_field h' m' j = abs_field h m j.
Proof.
  intros Hw Hi.
  destruct (mutable_spec h i m Hw Hi) as (a & h1 & m1 & E & Hw1 & Hk & Hp & Hh & Hu & Hj).
  destruct (assign_spec h1 i a v m1 Hw1 Hi Hp Hh) as (Hw2 & Hv & Hj2).
  assert (Ha : a ∈ owned m1) by (apply owned_elem; by exists i).
  exists (<[a := v]> h1), m1. unfold set. rewrite E. cbn [mbind outcome_bind].
  destruct (wf_live _ _ Hw1 a Ha) as [s Hs]. rewrite Hs. cbn [deref mbind outcome_bind].
  split_and!; try done.
  - eapply keeps_others_trans; [exact Hk|]. split; [|by left].
    intros b Hb _. apply lookup_insert_ne. by intros <-.
  - intros j Hne. by rewrite Hj2, Hj.
Qed.

Lemma has_clear_self i m : has i (clear_has i m) = false.
Proof. by rewrite has_clear, Nat.eqb_refl. Qed.

Lemma has_clear_other i j m : j ≠ i → has j (clear_has i m) = has j m.
Proof. intros Hj. rewrite has_clear. by rewrite (proj2 (Nat.eqb_neq _ _)). Qed.

(** Emptying the string a pointer owns. *)
Lemma empty_string_spec (h : Heap) (p : option nat) :
  (∀ a, p = Some a → is_Some (h !! a)) →
  ∃ h', (match p with None => Ret h | Some a => _ ← deref (h !! a); Ret (<[a := []]> h) end) = Ret h' ∧
    (∀ a, p = Some a → h' !! a = Some []) ∧ ∀ a, p ≠ Some a → h' !! a = h !! a.
Proof.
  intros Hl. destruct p as [a|]; [|by exists h]. destruct (Hl a eq_refl) as [s ->]. cbn.
  eexists. split_and!; [done| |].
  - intros b [= ->]. apply lookup_insert_eq.
  - intros b Hb. apply lookup_insert_ne. congruence.
Qed.

(** [clear_*] unsets a field and empties its string. *)
Lemma clear_refines h i m :
  wf h m → (i < 5)%nat →
  ∃ h' m', clear h i m = Ret (h', m') ∧ wf h' m' ∧ keeps_others h h' m m' ∧
    ∀ j, abs_field h' m' j = if (i =? j)%nat then None else abs_field h m j.
Proof.
  intros Hw Hi. destruct (field_ptr_lt i m (wf_five _ _ Hw) Hi) as (p & Hp & E).
  destruct (empty_string_spec h p) as (h' & Hc & Hself & Hk).
  { intros a ->. apply (wf_live _ _ Hw), owned_elem. by exists i. }
  unfold clear. rewrite E. cbn [mbind outcome_bind]. rewrite Hc. cbn [mbind outcome_bind].
  exists h', (clear_has i m).
  assert (Hother : ∀ j a, j ≠ i → ptr m !! j = Some (Some a) → h' !! a = h !! a).
  { intros j a Hj Ha. apply Hk. intros ->. apply Hj.
    by apply (owned_unique m _ _ a (wf_owned _ _ Hw)). }
  split_and!; [done| |split; [|by left]|].
  - split; try apply Hw.
    + intros a Ha. destruct (decide (p = Some a)) as [Hpa|Hpa]; [by rewrite Hself|].
      rewrite Hk by done. by apply (wf_live _ _ Hw).
    + intros j Hj Hh. destruct (decide (j = i)) as [->|Hne]; [by rewrite has_clear_self in Hh|].
      rewrite has_clear_other in Hh by done. by apply (wf_set _ _ Hw).
    + intros j a Ha Hh. cbn in Ha. destruct (decide (j = i)) as [->|Hne]; [apply Hself; congruence|].
      rewrite (Hother j a) by done. rewrite has_clear_other in Hh by done. by apply (wf_unset _ _ Hw j).
  - intros a Ha _. apply Hk. intros ->. apply Ha, owned_elem. by exists i.
  - intros j. destruct (Nat.eqb_spec i j) as [<-|Hne]; unfold abs_field; [by rewrite has_clear_self|].
    rewrite has_clear_other by done. destruct (has j m); [|done]. cbn.
    destruct (ptr m !! j) as [[a|]|] eqn:Ea; cbn; [|done..]. by apply (Hother j).
Qed.

(** [release_*] gives the string of a field to the caller. *)
Lemma release_refines h i m :
  wf h m → (i < 5)%nat →
  ∃ p m', release i m = Ret (p, m') ∧ wf h m' ∧ owned m ≡ₚ option_list p ++ owned m' ∧
    ∀ j, abs_field h m' j = if (i =? j)%nat then None else abs_field h m j.
Proof.
  intros Hw Hi. destruct (field_ptr_lt i m (wf_five _ _ Hw) Hi) as (p & Hp & E).
  destruct (owned_insert (ptr m) i p None Hp) as [Eo Eo']. cbn in Eo.
  unfold release. change (field_ptr i (clear_has i m)) with (field_ptr i m). rewrite E.
  cbn [mbind outcome_bind]. eexists _, _. split; [done|].
  assert (Hown : owned m ≡ₚ option_list p ++ owned (set_ptr i None (clear_has i m))).
  { unfold owned. cbn. by rewrite Eo. }
  assert (Hlt : (i < length (ptr m))%nat) by (rewrite (wf_five _ _ Hw); lia).
  split_and!; [|done|].
  - split; cbn [set_ptr ptr].
    + rewrite length_insert. apply Hw.
    + pose proof (wf_owned _ _ Hw) as Hnd. rewrite Hown in Hnd. by apply NoDup_app in Hnd as (_ & _ & ?).
    + intros a Ha. apply (wf_live _ _ Hw). rewrite Hown. in_app.
    + intros j Hj Hh. change (has j (clear_has i m) = true) in Hh.
      destruct (decide (j = i)) as [->|Hne]; [by rewrite has_clear_self in Hh|].
      rewrite has_clear_other in Hh by done. rewrite list_lookup_insert_ne by done. by apply (wf_set _ _ Hw).
    + intros j a Ha Hh. change (has j (clear_has i m) = false) in Hh.
      destruct (decide (j = i)) as [->|Hne]; [by rewrite list_lookup_insert_eq in Ha|].
      rewrite list_lookup_insert_ne in Ha by done. rewrite has_clear_other in Hh by done.
      by apply (wf_unset _ _ Hw j).
  - intros j. unfold abs_field. change (has j (set_ptr _ _ _)) with (has j (clear_has i m)).
    destruct (Nat.eqb_spec i j) as [<-|Hne]; [by rewrite has_clear_self|].
    rewrite has_clear_other by done. cbn. by rewrite list_lookup_insert_ne by done.
Qed.

(** *** Whole messages *)

Lemma no_bits m i : Z.land (has_bits m) 255 = 0 → (i < 5)%nat → has i m = false.
Proof.
  intros H Hi. rewrite has_testbit. apply (f_equal (λ z, Z.testbit z (Z.of_nat i))) in H.
  rewrite Z.land_spec, Z.bits_0 in H. change 255 with (Z.ones 8) in H.
  by rewrite Z.ones_spec_low, andb_true_r in H by lia.
Qed.

(** One field of [MergeFrom]. *)
Lemma merge_field_spec h i from m :
  wf h m → wf h from → (i < 5)%nat →
  ∃ h1 m1, (if has i from then v ← get h i from; set h i v m else Ret (h, m)) = Ret (h1, m1) ∧
    wf h1 m1 ∧ keeps_others h h1 m m1 ∧ unknown m1 = unknown m ∧
    ∀ j, (j < 5)%nat → abs_field h1 m1 j =
      if (i =? j)%nat then or_else (abs_field h m j) (abs_field h from j) else abs_field h m j.
Proof.
  intros Hw Hf Hi. destruct (has i from) eqn:Eh.
  - rewrite get_spec by done. cbn [mbind outcome_bind].
    destruct (set_spec h i (default [] (abs_field h from i)) m) as (h1 & m1 & E & Hw1 & Hk & Hu & Hv & Hj);
      [done..|].
    exists h1, m1. split_and!; try done. intros j _. destruct (Nat.eqb_spec i j) as [<-|Hne]; [|by auto].
    rewrite Hv. destruct (wf_set _ _ Hf i) as [a Ha]; [done..|].
    destruct (wf_live _ _ Hf a) as [s Hs]; [by apply owned_elem; exists i|].
    unfold abs_field at 1 3. rewrite Eh, Ha. cbn. by rewrite Hs.
  - exists h, m. split_and!; try done; [split; [done|by left]|]. intros j _.
    destruct (Nat.eqb_spec i j) as [<-|]; [|done]. unfold abs_field at 3. by rewrite Eh.
Qed.

Lemma merge_from_spec from n : ∀ h i m,
  wf h m → wf h from → (∀ a, a ∈ owned from → a ∉ owned m) → (i + n = 5)%nat →
  ∃ h' m', merge_from h i n from m = Ret (h', m') ∧ wf h' m' ∧ keeps_others h h' m m' ∧
    unknown m' = unknown m ∧
    ∀ j, (j < 5)%nat → abs_field h' m' j =
      if (i <=? j)%nat then or_else (abs_field h m j) (abs_field h from j) else abs_field h m j.
Proof.
  induction n as [|n IH]; intros h i m Hw Hf Hd Hin; cbn [merge_from].
  { exists h, m. split_and!; try done; [split; [done|by left]|].
    intros j Hj. by rewrite (proj2 (Nat.leb_gt _ _)) by lia. }
  destruct (merge_field_spec h i from m Hw Hf) as (h1 & m1 & -> & Hw1 & Hk1 & Hu1 & Hv1); [lia|].
  cbn [mbind outcome_bind].
  destruct (IH h1 (S i) m1) as (h2 & m2 & E2 & Hw2 & Hk2 & Hu2 & Hv2); [done| | |lia|].
  - by apply (wf_frame h h1 m m1).
  - intros a Ha Ha1. destruct (proj2 Hk1 a Ha1) as [?|E]; [by apply (Hd a)|].
    destruct (wf_live _ _ Hf a Ha) as [s Hs]. congruence.
  - exists h2, m2. split_and!; [done|done|by eapply keeps_others_trans|congruence|].
    intros j Hj. rewrite Hv2, Hv1 by done. rewrite (abs_field_frame h h1 m m1) by done.
    destruct (Nat.eqb_spec i j) as [<-|Hne].
    + rewrite (proj2 (Nat.leb_gt _ _)), (proj2 (Nat.leb_le _ _)) by lia. done.
    + destruct (Nat.leb_spec (S i) j), (Nat.leb_spec i j); done || lia.
Qed.

Lemma wf_unknown h m u : wf h m → wf h (MkCMsg (ptr m) (has_bits m) u).
Proof. intros []. by split. Qed.

Lemma MergeFrom_spec h from m :
  wf h m → wf h from → (∀ a, a ∈ owned from → a ∉ owned m) →
  ∃ h' m', MergeFrom h false from m = Ret (h', m') ∧ wf h' m' ∧ keeps_others h h' m m' ∧
    abs h' m' = merged (abs h m) (abs h from).
Proof.
  intros Hw Hf Hd. unfold MergeFrom. destruct (Z.eqb_spec (Z.land (has_bits from) 255) 0) as [E|_].
  - cbn [mbind outcome_bind]. do 2 eexists. split; [done|]. split; [by apply wf_unknown|].
    split; [split; [done|by left]|]. unfold abs, merged. cbn.
    assert (Hn : ∀ i, (i < 5)%nat → abs_field h from i = None).
    { intros i Hi. unfold abs_field. by rewrite no_bits. }
    by rewrite !Hn by lia.
  - destruct (merge_from_spec from 5 h 0 m Hw Hf Hd eq_refl) as (h1 & m1 & -> & Hw1 & Hk & Hu & Hv).
    cbn [mbind outcome_bind]. do 2 eexists. split; [done|]. split; [by apply wf_unknown|].
    split; [exact Hk|]. unfold abs, merged. cbn.
    change (abs_field h1 {| ptr := ptr m1; has_bits := has_bits m1; unknown := _ |}) with (abs_field h1 m1).
    by rewrite !Hv, Hu by lia.
Qed.

(** [Clear] empties the strings that are set. *)
Lemma clear_from_spec m n : ∀ h i,
  length (ptr m) = 5%nat → (∀ a, a ∈ owned m → is_Some (h !! a)) → (i + n ≤ 5)%nat →
  ∃ h', clear_from h i n m = Ret h' ∧
    (∀ a, h' !! a = h !! a ∨ (h' !! a = Some [] ∧ a ∈ owned m)) ∧
    ∀ j a, (i ≤ j < i + n)%nat → ptr m !! j = Some (Some a) → has j m = true → h' !! a = Some [].
Proof.
  induction n as [|n IH]; intros h i H5 Hlive Hin; cbn [clear_from].
  { exists h. split_and!; [done|by left|lia]. }
  assert (Hstep : ∃ h1, clear_if_set h i m = Ret h1 ∧
    (∀ a, h1 !! a = h !! a ∨ (h1 !! a = Some [] ∧ a ∈ owned m)) ∧
    ∀ a, ptr m !! i = Some (Some a) → has i m = true → h1 !! a = Some []).
  { unfold clear_if_set. destruct (has i m) eqn:Eh; [|exists h; split_and!; [done|by left|done]].
    destruct (field_ptr_lt i m H5 ltac:(lia)) as (p & Hp & E). rewrite E. cbn [mbind outcome_bind].
    destruct p as [b|]; [|exists h; split_and!; [done|by left|congruence]].
    assert (Hb : b ∈ owned m) by (apply owned_elem; by exists i).
    destruct (Hlive b Hb) as [s Hs]. rewrite Hs. cbn. eexists. split_and!; [done| |].
    - intros a. destruct (decide (a = b)) as [->|Hne].
      + right. by rewrite lookup_insert_eq.
      + left. by apply lookup_insert_ne.
    - intros a Ha _. rewrite Hp in Ha. injection Ha as <-. apply lookup_insert_eq. }
  destruct Hstep as (h1 & -> & Hk1 & Hv1). cbn [mbind outcome_bind].
  destruct (IH h1 (S i) H5) as (h2 & E & Hk2 & Hv2); [|lia|].
  { intros a Ha. destruct (Hk1 a) as [->|[-> _]]; [by apply Hlive|done]. }
  exists h2. split_and!; [done| |].
  - intros a. destruct (Hk2 a) as [->|?]; [apply Hk1|by right].
  - intros j a Hj Ha Hh. destruct (decide (j = i)) as [->|Hne]; [|apply (Hv2 j); [lia|done..]].
    destruct (Hk2 a) as [->|[? _]]; [by apply Hv1|done].
Qed.

Lemma Clear_spec h m :
  wf h m → ∃ h' m', Clear h m = Ret (h', m') ∧ wf h' m' ∧ keeps_others h h' m m' ∧
    ptr m' = ptr m ∧ abs h' m' = new_ControlMSG.
Proof.
  intros Hw. assert (Hz : ∀ i, has i (MkCMsg (ptr m) 0 []) = false).
  { intros i. rewrite has_testbit. apply Z.bits_0. }
  assert (Hc : ∃ h', (if Z.land (has_bits m) 255 =? 0 then Ret h else clear_from h 0 5 m) = Ret h' ∧
    (∀ a, h' !! a = h !! a ∨ (h' !! a = Some [] ∧ a ∈ owned m)) ∧
    ∀ j a, (j < 5)%nat → ptr m !! j = Some (Some a) → has j m = true → h' !! a = Some []).
  { destruct (Z.eqb_spec (Z.land (has_bits m) 255) 0) as [E|_].
    - exists h. split_and!; [done|by left|]. intros j a Hj _ Hh. by rewrite (no_bits m j E Hj) in Hh.
    - destruct (clear_from_spec m 5 h 0) as (h' & E & Hk & Hv); [apply Hw..|done|].
      exists h'. split_and!; [done..|]. intros j a Hj. apply Hv. lia. }
  destruct Hc as (h' & Hc & Hk & Hv). unfold Clear. rewrite Hc. cbn [mbind outcome_bind].
  do 2 eexists. split; [done|]. split_and!; [|split; [|by left]|done|].
  - split; try apply Hw.
    + intros a Ha. destruct (Hk a) as [->|[-> _]]; [by apply (wf_live _ _ Hw)|done].
    + intros i _ Hh. by rewrite Hz in Hh.
    + intros j a Ha _. cbn in Ha. destruct (has j m) eqn:Eh.
      * apply (Hv j); try done. apply lookup_lt_Some in Ha. rewrite (wf_five _ _ Hw) in Ha. lia.
      * pose proof (wf_unset _ _ Hw j a Ha Eh). destruct (Hk a) as [->|[? _]]; done.
  - intros a Ha _. destruct (Hk a) as [->|[_ ?]]; done.
  - unfold abs, abs_field. by rewrite !Hz.
Qed.

Lemma merged_new d : merged new_ControlMSG d = d.
Proof. destruct d as [[] [] [] [] [] u]; done. Qed.

Lemma CopyFrom_spec h from m :
  wf h m → wf h from → (∀ a, a ∈ owned from → a ∉ owned m) →
  ∃ h' m', CopyFrom h false from m = Ret (h', m') ∧ wf h' m' ∧ keeps_others h h' m m' ∧
    abs h' m' = abs h from.
Proof.
  intros Hw Hf Hd. unfold CopyFrom.
  destruct (Clear_spec h m Hw) as (h1 & m1 & -> & Hw1 & Hk1 & Hp1 & Ha1). cbn [mbind outcome_bind].
  assert (Ho : owned m1 = owned m) by (unfold owned; by rewrite Hp1).
  destruct (MergeFrom_spec h1 from m1 Hw1) as (h2 & m2 & -> & Hw2 & Hk2 & Ha2).
  - by apply (wf_frame h h1 m m1).
  - intros a Ha. rewrite Ho. by apply Hd.
  - exists h2, m2. split_and!; [done..|by eapply keeps_others_trans|].
    rewrite Ha2, Ha1, merged_new. unfold abs.
    by rewrite !(abs_field_frame h h1 m m1 from) by done.
Qed.

Lemma delete_all_spec ps : ∀ h,
  NoDup (omap id ps) → (∀ a, a ∈ omap id ps → is_Some (h !! a)) →
  ∃ h', delete_all h ps = Ret h' ∧
    ∀ a, h' !! a = if decide (a ∈ omap id ps) then None else h !! a.
Proof.
  induction ps as [|[b|] ps IH]; intros h Hnd Hlive; cbn [delete_all delete_string mbind outcome_bind].
  - exists h. split; [done|]. intros a. by rewrite decide_False by (apply not_elem_of_nil).
  - cbn in Hnd, Hlive. apply NoDup_cons in Hnd as [Hb Hnd].
    destruct (Hlive b) as [s Hs]; [left|]. rewrite Hs. cbn [mbind outcome_bind].
    destruct (IH (base.delete b h) Hnd) as (h' & -> & Hv).
    { intros a Ha. rewrite lookup_delete_ne by (by intros ->). apply Hlive. by right. }
    exists h'. split; [done|]. intros a. rewrite Hv. cbn.
    destruct (decide (a = b)) as [->|Hne].
    + rewrite (decide_True (P := b ∈ b :: _)) by left. rewrite lookup_delete_eq. by case_decide.
    + rewrite lookup_delete_ne by done. do 2 case_decide; try done; exfalso; set_solver.
  - by apply IH.
Qed.

Lemma SharedDtor_spec h m :
  wf h m → ∃ h', SharedDtor h m = Ret h' ∧
    ∀ a, h' !! a = if decide (a ∈ owned m) then None else h !! a.
Proof. intros Hw. by apply delete_all_spec; apply Hw. Qed.

Lemma SharedCtor_wf h : wf h SharedCtor ∧ abs h SharedCtor = new_ControlMSG.
Proof.
  split; [|done]. split; try done.
  - constructor.
  - intros a Ha. by apply elem_of_nil in Ha.
  - intros i a Ha. by apply lookup_replicate in Ha as [? _].
Qed.

(** Setting a field by its position is setting it by its number. *)
Lemma set_refines h i v m :
  wf h m → (i < 5)%nat →
  ∃ h' m', set h i v m = Ret (h', m') ∧ wf h' m' ∧ keeps_others h h' m m' ∧
    abs h' m' = set_field (Z.of_nat i + 1) v (abs h m).
Proof.
  intros Hw Hi. destruct (set_spec h i v m Hw Hi) as (h' & m' & E & Hw' & Hk & Hu & Hv & Hj).
  exists h', m'. split_and!; try done. unfold abs. rewrite Hu.
  destruct i as [|[|[|[|[|i]]]]]; [..|lia]; rewrite Hv, !Hj by lia; done.
Qed.

(** ** Properties *)

(** C34: the generated class implements the abstract message.  For two different
    messages that keep the invariant of the class (a field that is set has a string
    of its own, one that is not set reads as the empty string, no string is owned
    twice): reading, setting, clearing and releasing a field, Clear, MergeFrom and
    CopyFrom return, keep the invariant and the strings of every other message, and
    have the abstract effect; the destructor frees exactly the strings of the message, none twice. *)
Theorem control_class_refines h from m :
  wf h m → wf h from → (∀ a, a ∈ owned from → a ∉ owned m) →
  (∀ i, (i < 5)%nat → get h i m = Ret (default [] (abs_field h m i))) ∧
  (∀ i v, (i < 5)%nat → ∃ h' m', set h i v m = Ret (h', m') ∧ wf h' m' ∧ keeps_others h h' m m' ∧
    abs h' m' = set_field (Z.of_nat i + 1) v (abs h m)) ∧
  (∀ i, (i < 5)%nat → ∃ h' m', clear h i m = Ret (h', m') ∧ wf h' m' ∧ keeps_others h h' m m' ∧
    ∀ j, abs_field h' m' j = if (i =? j)%nat then None else abs_field h m j) ∧
  (∀ i, (i < 5)%nat → ∃ p m', release i m = Ret (p, m') ∧ wf h m' ∧
    owned m ≡ₚ option_list p ++ owned m' ∧
    ∀ j, abs_field h m' j = if (i =? j)%nat then None else abs_field h m j) ∧
  (∃ h' m', Clear h m = Ret (h', m') ∧ wf h' m' ∧ keeps_others h h' m m' ∧
    abs h' m' = new_ControlMSG) ∧
  (∃ h' m', MergeFrom h false from m = Ret (h', m') ∧ wf h' m' ∧ keeps_others h h' m m' ∧
    abs h' m' = merged (abs h m) (abs h from)) ∧
  (∃ h' m', CopyFrom h false from m = Ret (h', m') ∧ wf h' m' ∧ keeps_others h h' m m' ∧
    abs h' m' = abs h from) ∧
  (∃ h', SharedDtor h m = Ret h' ∧
    ∀ a, h' !! a = if decide (a ∈ owned m) then None else h !! a).
Proof.
  intros Hw Hf Hd. split_and!.
  - intros i Hi. by apply get_spec.
  - intros i v Hi. by apply set_refines.
  - intros i Hi. by apply clear_refines.
  - intros i Hi. by apply release_refines.
  - destruct (Clear_spec h m Hw) as (h' & m' & ? & ? & ? & _ & ?). by exists h', m'.
  - by apply MergeFrom_spec.
  - by apply CopyFrom_spec.
  - by apply SharedDtor_spec.
Qed.

(** Merging is what parsing does: reading the serialised form of a message into
    another one gives the merge of the two, so that the concatenation of two
    serialised messages parses to their merge. *)
Theorem parse_merges `{!WireFormat} c d :
  unknown_fields d = [] → Forall known (fields_of d) →
  MergePartial c (Serialize d) = Ret (Some (merged c d)).
Proof.
  intros Hu Hk. unfold MergePartial. rewrite Serialize_writes, Hu, app_nil_r.
  rewrite merge_loop_spec; [|done|pose proof (length_writes _ Hk); lia].
  do 2 f_equal. unfold merged. rewrite Hu, app_nil_r.
  destruct c as [c0 c1 c2 c3 c4 cu], d as [[] [] [] [] [] u]; done.
Qed.

(** A message merged with itself ends the program; copied to itself or swapped with
    itself it stays as it is. *)
Theorem alias_cases h m :
  MergeFrom h true m m = Throw "CHECK failed" ∧ CopyFrom h true m m = Ret (h, m) ∧
  Swap true m m = (m, m).
Proof. done. Qed.

(** ** Witnesses *)

(** One message with a command, merged into an empty one. *)
Definition one_heap : Heap := {[7%nat := bytes_of "ADD_TASK"]}.
Definition one_msg : CMsg := MkCMsg [Some 7%nat; None; None; None; None] 1 [].

Lemma one_msg_wf : wf one_heap one_msg.
Proof.
  split; try done.
  - apply NoDup_singleton.
  - intros a Ha. cbn in Ha. apply list_elem_of_singleton in Ha as ->. by eexists.
  - intros i Hi Hh. destruct i as [|[|[|[|[|i]]]]]; [by eexists|done..|lia].
  - intros i a Ha Hh. destruct i as [|[|[|[|[|i]]]]]; done.
Qed.

Lemma control_class_refines_witness :
  ∃ h' m', MergeFrom one_heap false one_msg SharedCtor = Ret (h', m') ∧ wf h' m' ∧
    abs h' m' = set_command (bytes_of "ADD_TASK") new_ControlMSG.
Proof.
  destruct (control_class_refines one_heap one_msg SharedCtor (proj1 (SharedCtor_wf _)) one_msg_wf)
    as (_ & _ & _ & _ & _ & (h' & m' & E & Hw & _ & Ha) & _).
  - intros a _ Ha. by apply elem_of_nil in Ha.
  - exists h', m'. split; [exact E|]. split; [exact Hw|]. rewrite Ha. vm_compute. reflexivity.
Defined.
