(* ===== verification/Descriptors.v ===== *)
(** * The descriptor of ControlMSG and its registration: packet.pb.cc

    The file descriptor that the generated code registers, as the bytes of the
    source; what they mean in the documented encoding of descriptors; the static
    initialisation, the assignment of the descriptor and of the reflection, and the
    shutdown, over the protobuf runtime, of which only the pool of generated files
    matters here.  The output to a stream is the one to an array. *)

From Stdlib Require Import Ascii.
From S2P Require Import Prelude Message ControlMsg.

#[local] Open Scope Z_scope.

(** ** The file descriptor *)

(** The literal of [protobuf_AddDesc_packet_2eproto]. *)
Definition file_descriptor : list Z :=
  [10; 12] ++ bytes_of "packet.proto" ++ [34; 85; 10; 10] ++ bytes_of "ControlMSG" ++
  [18; 15; 10; 7] ++ bytes_of "command" ++ [24; 1; 32; 2; 40; 9] ++
  [18; 12; 10; 4] ++ bytes_of "arg1" ++ [24; 2; 32; 1; 40; 9] ++
  [18; 12; 10; 4] ++ bytes_of "arg2" ++ [24; 3; 32; 1; 40; 9] ++
  [18; 12; 10; 4] ++ bytes_of "arg3" ++ [24; 4; 32; 1; 40; 9] ++
  [18; 12; 10; 4] ++ bytes_of "arg4" ++ [24; 5; 32; 1; 40; 9].

Definition file_descriptor_size : Z := 101.

(** *** Its meaning: descriptor.proto *)

(** A field of an encoded message: a number, or bytes. *)
Inductive wire_value : Type :=
| WVarint (n : Z)
| WBytes (s : list Z).

Fixpoint wire_fields (fuel : nat) (input : list Z) : option (list (Z * wire_value)) :=
  match fuel, input with
  | _, [] => Some []
  | O, _ => None
  | S fuel, _ =>
      '(tag, input) ← decode_varint 5 input;
      '(v, input) ←
        (if Z.land tag 7 =? 0 then '(n, input) ← decode_varint 10 input; Some (WVarint n, input)
         else if Z.land tag 7 =? 2 then
           '(n, input) ← decode_varint 5 input;
           '(s, input) ← take_bytes n input; Some (WBytes s, input)
         else None);
      l ← wire_fields fuel input; Some ((Z.shiftr tag 3, v) :: l)
  end.

Definition decode_fields (input : list Z) : option (list (Z * wire_value)) :=
  wire_fields (length input) input.

Definition get_varint (f : Z) (l : list (Z * wire_value)) : option Z :=
  '(_, v) ← list_find (λ p, fst p = f) l; match snd v with WVarint n => Some n | _ => None end.
Definition get_bytes (f : Z) (l : list (Z * wire_value)) : list (list Z) :=
  omap (λ p, match snd p with WBytes s => if fst p =? f then Some s else None | _ => None end) l.

Record FieldDesc := MkField { fd_name : list Z; fd_number : Z; fd_label : Z; fd_type : Z }.
Record MessageDesc := MkMessage { md_name : list Z; md_fields : list FieldDesc }.
Record FileDesc := MkFile { file_desc_name : list Z; file_messages : list MessageDesc }.

Definition LABEL_OPTIONAL : Z := 1.
Definition LABEL_REQUIRED : Z := 2.
Definition TYPE_STRING : Z := 9.

Definition decode_field (s : list Z) : option FieldDesc :=
  l ← decode_fields s;
  name ← head (get_bytes 1 l); number ← get_varint 3 l; label ← get_varint 4 l; type ← get_varint 5 l;
  Some (MkField name number label type).
Definition decode_message (s : list Z) : option MessageDesc :=
  l ← decode_fields s;
  name ← head (get_bytes 1 l); fields ← mapM decode_field (get_bytes 2 l);
  Some (MkMessage name fields).
Definition decode_file (s : list Z) : option FileDesc :=
  l ← decode_fields s;
  name ← head (get_bytes 1 l); messages ← mapM decode_message (get_bytes 4 l);
  Some (MkFile name messages).

(** The message type that packet.proto declares. *)
Definition control_descriptor : MessageDesc :=
  MkMessage (bytes_of "ControlMSG")
    [MkField (bytes_of "command") 1 LABEL_REQUIRED TYPE_STRING;
     MkField (bytes_of "arg1") 2 LABEL_OPTIONAL TYPE_STRING;
     MkField (bytes_of "arg2") 3 LABEL_OPTIONAL TYPE_STRING;
     MkField (bytes_of "arg3") 4 LABEL_OPTIONAL TYPE_STRING;
     MkField (bytes_of "arg4") 5 LABEL_OPTIONAL TYPE_STRING].

(** ** The runtime *)

(** [DescriptorPool::generated_pool()]: a file whose name is new is found by it once it
    was added. *)
Class DescriptorPool := {
  Pool : Type;
  InternalAddGeneratedFile : list Z → Pool → Pool;
  FindFileByName : string → Pool → option FileDesc;
  find_added bytes file name p :
    FindFileByName name p = None → decode_file bytes = Some file → file_desc_name file = bytes_of name →
    FindFileByName name (InternalAddGeneratedFile bytes p) = Some file
}.

Section registration.
Context `{!DescriptorPool}.

(** The static variables of packet.pb.cc and what it registers. *)
Record Registry := MkRegistry {
  already_here : bool;
  pool : Pool;
  factory_files : nat;           (** InternalRegisterGeneratedFile *)
  default_instance_ : option nat;
  descriptor_ : option MessageDesc;
  reflection_ : option nat;
  assigned_once : bool;          (** protobuf_AssignDescriptors_once_ *)
  hooks : nat;                   (** OnShutdown *)
  objects : gset nat             (** what [new] has created and not been deleted *)
}.

Definition loaded (p : Pool) : Registry := MkRegistry false p 0 None None None false 0 ∅.

Definition AddDesc (r : Registry) : Registry :=
  if already_here r then r
  else
    let a := fresh (objects r) in
    MkRegistry true (InternalAddGeneratedFile file_descriptor (pool r)) (S (factory_files r))
      (Some a) (descriptor_ r) (reflection_ r) (assigned_once r) (S (hooks r)) ({[a]} ∪ objects r).

Definition AssignDesc (r : Registry) : outcome Registry :=
  let r := AddDesc r in
  match FindFileByName "packet.proto" (pool r) with
  | None => Throw "CHECK failed: file != NULL"
  | Some file =>
      md ← match file_messages file !! 0%nat with Some md => Ret md | None => Undef OutOfBounds end;
      let a := fresh (objects r) in
      Ret (MkRegistry (already_here r) (pool r) (factory_files r) (default_instance_ r) (Some md)
        (Some a) (assigned_once r) (hooks r) ({[a]} ∪ objects r))
  end.

(** [GoogleOnceInit] *)
Definition AssignDescriptorsOnce (r : Registry) : outcome Registry :=
  if assigned_once r then Ret r
  else
    r ← AssignDesc r;
    Ret (MkRegistry (already_here r) (pool r) (factory_files r) (default_instance_ r) (descriptor_ r)
      (reflection_ r) true (hooks r) (objects r)).

(** [ControlMSG::descriptor()] and [GetMetadata()] *)
Definition GetMetadata (r : Registry) : outcome (option MessageDesc * option nat * Registry) :=
  r ← AssignDescriptorsOnce r; Ret (descriptor_ r, reflection_ r, r).

(** [ControlMSG::default_instance()]: a reference to the instance. *)
Definition default_instance (r : Registry) : outcome (nat * Registry) :=
  let r := match default_instance_ r with None => AddDesc r | Some _ => r end in
  a ← deref (default_instance_ r);
  if decide (a ∈ objects r) then Ret (a, r) else Undef Dangling.

(** [protobuf_RegisterTypes]: what the factory is given. *)
Definition RegisterTypes (r : Registry) : outcome (option MessageDesc * nat * Registry) :=
  r ← AssignDescriptorsOnce r;
  '(a, r) ← default_instance r;
  Ret (descriptor_ r, a, r).

(** [delete] of a pointer, which may be NULL. *)
Definition delete_object (o : option nat) (h : gset nat) : outcome (gset nat) :=
  match o with
  | None => Ret h
  | Some a => if decide (a ∈ h) then Ret (h ∖ {[a]}) else Undef BadFree
  end.

Definition ShutdownFile (r : Registry) : outcome Registry :=
  h ← delete_object (default_instance_ r) (objects r);
  h ← delete_object (reflection_ r) h;
  Ret (MkRegistry (already_here r) (pool r) (factory_files r) (default_instance_ r) (descriptor_ r)
    (reflection_ r) (assigned_once r) (hooks r) h).

(** The calls that a program makes between its start and the shutdown. *)
Inductive registry_call : Registry → Registry → Prop :=
| call_AddDesc r : registry_call r (AddDesc r)
| call_GetMetadata r d m r' : GetMetadata r = Ret (d, m, r') → registry_call r r'
| call_default r a r' : default_instance r = Ret (a, r') → registry_call r r'
| call_RegisterTypes r d a r' : RegisterTypes r = Ret (d, a, r') → registry_call r r'.

(** ** Lemmas *)

Lemma file_descriptor_decodes :
  decode_file file_descriptor = Some (MkFile (bytes_of "packet.proto") [control_descriptor]).
Proof. vm_compute. reflexivity. Qed.

(** The states after the static initialisation: before and after the descriptor is
    assigned. *)
Definition registered (p : Pool) (a : nat) (b : option nat) (r : Registry) : Prop :=
  r = MkRegistry true (InternalAddGeneratedFile file_descriptor p) 1 (Some a)
    (match b with Some _ => Some control_descriptor | None => None end) b
    (match b with Some _ => true | None => false end) 1
    (match b with Some b => {[b]} ∪ {[a]} | None => {[a]} end) ∧
  FindFileByName "packet.proto" p = None ∧
  match b with Some b => b ≠ a | None => True end.

Lemma assign_once p a b r :
  registered p a b r →
  ∃ b' r', AssignDescriptorsOnce r = Ret r' ∧ registered p a (Some b') r' ∧
    match b with Some b => b' = b ∧ r' = r | None => True end.
Proof.
  intros (-> & Hp & Hb). destruct b as [b|].
  - exists b. eexists. split; [reflexivity|]. by split_and!.
  - unfold AssignDescriptorsOnce, AssignDesc, AddDesc. cbn [assigned_once already_here pool].
    rewrite (find_added _ _ _ _ Hp file_descriptor_decodes) by done. cbn.
    do 2 eexists. split; [reflexivity|]. split; [|done]. split_and!; [reflexivity|done|].
    intros E. apply (is_fresh (C := gset nat) {[a]}). rewrite E. set_solver.
Qed.

Lemma default_ok p a b r : registered p a b r → default_instance r = Ret (a, r).
Proof.
  intros [-> _]. unfold default_instance. cbn. rewrite decide_True; [done|].
  destruct b; set_solver.
Qed.

Lemma call_registered p a b r r' :
  registered p a b r → registry_call r r' →
  ∃ b', registered p a b' r' ∧ match b with Some b => b' = Some b ∧ r' = r | None => True end.
Proof.
  intros Hr Hc. destruct (assign_once p a b r Hr) as (b' & r1 & Ho & Hr1 & Hb).
  assert (Hafter : ∃ b', registered p a b' r1 ∧
    match b with Some b => b' = Some b ∧ r1 = r | None => True end).
  { exists (Some b'). split; [done|]. by destruct b as [b|]; [destruct Hb as [-> ->]|]. }
  assert (Hsame : ∃ b', registered p a b' r ∧
    match b with Some b => b' = Some b ∧ r = r | None => True end).
  { exists b. by destruct b. }
  destruct Hc as [r|r d m r' E|r k r' E|r d k r' E].
  - assert (AddDesc r = r) as -> by (by destruct Hr as [-> _]). done.
  - unfold GetMetadata in E. rewrite Ho in E. cbn in E. by simplify_eq.
  - rewrite (default_ok p a b r Hr) in E. by simplify_eq.
  - unfold RegisterTypes in E. rewrite Ho in E. cbn in E.
    rewrite (default_ok p a (Some b') r1 Hr1) in E. cbn in E. by simplify_eq.
Qed.

Lemma calls_registered p a b r r' :
  registered p a b r → rtc registry_call r r' →
  ∃ b', registered p a b' r' ∧ match b with Some b => b' = Some b ∧ r' = r | None => True end.
Proof.
  intros Hr Hc. revert b Hr. induction Hc as [r|r r1 r2 Hs _ IH]; intros b Hr.
  - exists b. by destruct b.
  - destruct (call_registered p a b r r1 Hr Hs) as (b1 & Hr1 & Hb1).
    destruct (IH b1 Hr1) as (b2 & Hr2 & Hb2). exists b2. split; [done|].
    destruct b as [b|]; [|done]. destruct Hb1 as [-> ->]. done.
Qed.

Lemma shutdown_frees p a b r :
  registered p a b r →
  ∃ r', ShutdownFile r = Ret r' ∧ objects r' = ∅ ∧ ShutdownFile r' = Undef BadFree ∧
    default_instance r' = Undef Dangling.
Proof.
  intros (-> & _ & Hb). unfold ShutdownFile, delete_object. cbn [default_instance_ reflection_ objects].
  rewrite decide_True by (destruct b; set_solver). cbn [mbind outcome_bind].
  destruct b as [b|]; [rewrite decide_True by set_solver|]; cbn [mbind outcome_bind].
  all: eexists; split; [reflexivity|]; cbn [objects default_instance_].
  all: assert (Hn : ∀ x : gset nat, x = ∅ → a ∉ x) by set_solver.
  all: match goal with |- ?h = ∅ ∧ _ => assert (He : h = ∅) by set_solver end.
  all: split; [done|]; split; [by rewrite decide_False by (by apply Hn)|].
  all: unfold default_instance; cbn; by rewrite decide_False by (by apply Hn).
Qed.

(** ** Properties *)

(** The registered descriptor is the one of packet.proto: it has the announced size,
    and describes the message ControlMSG with the fields that the generated code
    writes and one required field, which is the one that IsInitialized tests. *)
Theorem descriptor_describes :
  Z.of_nat (length file_descriptor) = file_descriptor_size ∧
  decode_file file_descriptor = Some (MkFile (bytes_of "packet.proto") [control_descriptor]) ∧
  ∀ c, Forall (λ p, ∃ d, d ∈ md_fields control_descriptor ∧ fd_number d = fst p ∧
           fd_type d = TYPE_STRING) (fields_of c) ∧
    IsInitialized c = forallb (λ d, negb (fd_label d =? LABEL_REQUIRED) ||
      bool_decide (fd_number d ∈ (fields_of c).*1)) (md_fields control_descriptor).
Proof.
  split; [reflexivity|]. split; [apply file_descriptor_decodes|]. intros c. split.
  - assert (Hd : ∀ n, n ∈ [1; 2; 3; 4; 5] →
      ∃ d, d ∈ md_fields control_descriptor ∧ fd_number d = n ∧ fd_type d = TYPE_STRING).
    { intros n Hn. cbn. rewrite !elem_of_cons, elem_of_nil in Hn.
      destruct Hn as [->|[->|[->|[->|[->|[]]]]]];
        [exists (MkField (bytes_of "command") 1 LABEL_REQUIRED TYPE_STRING)
        |exists (MkField (bytes_of "arg1") 2 LABEL_OPTIONAL TYPE_STRING)
        |exists (MkField (bytes_of "arg2") 3 LABEL_OPTIONAL TYPE_STRING)
        |exists (MkField (bytes_of "arg3") 4 LABEL_OPTIONAL TYPE_STRING)
        |exists (MkField (bytes_of "arg4") 5 LABEL_OPTIONAL TYPE_STRING)];
        (split; [by rewrite !elem_of_cons; auto 10|done]). }
    destruct c as [[] [] [] [] [] u]; cbn; repeat (constructor; [apply Hd; by rewrite !elem_of_cons; auto 10|]); constructor.
  - destruct c as [[s|] [] [] [] [] u]; reflexivity.
Qed.

(** The registration happens once.  After the static initialisation, with a pool that has
    no file of that name, and any calls of
    the generated functions: one file, one shutdown hook and one default instance are
    registered; the metadata is the descriptor of ControlMSG and a reflection object,
    the same ones after any further calls; the shutdown deletes everything that was
    created, once, and leaves the pointers behind: a second shutdown deletes them
    again, and default_instance returns a deleted object. *)
Theorem registration_once p r :
  FindFileByName "packet.proto" p = None → rtc registry_call (AddDesc (loaded p)) r →
  pool r = InternalAddGeneratedFile file_descriptor p ∧ factory_files r = 1%nat ∧ hooks r = 1%nat ∧
  (∃ a, default_instance r = Ret (a, r)) ∧
  (∃ m r', GetMetadata r = Ret (Some control_descriptor, Some m, r') ∧
    ∀ r'', rtc registry_call r' r'' →
      GetMetadata r'' = Ret (Some control_descriptor, Some m, r'')) ∧
  ∃ r', ShutdownFile r = Ret r' ∧ objects r' = ∅ ∧ ShutdownFile r' = Undef BadFree ∧
    default_instance r' = Undef Dangling.
Proof.
  intros Hp Hc. destruct (calls_registered p (fresh (∅ : gset nat)) None (AddDesc (loaded p)) r) as (b & Hr & _); [|done|].
  { split_and!; [|done..]. unfold AddDesc, loaded. cbn. by rewrite union_empty_r_L. }
  pose proof Hr as [E _]. split_and!; [by rewrite E..| | |by eapply shutdown_frees].
  - eexists. by eapply default_ok.
  - destruct (assign_once p _ b r Hr) as (m & r1 & Ho & Hr1 & _). exists m, r1. unfold GetMetadata.
    rewrite Ho. split; [by destruct Hr1 as [-> _]|]. intros r2 H2.
    destruct (calls_registered p _ (Some m) r1 r2 Hr1 H2) as (b2 & _ & -> & ->).
    by destruct Hr1 as [-> _].
Qed.

End registration.

(** A pool of files, the latest first. *)
Definition find_in_pool (name : string) (p : list (option FileDesc)) : option FileDesc :=
  '(_, f) ← list_find (λ f, (file_desc_name <$> f) = Some (bytes_of name)) p; f.

Lemma find_in_pool_added bytes file name p :
  find_in_pool name p = None → decode_file bytes = Some file → file_desc_name file = bytes_of name →
  find_in_pool name (decode_file bytes :: p) = Some file.
Proof. intros _ Hd Hn. unfold find_in_pool. rewrite Hd. cbn. rewrite decide_True; [done|]. by rewrite Hn. Qed.

#[export] Instance file_pool : DescriptorPool := {
  Pool := list (option FileDesc);
  InternalAddGeneratedFile bytes p := decode_file bytes :: p;
  FindFileByName := find_in_pool;
  find_added := find_in_pool_added
}.

Definition empty_pool : @Pool file_pool := [].

Lemma registration_once_witness :
  ∃ m r', GetMetadata (AddDesc (loaded empty_pool)) = Ret (Some control_descriptor, Some m, r').
Proof.
  destruct (registration_once empty_pool (AddDesc (loaded empty_pool)))
    as (_ & _ & _ & _ & (m & r' & H & _) & _); [reflexivity|apply rtc_refl|].
  exists m, r'. exact H.
Defined.

(** ** Output to a stream *)

Section stream.
Context `{!WireFormat}.

(** [SerializeWithCachedSizes]: the output so far and the message. *)
Definition SerializeWithCachedSizes (c : ControlMSG) (output : list Z) : list Z :=
  let output := match command c with Some s => output ++ write_string 1 s | None => output end in
  let output := match arg1 c with Some s => output ++ write_string 2 s | None => output end in
  let output := match arg2 c with Some s => output ++ write_string 3 s | None => output end in
  let output := match arg3 c with Some s => output ++ write_string 4 s | None => output end in
  let output := match arg4 c with Some s => output ++ write_string 5 s | None => output end in
  match unknown_fields c with [] => output | _ => output ++ unknown_fields c end.

(** The two outputs write the same bytes. *)
Theorem stream_output c output : SerializeWithCachedSizes c output = output ++ Serialize c.
Proof.
  unfold SerializeWithCachedSizes, Serialize, write_field.
  cbn [command arg1 arg2 arg3 arg4 unknown_fields].
  assert (Hu : ∀ o, match unknown_fields c with [] => o | _ :: _ => o ++ unknown_fields c end =
    o ++ unknown_fields c) by (intros o; destruct (unknown_fields c); by rewrite ?app_nil_r).
  rewrite Hu. destruct c as [[] [] [] [] [] u]; cbn [command arg1 arg2 arg3 arg4 unknown_fields];
    by rewrite <-?app_assoc.
Qed.
End stream.
