(* ===== verification/Server.v ===== *)
(** * The connections of common/MultiThreadedTCPServer.cpp

    A connection is the pieces in which the bytes of its peer arrive, the bytes
    written to it and whether the peer still accepts them (boost::asio is not
    part of the sources; the socket keeps only what the code relies on: a
    [read_some] delivers the next piece, a [read] exactly the number of bytes
    asked for, and both throw at the end of the stream).  The loop of
    [connection::handle_read] has the handler of the derived server as a
    parameter; the buffer is a list of its size (192 MB in the code), and the
    theorems hold for every size the messages fit. *)

From S2P Require Import Prelude Message.

#[local] Open Scope Z_scope.

Record TcpSocket := MkSocket {
  pieces : list (list Z);
  written : list Z;
  peer_open : bool
}.

Definition set_pieces (sk : TcpSocket) ps := MkSocket ps (written sk) (peer_open sk).

(** [read_some]: the next piece, at most as long as the buffer. *)
Definition read_some (bufsize : nat) (sk : TcpSocket) : outcome (list Z * TcpSocket) :=
  match pieces sk with
  | [] => Throw "End of file"
  | p :: ps =>
      Ret (take bufsize p,
           set_pieces sk (if (bufsize <? length p)%nat then drop bufsize p :: ps else ps))
  end.

(** [ba::read] of [n] bytes, over as many pieces as it takes. *)
Fixpoint read_pieces (n : nat) (ps : list (list Z)) : outcome (list Z * list (list Z)) :=
  match n, ps with
  | O, _ => Ret ([], ps)
  | S _, [] => Throw "End of file"
  | S _, p :: ps =>
      if (n <? length p)%nat then Ret (take n p, drop n p :: ps)
      else '(bs, ps) ← read_pieces (n - length p) ps; Ret (p ++ bs, ps)
  end.

Definition read_exact (n : nat) (sk : TcpSocket) : outcome (list Z * TcpSocket) :=
  '(bs, ps) ← read_pieces n (pieces sk); Ret (bs, set_pieces sk ps).

Definition write_socket (sk : TcpSocket) (bs : list Z) : outcome TcpSocket :=
  if peer_open sk then Ret (MkSocket (pieces sk) (written sk ++ bs) true)
  else Throw "Broken pipe".

(** A piece read into the buffer; what follows it stays as it was. *)
Definition overlay (piece buf : list Z) : list Z := piece ++ drop (length piece) buf.

(** The request of an iteration: the buffer itself, or a copy completed from
    the socket when it announces more bytes than [bytes_transferred]. *)
Definition full_request (buf : list Z) (bytes_transferred : Z) (sk : TcpSocket)
    : outcome (msg_t * TcpSocket) :=
  request ← msg_of_bytes buf;
  let expectedBytes := i32 (totalBytes request) in
  if bytes_transferred <? u64 expectedBytes then
    let size := i32 (u64 (u64 expectedBytes - bytes_transferred)) in
    match calloc (u64 expectedBytes), calloc (u64 size) with
    | Some full, Some _ =>
        head ← read_bytes 0 bytes_transferred buf;
        full ← write_bytes 0 head full;
        '(tail, sk) ← read_exact (Z.to_nat (u64 size)) sk;
        full ← write_bytes bytes_transferred tail full;
        fullRequest ← msg_of_bytes full;
        Ret (fullRequest, sk)
    | _, _ => Undef NullDeref
    end
  else Ret (request, sk).

(** Writing the reply and reading on; an exception of either is logged, and the
    loop goes on with the buffer as it is. *)
Definition write_reply (reply : msg_t) (buf : list Z) (sk : TcpSocket)
    : outcome (list Z * TcpSocket) :=
  bs ← read_bytes 0 (totalBytes reply) (msg_bytes reply);
  match write_socket sk bs with
  | Ret sk =>
      match read_some (length buf) sk with
      | Ret (piece, sk) => Ret (overlay piece buf, sk)
      | _ => Ret (buf, sk)
      end
  | _ => Ret (buf, sk)
  end.

Section connection.
(** The virtual [handle_request] ([None]: a NULL reply). *)
Context (handle_request : msg_t → outcome (option msg_t)).

Definition last_request (m : msg_t) : bool := (msgId m =? MSG_DONE) || (msgId m =? MSG_TERM).

(** The do-while loop.  [bytes_transferred] is the size of the first read of
    the connection throughout. *)
Fixpoint handle_read_loop (fuel : nat) (buf : list Z) (bytes_transferred : Z) (sk : TcpSocket)
    : outcome (msg_t * TcpSocket) :=
  match fuel with
  | O => OutOfFuel
  | S fuel =>
      '(fullRequest, sk) ← full_request buf bytes_transferred sk;
      reply ← handle_request fullRequest;
      '(buf, sk) ← match reply with
                   | Some reply => write_reply reply buf sk
                   | None => Ret (buf, sk)
                   end;
      request ← msg_of_bytes buf;
      if last_request request then Ret (request, sk)
      else handle_read_loop fuel buf bytes_transferred sk
  end.

(** [handle_read] to the end: whether it raises SIGINT, and the socket. *)
Definition handle_read (fuel : nat) (buf : list Z) (bytes_transferred : Z) (sk : TcpSocket)
    : outcome (bool * TcpSocket) :=
  '(request, sk) ← handle_read_loop fuel buf bytes_transferred sk;
  Ret (msgId request =? MSG_TERM, MkSocket (pieces sk) (written sk) false).

(** [connection::start]: the first read into the fresh buffer [buf]; its error
    code is not looked at. *)
Definition connection_start (fuel : nat) (buf : list Z) (sk : TcpSocket)
    : outcome (bool * TcpSocket) :=
  match read_some (length buf) sk with
  | Ret (piece, sk) => handle_read fuel (overlay piece buf) (Z.of_nat (length piece)) sk
  | _ => handle_read fuel buf 0 sk
  end.

End connection.

(** ** Lemmas *)

Lemma read_pieces_all ps rest :
  Forall (λ p, p ≠ []) ps →
  read_pieces (length (mjoin ps)) (ps ++ rest) = Ret (mjoin ps, rest).
Proof.
  induction 1 as [|p ps Hp _ IH]; [by destruct rest|].
  change (mjoin (p :: ps)) with (p ++ mjoin ps). rewrite length_app, <-app_comm_cons.
  destruct p as [|b p]; [done|]. cbn [length Nat.add read_pieces].
  rewrite (proj2 (Nat.ltb_ge _ _)) by lia.
  replace (S (length p + length (mjoin ps)) - S (length p))%nat with (length (mjoin ps)) by lia.
  by rewrite IH.
Qed.

(** The fields of a message do not depend on what follows its header. *)
Lemma msg_of_header m x :
  msg_typed m → msg_of_bytes (header_bytes m ++ x) = Ret (set_data m x).
Proof. intros Hty. by rewrite <-(wire_roundtrip (set_data m x)). Qed.

Lemma msg_of_bytes_app m x :
  msg_typed m → msg_of_bytes (msg_bytes m ++ x) = Ret (set_data m (data m ++ x)).
Proof. intros Hty. unfold msg_bytes. rewrite <-app_assoc. by apply msg_of_header. Qed.

Lemma set_data_app_nil m : set_data m (data m ++ []) = m.
Proof. destruct m. unfold set_data. simpl. by rewrite app_nil_r. Qed.

Lemma length_msg_bytes m : length (msg_bytes m) = (69 + length (data m))%nat.
Proof. unfold msg_bytes. by rewrite length_app, length_header_bytes. Qed.

(** A message as the sender lays it out: its fields have their types and its
    total size is the size it has. *)
Definition msg_sent (m : msg_t) : Prop :=
  msg_typed m ∧ totalBytes m = Z.of_nat (length (msg_bytes m)) ∧ totalBytes m ≤ INT_MAX.

Lemma msg_sent_size m : msg_sent m → u64 (i32 (totalBytes m)) = totalBytes m.
Proof.
  intros (_&Ht&Hm). unfold INT_MAX in *. rewrite swrap_small, wrap_small by lia. done.
Qed.

(** The buffer that has [m] at its start. *)
Lemma full_request_whole m x bt sk :
  msg_sent m → totalBytes m ≤ bt →
  full_request (msg_bytes m ++ x) bt sk = Ret (set_data m (data m ++ x), sk).
Proof.
  intros Hs Hbt. unfold full_request. rewrite msg_of_bytes_app by apply Hs.
  cbn [mbind outcome_bind]. change (totalBytes (set_data m (data m ++ x))) with (totalBytes m).
  rewrite msg_sent_size by done. by rewrite (proj2 (Z.ltb_ge _ _)) by lia.
Qed.

(** The buffer that has the header of [m] and a part of its data. *)
Lemma full_request_partial m piece more rest buf sk :
  msg_sent m → msg_bytes m = piece ++ mjoin more → (69 ≤ length piece)%nat →
  (length piece < length (msg_bytes m))%nat → Forall (λ p, p ≠ []) more →
  pieces sk = more ++ rest →
  full_request (overlay piece buf) (Z.of_nat (length piece)) sk = Ret (m, set_pieces sk rest).
Proof.
  intros Hs Hm H69 Hlt Hne Hp. pose proof Hs as (Hty&Ht&Hmax).
  assert (Hlen : length (msg_bytes m) = (length piece + length (mjoin more))%nat)
    by (by rewrite Hm, length_app).
  assert (Hpiece : piece = header_bytes m ++ drop 69 piece).
  { rewrite <-(take_drop 69 piece) at 1. f_equal.
    rewrite <-(take_app_length (header_bytes m) (data m)), length_header_bytes.
    fold (msg_bytes m). rewrite Hm. by rewrite take_app_le. }
  unfold full_request, overlay. rewrite Hpiece at 1. rewrite <-app_assoc, msg_of_header by done.
  cbn [mbind outcome_bind]. change (totalBytes (set_data m _)) with (totalBytes m).
  rewrite msg_sent_size by done. rewrite (proj2 (Z.ltb_lt _ _)) by lia. unfold INT_MAX in *.
  replace (i32 (u64 (totalBytes m - Z.of_nat (length piece)))) with (Z.of_nat (length (mjoin more)))
    by (rewrite wrap_small, swrap_small; lia).
  rewrite (wrap_small 64 (Z.of_nat _)) by lia. unfold calloc.
  rewrite !(proj2 (Z.leb_gt _ _)) by lia.
  rewrite read_bytes_0 by done. cbn [mbind outcome_bind].
  replace (replicate (Z.to_nat (totalBytes m)) 0)
    with (replicate (length piece) 0 ++ replicate (length (mjoin more)) 0)
    by (rewrite <-replicate_add; f_equal; lia).
  rewrite <-(app_nil_l (replicate (length piece) 0 ++ _)).
  rewrite write_bytes_slice by (by rewrite ?length_replicate). cbn [mbind outcome_bind app].
  unfold read_exact. rewrite Nat2Z.id, Hp, read_pieces_all by done. cbn [mbind outcome_bind].
  rewrite <-(app_nil_r (replicate (length (mjoin more)) 0)).
  rewrite write_bytes_slice by (by rewrite ?length_replicate). cbn [mbind outcome_bind].
  by rewrite app_nil_r, <-Hm, wire_roundtrip.
Qed.

Lemma read_some_fits bufsize p ps w o :
  (length p ≤ bufsize)%nat → read_some bufsize (MkSocket (p :: ps) w o) = Ret (p, MkSocket ps w o).
Proof.
  intros Hp. unfold read_some. cbn [pieces]. rewrite take_ge by done.
  by rewrite (proj2 (Nat.ltb_ge _ _)).
Qed.

Lemma write_reply_next reply buf next ps w :
  msg_sent reply → (length next ≤ length buf)%nat →
  write_reply reply buf (MkSocket (next :: ps) w true) =
    Ret (overlay next buf, MkSocket ps (w ++ msg_bytes reply) true).
Proof.
  intros (_&Ht&_) Hl. unfold write_reply.
  pose proof (read_bytes_0 (msg_bytes reply) [] (totalBytes reply) Ht) as Hr.
  rewrite app_nil_r in Hr. rewrite Hr. cbn [mbind outcome_bind write_socket peer_open pieces written].
  by rewrite read_some_fits.
Qed.

Lemma length_overlay p buf : (length p ≤ length buf)%nat → length (overlay p buf) = length buf.
Proof. intros. unfold overlay. rewrite length_app, length_drop. lia. Qed.

Section serving.
Context (h : msg_t → outcome (option msg_t)).

(** The handler answers [m] with [reply], whatever memory follows the request. *)
Definition answers (m reply : msg_t) : Prop :=
  (∀ rest, h (set_data m (data m ++ rest)) = Ret (Some reply)) ∧ msg_sent reply.

(** The bytes a client sends after its first request: further requests, each
    when the reply to the one before is there, and the closing message. *)
Definition followed_by (reqs : list (msg_t * msg_t)) : list (list Z) :=
  ((λ r, msg_bytes (fst r)) <$> reqs) ++ [msg_bytes msg_done].

Definition replies (reqs : list (msg_t * msg_t)) : list Z :=
  mjoin ((λ r, msg_bytes (snd r)) <$> reqs).

(** A request that is served whole: it is answered, fits the buffer and does not
    announce more bytes than the connection's first read delivered. *)
Definition served_whole (bufsize : nat) (bt : Z) (r : msg_t * msg_t) : Prop :=
  answers (fst r) (snd r) ∧ msg_sent (fst r) ∧ last_request (fst r) = false ∧
  (length (msg_bytes (fst r)) ≤ bufsize)%nat ∧ totalBytes (fst r) ≤ bt.

(** After an answered request the loop is at the next message of the stream. *)
Lemma loop_answered fuel buf bt sk w ps m reply next :
  full_request buf bt sk = Ret (m, MkSocket (msg_bytes next :: ps) w true) →
  h m = Ret (Some reply) → msg_sent reply → msg_typed next →
  (length (msg_bytes next) ≤ length buf)%nat →
  handle_read_loop h (S fuel) buf bt sk =
    let x := data next ++ drop (length (msg_bytes next)) buf in
    let sk := MkSocket ps (w ++ msg_bytes reply) true in
    if last_request next then Ret (set_data next x, sk)
    else handle_read_loop h fuel (msg_bytes next ++ drop (length (msg_bytes next)) buf) bt sk.
Proof.
  intros Hf Hh Hr Hn Hl. cbn [handle_read_loop]. rewrite Hf. cbn [mbind outcome_bind].
  rewrite Hh. cbn [mbind outcome_bind]. rewrite write_reply_next by done.
  cbn [mbind outcome_bind]. unfold overlay. by rewrite msg_of_bytes_app.
Qed.

Lemma done_sent : msg_sent msg_done.
Proof. unfold msg_sent, msg_typed, int_range, size_range. by vm_compute. Qed.

Lemma loop_serves reqs : ∀ fuel buf bt sk m reply w,
  full_request buf bt sk = Ret (m, MkSocket (followed_by reqs) w true) →
  h m = Ret (Some reply) → msg_sent reply →
  (69 ≤ length buf)%nat → Forall (served_whole (length buf) bt) reqs →
  (length reqs < fuel)%nat →
  ∃ x, handle_read_loop h fuel buf bt sk =
    Ret (set_data msg_done x, MkSocket [] (w ++ msg_bytes reply ++ replies reqs) true).
Proof.
  induction reqs as [|[m' reply'] reqs IH]; intros fuel buf bt sk m reply w Hf Hh Hr Hb HF Hfuel;
    (destruct fuel as [|fuel]; [simpl in Hfuel; lia|]).
  - rewrite (loop_answered fuel buf bt sk w [] m reply msg_done) by (done || apply done_sent).
    cbn [replies]. rewrite app_nil_r. by eexists.
  - apply Forall_cons in HF as [([Ha Hr']&Hs'&Hl'&Hb'&Ht') HF']. cbn [fst snd] in *.
    rewrite (loop_answered fuel buf bt sk w (followed_by reqs) m reply m') by (done || apply Hs').
    rewrite Hl'. cbn zeta. set (buf' := msg_bytes m' ++ _).
    assert (Hlen : length buf' = length buf) by (by apply length_overlay).
    destruct (IH fuel buf' bt (MkSocket (followed_by reqs) (w ++ msg_bytes reply) true)
      (set_data m' (data m' ++ drop (length (msg_bytes m')) buf)) reply' (w ++ msg_bytes reply))
      as [x Hx]; [by apply full_request_whole|done..|by rewrite Hlen|by rewrite Hlen|simpl in *; lia|].
    exists x. rewrite Hx. unfold replies. cbn [fmap list_fmap snd].
    change (mjoin (?a :: ?l)) with (a ++ mjoin l). by rewrite <-!app_assoc.
Qed.

(** The first request of a connection reaches the handler, however it is cut. *)
Lemma first_request_read m reply piece more rest buf w :
  msg_sent m → answers m reply → msg_bytes m = piece ++ mjoin more →
  Forall (λ p, p ≠ []) more → (69 ≤ length piece ≤ length buf)%nat →
  ∃ m', full_request (overlay piece buf) (Z.of_nat (length piece))
      (MkSocket (more ++ rest) w true) = Ret (m', MkSocket rest w true) ∧
    h m' = Ret (Some reply).
Proof.
  intros Hs [Ha Hr] Hm Hne Hp. destruct more as [|p more].
  - simpl in Hm. rewrite app_nil_r in Hm. subst piece. unfold overlay. eexists.
    split; [apply full_request_whole; [done|destruct Hs as (_&?&_); lia]|apply Ha].
  - exists m. rewrite (full_request_partial m piece (p :: more) rest); try done.
    + split; [done|]. rewrite <-(set_data_app_nil m). apply Ha.
    + lia.
    + rewrite Hm, length_app. inversion_clear Hne.
      change (mjoin (p :: more)) with (p ++ mjoin more).
      rewrite length_app. destruct p; [done|]. simpl. lia.
Qed.


(** The loop on a request that stays in the buffer. *)
Lemma loop_stuck m reply x bt w o :
  msg_sent m → totalBytes m ≤ bt → answers m reply → last_request m = false →
  ∀ fuel, handle_read_loop h fuel (msg_bytes m ++ x) bt (MkSocket [] w o) = OutOfFuel.
Proof.
  intros Hs Hbt [Ha Hr] Hl fuel. revert w. induction fuel as [|fuel IH]; intros w; [done|].
  cbn [handle_read_loop]. rewrite full_request_whole by done. cbn [mbind outcome_bind].
  rewrite Ha. cbn [mbind outcome_bind].
  assert (∃ w', write_reply reply (msg_bytes m ++ x) (MkSocket [] w o) =
    Ret (msg_bytes m ++ x, MkSocket [] w' o)) as [w' ->].
  { destruct Hr as (_&Ht&_). unfold write_reply.
    pose proof (read_bytes_0 (msg_bytes reply) [] (totalBytes reply) Ht) as Hr.
    rewrite app_nil_r in Hr. rewrite Hr. cbn [mbind outcome_bind].
    destruct o; cbn [write_socket peer_open]; by eexists. }
  cbn [mbind outcome_bind]. rewrite msg_of_bytes_app by apply Hs.
  cbn [mbind outcome_bind]. change (last_request (set_data m _)) with (last_request m).
  rewrite Hl. apply IH.
Qed.

Lemma disconnect_loops m reply buf o fuel :
  msg_sent m → answers m reply → last_request m = false →
  (length (msg_bytes m) ≤ length buf)%nat →
  connection_start h fuel buf (MkSocket [msg_bytes m] [] o) = OutOfFuel.
Proof.
  intros Hs Ha Hl Hb. unfold connection_start, handle_read. rewrite read_some_fits by done.
  unfold overlay. erewrite loop_stuck; try done. destruct Hs as (_&?&_). lia.
Qed.

(** A client that disconnects without the closing message leaves the server
    in an endless loop: whether or not the reply can still be written, the failed
    read leaves the old request in the buffer and the handler runs on it again,
    for any amount of fuel. *)
Theorem disconnect_never_returns m reply buf o fuel :
  msg_sent m → answers m reply → last_request m = false →
  (length (msg_bytes m) ≤ length buf)%nat →
  connection_start h fuel buf (MkSocket [msg_bytes m] [] o) = OutOfFuel.
Proof. apply disconnect_loops. Qed.

End serving.

(** ** Witnesses *)

(** A handler that acknowledges everything. *)
Definition ack_handler (_ : msg_t) : outcome (option msg_t) := Ret (Some msg_ack).

(** A request of [n] data bytes. *)
Definition sized_msg (n : nat) : msg_t :=
  Msg MSG_CONTROL 1 0 0 0 0 0 0 0 0 0 (69 + Z.of_nat n) (Z.of_nat n) (replicate n 7).

Lemma sized_msg_sent n : Z.of_nat n ≤ 1000 → msg_sent (sized_msg n).
Proof.
  intros Hn. unfold msg_sent, msg_typed, int_range, size_range, sized_msg, INT_MIN, INT_MAX.
  rewrite length_msg_bytes. cbn [msgId clientId priority avg_wt resourceType predictedTimeMillis
    targetExecutionTimeMillis rids expDataSizeBytes dataSize paramsSize totalBytes dataBytes data].
  rewrite length_replicate. unfold MSG_CONTROL. split_and!; lia.
Qed.

Lemma ack_answers m : answers ack_handler m msg_ack.
Proof.
  split; [done|]. unfold msg_sent, msg_typed, int_range, size_range. by vm_compute.
Qed.


Lemma disconnect_never_returns_witness :
  connection_start ack_handler 1000 (replicate 128 0)
    (MkSocket [msg_bytes (sized_msg 10)] [] false) = OutOfFuel.
Proof.
  apply (disconnect_never_returns ack_handler (sized_msg 10) msg_ack).
  - by apply sized_msg_sent.
  - apply ack_answers.
  - reflexivity.
  - vm_compute. lia.
Defined.

(** A second request larger than the connection's first read: the loop takes
    the first read's size for the second's and asks the socket for bytes that
    it already has.  The exception of that read is not caught. *)
Example second_request_larger :
  connection_start ack_handler 2 (replicate 128 0)
    (MkSocket [msg_bytes (sized_msg 1); msg_bytes (sized_msg 10)] [] true) =
  Throw "End of file".
Proof. vm_compute. reflexivity. Qed.
