(* ===== verification/ServerLife.v ===== *)
(** * The life of a server: accept loop, thread pool, signals

    MultiThreadedTCPServer as a transition system.  The code of its handlers is
    a list of atomic actions; the worker threads interleave them.  Of
    boost::asio the system keeps what its documentation promises: an
    asynchronous operation completes at some time and queues its handler; the
    threads in [io_service::run] take queued handlers in any order, one at a
    time; [run] returns when the service is stopped or has no work left; an
    exception that leaves a handler ends the process.  [interrupt_all] asks the
    worker threads to leave at their next interruption point. *)

From S2P Require Import Prelude Message Server.

(** ** Actions, handlers, state *)

Inductive act : Type :=
| AStart                (** [new_connection_->start()] *)
| AReset                (** [new_connection_.reset(new connection(..))] *)
| AAsyncAccept          (** [acceptor_.async_accept(new_connection_->socket(), ..)] *)
| AIoStop               (** [io_service_.stop()] *)
| AInterrupt            (** [worker_threads.interrupt_all()] *)
| ARead (c : nat).      (** [handle_read] of connection [c] *)

#[export] Instance act_eq_dec : EqDecision act.
Proof. solve_decision. Defined.

Definition start_accept : list act := [AReset; AAsyncAccept].
Definition handle_accept : list act := AStart :: start_accept.
Definition handle_stop : list act := [AIoStop; AInterrupt].

(** A handler whose operation has completed. *)
Inductive handler : Type :=
| HAccept
| HStop
| HRead (c : nat).

Definition handler_code (h : handler) : list act :=
  match h with
  | HAccept => handle_accept
  | HStop => handle_stop
  | HRead c => [ARead c]
  end.

(** A worker thread: inside [run] with the rest of the handler it executes
    (none: waiting for one), or at its end. *)
Inductive thread : Type :=
| Running (code : list act) (intr : bool)
| Exited.

#[export] Instance thread_eq_dec : EqDecision thread.
Proof. solve_decision. Defined.

Record Srv := MkSrv {
  thread_pool_size_ : nat;
  sig_wait : bool;             (** [signals_.async_wait] is outstanding *)
  accepting : option nat;      (** the connection an outstanding accept is for *)
  reading : list nat;          (** connections with an outstanding first read *)
  ready : list handler;        (** completed operations *)
  io_stopped : bool;
  new_connection_ : option nat;
  nconn : nat;                 (** connections constructed so far *)
  sockets : list TcpSocket;    (** the sockets of accepted connections, by number *)
  begun : list nat;            (** log: connections that were started *)
  gone : list nat;             (** log: connections whose handler has ended *)
  worker_threads : list thread
}.

Definition set_threads s ts := MkSrv (thread_pool_size_ s) (sig_wait s) (accepting s) (reading s)
  (ready s) (io_stopped s) (new_connection_ s) (nconn s) (sockets s) (begun s) (gone s) ts.
Definition set_ready s r := MkSrv (thread_pool_size_ s) (sig_wait s) (accepting s) (reading s)
  r (io_stopped s) (new_connection_ s) (nconn s) (sockets s) (begun s) (gone s) (worker_threads s).
Definition set_reading s r := MkSrv (thread_pool_size_ s) (sig_wait s) (accepting s) r
  (ready s) (io_stopped s) (new_connection_ s) (nconn s) (sockets s) (begun s) (gone s)
  (worker_threads s).
Definition set_gone s g := MkSrv (thread_pool_size_ s) (sig_wait s) (accepting s) (reading s)
  (ready s) (io_stopped s) (new_connection_ s) (nconn s) (sockets s) (begun s) g
  (worker_threads s).

Definition interrupt (t : thread) : thread :=
  match t with Running code _ => Running code true | Exited => Exited end.

(** The effect of an action ([ARead] has a rule of its own). *)
Definition exec (a : act) (s : Srv) : outcome Srv :=
  match a with
  | AStart =>
      c ← deref (new_connection_ s);
      Ret (MkSrv (thread_pool_size_ s) (sig_wait s) (accepting s) (c :: reading s) (ready s)
        (io_stopped s) (new_connection_ s) (nconn s) (sockets s) (begun s ++ [c]) (gone s)
        (worker_threads s))
  | AReset =>
      Ret (MkSrv (thread_pool_size_ s) (sig_wait s) (accepting s) (reading s) (ready s)
        (io_stopped s) (Some (nconn s)) (S (nconn s)) (sockets s) (begun s) (gone s)
        (worker_threads s))
  | AAsyncAccept =>
      c ← deref (new_connection_ s);
      Ret (MkSrv (thread_pool_size_ s) (sig_wait s) (Some c) (reading s) (ready s)
        (io_stopped s) (new_connection_ s) (nconn s) (sockets s) (begun s) (gone s)
        (worker_threads s))
  | AIoStop =>
      Ret (MkSrv (thread_pool_size_ s) (sig_wait s) (accepting s) (reading s) (ready s) true
        (new_connection_ s) (nconn s) (sockets s) (begun s) (gone s) (worker_threads s))
  | AInterrupt => Ret (set_threads s (interrupt <$> worker_threads s))
  | ARead _ => Ret s
  end.

Fixpoint exec_all (l : list act) (s : Srv) : outcome Srv :=
  match l with
  | [] => Ret s
  | a :: l => s ← exec a s; exec_all l s
  end.

(** A signal of the set arrives: its handler is queued, once. *)
Definition raise_signal (s : Srv) : Srv :=
  if sig_wait s then
    MkSrv (thread_pool_size_ s) false (accepting s) (reading s) (ready s ++ [HStop])
      (io_stopped s) (new_connection_ s) (nconn s) (sockets s) (begun s) (gone s)
      (worker_threads s)
  else s.

(** The constructor. *)
Definition new_server (thread_pool_size : nat) : outcome Srv :=
  exec_all start_accept (MkSrv thread_pool_size true None [] [] false None 0 [] [] [] []).

(** One iteration of the loop of [run]. *)
Definition create_thread (s : Srv) : Srv :=
  set_threads s (worker_threads s ++ [Running [] false]).

(** [join_all] returns. *)
Definition run_returned (s : Srv) : Prop :=
  length (worker_threads s) = thread_pool_size_ s ∧ Forall (.= Exited) (worker_threads s).

#[export] Instance run_returned_dec s : Decision (run_returned s).
Proof. unfold run_returned. apply _. Defined.

(** Outstanding work keeps [io_service::run] from returning. *)
Definition has_work (s : Srv) : bool :=
  sig_wait s || bool_decide (is_Some (accepting s)) || bool_decide (reading s ≠ []) ||
  bool_decide (ready s ≠ []) ||
  existsb (λ t, match t with Running (_ :: _) _ => true | _ => false end) (worker_threads s).

(** ** Steps *)

Section life.
(** The handler each connection meets and its buffer before the first read. *)
Context (h : nat → msg_t → outcome (option msg_t)) (buf : nat → list Z).

Definition served (c : nat) (sk : TcpSocket) (r : outcome (bool * TcpSocket)) : Prop :=
  ∃ fuel, connection_start (h c) fuel (buf c) sk = r ∧ r ≠ OutOfFuel.

(** The process is a server, or was ended by an exception. *)
Inductive step : Srv → option Srv → Prop :=
| step_create s :
    (length (worker_threads s) < thread_pool_size_ s)%nat → step s (Some (create_thread s))
| step_accepted s c sk :
    accepting s = Some c →
    step s (Some (MkSrv (thread_pool_size_ s) (sig_wait s) None (reading s)
      (ready s ++ [HAccept]) (io_stopped s) (new_connection_ s) (nconn s) (sockets s ++ [sk])
      (begun s) (gone s) (worker_threads s)))
| step_data s c r1 r2 :
    reading s = r1 ++ c :: r2 →
    step s (Some (set_ready (set_reading s (r1 ++ r2)) (ready s ++ [HRead c])))
| step_signal s : sig_wait s = true → step s (Some (raise_signal s))
| step_take s hd q1 q2 ts1 ts2 intr :
    io_stopped s = false → ready s = q1 ++ hd :: q2 →
    worker_threads s = ts1 ++ Running [] intr :: ts2 →
    step s (Some (set_threads (set_ready s (q1 ++ q2))
      (ts1 ++ Running (handler_code hd) intr :: ts2)))
| step_exec s a l ts1 ts2 intr s' :
    worker_threads s = ts1 ++ Running (a :: l) intr :: ts2 → (∀ c, a ≠ ARead c) →
    exec a (set_threads s (ts1 ++ Running l intr :: ts2)) = Ret s' →
    step s (Some s')
| step_read s c ts1 ts2 intr sk raised sk' :
    worker_threads s = ts1 ++ Running [ARead c] intr :: ts2 →
    sockets s !! c = Some sk → served c sk (Ret (raised, sk')) →
    let s' := set_gone (set_threads s (ts1 ++ Running [] intr :: ts2)) (c :: gone s) in
    step s (Some (if raised then raise_signal s' else s'))
| step_crash s c ts1 ts2 intr sk e :
    worker_threads s = ts1 ++ Running [ARead c] intr :: ts2 →
    sockets s !! c = Some sk → served c sk (Throw e) → step s None
| step_interrupted s c ts1 ts2 :
    worker_threads s = ts1 ++ Running [ARead c] true :: ts2 →
    step s (Some (set_gone (set_threads s (ts1 ++ Exited :: ts2)) (c :: gone s)))
| step_exit s ts1 ts2 intr :
    worker_threads s = ts1 ++ Running [] intr :: ts2 →
    io_stopped s = true ∨ has_work s = false →
    step s (Some (set_threads s (ts1 ++ Exited :: ts2))).

Inductive steps : Srv → Srv → Prop :=
| steps_refl s : steps s s
| steps_cons s1 s2 s3 : step s1 (Some s2) → steps s2 s3 → steps s1 s3.

Definition reachable (s : Srv) : Prop := ∃ n s0, new_server n = Ret s0 ∧ steps s0 s.

(** ** Invariant *)

(** Where the one accept of the server is: outstanding (no code left), queued,
    or being handled by a thread with the given code left. *)
Definition code_accept (l : list act) : option (list act) :=
  if decide (AAsyncAccept ∈ l) then Some l else None.

Definition thread_accept (t : thread) : option (list act) :=
  match t with Running l _ => code_accept l | Exited => None end.

Definition handler_accept (hd : handler) : option (list act) := code_accept (handler_code hd).

Definition accepts (s : Srv) : list (list act) :=
  match accepting s with Some _ => [[]] | None => [] end ++
  omap handler_accept (ready s) ++ omap thread_accept (worker_threads s).

(** The connections that were started, by where they are. *)
Definition handler_read (hd : handler) : option nat :=
  match hd with HRead c => Some c | _ => None end.

Definition thread_read (t : thread) : option nat :=
  match t with Running [ARead c] _ => Some c | _ => None end.

Definition connections (s : Srv) : list nat :=
  reading s ++ omap handler_read (ready s) ++ omap thread_read (worker_threads s) ++ gone s.

(** The newest connection and the counts, by what is left of the accept. *)
Definition accept_ok (s : Srv) (l : list act) : Prop :=
  ∃ c, new_connection_ s = Some c ∧ nconn s = S c ∧
  match l with
  | [] => accepting s = Some c ∧ length (sockets s) = c ∧ begun s = seq 0 c
  | AStart :: _ => length (sockets s) = S c ∧ begun s = seq 0 c
  | AReset :: _ => length (sockets s) = S c ∧ begun s = seq 0 (S c)
  | _ => length (sockets s) = c ∧ begun s = seq 0 c
  end.

Definition code_ok (stopped : bool) (t : thread) : Prop :=
  match t with
  | Running l intr => (∃ hd k, l = drop k (handler_code hd)) ∧
      (intr = true ∨ l = [AInterrupt] → stopped = true)
  | Exited => stopped = true
  end.

Record inv (s : Srv) : Prop := {
  inv_accept : ∃ l, accepts s ≡ₚ [l] ∧ accept_ok s l;
  inv_connections : connections s ≡ₚ begun s;
  inv_code : Forall (code_ok (io_stopped s)) (worker_threads s);
  inv_pool : (length (worker_threads s) ≤ thread_pool_size_ s)%nat
}.

Lemma new_server_inv n s : new_server n = Ret s → inv s.
Proof.
  intros H. injection H as <-. split; cbn; try done; [|lia].
  exists []. split; [done|]. exists 0%nat. done.
Qed.

Lemma has_work_true s l : accepts s ≡ₚ [l] → has_work s = true.
Proof.
  intros Hp. unfold has_work. destruct (accepting s) eqn:Ea.
  { rewrite bool_decide_eq_true_2 by eauto. by rewrite !orb_true_r. }
  destruct (ready s) as [|hd q] eqn:Er.
  - assert (l ∈ accepts s) as Hl by (rewrite Hp; by left).
    unfold accepts in Hl. rewrite Ea, Er in Hl. simpl in Hl.
    apply list_elem_of_omap in Hl as (t & Ht & Hc).
    apply orb_true_iff. right. apply existsb_exists. exists t.
    split; [by apply list_elem_of_In|]. by destruct t as [[|a code] intr|].
  - rewrite (bool_decide_eq_true_2 (_ :: _ ≠ [])) by done. by rewrite !orb_true_r.
Qed.

(** An accept that is neither outstanding nor queued is the code of one thread. *)
Lemma accepts_running s l ts1 ts2 code intr :
  accepts s ≡ₚ [l] → worker_threads s = ts1 ++ Running code intr :: ts2 → AAsyncAccept ∈ code →
  l = code ∧ accepting s = None ∧ omap handler_accept (ready s) = [] ∧
  omap thread_accept ts1 = [] ∧ omap thread_accept ts2 = [].
Proof.
  intros Hp Hts Hin. unfold accepts in Hp. rewrite Hts, omap_app in Hp. cbn [omap list_omap] in Hp.
  unfold thread_accept at 2, code_accept in Hp. rewrite decide_True in Hp by done.
  assert (Hl : length [l] = length [l]) by done. rewrite <-Hp in Hl at 1.
  rewrite !length_app in Hl. cbn [length] in Hl.
  destruct (accepting s); cbn [length] in Hl; [lia|].
  destruct (omap handler_accept (ready s)); cbn [length] in Hl; [|lia].
  destruct (omap thread_accept ts1); cbn [length] in Hl; [|lia].
  destruct (omap thread_accept ts2) eqn:E2; cbn [length] in Hl; [|lia].
  cbn [app] in Hp. apply Permutation_singleton_r in Hp. by injection Hp as ->.
Qed.

Lemma code_cases a l :
  (∃ hd k, a :: l = drop k (handler_code hd)) →
  (a = AStart ∧ l = start_accept) ∨ (a = AReset ∧ l = [AAsyncAccept]) ∨
  (a = AAsyncAccept ∧ l = []) ∨ (a = AIoStop ∧ l = [AInterrupt]) ∨ (a = AInterrupt ∧ l = []) ∨
  (∃ c, a = ARead c ∧ l = []).
Proof.
  intros (hd & k & H).
  destruct hd; destruct k as [|[|[|k]]]; cbn in H; rewrite ?drop_nil in H; simplify_eq;
    unfold start_accept; eauto 10.
Qed.

Lemma code_suffix a l :
  (∃ hd k, a :: l = drop k (handler_code hd)) → ∃ hd k, l = drop k (handler_code hd).
Proof.
  intros (hd & k & H). exists hd, (S k). by rewrite <-Nat.add_1_r, <-drop_drop, <-H.
Qed.

Lemma code_ok_stop t b : code_ok b t → code_ok true t.
Proof. destruct t; simpl; intuition. Qed.

Lemma code_ok_interrupt t : code_ok true t → code_ok true (interrupt t).
Proof. destruct t; simpl; intuition. Qed.

Lemma omap_interrupt {A} (f : thread → option A) (ts : list thread) :
  (∀ l i, f (Running l true) = f (Running l i)) → omap f (interrupt <$> ts) = omap f ts.
Proof.
  intros Hf. induction ts as [|t ts IH]; [done|]. cbn [fmap list_fmap omap list_omap].
  rewrite IH. destruct t as [l i|]; cbn [interrupt]; [|done]. by rewrite (Hf l i).
Qed.

(** Code without an accept can be replaced by other such code. *)
Lemma accepts_thread s ts1 t t' ts2 :
  worker_threads s = ts1 ++ t :: ts2 → thread_accept t' = thread_accept t →
  accepts (set_threads s (ts1 ++ t' :: ts2)) = accepts s.
Proof.
  intros Hts Ht. unfold accepts. cbn. rewrite Hts, !omap_app. cbn [omap list_omap]. by rewrite Ht.
Qed.

Lemma connections_thread s ts1 t t' ts2 :
  worker_threads s = ts1 ++ t :: ts2 → thread_read t' = thread_read t →
  connections (set_threads s (ts1 ++ t' :: ts2)) = connections s.
Proof.
  intros Hts Ht. unfold connections. cbn. rewrite Hts, !omap_app. cbn [omap list_omap].
  by rewrite Ht.
Qed.

Lemma pool_thread s ts1 t t' ts2 :
  worker_threads s = ts1 ++ t :: ts2 →
  length (worker_threads s) = length (ts1 ++ t' :: ts2).
Proof. intros ->. by rewrite !length_app. Qed.

Lemma code_thread b ts1 t t' ts2 :
  Forall (code_ok b) (ts1 ++ t :: ts2) → (code_ok b t → code_ok b t') →
  Forall (code_ok b) (ts1 ++ t' :: ts2).
Proof. rewrite !Forall_app, !Forall_cons. intuition. Qed.

(** The actions of the accept, in their order. *)
Lemma exec_accept_inv s a l ts1 ts2 intr s' :
  inv s → worker_threads s = ts1 ++ Running (a :: l) intr :: ts2 →
  (a = AStart ∧ l = start_accept) ∨ (a = AReset ∧ l = [AAsyncAccept]) ∨
    (a = AAsyncAccept ∧ l = []) →
  exec a (set_threads s (ts1 ++ Running l intr :: ts2)) = Ret s' → inv s'.
Proof.
  intros [(l0 & Hp & c & Hnew & Hn & Hok) Hconn Hcode Hpool] Hts Ha Hex.
  destruct (accepts_running s l0 ts1 ts2 (a :: l) intr) as (-> & Hacc & Hrd & H1 & H2);
    [done..|destruct Ha as [[-> ->]|[[-> ->]|[-> ->]]]; unfold start_accept; set_solver|].
  unfold connections in Hconn. rewrite Hts in Hcode, Hconn, Hpool.
  rewrite !omap_app in Hconn. cbn [omap list_omap] in Hconn.
  assert (Hcode' : Forall (code_ok (io_stopped s)) (ts1 ++ Running l intr :: ts2)).
  { apply (code_thread _ _ _ _ _ Hcode). intros [Hc Hi]. split; [by apply (code_suffix a)|].
    intros [->| ->]; [auto|]. by destruct Ha as [[_ ?]|[[_ ?]|[_ ?]]]. }
  assert (Hpool' : (length (ts1 ++ Running l intr :: ts2) ≤ thread_pool_size_ s)%nat)
    by (rewrite length_app in *; done).
  destruct Ha as [[-> ->]|[[-> ->]|[-> ->]]]; unfold exec in Hex; cbn in Hex; rewrite ?Hnew in Hex;
    cbn in Hex; injection Hex as <-; split; cbn; try done.
  - exists start_accept. unfold accepts. cbn. rewrite Hacc, Hrd, omap_app. cbn [omap list_omap].
    rewrite H1, H2. split; [done|]. exists c.
    cbn [new_connection_ nconn sockets begun start_accept set_threads].
    rewrite seq_S. by destruct Hok as [-> ->].
  - unfold connections. cbn. rewrite omap_app. cbn [omap list_omap thread_read start_accept].
    rewrite <-Hconn. by rewrite Permutation_cons_append.
  - exists [AAsyncAccept]. unfold accepts. cbn. rewrite Hacc, Hrd, omap_app. cbn [omap list_omap].
    rewrite H1, H2. split; [done|]. exists (S c).
    cbn [new_connection_ nconn sockets begun set_threads].
    rewrite Hn. by destruct Hok as [-> ->].
  - unfold connections. cbn. rewrite omap_app. exact Hconn.
  - exists []. unfold accepts. cbn. rewrite Hrd, omap_app. cbn [omap list_omap].
    rewrite H1, H2. split; [done|]. by exists c.
  - unfold connections. cbn. rewrite omap_app. exact Hconn.
Qed.

Lemma accept_ok_frame s s' l :
  accept_ok s l → new_connection_ s' = new_connection_ s → nconn s' = nconn s →
  accepting s' = accepting s → sockets s' = sockets s → begun s' = begun s → accept_ok s' l.
Proof. unfold accept_ok. by intros ? -> -> -> -> ->. Qed.

Lemma exec_stop_inv s a l ts1 ts2 intr s' :
  inv s → worker_threads s = ts1 ++ Running (a :: l) intr :: ts2 →
  (a = AIoStop ∧ l = [AInterrupt]) ∨ (a = AInterrupt ∧ l = []) →
  exec a (set_threads s (ts1 ++ Running l intr :: ts2)) = Ret s' → inv s'.
Proof.
  intros [(l0 & Hp & Hok) Hconn Hcode Hpool] Hts Ha Hex.
  set (s1 := set_threads s (ts1 ++ Running l intr :: ts2)) in *.
  assert (Ha1 : accepts s1 = accepts s).
  { apply (accepts_thread _ _ _ _ _ Hts). by destruct Ha as [[-> ->]|[-> ->]]. }
  assert (Hc1 : connections s1 = connections s).
  { apply (connections_thread _ _ _ _ _ Hts). by destruct Ha as [[-> ->]|[-> ->]]. }
  rewrite <-Ha1 in Hp. rewrite <-Hc1 in Hconn.
  rewrite (pool_thread s ts1 _ (Running l intr) ts2 Hts) in Hpool. rewrite Hts in Hcode.
  destruct Ha as [[-> ->]|[-> ->]]; injection Hex as <-; split; try done.
  - exists l0. split; [exact Hp|]. by apply (accept_ok_frame s).
  - cbn. apply Forall_impl with (code_ok true); [|done].
    apply (code_thread _ _ (Running [AIoStop; AInterrupt] intr)).
    + eapply Forall_impl; [done|]. intros t. apply code_ok_stop.
    + intros [Hc _]. split; [by apply (code_suffix AIoStop)|done].
  - exists l0. split; [|by apply (accept_ok_frame s)].
    unfold accepts. cbn. rewrite omap_interrupt by done. exact Hp.
  - unfold connections. cbn. rewrite omap_interrupt by done. exact Hconn.
  - cbn. apply Forall_fmap.
    assert (io_stopped s = true) as Hst.
    { apply Forall_app in Hcode as [_ Hcode]. apply Forall_cons in Hcode as [[_ Hi] _]. auto. }
    rewrite Hst in *. eapply Forall_impl; [|apply code_ok_interrupt].
    apply (code_thread _ _ _ _ _ Hcode). intros [Hc _].
    split; [by apply (code_suffix AInterrupt)|done].
  - cbn. by rewrite length_fmap.
Qed.

(** Replacing a thread's code where neither accept nor connection is involved. *)
Lemma thread_inv s ts1 t t' ts2 :
  inv s → worker_threads s = ts1 ++ t :: ts2 → thread_accept t' = thread_accept t →
  thread_read t' = thread_read t → (code_ok (io_stopped s) t → code_ok (io_stopped s) t') →
  inv (set_threads s (ts1 ++ t' :: ts2)).
Proof.
  intros [(l & Hp & Hok) Hconn Hcode Hpool] Hts Ha Hr Hc. split.
  - exists l. rewrite (accepts_thread s ts1 t) by done. split; [done|]. by apply (accept_ok_frame s).
  - by rewrite (connections_thread s ts1 t).
  - cbn. rewrite Hts in Hcode. by apply (code_thread _ _ t).
  - cbn. by rewrite <-(pool_thread s ts1 t).
Qed.

(** A connection's handler ends, in whichever way. *)
Lemma read_end_inv s c ts1 ts2 intr t' :
  inv s → worker_threads s = ts1 ++ Running [ARead c] intr :: ts2 →
  thread_accept t' = None → thread_read t' = None → code_ok (io_stopped s) t' →
  inv (set_gone (set_threads s (ts1 ++ t' :: ts2)) (c :: gone s)).
Proof.
  intros [(l & Hp & Hok) Hconn Hcode Hpool] Hts Ha Hr Hc. split.
  - exists l. split; [|by apply (accept_ok_frame s)].
    change (accepts (set_gone ?x _)) with (accepts x).
    rewrite (accepts_thread s ts1 (Running [ARead c] intr)); done.
  - change (begun (set_gone _ _)) with (begun s). rewrite <-Hconn. unfold connections. cbn.
    rewrite Hts, !omap_app. cbn [omap list_omap]. rewrite Hr. cbn [thread_read].
    rewrite <-!app_assoc. cbn [app].
    by rewrite (Permutation_middle (omap thread_read ts2)).
  - cbn. rewrite Hts in Hcode. by apply (code_thread _ _ (Running [ARead c] intr)).
  - cbn. by rewrite <-(pool_thread s ts1 (Running [ARead c] intr)).
Qed.

(** Queueing a handler that has no accept and no read. *)
Lemma raise_signal_inv s : inv s → inv (raise_signal s).
Proof.
  intros Hs. unfold raise_signal. case_match; [|done].
  destruct Hs as [(l & Hp & Hok) Hconn Hcode Hpool].
  split; try done.
  - exists l. split; [|by apply (accept_ok_frame s)].
    unfold accepts in *. cbn. by rewrite omap_app, app_nil_r.
  - unfold connections in *. cbn. by rewrite omap_app, app_nil_r.
Qed.

Lemma take_inv s hd q1 q2 ts1 ts2 intr :
  inv s → ready s = q1 ++ hd :: q2 → worker_threads s = ts1 ++ Running [] intr :: ts2 →
  inv (set_threads (set_ready s (q1 ++ q2)) (ts1 ++ Running (handler_code hd) intr :: ts2)).
Proof.
  intros [(l & Hp & Hok) Hconn Hcode Hpool] Hq Hts.
  unfold accepts in Hp. rewrite Hq, Hts, !omap_app in Hp.
  unfold connections in Hconn. rewrite Hq, Hts, !omap_app in Hconn.
  split.
  - exists l. split; [|by apply (accept_ok_frame s)]. rewrite <-Hp. unfold accepts. cbn.
    rewrite !omap_app. cbn [omap list_omap].
    change (thread_accept (Running (handler_code hd) intr)) with (handler_accept hd).
    destruct (handler_accept hd); [|done]. solve_Permutation.
  - change (begun (set_threads _ _)) with (begun s). rewrite <-Hconn. unfold connections. cbn.
    rewrite !omap_app. cbn [omap list_omap].
    destruct hd; cbn [handler_read thread_read handler_code handle_accept handle_stop start_accept];
      [done..|]. solve_Permutation.
  - cbn. rewrite Hts in Hcode. apply (code_thread _ _ _ _ _ Hcode).
    intros [_ Hi]. split; [by exists hd, 0%nat|]. intros [?|?]; [auto|]. by destruct hd.
  - cbn. by rewrite <-(pool_thread s ts1 (Running [] intr)).
Qed.

Lemma code_at s ts1 t ts2 : inv s → worker_threads s = ts1 ++ t :: ts2 → code_ok (io_stopped s) t.
Proof. intros [_ _ Hcode _] Hts. rewrite Hts in Hcode. by apply Forall_elt in Hcode. Qed.

Lemma create_inv s :
  inv s → (length (worker_threads s) < thread_pool_size_ s)%nat → inv (create_thread s).
Proof.
  intros [(l & Hp & Hok) Hconn Hcode Hpool] Hlt. split.
  - exists l. split; [|by apply (accept_ok_frame s)]. unfold accepts in *. cbn.
    by rewrite omap_app, app_nil_r.
  - unfold connections in *. cbn. by rewrite omap_app, app_nil_r.
  - cbn. apply Forall_app. split; [done|]. apply Forall_singleton.
    split; [by exists HStop, 2%nat|]. by intros [?|?].
  - cbn. rewrite length_app. simpl. lia.
Qed.

Lemma accepted_inv s c sk :
  inv s → accepting s = Some c →
  inv (MkSrv (thread_pool_size_ s) (sig_wait s) None (reading s)
    (ready s ++ [HAccept]) (io_stopped s) (new_connection_ s) (nconn s) (sockets s ++ [sk])
    (begun s) (gone s) (worker_threads s)).
Proof.
  intros [(l & Hp & Hok) Hconn Hcode Hpool] Hacc. unfold accepts in Hp. rewrite Hacc in Hp.
  assert (l = [] ∧ omap handler_accept (ready s) ++ omap thread_accept (worker_threads s) = [])
    as [-> Hnil].
  { apply Permutation_singleton_r in Hp. by injection Hp as -> ->. }
  apply app_nil in Hnil as [Hr Ht]. split; try done.
  - exists handle_accept. unfold accepts. cbn. rewrite omap_app, Hr, Ht. split; [done|].
    destruct Hok as (c' & ? & ? & ? & ? & ?). exists c'. cbn. rewrite length_app. simpl.
    split_and!; [done..|lia|done].
  - unfold connections in *. cbn. by rewrite omap_app, app_nil_r.
Qed.

Lemma data_inv s c r1 r2 :
  inv s → reading s = r1 ++ c :: r2 →
  inv (set_ready (set_reading s (r1 ++ r2)) (ready s ++ [HRead c])).
Proof.
  intros [(l & Hp & Hok) Hconn Hcode Hpool] Hrd. split; try done.
  - exists l. split; [|by apply (accept_ok_frame s)]. unfold accepts in *. cbn.
    by rewrite omap_app, app_nil_r.
  - change (begun (set_ready _ _)) with (begun s). rewrite <-Hconn.
    unfold connections. cbn. rewrite Hrd, omap_app. cbn. solve_Permutation.
Qed.

Lemma step_inv s s' : inv s → step s (Some s') → inv s'.
Proof.
  intros Hs Hst. inversion Hst; subst.
  - by apply create_inv.
  - by eapply accepted_inv.
  - by apply data_inv.
  - by apply raise_signal_inv.
  - by apply take_inv.
  - rename select (worker_threads s = _) into Hts. rename select (∀ c, a ≠ _) into Hna.
    destruct (code_at s ts1 _ ts2 Hs Hts) as [Hc _].
    destruct (code_cases a l Hc) as [Ha|[Ha|[Ha|[Ha|[Ha|(c&->&_)]]]]];
      [eapply exec_accept_inv; eauto 10..|eapply exec_stop_inv; eauto 10
      |eapply exec_stop_inv; eauto 10|].
    by destruct (Hna c).
  - rename select (worker_threads s = _) into Hts. destruct (code_at s ts1 _ ts2 Hs Hts) as [_ Hi].
    assert (inv s'0); [|by destruct raised; [apply raise_signal_inv|]].
    eapply read_end_inv; try done. split; [by exists HStop, 2%nat|].
    intros [->|?]; [auto|done].
  - rename select (worker_threads s = _) into Hts. destruct (code_at s ts1 _ ts2 Hs Hts) as [_ Hi].
    eapply read_end_inv; try done. by apply Hi; left.
  - eapply thread_inv; try done. intros _. rename select (_ ∨ _) into Hor.
    destruct Hor as [?|Hw]; [done|].
    destruct Hs as [(l & Hp & _) _ _ _]. by rewrite (has_work_true s l Hp) in Hw.
Qed.

Lemma steps_inv s s' : inv s → steps s s' → inv s'.
Proof. intros Hs Hst. induction Hst; eauto using step_inv. Qed.

Lemma server_reachable_inv s : reachable s → inv s.
Proof. intros (n & s0 & Hn & Hst). eauto using steps_inv, new_server_inv. Qed.

(** ** Accepting connections *)

Lemma begun_seq s : inv s → ∃ k, begun s = seq 0 k ∧ (k ≤ length (sockets s) ≤ S k)%nat.
Proof.
  intros [(l & _ & c & _ & _ & Hok) _ _ _].
  destruct l as [|[] l]; destruct_and?; eexists; (split; [done|]); simpl in *; lia.
Qed.

(** C22: every connection is started exactly once, in the order of acceptance.  In
    every state the server can reach, the connections started are the first [k]
    accepted ones, at most one accepted connection is still to be started, and
    each started one is in exactly one place: waiting for its first bytes,
    queued, in the hands of one worker thread, or ended. *)
Theorem connections_started_once s :
  reachable s →
  (∃ k, begun s = seq 0 k ∧ (k ≤ length (sockets s) ≤ S k)%nat) ∧
  connections s ≡ₚ begun s ∧ NoDup (connections s).
Proof.
  intros Hs%server_reachable_inv. pose proof (inv_connections s Hs) as Hconn.
  destruct (begun_seq s Hs) as (k & Hk & Hl). split; [eauto|]. split; [done|].
  rewrite Hconn, Hk. apply NoDup_seq.
Qed.

(** One accept at a time.  In every reachable state the accept of the server is
    either outstanding, or queued, or run by exactly one thread; so no two
    threads touch [new_connection_] at once, it is never NULL when it is
    dereferenced, and the connection whose socket an outstanding accept fills
    is the one [new_connection_] keeps alive. *)
Theorem accept_exclusive s :
  reachable s →
  (length (accepts s) = 1)%nat ∧ (∀ c, accepting s = Some c → new_connection_ s = Some c) ∧
  (∀ ts1 a l intr ts2, worker_threads s = ts1 ++ Running (a :: l) intr :: ts2 →
     ∃ s', exec a (set_threads s (ts1 ++ Running l intr :: ts2)) = Ret s').
Proof.
  intros [(l & Hp & c & Hnew & Hn & Hok) _ _ _]%server_reachable_inv. split_and!.
  - by rewrite Hp.
  - intros c' Hc. unfold accepts in Hp. rewrite Hc in Hp.
    apply Permutation_singleton_r in Hp. injection Hp as <- _. destruct Hok as [Hok _]. congruence.
  - intros ts1 a l' intr ts2 _. destruct a; cbn; rewrite ?Hnew; cbn; eauto.
Qed.

(** ** Stopping *)

Definition thread_left (t : thread) : nat :=
  match t with Running l _ => S (length l) | Exited => 0 end.

(** The steps the threads have left once the service is stopped. *)
Definition steps_left (s : Srv) : nat :=
  sum_list_with thread_left (worker_threads s) +
  2 * (thread_pool_size_ s - length (worker_threads s)).

Lemma left_thread s ts1 t t' ts2 :
  worker_threads s = ts1 ++ t :: ts2 → (thread_left t' < thread_left t)%nat →
  (steps_left (set_threads s (ts1 ++ t' :: ts2)) < steps_left s)%nat.
Proof.
  intros Hts Ht. unfold steps_left. cbn. rewrite Hts, !length_app, !sum_list_with_app. simpl. lia.
Qed.

Lemma left_interrupt (ts : list thread) :
  sum_list_with thread_left (interrupt <$> ts) = sum_list_with thread_left ts.
Proof. induction ts as [|[] ts IH]; csimpl; lia. Qed.

Lemma left_exec s a s' :
  exec a s = Ret s' →
  steps_left s' = steps_left s ∧ (io_stopped s = true → io_stopped s' = true) ∧
  sockets s' = sockets s.
Proof.
  intros H. destruct a; cbn in H;
    try (destruct (new_connection_ s); [|done]; cbn in H); injection H as <-; try done.
  unfold steps_left. cbn. by rewrite left_interrupt, length_fmap.
Qed.

Lemma left_raise s :
  steps_left (raise_signal s) = steps_left s ∧ io_stopped (raise_signal s) = io_stopped s ∧
  sockets (raise_signal s) = sockets s.
Proof. unfold raise_signal. by case_match. Qed.

(** After the stop a step is of the environment or the end is one step nearer. *)
Lemma stopped_step s s' :
  io_stopped s = true → step s (Some s') →
  io_stopped s' = true ∧
  (worker_threads s' = worker_threads s ∨ (steps_left s' < steps_left s)%nat).
Proof.
  intros Hst H. inversion H; subst; try congruence.
  - split; [done|]. right. unfold steps_left. cbn. rewrite sum_list_with_app, length_app. simpl. lia.
  - split; [done|]. by left.
  - split; [done|]. by left.
  - unfold raise_signal. case_match; (split; [done|]); by left.
  - rename select (exec _ _ = _) into Hex. apply left_exec in Hex as (Hl & Hs & _).
    split; [by apply Hs|]. right. rewrite Hl. eapply left_thread; [done|]. simpl. lia.
  - destruct (left_raise s'0) as (Hl & Hi & _).
    assert (steps_left s'0 < steps_left s)%nat.
    { change (steps_left s'0) with (steps_left (set_threads s (ts1 ++ Running [] intr :: ts2))).
      eapply left_thread; [done|]. simpl. lia. }
    destruct raised; [rewrite Hl, Hi|]; auto.
  - split; [done|]. right. change (steps_left (set_gone ?x _)) with (steps_left x).
    eapply left_thread; [done|]. simpl. lia.
  - split; [done|]. right. eapply left_thread; [done|]. simpl. lia.
Qed.

(** A thread that has not ended can take a step. *)
Lemma stopped_progress s :
  inv s → io_stopped s = true → ¬ run_returned s →
  (∀ c sk, sockets s !! c = Some sk → ∃ r, served c sk (Ret r)) →
  ∃ s', step s (Some s') ∧ (steps_left s' < steps_left s)%nat ∧ sockets s' = sockets s.
Proof.
  intros Hs Hst Hnr Hserve. pose proof (inv_pool s Hs) as Hpool.
  destruct (decide (length (worker_threads s) = thread_pool_size_ s)) as [Hn|Hn].
  2: { exists (create_thread s). split; [apply step_create; lia|]. split; [|done].
       unfold steps_left. cbn. rewrite sum_list_with_app, length_app. simpl. lia. }
  assert (∃ ts1 l intr ts2, worker_threads s = ts1 ++ Running l intr :: ts2)
    as (ts1 & l & intr & ts2 & Hts).
  { assert (¬ Forall (.= Exited) (worker_threads s)) as Hf by (by intros ?; apply Hnr).
    apply not_Forall_Exists in Hf; [|intros [|]; [by right|by left]].
    apply Exists_exists in Hf as (t & (ts1 & ts2 & Hts)%list_elem_of_split & Ht).
    destruct t; [eauto 10|by destruct Ht]. }
  destruct (code_at s ts1 _ ts2 Hs Hts) as [Hc _].
  destruct l as [|a l].
  { exists (set_threads s (ts1 ++ Exited :: ts2)). split; [eapply step_exit; eauto|].
    split; [|done]. eapply left_thread; [done|]. simpl. lia. }
  destruct (code_cases a l Hc) as [Ha|[Ha|[Ha|[Ha|[Ha|(c&->&->)]]]]].
  6: { destruct (sockets s !! c) as [sk|] eqn:Hsk.
    - destruct (Hserve c sk Hsk) as [[raised sk'] Hr].
      eexists. split; [by eapply step_read|]. destruct (left_raise
        (set_gone (set_threads s (ts1 ++ Running [] intr :: ts2)) (c :: gone s))) as (Hl & _ & Hk).
      assert (steps_left (set_gone (set_threads s (ts1 ++ Running [] intr :: ts2)) (c :: gone s)) <
        steps_left s)%nat.
      { change (steps_left (set_gone ?x _)) with (steps_left x).
        eapply left_thread; [done|]. simpl. lia. }
      destruct raised; [rewrite Hl, Hk|]; done.
    - exfalso. destruct (begun_seq s Hs) as (k & Hk & Hl). apply lookup_ge_None in Hsk.
      assert (c ∈ begun s) as Hb; [|rewrite Hk in Hb; apply elem_of_seq in Hb; lia].
      rewrite <-(inv_connections s Hs). unfold connections. rewrite Hts, omap_app.
      rewrite !elem_of_app. cbn. rewrite elem_of_cons. tauto. }
  all: assert (∃ s', exec a (set_threads s (ts1 ++ Running l intr :: ts2)) = Ret s') as [s' Hex]
    by (destruct (inv_accept s Hs) as (_ & _ & c' & Hnew & _); destruct Ha as [-> _];
        cbn; rewrite ?Hnew; cbn; eauto).
  all: exists s'; apply left_exec in Hex as Hex'; destruct Hex' as (Hl & _ & Hk);
    (split; [eapply step_exec; [done| |done]; by destruct Ha as [-> _]|]);
    (split; [|done]); rewrite Hl; eapply left_thread; [done|]; simpl; lia.
Qed.

Lemma steps_trans s1 s2 s3 : steps s1 s2 → steps s2 s3 → steps s1 s3.
Proof. intros H. induction H; eauto using steps. Qed.

Lemma stopped_returns s :
  inv s → io_stopped s = true →
  (∀ c sk, sockets s !! c = Some sk → ∃ r, served c sk (Ret r)) →
  ∃ s', steps s s' ∧ run_returned s'.
Proof.
  induction s as [s IH] using (induction_ltof1 _ steps_left). intros Hs Hst Hserve.
  destruct (decide (run_returned s)) as [Hr|Hr]; [exists s; split; [constructor|done]|].
  destruct (stopped_progress s Hs Hst Hr Hserve) as (s1 & H1 & Hlt & Hk).
  destruct (stopped_step s s1 Hst H1) as [Hst1 _].
  destruct (IH s1) as (s2 & H2 & Hr2); [done|by eapply step_inv|done|by rewrite Hk|].
  exists s2. eauto using steps.
Qed.

(** C23: a stopped server ends.  Once [handle_stop] has stopped the service, no step
    of the server undoes it, every step of a worker thread brings the end
    nearer (so there are finitely many), and if the handlers of the accepted
    connections return, the threads can finish: [run] returns.  And no worker
    thread ends before the service was stopped. *)
Theorem stop_ends_server s :
  reachable s →
  (Exited ∈ worker_threads s → io_stopped s = true) ∧
  (io_stopped s = true →
   (∀ s', step s (Some s') → io_stopped s' = true ∧
      (worker_threads s' = worker_threads s ∨ (steps_left s' < steps_left s)%nat)) ∧
   ((∀ c sk, sockets s !! c = Some sk → ∃ r, served c sk (Ret r)) →
     ∃ s', steps s s' ∧ run_returned s')).
Proof.
  intros Hs%server_reachable_inv. split.
  { intros (ts1 & ts2 & Hts)%list_elem_of_split. apply (code_at s ts1 _ ts2 Hs Hts). }
  intros Hst. split; [intros s'; by apply stopped_step|].
  by apply stopped_returns.
Qed.

(** ** Exhaustion *)

(** A server all of whose threads handle connections: the first ones of [sks]. *)
Definition busy (n : nat) (sks : list TcpSocket) : Srv :=
  let j := length sks in
  MkSrv n true (Some j) [] [] false (Some j) (S j) sks (seq 0 j) []
    (((λ c, Running [ARead c] false) <$> seq 0 j) ++ replicate (n - j) (Running [] false)).

Lemma idle_reachable n : reachable (busy n []).
Proof.
  exists n. eexists. split; [reflexivity|].
  assert (∀ k, (k ≤ n)%nat → steps (MkSrv n true (Some 0%nat) [] [] false (Some 0%nat) 1 [] [] []
    []) (MkSrv n true (Some 0%nat) [] [] false (Some 0%nat) 1 [] [] []
    (replicate k (Running [] false)))) as Hk.
  { induction k as [|k IH]; intros Hk; [constructor|].
    eapply steps_trans; [apply IH; lia|]. eapply steps_cons; [apply step_create|].
    - cbn. rewrite length_replicate. lia.
    - unfold create_thread, set_threads. cbn. rewrite <-(replicate_cons_app k). constructor. }
  specialize (Hk n). unfold busy. cbn. rewrite Nat.sub_0_r. auto.
Qed.

(** One more client: it is accepted by an idle thread, which then reads it. *)
Lemma busy_next n sks sk :
  (length sks < n)%nat → steps (busy n sks) (busy n (sks ++ [sk])).
Proof.
  intros Hn. set (j := length sks). unfold busy at 1. fold j.
  set (ts1 := (λ c, Running [ARead c] false) <$> seq 0 j).
  set (ts2 := replicate (n - S j) (Running [] false)).
  replace (replicate (n - j) (Running [] false)) with (Running [] false :: ts2)
    by (unfold ts2; by replace (n - j)%nat with (S (n - S j)) by lia).
  eapply steps_cons; [by apply (step_accepted _ j sk)|]. cbn.
  eapply steps_cons; [by apply (step_take _ HAccept [] [] ts1 ts2 false)|]. cbn.
  do 3 (eapply steps_cons; [by eapply (step_exec _ _ _ ts1 ts2)|]; cbn).
  eapply steps_cons; [by apply (step_data _ j [] [])|]. cbn.
  eapply steps_cons; [by apply (step_take _ (HRead j) [] [] ts1 ts2 false)|]. cbn.
  unfold busy. rewrite length_app, Nat.add_1_r. fold j.
  rewrite seq_S, fmap_app, <-app_assoc. constructor.
Qed.

Lemma busy_reachable n sks : (length sks ≤ n)%nat → reachable (busy n sks).
Proof.
  induction sks as [|sk sks IH] using rev_ind; [intros _; apply idle_reachable|].
  rewrite length_app. simpl. intros Hn. destruct IH as (n' & s0 & H0 & Hst); [lia|].
  exists n', s0. split; [done|]. eapply steps_trans; [done|]. apply busy_next. lia.
Qed.

(** While every thread is in a connection that does not end, nothing is handled. *)
Definition stuck (s : Srv) : Prop :=
  length (worker_threads s) = thread_pool_size_ s ∧
  Forall (λ t, ∃ c sk, t = Running [ARead c] false ∧ sockets s !! c = Some sk ∧
    ∀ r, ¬ served c sk r) (worker_threads s).

Lemma stuck_thread s ts1 t ts2 :
  stuck s → worker_threads s = ts1 ++ t :: ts2 →
  ∃ c sk, t = Running [ARead c] false ∧ sockets s !! c = Some sk ∧ ∀ r, ¬ served c sk r.
Proof. intros [_ Hf] Hts. rewrite Hts in Hf. by apply Forall_elt in Hf. Qed.

Lemma stuck_step s o :
  stuck s → step s o →
  ∃ s', o = Some s' ∧ stuck s' ∧ begun s' = begun s ∧ io_stopped s' = io_stopped s.
Proof.
  intros Hs H. inversion H; subst; clear H;
    try (rename select (worker_threads s = _) into Hts;
         destruct (stuck_thread _ _ _ _ Hs Hts) as (c' & sk' & ? & ? & Hno); simplify_eq;
         by destruct (Hno _ ltac:(done))).
  - destruct Hs as [Hl _]. lia.
  - eexists. split_and!; try done. destruct Hs as [Hl Hf]. split; [done|]. cbn.
    eapply Forall_impl; [done|]. intros t (c' & sk' & ? & ? & ?). exists c', sk'.
    split_and!; try done. by apply lookup_app_l_Some.
  - by eexists.
  - eexists. split; [done|]. unfold raise_signal. by case_match.
  - rename select (worker_threads s = _) into Hts.
    destruct (stuck_thread _ _ _ _ Hs Hts) as (c' & sk' & ? & ? & Hno). simplify_eq. naive_solver.
  - rename select (worker_threads s = _) into Hts. rename select (served _ _ _) into Hr.
    destruct (stuck_thread _ _ _ _ Hs Hts) as (c2 & sk2 & ? & ? & Hno). simplify_eq.
    by destruct (Hno _ Hr).
Qed.

Lemma stuck_steps s s' :
  stuck s → steps s s' → stuck s' ∧ begun s' = begun s ∧ io_stopped s' = io_stopped s.
Proof.
  intros Hs H. induction H as [|s1 s2 s3 H1 H2 IH]; [done|].
  destruct (stuck_step s1 _ Hs H1) as (s2' & [= <-] & Hs2 & Hb & Hi).
  destruct (IH Hs2) as (? & -> & ->). done.
Qed.


(** An exception that leaves the handler of one connection ends the server. *)
Lemma exception_ends_server n sk e :
  (1 ≤ n)%nat → served 0 sk (Throw e) → ∃ s, reachable s ∧ step s None.
Proof.
  intros Hn He. exists (busy n [sk]). split; [by apply busy_reachable|].
  by apply (step_crash _ 0%nat [] (replicate (n - 1) (Running [] false)) false sk e).
Qed.

Lemma reachable_steps s s' : reachable s → steps s s' → reachable s'.
Proof. intros (n & s0 & H0 & Hst) H. exists n, s0. eauto using steps_trans. Qed.

(** A connection whose handler raises the signal ends the server: its thread can
    take the stop next, and all threads then run out. *)
Lemma raise_ends_server n sk sk' :
  (1 ≤ n)%nat → served 0 sk (Ret (true, sk')) → ∃ s, reachable s ∧ run_returned s.
Proof.
  intros Hn Hr. set (ts := replicate (n - 1) (Running [] false)).
  assert (∃ s, reachable s ∧ io_stopped s = true ∧ sockets s = [sk]) as (s & Hs & Hst & Hk).
  { eexists. split; [eapply reachable_steps; [by apply (busy_reachable n [sk])|]|].
    - eapply steps_cons; [by eapply (step_read _ 0%nat [] ts)|].
      eapply steps_cons; [by apply (step_take _ HStop [] [] [] ts false)|].
      do 2 (eapply steps_cons; [by eapply (step_exec _ _ _ [])|]; cbn). constructor.
    - done. }
  destruct (stopped_returns s) as (s' & Hst' & Hret); [by apply server_reachable_inv|done| |].
  - rewrite Hk. intros [|c] sk0 Hc; [|done]. injection Hc as <-. eauto.
  - exists s'. eauto using reachable_steps.
Qed.

End life.

(** ** Witnesses *)

Definition acks (_ : nat) := ack_handler.
Definition small_buffer (_ : nat) : list Z := replicate 128 0%Z.

(** Two clients on a server of three threads. *)
Definition two_busy : Srv :=
  busy 3 [MkSocket [msg_bytes (sized_msg 10); msg_bytes msg_done] [] true;
          MkSocket [msg_bytes (sized_msg 1); msg_bytes msg_done] [] true].

Lemma connections_started_once_witness : NoDup (connections two_busy) ∧ begun two_busy = [0; 1]%nat.
Proof.
  split; [|reflexivity]. apply (connections_started_once acks small_buffer two_busy).
  apply busy_reachable. cbn. lia.
Defined.

Lemma accept_exclusive_witness : length (accepts two_busy) = 1%nat.
Proof.
  apply (accept_exclusive acks small_buffer two_busy). apply busy_reachable. cbn. lia.
Defined.


(** The same server, when a signal has arrived and the third thread has run
    [handle_stop]. *)
Definition two_stopped : Srv :=
  MkSrv 3 false (Some 2%nat) [] [] true (Some 2%nat) 3 (sockets two_busy) [0; 1]%nat []
    [Running [ARead 0%nat] true; Running [ARead 1%nat] true; Running [] true].

Lemma two_stopped_reachable : reachable acks small_buffer two_stopped.
Proof.
  destruct (busy_reachable acks small_buffer 3 (sockets two_busy)) as (n & s0 & H0 & Hst);
    [cbn; lia|].
  exists n, s0. split; [done|]. eapply steps_trans; [exact Hst|].
  eapply steps_cons; [by apply step_signal|].
  eapply steps_cons; [by apply (step_take _ _ _ HStop [] []
    [Running [ARead 0%nat] false; Running [ARead 1%nat] false] [] false)|].
  do 2 (eapply steps_cons; [by eapply (step_exec _ _ _ _ _
    [Running [ARead 0%nat] _; Running [ARead 1%nat] _] [])|]; cbn).
  constructor.
Qed.

Lemma stop_ends_server_witness :
  ∃ s', steps acks small_buffer two_stopped s' ∧ run_returned s'.
Proof.
  apply (stop_ends_server acks small_buffer two_stopped); [exact two_stopped_reachable|reflexivity|].
  intros [|[|c]] sk Hsk; [| |done]; injection Hsk as <-; eexists; exists 1%nat;
    (split; [vm_compute; reflexivity|done]).
Defined.

(** A client whose second request is larger than its first ends the server. *)
Example larger_request_ends_server : ∃ s, reachable acks small_buffer s ∧ step acks small_buffer s None.
Proof.
  apply (exception_ends_server acks small_buffer 3
    (MkSocket [msg_bytes (sized_msg 1); msg_bytes (sized_msg 10)] [] true) "End of file"); [lia|].
  exists 2%nat. split; [vm_compute; reflexivity|done].
Qed.
