(* ===== verification/Client.v ===== *)
(** * The client side: common/Client.cpp and client/client_api.cpp

    A socket is the bytes still to be read from it and the bytes written to it.
    [network] is the connection attempt of boost::asio (not part of the
    sources): the socket it gives for a port and host, or none.  Arrays of the
    caller are memory images (lists of bytes). *)

From Stdlib Require Import Ascii.
From S2P Require Import Prelude Message.

#[local] Open Scope Z_scope.

(** ** Client.cpp *)

Record Conn := MkConn {
  incoming : list Z;
  outgoing : list Z
}.

(** A client before [start], after a [start] that failed to connect (the
    exception is caught and logged), and connected. *)
Inductive Socket : Type :=
| NoSocket
| Unconnected
| Connected (c : Conn).

Record Client := MkClient {
  cport : Z;
  cname : string;
  socket : Socket
}.

Definition new_Client (port : Z) (name : string) : Client := MkClient port name NoSocket.

Definition start (network : Z → string → option Conn) (c : Client) : Client :=
  MkClient (cport c) (cname c)
    match network (cport c) (cname c) with
    | Some s => Connected s
    | None => Unconnected
    end.

Definition with_socket (c : Client) : outcome Conn :=
  match socket c with
  | NoSocket => Undef NullDeref
  | Unconnected => Throw "Bad file descriptor"
  | Connected s => Ret s
  end.

(** [totalBytes] bytes from the address of the message. *)
Definition send (c : Client) (m : msg_t) : outcome Client :=
  s ← with_socket c;
  bs ← read_bytes 0 (totalBytes m) (msg_bytes m);
  Ret (MkClient (cport c) (cname c) (Connected (MkConn (incoming s) (outgoing s ++ bs)))).

(** Exactly [n] bytes of a stream, or an exception at its end. *)
Definition client_read (stream : list Z) (n : nat) : outcome (list Z * list Z) :=
  if (length stream <? n)%nat then Throw "End of file"
  else Ret (take n stream, drop n stream).

Definition read (c : Client) (n : nat) : outcome (list Z * Client) :=
  s ← with_socket c;
  '(bs, rest) ← client_read (incoming s) n;
  Ret (bs, MkClient (cport c) (cname c) (Connected (MkConn rest (outgoing s)))).

(** [do { c.read(buff, sizeBytes); } while (rsp->msgId != MSG_RESULT)] *)
Fixpoint await_result (fuel : nat) (n : nat) (stream : list Z) : outcome (msg_t * list Z) :=
  match fuel with
  | O => OutOfFuel
  | S fuel =>
      '(buff, stream) ← client_read stream n;
      rsp ← msg_of_bytes buff;
      if (msgId rsp =? MSG_RESULT)%Z then Ret (rsp, stream)
      else await_result fuel n stream
  end.

(** Lets the server know, and shuts the connection down. *)
Definition client_stop (c : Client) : outcome Client := send c msg_done.

Definition getResult (c : Client) (out : list Z) (sizeBytes : Z) : outcome (list Z * Client) :=
  let size := i32 (u64 (sizeBytes + sizeof_msg)) in
  match calloc (u64 size) with
  | None => Undef NullDeref
  | Some _ =>
      '(buf, c) ← read c (Z.to_nat (u64 size));
      rsp ← msg_of_bytes buf;
      bs ← read_bytes 0 (dataBytes rsp) (data rsp);
      out ← write_bytes 0 bs out;
      Ret (out, c)
  end.

(** ** client_api.cpp *)

(** [atoi]: white space, an optional sign, digits up to the first other
    character; a value outside [int] is undefined. *)
Definition is_space (a : Ascii.ascii) : bool :=
  let n := Z.of_nat (Ascii.nat_of_ascii a) in (n =? 32) || ((9 <=? n) && (n <=? 13)).

Fixpoint digits (acc : Z) (s : string) : Z :=
  match s with
  | EmptyString => acc
  | String a s =>
      let n := Z.of_nat (Ascii.nat_of_ascii a) in
      if (48 <=? n) && (n <=? 57) then digits (10 * acc + (n - 48)) s else acc
  end.

Fixpoint atoi (s : string) : outcome Z :=
  match s with
  | EmptyString => Ret 0
  | String a t =>
      if is_space a then atoi t
      else if Ascii.eqb a "-"%char then int_of (- digits 0 t)
      else if Ascii.eqb a "+"%char then int_of (digits 0 t)
      else int_of (digits 0 s)
  end.

(** The client id of the environment (0 when CLIENT_ID is not set). *)
Definition client_id (env : option string) : outcome Z :=
  match env with None => Ret 0 | Some s => atoi s end.

(** [portNumber += client_id > 0 ? client_id - 1 : client_id] from 8111. *)
Definition client_port (id : Z) : outcome Z :=
  int_of (8111 + if 0 <? id then id - 1 else id).

Section api.
Context (network : Z → string → option Conn).

(** The exchange every call makes: connect, send, wait for the result. *)
Definition exchange (port : Z) (m : msg_t) (out : list Z) (sizeBytes : Z)
    : outcome (list Z * Client) :=
  let c := start network (new_Client port "localhost") in
  c ← send c m;
  '(out, c) ← getResult c out sizeBytes;
  c ← client_stop c;
  Ret (out, c).

Definition movingAverage (env : option string) (n size : Z) (data : list Z) (out : list Z)
    : outcome (list Z * Client) :=
  m ← msg_moving_avg (i32 n) size data;
  id ← client_id env;
  port ← client_port id;
  exchange port (set_clientId m id) out (i32 (u64 (n * sizeof_int))).

(** The version with an explicit client number. *)
Definition movingAverage_p (n size : Z) (data : list Z) (out : list Z) (pNum : Z)
    : outcome (list Z * Client) :=
  m ← msg_moving_avg (i32 n) size data;
  port ← int_of (8110 + pNum);
  exchange port (set_clientId m pNum) out (i32 (u64 (n * sizeof_int))).

Definition optionPricing_call (env : option string)
    (strike sigma timestep numMaturity paraNode numPathGroup T : Z) (out : list Z)
    : outcome (list Z * Client) :=
  m ← msg_option_pricing strike sigma timestep numMaturity paraNode numPathGroup T;
  id ← client_id env;
  port ← client_port id;
  exchange port (set_clientId m id) out sizeof_double.

Definition set_jlo (m : msg_t) (predicted target : Z) : msg_t :=
  Msg (msgId m) (clientId m) 1 3 DFE predicted target (rids m)
    (expDataSizeBytes m) (dataSize m) (paramsSize m) (totalBytes m) (dataBytes m) (data m).

Definition optionPricingJlo (env : option string)
    (strike sigma timestep numMaturity paraNode numPathGroup T : Z) (out : list Z)
    (predicted target : Z) : outcome (list Z * Client) :=
  m ← msg_option_pricing strike sigma timestep numMaturity paraNode numPathGroup T;
  id ← client_id env;
  port ← client_port id;
  exchange port (set_jlo (set_clientId m id) predicted target) out sizeof_double.

Definition TerminateServer (env : option string) : outcome Client :=
  id ← client_id env;
  port ← client_port id;
  send (start network (new_Client port "localhost"))
    (set_msgId (set_clientId msg_empty id) MSG_TERM).

End api.
