(* ===== verification/ClientFacts.v ===== *)
(** * Lemmas on the client side: what goes over the wire

    [send] writes the memory image of a message, [getResult] and the waiting
    loops read a result back, and one exchange composes them. *)

From S2P Require Import Prelude Message Server Client.

#[local] Open Scope Z_scope.

(** Sending a message writes its memory image, whatever follows it in memory. *)
Lemma send_buffered c s m rest :
  socket c = Connected s → totalBytes m = Z.of_nat (length (msg_bytes m)) →
  send c (set_data m (data m ++ rest)) = Ret (MkClient (cport c) (cname c)
    (Connected (MkConn (incoming s) (outgoing s ++ msg_bytes m)))).
Proof.
  intros Hs Ht. unfold send, with_socket. rewrite Hs. cbn [mbind outcome_bind].
  change (msg_bytes (set_data m (data m ++ rest))) with (header_bytes m ++ data m ++ rest).
  change (totalBytes (set_data m _)) with (totalBytes m).
  by rewrite app_assoc, (read_bytes_0 (msg_bytes m)).
Qed.

Lemma send_connected c s m :
  socket c = Connected s → totalBytes m = Z.of_nat (length (msg_bytes m)) →
  send c m = Ret (MkClient (cport c) (cname c)
    (Connected (MkConn (incoming s) (outgoing s ++ msg_bytes m)))).
Proof. intros. rewrite <-(set_data_app_nil m) at 1. by apply send_buffered. Qed.

(** Reading a result whose size is the announced one copies its data. *)
Lemma getResult_copies c s m out :
  socket c = Connected s → incoming s = msg_bytes m → msg_typed m →
  dataBytes m = Z.of_nat (length (data m)) → length out = length (data m) →
  sizeof_msg + dataBytes m ≤ INT_MAX →
  getResult c out (dataBytes m) = Ret (data m,
    MkClient (cport c) (cname c) (Connected (MkConn [] (outgoing s)))).
Proof.
  intros Hs Hin Hty Hdb Hlen Hmax. unfold getResult, INT_MAX in *.
  assert (Hsize : i32 (u64 (dataBytes m + sizeof_msg)) = sizeof_msg + dataBytes m).
  { unfold sizeof_msg in *. rewrite wrap_small, swrap_small by lia. lia. }
  rewrite Hsize. rewrite (wrap_small 64) by (unfold sizeof_msg in *; lia).
  unfold calloc. rewrite (proj2 (Z.leb_gt _ _)) by (unfold sizeof_msg in *; lia).
  assert (Hbytes : Z.to_nat (sizeof_msg + dataBytes m) = length (msg_bytes m)).
  { unfold msg_bytes. rewrite length_app, length_header_bytes. unfold sizeof_msg. lia. }
  unfold read, with_socket, client_read. rewrite Hs. cbn [mbind outcome_bind].
  rewrite Hin, Hbytes, Nat.ltb_irrefl. cbn [mbind outcome_bind].
  rewrite take_ge, drop_ge by lia. rewrite wire_roundtrip by done. cbn [mbind outcome_bind].
  pose proof (read_bytes_0 (data m) [] (dataBytes m) Hdb) as Hr. rewrite app_nil_r in Hr.
  rewrite Hr. cbn [mbind outcome_bind].
  pose proof (write_bytes_slice [] out [] (data m) 0 eq_refl (eq_sym Hlen)) as Hw.
  rewrite !app_nil_r in Hw. simpl in Hw. by rewrite Hw.
Qed.

(** One exchange: the request and the closing message go out, the data of the
    reply come back. *)
Lemma exchange_spec network port m reply out :
  network port "localhost" = Some (MkConn (msg_bytes reply) []) →
  totalBytes m = Z.of_nat (length (msg_bytes m)) → msg_typed reply →
  dataBytes reply = Z.of_nat (length (data reply)) → length out = length (data reply) →
  sizeof_msg + dataBytes reply ≤ INT_MAX →
  exchange network port m out (dataBytes reply) = Ret (data reply,
    MkClient port "localhost" (Connected (MkConn [] (msg_bytes m ++ msg_bytes msg_done)))).
Proof.
  intros Hnet Ht Hty Hdb Hlen Hmax. unfold exchange, start, new_Client.
  cbn [cport cname]. rewrite Hnet, (send_connected _ (MkConn (msg_bytes reply) [])) by done.
  cbn [mbind outcome_bind cport cname incoming outgoing app].
  rewrite (getResult_copies _ (MkConn (msg_bytes reply) (msg_bytes m))) by done.
  cbn [mbind outcome_bind cport cname outgoing]. unfold client_stop.
  by rewrite (send_connected _ (MkConn [] (msg_bytes m))) by done.
Qed.

(** The waiting loop ends with the first message when that is the result. *)
Lemma await_result_now fuel m :
  msg_typed m → msgId m = MSG_RESULT →
  await_result (S fuel) (length (msg_bytes m)) (msg_bytes m) = Ret (m, []).
Proof.
  intros Hty Hid. cbn [await_result]. unfold client_read. rewrite Nat.ltb_irrefl.
  cbn [mbind outcome_bind]. rewrite take_ge, drop_ge by lia. rewrite wire_roundtrip by done.
  cbn [mbind outcome_bind]. by rewrite Hid.
Qed.

(** ** The client id *)

Lemma int_of_range z v : int_of z = Ret v → int_range v.
Proof.
  unfold int_of, int_range, in_int. destruct (_ && _)%bool eqn:E; intros [= <-]. zbool. done.
Qed.

Lemma client_id_range env id : client_id env = Ret id → int_range id.
Proof.
  destruct env as [s|]; cbn [client_id]; [|intros [= <-]; vm_compute; done].
  induction s as [|a s IH]; cbn [atoi]; [intros [= <-]; vm_compute; done|].
  repeat case_match; eauto using int_of_range.
Qed.
