(* ===== verification/Utils.v ===== *)
(** * Formatting: common/utils.cpp and common/Logging.cpp

    The table-printing helpers [prd], [centre] and [prsR], with the fixed
    notation of a double as std::fixed prints it (the exact value of the
    double, rounded to nearest even at the last digit), and [parse], which
    shortens a function signature for the log. *)

From Stdlib Require Import Ascii.
From S2P Require Import Prelude CxxFloat Client.

#[local] Open Scope string_scope.
#[local] Open Scope Z_scope.

(** ** Strings *)

Fixpoint spaces (n : nat) : string :=
  match n with O => "" | S n => String " " (spaces n) end.

Definition slength (s : string) : Z := Z.of_nat (String.length s).

(** [int padding = w - s.size()] *)
Definition padding (s : string) (w : Z) : Z := i32 (u64 (w - slength s)).

(** ** centre and prsR *)

Definition centre (s : string) (w : Z) : string :=
  let p := padding s w in
  let sp := spaces (Z.to_nat (Z.quot p 2)) in
  sp +:+ s +:+ sp +:+ (if (0 <? p) && negb (Z.rem p 2 =? 0) then " " else "").

Definition prsR (s : string) (w : Z) : string :=
  spaces (Z.to_nat (padding s w)) +:+ s.

(** ** prd *)

(** The [k] low decimal digits of [n]. *)
Fixpoint dec_digits (k : nat) (n : Z) : string :=
  match k with
  | O => ""
  | S k => dec_digits k (n / 10) +:+
           String (ascii_of_nat (Z.to_nat (48 + n mod 10))) ""
  end.

(** The number of decimal digits of [n], at least one. *)
Fixpoint dec_count (fuel : nat) (n : Z) : nat :=
  match fuel with
  | O => 1%nat
  | S fuel => if n <? 10 then 1%nat else S (dec_count fuel (n / 10))
  end.

Definition dec_string (n : Z) : string :=
  dec_digits (dec_count (Z.to_nat (Z.log2 n)) n) n.

(** [num / den] to the nearest integer, ties to even. *)
Definition round_div (num den : Z) : Z :=
  let q := num / den in
  let r := num mod den in
  if 2 * r <? den then q
  else if den <? 2 * r then q + 1
  else if Z.even q then q else q + 1.

(** The absolute value of a finite double, times [10 ^ p], rounded. *)
Definition scaled (m e : Z) (p : nat) : Z :=
  let ten := 10 ^ Z.of_nat p in
  if 0 <=? e then m * 2 ^ e * ten else round_div (m * ten) (2 ^ (- e)).

Definition fixed_abs (n : Z) (p : nat) : string :=
  let ten := 10 ^ Z.of_nat p in
  dec_string (n / ten) +:+
  (if (p =? 0)%nat then "" else "." +:+ dec_digits p (n mod ten)).

Definition fixed (x : float64) (p : nat) : string :=
  match x with
  | S754_nan => "nan"
  | S754_infinity s => (if s then "-" else "") +:+ "inf"
  | S754_zero s => (if s then "-" else "") +:+ fixed_abs 0 p
  | S754_finite s m e => (if s then "-" else "") +:+ fixed_abs (scaled (Zpos m) e p) p
  end.

(** [ss.width(w); ss << right]: fill on the left. *)
Definition right_justified (s : string) (w : Z) : string :=
  spaces (Z.to_nat (w - slength s)) +:+ s.

(** A negative precision is as if none were given: six digits. *)
Definition prd (x : float64) (decDigits width : Z) : string :=
  right_justified (fixed x (if decDigits <? 0 then 6%nat else Z.to_nat decDigits)) width.

Definition prd_default (x : float64) (width : Z) : string := right_justified (fixed x 6) width.

(** ** Logging.cpp *)

(** [find] of a character: the part before it and the part from it on. *)
Fixpoint split_at (c : ascii) (s : string) : option (string * string) :=
  match s with
  | EmptyString => None
  | String a t =>
      if Ascii.eqb a c then Some ("", s)
      else '(l, r) ← split_at c t; Some (String a l, r)
  end.

(** The part from the last occurrence of a character on. *)
Fixpoint from_last (c : ascii) (s : string) : option string :=
  match s with
  | EmptyString => None
  | String a t =>
      match from_last c t with
      | Some r => Some r
      | None => if Ascii.eqb a c then Some s else None
      end
  end.

(** [erase] at npos throws. *)
Definition parse (functionName : string) : outcome string :=
  match split_at "(" functionName with
  | None => Throw "basic_string::erase"
  | Some (head, _) =>
      match from_last " " head with
      | Some s => Ret s
      | None => Ret head
      end
  end.

(** ** Lemmas *)

Lemma append_cons a s t : String a s +:+ t = String a (s +:+ t).
Proof. done. Qed.

Lemma append_nil s : s +:+ "" = s.
Proof. induction s as [|a s IH]; [done|]. by rewrite append_cons, IH. Qed.

Lemma append_assoc s t u : (s +:+ t) +:+ u = s +:+ t +:+ u.
Proof. induction s as [|a s IH]; [done|]. by rewrite !append_cons, IH. Qed.

Lemma slength_cons a s : slength (String a s) = 1 + slength s.
Proof. unfold slength. cbn [String.length]. lia. Qed.

Lemma slength_app s t : slength (s +:+ t) = slength s + slength t.
Proof.
  induction s as [|a s IH]; [done|]. rewrite append_cons, !slength_cons, IH. lia.
Qed.

Lemma slength_spaces n : slength (spaces n) = Z.of_nat n.
Proof. induction n as [|n IH]; [done|]. cbn [spaces]. rewrite slength_cons, IH. lia. Qed.

Lemma spaces_app n k : spaces n +:+ spaces k = spaces (n + k).
Proof.
  induction n as [|n IH]; [done|]. cbn [spaces Nat.add]. by rewrite append_cons, IH.
Qed.

(** Narrowing forgets an earlier, wider reduction. *)
Lemma padding_exact s w : INT_MIN ≤ w - slength s ≤ INT_MAX → padding s w = w - slength s.
Proof.
  intros Hw. unfold padding, INT_MIN, INT_MAX in *.
  replace (i32 (u64 (w - slength s))) with (i32 (w - slength s)); [apply swrap_small; lia|].
  unfold swrap, wrap. change (2 ^ 64) with (2 ^ 32 * 2 ^ 32).
  rewrite Z.rem_mul_r by lia. by rewrite Z.mul_comm, Z.mod_add, Z.mod_mod by lia.
Qed.

(** [centre] puts the string between two paddings that differ by at most one,
    the longer one behind, so that the column has the width asked for; a string
    that does not fit is printed whole. *)
Theorem centre_spec s w :
  INT_MIN ≤ w - slength s ≤ INT_MAX →
  ∃ l r, centre s w = spaces l +:+ s +:+ spaces r ∧ (l ≤ r ≤ S l)%nat ∧
    slength (centre s w) = Z.max w (slength s).
Proof.
  intros Hw. unfold centre. rewrite padding_exact by done.
  set (p := w - slength s). set (k := Z.to_nat (Z.quot p 2)).
  pose proof (Z.quot_rem' p 2) as Hqr.
  destruct ((0 <? p) && negb (Z.rem p 2 =? 0)) eqn:Hodd; zbool.
  - apply negb_true_iff in H0. zbool.
    exists k, (S k). assert (Z.rem p 2 = 1) by (pose proof (Z.rem_bound_pos p 2); lia).
    assert (0 ≤ Z.quot p 2) by (apply Z.quot_pos; lia).
    replace (S k) with (k + 1)%nat by lia. rewrite <-spaces_app.
    split; [done|]. split; [lia|]. rewrite !slength_app, !slength_spaces.
    change (slength " ") with 1. lia.
  - exists k, k. rewrite append_nil. split; [done|]. split; [lia|].
    rewrite !slength_app, !slength_spaces.
    destruct (decide (0 < p)) as [Hp|Hp].
    + assert (0 ≤ Z.quot p 2) by (apply Z.quot_pos; lia).
      assert (Z.rem p 2 = 0) by (destruct Hodd as [Ho|Ho]; [zbool; lia|];
        apply negb_false_iff in Ho; by zbool). lia.
    + assert (Z.quot p 2 ≤ 0) by (apply Z.quot_le_upper_bound; lia). lia.
Qed.

Lemma prsR_spec s w :
  INT_MIN ≤ w - slength s ≤ INT_MAX →
  ∃ l, prsR s w = spaces l +:+ s ∧ slength (prsR s w) = Z.max w (slength s).
Proof.
  intros Hw. exists (Z.to_nat (padding s w)). split; [done|]. unfold prsR.
  rewrite padding_exact, slength_app, slength_spaces by done. lia.
Qed.

(** *** Numbers printed and read back *)

(** The number whose decimal digits are those of a string; other characters are
    skipped. *)
Definition is_digit (a : ascii) : bool :=
  let n := nat_of_ascii a in (48 <=? n)%nat && (n <=? 57)%nat.

Fixpoint read_dec (acc : Z) (s : string) : Z :=
  match s with
  | EmptyString => acc
  | String a t =>
      read_dec (if is_digit a then 10 * acc + Z.of_nat (nat_of_ascii a) - 48 else acc) t
  end.

Lemma read_dec_app acc s t : read_dec acc (s +:+ t) = read_dec (read_dec acc s) t.
Proof.
  revert acc. induction s as [|a s IH]; intros acc; [done|].
  rewrite append_cons. apply IH.
Qed.

Lemma read_dec_spaces acc k s : read_dec acc (spaces k +:+ s) = read_dec acc s.
Proof. induction k as [|k IH]; [done|]. exact IH. Qed.

Lemma digit_char d :
  0 ≤ d < 10 →
  is_digit (ascii_of_nat (Z.to_nat (48 + d))) = true ∧
  Z.of_nat (nat_of_ascii (ascii_of_nat (Z.to_nat (48 + d)))) = 48 + d.
Proof.
  intros Hd. unfold is_digit. rewrite nat_ascii_embedding by lia. split; [|lia].
  apply andb_true_iff. split; apply Nat.leb_le; lia.
Qed.

Lemma read_dec_digits k : ∀ acc n,
  0 ≤ n → read_dec acc (dec_digits k n) = acc * 10 ^ Z.of_nat k + n mod 10 ^ Z.of_nat k.
Proof.
  induction k as [|k IH]; intros acc n Hn; cbn [dec_digits].
  - cbn [read_dec]. rewrite Z.pow_0_r, Z.mod_1_r. lia.
  - rewrite read_dec_app, IH by (apply Z.div_pos; lia). cbn [read_dec].
    destruct (digit_char (n mod 10)) as [-> ->]; [apply Z.mod_pos_bound; lia|].
    rewrite Nat2Z.inj_succ, Z.pow_succ_r by lia. rewrite Z.rem_mul_r by lia. lia.
Qed.

Lemma dec_count_enough fuel : ∀ n,
  0 ≤ n < 2 ^ (Z.of_nat fuel + 1) → n < 10 ^ Z.of_nat (dec_count fuel n).
Proof.
  induction fuel as [|fuel IH]; intros n Hn; cbn [dec_count].
  - change (2 ^ (Z.of_nat 0 + 1)) with 2 in Hn. change (10 ^ Z.of_nat 1) with 10. lia.
  - case_match; zbool; [change (10 ^ Z.of_nat 1) with 10; lia|].
    rewrite Nat2Z.inj_succ, Z.pow_succ_r by lia.
    rewrite Nat2Z.inj_succ, Z.add_succ_l, Z.pow_succ_r in Hn by lia.
    assert (n / 10 < 10 ^ Z.of_nat (dec_count fuel (n / 10))).
    { apply IH. split; [apply Z.div_pos; lia|]. apply Z.div_lt_upper_bound; lia. }
    pose proof (Z.div_mod n 10) as Hdm. pose proof (Z.mod_pos_bound n 10). lia.
Qed.

Lemma read_dec_string acc n :
  0 ≤ n → ∃ k, read_dec acc (dec_string n) = acc * 10 ^ Z.of_nat k + n.
Proof.
  intros Hn. unfold dec_string. set (k := dec_count _ n). exists k.
  rewrite read_dec_digits by done. rewrite (Z.mod_small n); [done|]. split; [done|].
  apply dec_count_enough. split; [done|]. rewrite Z2Nat.id by apply Z.log2_nonneg.
  destruct (decide (n = 0)) as [->|]; [done|]. apply Z.log2_spec. lia.
Qed.

Lemma read_fixed_abs n p : 0 ≤ n → read_dec 0 (fixed_abs n p) = n.
Proof.
  intros Hn. unfold fixed_abs. set (ten := 10 ^ Z.of_nat p).
  assert (0 < ten) by (apply Z.pow_pos_nonneg; lia).
  rewrite read_dec_app. destruct (read_dec_string 0 (n / ten)) as [k ->]; [apply Z.div_pos; lia|].
  rewrite Z.mul_0_l, Z.add_0_l. pose proof (Z.div_mod n ten) as Hdm. case_match; zbool.
  - subst p. cbn [read_dec]. change ten with 1. apply Z.div_1_r.
  - rewrite read_dec_app. change (read_dec (n / ten) ".") with (n / ten).
    rewrite read_dec_digits by (apply Z.mod_pos_bound; lia). fold ten.
    rewrite Z.mod_mod by lia. lia.
Qed.

Lemma round_div_nearest num den :
  0 < den → 2 * Z.abs (num - round_div num den * den) ≤ den.
Proof.
  intros Hd. unfold round_div. pose proof (Z.div_mod num den) as Hdm.
  pose proof (Z.mod_pos_bound num den Hd). repeat case_match; zbool; lia.
Qed.

Lemma scaled_nonneg m e p : 0 ≤ m → 0 ≤ scaled m e p.
Proof.
  intros Hm. unfold scaled. case_match; zbool; [lia|]. unfold round_div.
  assert (0 ≤ m * 10 ^ Z.of_nat p / 2 ^ (- e)) by (apply Z.div_pos; lia).
  repeat case_match; lia.
Qed.

Lemma read_right_justified acc s w : read_dec acc (right_justified s w) = read_dec acc s.
Proof. apply read_dec_spaces. Qed.

Lemma slength_right_justified s w : slength (right_justified s w) = Z.max w (slength s).
Proof. unfold right_justified. rewrite slength_app, slength_spaces. lia. Qed.

Lemma slength_digits k n : slength (dec_digits k n) = Z.of_nat k.
Proof.
  revert n. induction k as [|k IH]; intros n; [done|]. cbn [dec_digits].
  rewrite slength_app, IH, slength_cons. change (slength "") with 0. lia.
Qed.

(** [prd] prints a number to within half a unit of its last digit.  For the double
    ±m·2^e and [p] decimal digits, the digits printed, read as one integer [n],
    satisfy |m·2^e·10^p − n| ≤ 1/2 (scaled by a power of two to stay in the
    integers), the last [p] of them stand behind the point, and the column is
    at least [w] wide and no wider than the number needs. *)
Theorem prd_nearest b m e p w :
  0 ≤ p →
  let x := S754_finite b m e in
  let n := read_dec 0 (prd x p w) in
  let unit := 2 ^ Z.max 0 (- e) in
  2 * Z.abs (Zpos m * 2 ^ Z.max 0 e * 10 ^ p - n * unit) ≤ unit ∧
  (∃ head, prd x p w = head +:+ (if p =? 0 then "" else
     "." +:+ dec_digits (Z.to_nat p) (n mod 10 ^ p))) ∧
  slength (prd x p w) = Z.max w (slength (fixed x (Z.to_nat p))).
Proof.
  intros Hp x n unit.
  assert (Hprd : prd x p w = right_justified (fixed x (Z.to_nat p)) w)
    by (unfold prd; by rewrite (proj2 (Z.ltb_ge _ _))).
  assert (Hn : n = scaled (Zpos m) e (Z.to_nat p)).
  { unfold n. rewrite Hprd, read_right_justified. unfold x, fixed. rewrite read_dec_app.
    replace (read_dec 0 (if b then "-" else "")) with 0 by (by destruct b).
    apply read_fixed_abs, scaled_nonneg. lia. }
  rewrite Hprd, slength_right_justified. split; [|split; [|done]].
  - rewrite Hn. unfold scaled, unit. rewrite Z2Nat.id by done. case_match; zbool.
    + rewrite (Z.max_l 0 (- e)), (Z.max_r 0 e) by lia. rewrite Z.pow_0_r. lia.
    + rewrite (Z.max_r 0 (- e)), (Z.max_l 0 e) by lia. rewrite Z.pow_0_r, Z.mul_1_r.
      apply round_div_nearest. lia.
  - rewrite Hn. unfold right_justified, x, fixed, fixed_abs. rewrite Z2Nat.id by done.
    replace (Z.to_nat p =? 0)%nat with (p =? 0) by (destruct (Z.eqb_spec p 0); [by subst|];
      symmetry; apply Nat.eqb_neq; lia).
    eexists. rewrite <-!append_assoc. done.
Qed.

Lemma prd_nearest_witness : prd (S754_finite false 5 (-3)) 2 6 = "  0.62" ∧
  2 * Z.abs (5 * 2 ^ 0 * 10 ^ 2 - 62 * 2 ^ 3) ≤ 2 ^ 3.
Proof.
  split; [by vm_compute|].
  destruct (prd_nearest false 5 (-3) 2 6) as [H _]; [lia|]. vm_compute in H. vm_compute. exact H.
Defined.

(** *** Function names *)

(** [parse] cuts a signature from its first parenthesis on and keeps what
    follows the last space before it, the space included. *)
Lemma split_at_app c s t : ¬ In c (String.list_ascii_of_string s) →
  split_at c (s +:+ String c t) = Some (s, String c t).
Proof.
  induction s as [|a s IH]; intros Hc.
  - change ("" +:+ String c t) with (String c t). cbn [split_at]. by rewrite Ascii.eqb_refl.
  - rewrite append_cons. cbn [split_at String.list_ascii_of_string In] in *.
    rewrite (proj2 (Ascii.eqb_neq a c)) by naive_solver. rewrite IH by tauto. done.
Qed.

Lemma split_at_none c s : ¬ In c (String.list_ascii_of_string s) → split_at c s = None.
Proof.
  induction s as [|a s IH]; intros Hc; [done|]. cbn [split_at String.list_ascii_of_string In] in *.
  rewrite (proj2 (Ascii.eqb_neq a c)) by naive_solver. by rewrite IH by tauto.
Qed.

Lemma from_last_none c s : ¬ In c (String.list_ascii_of_string s) → from_last c s = None.
Proof.
  induction s as [|a s IH]; intros Hc; [done|]. cbn [from_last String.list_ascii_of_string In] in *.
  rewrite IH by tauto. by rewrite (proj2 (Ascii.eqb_neq a c)) by naive_solver.
Qed.

Lemma from_last_app c s t : ¬ In c (String.list_ascii_of_string t) →
  from_last c (s +:+ String c t) = Some (String c t).
Proof.
  intros Hc. induction s as [|a s IH]; rewrite ?append_cons; cbn [from_last].
  - change ("" +:+ String c t) with (String c t). cbn [from_last].
    by rewrite (from_last_none c t), Ascii.eqb_refl.
  - by rewrite IH.
Qed.

(** [parse] of "type name(arguments" is " name", of "name(arguments" it is
    "name"; a string without a parenthesis throws, because [erase] is called
    with the position npos. *)
Theorem parse_spec type name args s :
  ¬ In "("%char (String.list_ascii_of_string (type +:+ String " " name)) →
  ¬ In " "%char (String.list_ascii_of_string name) →
  ¬ In "("%char (String.list_ascii_of_string s) →
  parse (type +:+ String " " (name +:+ String "(" args)) = Ret (String " " name) ∧
  parse (name +:+ String "(" args) = Ret name ∧
  parse s = Throw "basic_string::erase".
Proof.
  intros H1 H2 H3. unfold parse.
  assert (Hn : ¬ In "("%char (String.list_ascii_of_string name)).
  { intros H. apply H1. clear H1. induction type as [|a type IH]; [by right|]. right. exact IH. }
  split_and!.
  - replace (type +:+ String " " (name +:+ String "(" args))
      with ((type +:+ String " " name) +:+ String "(" args) by (by rewrite append_assoc).
    rewrite split_at_app by done. by rewrite from_last_app.
  - rewrite split_at_app by done. by rewrite from_last_none.
  - by rewrite split_at_none.
Qed.

Example parse_run :
  parse "msg_t * Scheduler::request_handle(msg_t *, int)" = Ret " Scheduler::request_handle" ∧
  parse "main" = Throw "basic_string::erase".
Proof. by vm_compute. Qed.
