(* ===== verification/Dispatcher.v ===== *)
(** * The dispatcher: dispatcher/DispatcherServer.cpp

    [movingAverage_cpu] with its [size_t] loop bounds, its [int] accumulator
    and its mixed [int / size_t] division; the DFE kernels of DfeLib, which are
    not part of the sources, as parameters; and [handle_request] from the
    request's memory to the response's.  Loops have fuel: an index that leaves
    the array is undefined, so one more iteration than the array has elements
    is enough. *)

From S2P Require Import Prelude Message.

#[local] Open Scope Z_scope.

(** ** The CPU kernel *)

Definition int_at (a : list Z) (i : Z) : outcome Z :=
  if i <? 0 then Undef OutOfBounds
  else match a !! Z.to_nat i with Some x => Ret x | None => Undef OutOfBounds end.

Definition set_at (a : list Z) (i v : Z) : outcome (list Z) :=
  if (0 <=? i) && (i <? Z.of_nat (length a)) then Ret (<[Z.to_nat i := v]> a)
  else Undef OutOfBounds.

(** [for (j = 0; j < size; j++) out[i] += data[i + j]] *)
Fixpoint sum_window (fuel : nat) (data : list Z) (i size j acc : Z) : outcome Z :=
  match fuel with
  | O => OutOfFuel
  | S fuel =>
      if j <? size then
        x ← int_at data (i + j);
        acc ← int_of (acc + x);
        sum_window fuel data i size (j + 1) acc
      else Ret acc
  end.

(** [out[i] /= size]: the [int] is converted to [size_t], and the quotient back. *)
Definition div_size (acc size : Z) : outcome Z :=
  if size =? 0 then Undef DivByZero else Ret (i32 (u64 acc / size)).

Fixpoint average_loop (fuel : nat) (data : list Z) (last size i : Z) (out : list Z)
    : outcome (list Z) :=
  match fuel with
  | O => OutOfFuel
  | S fuel =>
      if i <=? last then
        out ← set_at out i 0;
        acc ← sum_window (S (length data)) data i size 0 0;
        q ← div_size acc size;
        out ← set_at out i q;
        average_loop fuel data last size (i + 1) out
      else Ret out
  end.

Fixpoint zero_loop (fuel : nat) (n i : Z) (out : list Z) : outcome (list Z) :=
  match fuel with
  | O => OutOfFuel
  | S fuel =>
      if i <? n then
        out ← set_at out i 0;
        zero_loop fuel n (i + 1) out
      else Ret out
  end.

(** [std::rotate(&out[0], &out[n-1], &out[n])] *)
Definition rotate_right (n : Z) (out : list Z) : outcome (list Z) :=
  if (0 <? n) && (n =? Z.of_nat (length out)) then
    Ret (drop (Z.to_nat (n - 1)) out ++ take (Z.to_nat (n - 1)) out)
  else Undef OutOfBounds.

Definition movingAverage_cpu (n size : Z) (data out : list Z) : outcome (list Z) :=
  out ← average_loop (S (length out)) data (u64 (n - size)) size 0 out;
  out ← zero_loop (S (length out)) n (u64 (n - size + 1)) out;
  rotate_right n out.

(** ** The DFE kernels *)

(** DfeLib.hpp, which is linked when USEDFE is defined. *)
Record DfeLib := {
  (** size, n, data, out before the call, number of DFEs, their ids; the
      contents of out after the call *)
  MovingAverageDFE : Z → Z → list Z → list Z → Z → list Z → list Z;
  (** strike, sigma, timestep, numMaturity, paraNode, numPathGroup, T,
      number of DFEs; the price *)
  optionPricing : Z → Z → Z → Z → Z → Z → Z → Z → Z
}.

Section dispatcher.
Context (lib : option DfeLib).

(** The constructor: DFE implementations exactly when the library is linked. *)
Definition useDfe : bool := match lib with Some _ => true | None => false end.

Definition movingAverage_dfe (n size : Z) (data out : list Z) (dfeIds : list Z) (nDfes : Z)
    : list Z :=
  match lib with
  | Some l => MovingAverageDFE l size n data out nDfes dfeIds
  | None => out
  end.

(** The overload without ids: two DFEs of the strings 1 to 4. *)
Definition movingAverage_dfe_default (n size : Z) (data out : list Z) : list Z :=
  movingAverage_dfe n size data out [49; 50; 51; 52] 2.

(** [res] is the uninitialised variable the caller passes by address. *)
Definition optionPricing_dfe (strike sigma timestep numMaturity paraNode numPathGroup T res
    nDFEs : Z) : Z :=
  match lib with
  | Some l => optionPricing l strike sigma timestep numMaturity paraNode numPathGroup T nDFEs
  | None => res
  end.

(** ** handle_request *)

(** The ids the loop over the bits of [rids] extracts: the character of each
    set bit's index. *)
Definition dfe_ids (request : msg_t) : list Z :=
  (λ i, 48 + i) <$>
    List.filter (λ i, negb (Z.land (2 ^ i) (rids request) =? 0)) [0; 1; 2; 3].

(** [calloc(n, sizeof(int))] *)
Definition calloc_ints (n : Z) : outcome (list Z) :=
  if 2 ^ 63 <=? sizeof_int * n then Undef NullDeref else Ret (replicate (Z.to_nat n) 0).

Definition handle_moving_avg (request : msg_t) (elapsed : Z) : outcome msg_t :=
  let n := dataSize request in
  let nBytes := u64 (sizeof_int * n) in
  out ← calloc_ints n;
  let dfeIds := dfe_ids request in
  let nDFEs := Z.of_nat (length dfeIds) in
  bs ← read_bytes 0 nBytes (data request);
  let data_in := bytes_ints (Z.to_nat n) bs in
  size ← firstParam request;
  out ← (if (resourceType request =? DFE) && useDfe then
           Ret (if negb (nDFEs =? 0)
                then movingAverage_dfe (i32 n) size data_in out dfeIds nDFEs
                else movingAverage_dfe_default (i32 n) size data_in out)
         else movingAverage_cpu n (u64 size) data_in out);
  let dataBytes := i32 (u64 (n * sizeof_int)) in
  let sizeBytes := u64 (sizeof_msg + dataBytes) in
  m ← calloc_msg sizeBytes;
  src ← read_bytes 0 nBytes (ints_bytes out);
  d ← write_bytes 0 src (data m);
  Ret (Msg MSG_RESULT 0 0 0 0 (i32 elapsed) 0 0 0 n 0 sizeBytes (u64 dataBytes) d).

Definition double_at (d : list Z) (off : Z) : outcome Z :=
  bs ← read_bytes off sizeof_double d; Ret (le_val bs).
Definition int_field (d : list Z) (off : Z) : outcome Z :=
  bs ← read_bytes off sizeof_int d; Ret (i32 (le_val bs)).

Definition handle_option_price (request : msg_t) (res : Z) : outcome msg_t :=
  strike ← double_at (data request) 0;
  sigma ← double_at (data request) sizeof_double;
  timestep ← double_at (data request) (2 * sizeof_double);
  numMaturity ← int_field (data request) (3 * sizeof_double);
  paraNode ← int_field (data request) (3 * sizeof_double + sizeof_int);
  numPathGroup ← int_field (data request) (3 * sizeof_double + 2 * sizeof_int);
  T ← double_at (data request) (3 * sizeof_double + 3 * sizeof_int);
  let res := optionPricing_dfe strike sigma timestep numMaturity paraNode numPathGroup T res
               (nDfes request) in
  m ← calloc_msg (sizeof_msg + sizeof_double);
  d ← write_bytes 0 (le_bytes 8 res) (data m);
  Ret (Msg MSG_RESULT 0 0 0 0 0 0 0 0 1 0 (sizeof_msg + sizeof_double) sizeof_double d).

(** [elapsed] is the measured time in milliseconds, [res] the initial contents
    of the result variable. *)
Definition handle_request (request : msg_t) (elapsed res : Z) : outcome msg_t :=
  if msgId request =? MSG_MOVING_AVG then handle_moving_avg request elapsed
  else if msgId request =? MSG_OPTION_PRICE then handle_option_price request res
  else Ret msg_empty.

End dispatcher.

(** ** Reference definitions *)

Definition sum_of (l : list Z) : Z := foldl Z.add 0 l.

(** The average of every full window of [size] elements. *)
Definition averages (size : nat) (data : list Z) : list Z :=
  (λ i, sum_of (slice i size data) / Z.of_nat size) <$> seq 0 (length data - size + 1).

(** The sums the kernel forms (every prefix of every window) are [int]s, and
    the windows' sums are not negative. *)
Definition windows_ok (size : nat) (data : list Z) : Prop :=
  ∀ i k, (i + size ≤ length data)%nat → (k ≤ size)%nat →
    INT_MIN ≤ sum_of (slice i k data) ≤ INT_MAX ∧ 0 ≤ sum_of (slice i size data).
