(* ===== verification/DispatcherFacts.v ===== *)
(** * Properties of the dispatcher

    The CPU kernel against the averages of the windows, the whole request from
    the client's array to the response, and the parameters of an
    option-pricing request. *)

From S2P Require Import Prelude Message Dispatcher.

#[local] Open Scope Z_scope.

(** ** The kernel *)

Lemma sum_of_snoc l x : sum_of (l ++ [x]) = sum_of l + x.
Proof. unfold sum_of. by rewrite foldl_app. Qed.

Lemma slice_snoc (data : list Z) i k x :
  data !! (i + k)%nat = Some x → slice i (S k) data = slice i k data ++ [x].
Proof. intros H. unfold slice. apply take_S_r. by rewrite lookup_drop. Qed.

Lemma int_at_lookup a i x : a !! i = Some x → int_at a (Z.of_nat i) = Ret x.
Proof.
  intros H. unfold int_at. rewrite (proj2 (Z.ltb_ge _ _)) by lia. by rewrite Nat2Z.id, H.
Qed.

Lemma set_at_lookup a i v : (i < length a)%nat → set_at a (Z.of_nat i) v = Ret (<[i := v]> a).
Proof.
  intros H. unfold set_at. rewrite (proj2 (Z.leb_le _ _)), (proj2 (Z.ltb_lt _ _)) by lia.
  by rewrite Nat2Z.id.
Qed.

Lemma sum_window_spec fuel data i size j :
  (i + size ≤ length data)%nat → (j ≤ size)%nat → (size - j < fuel)%nat → windows_ok size data →
  sum_window fuel data (Z.of_nat i) (Z.of_nat size) (Z.of_nat j) (sum_of (slice i j data))
  = Ret (sum_of (slice i size data)).
Proof.
  revert j. induction fuel as [|fuel IH]; intros j Hi Hj Hf Hok; [lia|]. simpl.
  destruct (decide (j = size)) as [->|Hne].
  - by rewrite (proj2 (Z.ltb_ge _ _)) by lia.
  - rewrite (proj2 (Z.ltb_lt _ _)) by lia.
    destruct (lookup_lt_is_Some_2 data (i + j)) as [x Hx]; [lia|].
    rewrite <-Nat2Z.inj_add, (int_at_lookup _ _ _ Hx). cbn [mbind outcome_bind].
    destruct (Hok i (S j)) as [Hr _]; [lia..|].
    rewrite (slice_snoc data i j x Hx), sum_of_snoc in Hr. rewrite int_of_in by done.
    cbn [mbind outcome_bind]. rewrite <-sum_of_snoc, <-(slice_snoc data i j x Hx).
    replace (Z.of_nat j + 1) with (Z.of_nat (S j)) by lia. apply IH; auto; lia.
Qed.

Lemma div_size_spec acc size :
  0 ≤ acc ≤ INT_MAX → 1 ≤ size → div_size acc size = Ret (acc / size).
Proof.
  intros Ha Hs. unfold div_size, INT_MAX in *. rewrite (proj2 (Z.eqb_neq _ _)) by lia.
  rewrite wrap_small by lia. rewrite swrap_small; [done|lia|].
  assert (0 ≤ acc / size) by (apply Z.div_pos; lia).
  assert (acc / size ≤ acc) by (apply Z.div_le_upper_bound; nia). lia.
Qed.

Definition average_at (size : nat) (data : list Z) (i : nat) : Z :=
  sum_of (slice i size data) / Z.of_nat size.

Lemma average_loop_spec fuel data size i k out :
  (1 ≤ size ≤ length data)%nat → length out = length data → (i + k + size = length data + 1)%nat →
  (k < fuel)%nat → windows_ok size data →
  average_loop fuel data (Z.of_nat (length data - size)) (Z.of_nat size) (Z.of_nat i) out =
    Ret (take i out ++ (average_at size data <$> seq i k) ++ drop (i + k) out).
Proof.
  revert i k out. induction fuel as [|fuel IH]; intros i k out Hs Hlen Hik Hf Hok; [lia|].
  cbn [average_loop]. destruct k as [|k].
  - rewrite (proj2 (Z.leb_gt _ _)) by lia. simpl. by rewrite Nat.add_0_r, take_drop.
  - rewrite (proj2 (Z.leb_le _ _)) by lia. rewrite set_at_lookup by lia.
    cbn [mbind outcome_bind].
    pose proof (sum_window_spec (S (length data)) data i size 0 ltac:(lia) ltac:(lia)
      ltac:(lia) Hok) as Hsum.
    change (sum_of (slice i 0 data)) with 0 in Hsum. change (Z.of_nat 0) with 0 in Hsum.
    rewrite Hsum. cbn [mbind outcome_bind].
    destruct (Hok i size) as [Hr Hr0]; [lia..|].
    rewrite div_size_spec by lia. cbn [mbind outcome_bind].
    rewrite set_at_lookup by (rewrite length_insert; lia). cbn [mbind outcome_bind].
    rewrite list_insert_insert_eq. replace (Z.of_nat i + 1) with (Z.of_nat (S i)) by lia.
    rewrite (IH (S i) k) by (rewrite ?length_insert; done || lia). f_equal.
    fold (average_at size data i).
    rewrite (take_S_r _ i (average_at size data i)) by (apply list_lookup_insert_eq; lia).
    rewrite take_insert_ge by lia. rewrite drop_insert_lt by lia.
    csimpl. rewrite <-(assoc_L (++)). do 3 f_equal. f_equal. lia.
Qed.

Lemma zero_loop_spec fuel n i out :
  length out = n → (i ≤ n)%nat → (n - i < fuel)%nat →
  zero_loop fuel (Z.of_nat n) (Z.of_nat i) out = Ret (take i out ++ replicate (n - i) 0).
Proof.
  revert i out. induction fuel as [|fuel IH]; intros i out Hlen Hi Hf; [lia|]. cbn [zero_loop].
  destruct (decide (i = n)) as [->|Hne].
  - rewrite (proj2 (Z.ltb_ge _ _)) by lia. by rewrite Nat.sub_diag, app_nil_r, take_ge by lia.
  - rewrite (proj2 (Z.ltb_lt _ _)) by lia. rewrite set_at_lookup by lia.
    cbn [mbind outcome_bind]. replace (Z.of_nat i + 1) with (Z.of_nat (S i)) by lia.
    rewrite IH by (rewrite ?length_insert; lia). f_equal.
    rewrite (take_S_r _ i 0) by (apply list_lookup_insert_eq; lia).
    rewrite take_insert_ge by lia. rewrite <-(assoc_L (++)).
    replace (n - i)%nat with (S (n - S i)) by lia. done.
Qed.

(** The result: the averages and the padding, rotated right by one. *)
Definition kernel_result (size : nat) (data : list Z) : list Z :=
  let l := averages size data ++ replicate (size - 1) 0 in
  drop (length data - 1) l ++ take (length data - 1) l.

Lemma movingAverage_cpu_ret size data out :
  (1 ≤ size ≤ length data)%nat → Z.of_nat (length data) < 2 ^ 64 → length out = length data →
  windows_ok size data →
  movingAverage_cpu (Z.of_nat (length data)) (Z.of_nat size) data out =
    Ret (kernel_result size data).
Proof.
  intros Hs Hn Hlen Hok. unfold movingAverage_cpu.
  set (k := (length data - size + 1)%nat).
  replace (u64 (Z.of_nat (length data) - Z.of_nat size)) with (Z.of_nat (length data - size))
    by (rewrite wrap_small; lia).
  pose proof (average_loop_spec (S (length out)) data size 0 k out Hs Hlen ltac:(lia) ltac:(lia)
    Hok) as Havg. change (Z.of_nat 0) with 0 in Havg. rewrite Havg. cbn [mbind outcome_bind].
  rewrite take_0, app_nil_l, Nat.add_0_l.
  assert (Hl : length ((average_at size data <$> seq 0 k) ++ drop k out) = length data).
  { rewrite length_app, length_fmap, length_seq, length_drop. lia. }
  replace (u64 (Z.of_nat (length data) - Z.of_nat size + 1)) with (Z.of_nat k)
    by (rewrite wrap_small; lia).
  rewrite (zero_loop_spec _ (length data) k) by lia. cbn [mbind outcome_bind].
  rewrite take_app_length' by (by rewrite length_fmap, length_seq).
  unfold rotate_right. rewrite length_app, length_fmap, length_seq, length_replicate.
  rewrite (proj2 (Z.ltb_lt _ _)), (proj2 (Z.eqb_eq _ _)) by lia. simpl.
  unfold kernel_result. fold (averages size data). unfold averages, average_at. fold k.
  replace (Z.to_nat (Z.of_nat (length data) - 1)) with (length data - 1)%nat by lia.
  replace (length data - k)%nat with (size - 1)%nat by lia. done.
Qed.

Lemma length_averages size data :
  length (averages size data) = (length data - size + 1)%nat.
Proof. unfold averages. by rewrite length_fmap, length_seq. Qed.

Lemma length_kernel_result size data :
  (1 ≤ size ≤ length data)%nat → length (kernel_result size data) = length data.
Proof.
  intros Hs. unfold kernel_result.
  rewrite length_app, length_drop, length_take, length_app, length_averages, length_replicate. lia.
Qed.

Lemma lookup_averages size data i :
  (i + size ≤ length data)%nat → averages size data !! i = Some (average_at size data i).
Proof.
  intros Hi. unfold averages. rewrite list_lookup_fmap, lookup_seq_lt by lia. done.
Qed.

Lemma kernel_result_lookup size data i :
  (2 ≤ size)%nat → (i + size ≤ length data)%nat →
  kernel_result size data !! S i = Some (average_at size data i).
Proof.
  intros Hs Hi. unfold kernel_result.
  assert (Hd : length (drop (length data - 1) (averages size data ++ replicate (size - 1) 0)) = 1%nat).
  { rewrite length_drop, length_app, length_averages, length_replicate. lia. }
  rewrite lookup_app_r by lia. rewrite Hd, lookup_take_lt by lia.
  rewrite lookup_app_l by (rewrite length_averages; lia).
  rewrite Nat.sub_succ, Nat.sub_0_r. by apply lookup_averages.
Qed.

Lemma kernel_result_head size data :
  (2 ≤ size ≤ length data)%nat → kernel_result size data !! 0%nat = Some 0.
Proof.
  intros Hs. unfold kernel_result. rewrite lookup_app_l.
  - rewrite lookup_drop, lookup_app_r by (rewrite length_averages; lia).
    rewrite lookup_replicate_2; [done|]. rewrite length_averages. lia.
  - rewrite length_drop, length_app, length_averages, length_replicate. lia.
Qed.

(** ** The test's oracle: test/TestLib.cpp *)

(** [mavg_threept_exp]: the three-point averages, with the ends of two points. *)
Definition mavg_threept_exp (n : nat) (a : list Z) : list Z :=
  let at_ i := nth i a 0 in
  (λ i, if (i =? 0)%nat then Z.quot (at_ 0%nat + at_ 1%nat) 3
        else if (i =? n - 1)%nat then Z.quot (at_ (n - 1)%nat + at_ (n - 2)%nat) 3
        else Z.quot (at_ (i - 1)%nat + at_ i + at_ (i + 1)%nat) 3) <$> seq 0 n.

(** [mavg_check]: equal at every index but the first and the last. *)
Definition mavg_check (n : nat) (out exp : list Z) : bool :=
  forallb (λ i, nth i out 0 =? nth i exp 0) (seq 1 (n - 2)).

(** ** Properties *)

(** C12: the CPU moving average.  For a window of 2 to n elements of an array whose
    window sums are non-negative ints, the kernel returns (no access out of bounds,
    no overflow, whatever out held before) an array of n ints whose first element is
    0 and whose element i + 1 is the floor of the average of the size elements
    starting at i. *)
Theorem movingAverage_cpu_correct size data out :
  (2 ≤ size ≤ length data)%nat → Z.of_nat (length data) < 2 ^ 64 → length out = length data →
  windows_ok size data →
  ∃ out', movingAverage_cpu (Z.of_nat (length data)) (Z.of_nat size) data out = Ret out' ∧
    length out' = length data ∧ out' !! 0%nat = Some 0 ∧
    ∀ i, (i + size ≤ length data)%nat →
      out' !! S i = Some (sum_of (slice i size data) / Z.of_nat size).
Proof.
  intros Hs Hn Hlen Hok. exists (kernel_result size data). split_and!.
  - apply movingAverage_cpu_ret; try done. lia.
  - apply length_kernel_result. lia.
  - by apply kernel_result_head.
  - intros i Hi. apply kernel_result_lookup; lia.
Qed.

Lemma nth_lookup_Some (l : list Z) i x : l !! i = Some x → nth i l 0 = x.
Proof. intros H. by apply nth_lookup_Some. Qed.

Lemma threept_window data i :
  (i + 3 ≤ length data)%nat →
  sum_of (slice i 3 data) = nth i data 0 + nth (i + 1) data 0 + nth (i + 2) data 0.
Proof.
  intros Hi.
  destruct (lookup_lt_is_Some_2 data i) as [x Hx]; [lia|].
  destruct (lookup_lt_is_Some_2 data (i + 1)) as [y Hy]; [lia|].
  destruct (lookup_lt_is_Some_2 data (i + 2)) as [z Hz]; [lia|].
  rewrite (slice_snoc data i 2 z Hz), (slice_snoc data i 1 y Hy).
  rewrite (slice_snoc data i 0 x) by (by rewrite Nat.add_0_r). rewrite !sum_of_snoc.
  rewrite (nth_lookup_Some _ _ _ Hx), (nth_lookup_Some _ _ _ Hy), (nth_lookup_Some _ _ _ Hz).
  done.
Qed.

(** The kernel with a window of three passes the repository's own check against
    its three-point reference, on every array of at least three ints whose window
    sums are non-negative ints. *)
Theorem movingAverage_cpu_passes_check data out out' :
  (3 ≤ length data)%nat → Z.of_nat (length data) < 2 ^ 64 → length out = length data →
  windows_ok 3 data →
  movingAverage_cpu (Z.of_nat (length data)) 3 data out = Ret out' →
  mavg_check (length data) out' (mavg_threept_exp (length data) data) = true.
Proof.
  intros Hs Hn Hlen Hok Hrun. change 3 with (Z.of_nat 3) in Hrun.
  rewrite movingAverage_cpu_ret in Hrun by (done || lia). injection Hrun as <-.
  unfold mavg_check. apply forallb_forall. intros i Hi. apply in_seq in Hi.
  destruct i as [|i]; [lia|]. apply Z.eqb_eq.
  rewrite (nth_lookup_Some _ _ _ (kernel_result_lookup 3 data i ltac:(lia) ltac:(lia))).
  destruct (Hok i 3%nat) as [_ Hpos]; [lia..|].
  symmetry. apply nth_lookup_Some. unfold mavg_threept_exp.
  rewrite list_lookup_fmap, lookup_seq_lt by lia. cbn [fmap option_fmap option_map]. f_equal.
  replace (0 + S i)%nat with (1 + i)%nat by lia. replace (1 + i =? 0)%nat with false by done.
  replace (1 + i =? length data - 1)%nat with false by (symmetry; apply Nat.eqb_neq; lia).
  unfold average_at. rewrite threept_window in Hpos |- * by lia.
  replace (1 + i - 1)%nat with i by lia. replace (1 + i + 1)%nat with (i + 2)%nat by lia.
  replace (1 + i)%nat with (i + 1)%nat by lia. by rewrite Z.quot_div_nonneg.
Qed.

(** ** The whole request *)

Lemma kernel_result_range size data :
  (1 ≤ size ≤ length data)%nat → windows_ok size data → Forall int_range (kernel_result size data).
Proof.
  intros Hs Hok. unfold kernel_result.
  assert (Hl : Forall int_range (averages size data ++ replicate (size - 1) 0)).
  { apply Forall_app. split; [|by apply Forall_replicate].
    unfold averages. apply Forall_fmap, Forall_forall. intros i Hi. apply elem_of_seq in Hi.
    destruct (Hok i size) as [Hr H0]; [lia..|]. unfold compose, int_range, INT_MIN, INT_MAX in *.
    assert (0 ≤ sum_of (slice i size data) / Z.of_nat size) by (apply Z.div_pos; lia).
    assert (sum_of (slice i size data) / Z.of_nat size ≤ sum_of (slice i size data))
      by (apply Z.div_le_upper_bound; nia). lia. }
  apply Forall_app. split; [by apply Forall_drop|by apply Forall_take].
Qed.

Lemma firstParam_ret m n width dataIn rest :
  n = Z.of_nat (length dataIn) → n ≤ MAX_N → 0 ≤ width < 128 →
  dataSize m = n → data m = ints_bytes dataIn ++ le_bytes 8 width ++ rest →
  firstParam m = Ret width.
Proof.
  intros Hn Hmax Hw Hds Hd. unfold firstParam, MAX_N in *. rewrite Hds, Hd.
  rewrite wrap_small by (unfold sizeof_int; lia).
  change (le_bytes 8 width) with (le_bytes 1 width ++ le_bytes 7 (width / 256)).
  rewrite <-(app_assoc (le_bytes 1 width)).
  rewrite (read_bytes_slice (ints_bytes dataIn) (le_bytes 1 width)).
  - cbn [mbind outcome_bind]. f_equal. apply i8_le. lia.
  - rewrite length_ints_bytes. unfold sizeof_int. lia.
  - done.
Qed.

(** The result message of [n] ints. *)
Definition result_msg (ms : Z) (ints : list Z) : msg_t :=
  let n := Z.of_nat (length ints) in
  Msg MSG_RESULT 0 0 0 0 ms 0 0 0 n 0 (sizeof_msg + 4 * n) (4 * n) (ints_bytes ints).

(** The dispatcher without DFEs on any moving-average request; the memory of the
    request may extend past its data. *)
Lemma handle_moving_avg_ret m size dataIn rest elapsed res :
  (1 ≤ size ≤ length dataIn)%nat → (size < 128)%nat → Z.of_nat (length dataIn) ≤ MAX_N →
  Forall int_range dataIn → windows_ok size dataIn →
  msgId m = MSG_MOVING_AVG → dataSize m = Z.of_nat (length dataIn) →
  data m = ints_bytes dataIn ++ le_bytes 8 (Z.of_nat size) ++ rest →
  handle_request None m elapsed res = Ret (result_msg (i32 elapsed) (kernel_result size dataIn)).
Proof.
  intros Hs H128 Hmax Hint Hok Hid Hds Hd. set (n := Z.of_nat (length dataIn)) in *.
  pose proof (firstParam_ret m n (Z.of_nat size) dataIn rest eq_refl Hmax ltac:(lia) Hds Hd) as Hfp.
  unfold MAX_N in Hmax. unfold handle_request. rewrite Hid.
  change (MSG_MOVING_AVG =? MSG_MOVING_AVG) with true. cbv iota.
  unfold handle_moving_avg. rewrite Hfp, Hds, Hd. unfold useDfe. rewrite andb_false_r.
  unfold calloc_ints. rewrite (proj2 (Z.leb_gt _ _)) by (unfold sizeof_int; lia).
  cbn [mbind outcome_bind].
  replace (u64 (sizeof_int * n)) with (4 * n) by (unfold sizeof_int; rewrite wrap_small; lia).
  rewrite read_bytes_0 by (rewrite length_ints_bytes; lia). cbn [mbind outcome_bind].
  replace (Z.to_nat n) with (length dataIn) by lia.
  pose proof (bytes_ints_bytes dataIn [] Hint) as Hb. rewrite app_nil_r in Hb. rewrite Hb.
  rewrite (wrap_small 64 (Z.of_nat size)) by lia.
  assert (movingAverage_cpu n (Z.of_nat size) dataIn (replicate (length dataIn) 0) =
    Ret (kernel_result size dataIn)) as ->.
  { apply movingAverage_cpu_ret; rewrite ?length_replicate; done || lia. }
  cbn [mbind outcome_bind].
  replace (u64 (n * sizeof_int)) with (4 * n) by (unfold sizeof_int; rewrite wrap_small; lia).
  rewrite (swrap_small 32 (4 * n)), (wrap_small 64 (4 * n)) by lia.
  replace (u64 (sizeof_msg + 4 * n)) with (sizeof_msg + 4 * n)
    by (unfold sizeof_msg; rewrite wrap_small; lia).
  rewrite calloc_msg_ok by (unfold sizeof_msg; lia). cbn [mbind outcome_bind data].
  pose proof (length_kernel_result size dataIn Hs) as Hkl.
  pose proof (length_ints_bytes (kernel_result size dataIn)) as Hkb.
  assert (read_bytes 0 (4 * n) (ints_bytes (kernel_result size dataIn)) =
    Ret (ints_bytes (kernel_result size dataIn))) as ->.
  { pose proof (read_bytes_0 (ints_bytes (kernel_result size dataIn)) [] (4 * n)) as Hrd.
    rewrite app_nil_r in Hrd. apply Hrd. lia. }
  cbn [mbind outcome_bind].
  assert (write_bytes 0 (ints_bytes (kernel_result size dataIn)) (replicate (Z.to_nat (4 * n)) 0)
    = Ret (ints_bytes (kernel_result size dataIn))) as ->.
  { rewrite <-(app_nil_r (replicate _ 0)), <-(app_nil_l (replicate _ 0 ++ [])).
    rewrite write_bytes_slice by (rewrite ?length_replicate; lia || done). by rewrite app_nil_r. }
  cbn [mbind outcome_bind]. unfold result_msg. by rewrite Hkl.
Qed.

(** A moving-average request end to end.  The response the dispatcher (without
    DFEs) computes for the request a client builds for an array and a width from 1
    to 127 is a result message of the size the client announced, whose data are the
    bytes of the averages: decoding it gives the kernel's result. *)
Theorem dispatcher_moving_avg size dataIn m elapsed res :
  (1 ≤ size ≤ length dataIn)%nat → (size < 128)%nat → Z.of_nat (length dataIn) ≤ MAX_N →
  Forall int_range dataIn → windows_ok size dataIn →
  msg_moving_avg (Z.of_nat (length dataIn)) (Z.of_nat size) dataIn = Ret m →
  ∃ rsp, handle_request None m elapsed res = Ret rsp ∧ msgId rsp = MSG_RESULT ∧
    dataSize rsp = Z.of_nat (length dataIn) ∧
    totalBytes rsp = sizeof_msg + expDataSizeBytes m ∧
    Z.of_nat (length (msg_bytes rsp)) = totalBytes rsp ∧
    bytes_ints (length dataIn) (data rsp) = kernel_result size dataIn.
Proof.
  intros Hs H128 Hmax Hint Hok.
  rewrite (msg_moving_avg_ret _ (Z.of_nat size) dataIn) by done. intros [= <-].
  rewrite (handle_moving_avg_ret _ size dataIn []) by done.
  pose proof (length_kernel_result size dataIn Hs) as Hkl.
  eexists. split; [done|]. unfold result_msg. rewrite Hkl.
  cbn [msgId dataSize totalBytes expDataSizeBytes data]. split_and!; try done.
  - unfold msg_bytes. rewrite length_app, length_header_bytes. cbn [data].
    rewrite length_ints_bytes, Hkl. unfold sizeof_msg. lia.
  - rewrite <-Hkl, <-(app_nil_r (ints_bytes _)). apply bytes_ints_bytes.
    by apply kernel_result_range.
Qed.

(** An option-pricing request end to end, for every DFE library: the dispatcher
    calls the kernel with exactly the seven parameters the client put into the
    message (doubles as their bit patterns) and the number of DFEs of the request,
    and answers with the price in an 8-byte result. *)
Theorem dispatcher_option_price lib strike sigma timestep numMaturity paraNode numPathGroup T
    ids m elapsed res :
  size_range strike → size_range sigma → size_range timestep → size_range T →
  int_range numMaturity → int_range paraNode → int_range numPathGroup → -128 ≤ ids < 128 →
  msg_option_pricing strike sigma timestep numMaturity paraNode numPathGroup T = Ret m →
  ∃ rsp, handle_request (Some lib) (set_rids m ids) elapsed res = Ret rsp ∧
    msgId rsp = MSG_RESULT ∧ dataBytes rsp = expDataSizeBytes m ∧
    data rsp = le_bytes 8 (optionPricing lib strike sigma timestep numMaturity paraNode
                             numPathGroup T (nDfes (set_rids m ids))).
Proof.
  intros Hk Hs Ht HT Hm Hp Hg _. rewrite msg_option_pricing_ret. intros Hmsg.
  assert (m = Msg MSG_OPTION_PRICE 0 0 0 0 0 0 0 8 0 7 113 44
           (le_bytes 8 strike ++ le_bytes 8 sigma ++ le_bytes 8 timestep ++
            le_bytes 4 numMaturity ++ le_bytes 4 paraNode ++ le_bytes 4 numPathGroup ++
            le_bytes 8 T)) as -> by congruence. clear Hmsg.
  unfold handle_request, set_rids. cbn [msgId].
  change (MSG_OPTION_PRICE =? MSG_MOVING_AVG) with false.
  change (MSG_OPTION_PRICE =? MSG_OPTION_PRICE) with true. cbv iota.
  unfold handle_option_price. cbn [data].
  set (d := le_bytes 8 strike ++ _).
  assert (double_at d 0 = Ret (le_val (le_bytes 8 strike))) as -> by reflexivity.
  assert (double_at d sizeof_double = Ret (le_val (le_bytes 8 sigma))) as -> by reflexivity.
  assert (double_at d (2 * sizeof_double) = Ret (le_val (le_bytes 8 timestep))) as ->
    by reflexivity.
  assert (int_field d (3 * sizeof_double) = Ret (i32 (le_val (le_bytes 4 numMaturity)))) as ->
    by reflexivity.
  assert (int_field d (3 * sizeof_double + sizeof_int) =
    Ret (i32 (le_val (le_bytes 4 paraNode)))) as -> by reflexivity.
  assert (int_field d (3 * sizeof_double + 2 * sizeof_int) =
    Ret (i32 (le_val (le_bytes 4 numPathGroup)))) as -> by reflexivity.
  assert (double_at d (3 * sizeof_double + 3 * sizeof_int) = Ret (le_val (le_bytes 8 T))) as ->
    by reflexivity.
  cbn [mbind outcome_bind]. rewrite !size_le, !i32_le by done.
  eexists. split; [reflexivity|]. by split_and!.
Qed.

(** ** Witnesses *)

Definition ramp : list Z := [1; 2; 3; 4; 5; 6].

Lemma ramp_windows : windows_ok 3 ramp.
Proof.
  intros i k Hi Hk. simpl in Hi.
  assert (i = 0 ∨ i = 1 ∨ i = 2 ∨ i = 3)%nat as [->|[->|[->| ->]]] by lia;
    assert (k = 0 ∨ k = 1 ∨ k = 2 ∨ k = 3)%nat as [->|[->|[->| ->]]] by lia;
    vm_compute; (split; [split|]); congruence.
Qed.

Lemma ramp_ints : Forall int_range ramp.
Proof. repeat constructor; vm_compute; congruence. Qed.

Lemma movingAverage_cpu_correct_witness :
  ∃ out', movingAverage_cpu 6 3 ramp (replicate 6 0) = Ret out' ∧
    length out' = 6%nat ∧ out' !! 0%nat = Some 0 ∧
    ∀ i, (i + 3 ≤ 6)%nat → out' !! S i = Some (sum_of (slice i 3 ramp) / 3).
Proof.
  apply (movingAverage_cpu_correct 3 ramp (replicate 6 0)); [simpl; lia|reflexivity..|].
  apply ramp_windows.
Defined.

Lemma movingAverage_cpu_passes_check_witness :
  mavg_check 6 [0; 2; 3; 4; 5; 0] (mavg_threept_exp 6 ramp) = true.
Proof.
  apply (movingAverage_cpu_passes_check ramp (replicate 6 0)); [simpl; lia|reflexivity..| |].
  - apply ramp_windows.
  - vm_compute. reflexivity.
Defined.

Lemma dispatcher_moving_avg_witness :
  ∃ rsp, handle_request None (Msg MSG_MOVING_AVG 0 0 0 0 0 0 0 24 6 1 101 32
      (ints_bytes ramp ++ le_bytes 8 3)) 7 0 = Ret rsp ∧
    msgId rsp = MSG_RESULT ∧ dataSize rsp = 6 ∧ totalBytes rsp = 93 ∧
    Z.of_nat (length (msg_bytes rsp)) = totalBytes rsp ∧
    bytes_ints 6 (data rsp) = [0; 2; 3; 4; 5; 0].
Proof.
  apply (dispatcher_moving_avg 3 ramp); [simpl; lia|lia|vm_compute; congruence|apply ramp_ints| |].
  - apply ramp_windows.
  - vm_compute. reflexivity.
Defined.

(** A library whose price is the number of DFEs plus the strike's bits. *)
Definition sample_lib : DfeLib :=
  {| MovingAverageDFE _ _ _ out _ _ := out;
     optionPricing strike _ _ _ _ _ _ n := strike + n |}.

Definition sample_price : msg_t :=
  Msg MSG_OPTION_PRICE 0 0 0 0 0 0 0 8 0 7 113 44
    (le_bytes 8 100 ++ le_bytes 8 2 ++ le_bytes 8 3 ++ le_bytes 4 4 ++ le_bytes 4 5 ++
     le_bytes 4 6 ++ le_bytes 8 7).

Lemma dispatcher_option_price_witness :
  ∃ rsp, handle_request (Some sample_lib) (set_rids sample_price 3) 0 0 = Ret rsp ∧
    msgId rsp = MSG_RESULT ∧ dataBytes rsp = 8 ∧ data rsp = le_bytes 8 102.
Proof.
  apply (dispatcher_option_price sample_lib 100 2 3 4 5 6 7 3 sample_price 0 0);
    [..|apply msg_option_pricing_ret]; unfold size_range, int_range, INT_MIN, INT_MAX; lia.
Defined.

(** Negative sums: the quotient is taken on the unsigned 64-bit value. *)
Example average_of_negatives :
  movingAverage_cpu 3 3 [-1; -1; -1] (replicate 3 0) = Ret [0; 1431655764; 0].
Proof. vm_compute. reflexivity. Qed.

(** A width of zero, or above the number of elements, is undefined. *)
Example average_width_zero :
  movingAverage_cpu 3 0 [1; 2; 3] (replicate 3 0) = Undef DivByZero.
Proof. vm_compute. reflexivity. Qed.

Example average_width_too_large :
  movingAverage_cpu 3 4 [1; 2; 3] (replicate 3 0) = Undef OutOfBounds.
Proof. vm_compute. reflexivity. Qed.
