(* ===== verification/Job.v ===== *)
(** * Resources, jobs and allocations

    common/Resource.hpp, common/Job.hpp, common/Job.cpp, the [JobInfo] flags
    of common/typedefs.hpp and scheduler/Allocations.hpp.

    A [Job] record holds what the constructor fixes and nothing changes
    afterwards; a [JobTuplePtr] is represented by its job, two pointers being
    equal when the job ids are.  What the threads write later (times, response,
    the started and finished flags) is a [JobState], which the scheduler keeps
    in a store indexed by the job id. *)

From S2P Require Import Prelude CxxFloat Message.

(** ** Resource.hpp *)

Record Resource := MkResource {
  rid : Z;
  port : Z;
  url : string;
  rtype : string
}.

#[export] Instance Resource_eq_dec : EqDecision Resource.
Proof. solve_decision. Defined.

(** The copy constructor copies exactly these four fields. *)
Definition Resource_copy (r : Resource) : Resource :=
  MkResource (rid r) (port r) (url r) (rtype r).

(** [operator==] compares the ids. *)
Definition Resource_eqb (l r : Resource) : bool := (rid l =? rid r)%Z.

(** ** Job.hpp and Job.cpp *)

Record Job := MkJob {
  jmin : nat;
  jmax : nat;
  jid : Z;
  jpriority : Z;
  jstatus : Z;
  targetExecutionTime : float64;  (** seconds *)
  predictedTime : float64;        (** seconds *)
  jreq : msg_t
}.

#[export] Instance spec_float_eq_dec : EqDecision spec_float.
Proof. solve_decision. Defined.
#[export] Instance Job_eq_dec : EqDecision Job.
Proof. solve_decision. Defined.

Record JobState := MkJobState {
  issueTime : Z;     (** clock readings, nanoseconds *)
  dispatchTime : Z;
  finishTime : Z;
  actualExecutionTime : float64;
  measuredExecutionTime : float64;
  jrsp : option msg_t;
  started : bool;
  finished : bool
}.

(** [Job::Job(request, id)], read at clock time [now]. *)
Definition new_Job (request : msg_t) (id : Z) : Job :=
  MkJob 1 4 id (clientId request) 2
    (seconds_of_millis (targetExecutionTimeMillis request))
    (seconds_of_millis (predictedTimeMillis request)) request.

(** The mutable members; the constructor leaves the two execution times unset, and the
    scheduler reads them only after it has written them. *)
Definition new_JobState (now : Z) : JobState :=
  MkJobState now now now f_zero f_zero None false false.

(** [operator==] of jobs, and the identity of the pointers to them. *)
Definition Job_eqb (l r : Job) : bool := (jid l =? jid r)%Z.

Definition getDefaultJobTime (j : Job) : float32 := f32_of_f64 (predictedTime j).

Definition minCost (j : Job) : float32 :=
  f32_of_f64 (f64_div (predictedTime j) (f64_of_Z (Z.of_nat (jmin j)))).

Definition maxCost (j : Job) : float32 :=
  f32_of_f64 (f64_div (predictedTime j) (f64_of_Z (Z.of_nat (jmax j)))).

Definition getJlo (j : Job) (resourceCount : Z) : float64 :=
  f64_sub (targetExecutionTime j) (f64_div (predictedTime j) (f64_of_Z resourceCount)).

(** ** Allocations.hpp *)

Abbreviation ResourceList := (list Resource).
Abbreviation JobResPair := (Job * list Resource)%type.

(** [defaultCostFunction], the cost function of every job. *)
Definition defaultCostFunction (p : JobResPair) : float32 :=
  f32_div (getDefaultJobTime (fst p)) (f32_of_Z (Z.of_nat (length (snd p)))).

Definition cost (p : JobResPair) : float32 := defaultCostFunction p.

Record Allocations := MkAllocations {
  ajobs : list JobResPair;
  ascore : Z
}.

Definition new_Allocations : Allocations := MkAllocations [] 0.

Definition addJobResourcePair (a : Allocations) (j : Job) (r : ResourceList) : Allocations :=
  MkAllocations (ajobs a ++ [(j, r)]) (ascore a).

Definition makespan (a : Allocations) : float32 :=
  foldl (λ sum p, f32_add sum (cost p)) f_zero (ajobs a).

Definition totalPriorities (a : Allocations) : float32 := f32_of_Z 1.

Definition noJobs (a : Allocations) : nat :=
  length (List.filter (λ p : JobResPair, negb (length (snd p) =? 0)%nat) (ajobs a)).

Definition getScore (a : Allocations) : Z := ascore a.
Definition setScore (a : Allocations) (v : Z) : Allocations := MkAllocations (ajobs a) v.

(** The negative and the non-negative sums of the jobs' JLO values. *)
Definition jlo_sums (a : Allocations) : float64 * float64 :=
  foldl (λ '(neg, pos) p,
    let jlo := getJlo (fst p) (Z.of_nat (length (snd p))) in
    if SFltb jlo f_zero then (f64_add neg jlo, pos) else (neg, f64_add pos jlo))
    (f_zero, f_zero) (ajobs a).

Definition getJLOMetric (a : Allocations) : float64 :=
  let '(neg, pos) := jlo_sums a in
  if SFltb neg f_zero then neg else pos.

(** All resources an allocation has taken from the pool, in order. *)
Definition aresources (a : Allocations) : list Resource := mjoin (snd <$> ajobs a).

(** ** Lemmas *)

Lemma Resource_copy_id r : Resource_copy r = r.
Proof. by destruct r. Qed.

Lemma Job_eqb_eq_jid x y : Job_eqb x y = true ↔ jid x = jid y.
Proof. unfold Job_eqb. apply Z.eqb_eq. Qed.

Lemma aresources_add a j r :
  aresources (addJobResourcePair a j r) = aresources a ++ r.
Proof.
  unfold aresources, addJobResourcePair. simpl.
  rewrite fmap_app, join_app. simpl. by rewrite app_nil_r.
Qed.

Lemma noJobs_add a j r :
  noJobs (addJobResourcePair a j r) = (noJobs a + if r is [] then 0 else 1)%nat.
Proof.
  unfold noJobs, addJobResourcePair. simpl. rewrite List.filter_app, length_app. simpl.
  by destruct r.
Qed.

Lemma noJobs_le a : (noJobs a ≤ length (ajobs a))%nat.
Proof. unfold noJobs. apply List.filter_length_le. Qed.

(** When every pair has resources, [noJobs] counts the pairs. *)
Lemma noJobs_all a :
  Forall (λ p : JobResPair, snd p ≠ []) (ajobs a) → noJobs a = length (ajobs a).
Proof.
  unfold noJobs. induction 1 as [|[j r] l Hr _ IH]; [done|].
  simpl in *. destruct r; [done|]. simpl. by rewrite IH.
Qed.
