(* ===== verification/Printing.v ===== *)
(** * What is printed: messages, resources, jobs

    [msg::print] of common/message.cpp, old_message/message.cpp and
    protobuf/message.cpp, which read the data they print from memory, the
    output operator and the string constructor of Resource.hpp, [Job::str], and
    the functions that protobuf/message.cpp shares with old_message/message.cpp. *)

From Stdlib Require Import Ascii.
From S2P Require Import Prelude CxxFloat Message ControlMsg Server Client Utils Dispatcher.
From S2P Require Import DispatcherFacts Job.

#[local] Open Scope string_scope.
#[local] Open Scope list_scope.
#[local] Open Scope Z_scope.

(** ** Output *)

Definition show_int (z : Z) : string :=
  if z <? 0 then "-" +:+ dec_string (- z) else dec_string z.

Definition endl : string := String (ascii_of_nat 10) "".

(** [for (i = from; i < from + n; i++) cout << i_data[i] << " "] *)
Fixpoint print_ints (n : nat) (data : list Z) (from : Z) : outcome string :=
  match n with
  | O => Ret ""
  | S n =>
      x ← int_field data (sizeof_int * from);
      rest ← print_ints n data (from + 1);
      Ret (show_int x +:+ " " +:+ rest)
  end.

(** The number of rounds of [for (size_t i = from; i < to; i++)]. *)
Definition rounds (from to : Z) : nat := Z.to_nat (to - from).

Definition print (m : msg_t) : outcome string :=
  ds ← print_ints (rounds 0 (dataSize m)) (data m) 0;
  ps ← print_ints (rounds (dataSize m) (u64 (dataSize m + paramsSize m))) (data m) (dataSize m);
  Ret ("  Id: " +:+ show_int (msgId m) +:+ "  Data size: " +:+ show_int (dataSize m) +:+ endl +:+
       "  Params size: " +:+ show_int (paramsSize m) +:+ endl +:+
       "  Exps data size bytes: " +:+ show_int (expDataSizeBytes m) +:+ endl +:+
       "  Data: " +:+ "  Total bytes: " +:+ show_int (totalBytes m) +:+ endl +:+
       "  Data Bytes: " +:+ show_int (dataBytes m) +:+ endl +:+
       ds +:+ endl +:+ "  Params: " +:+ ps +:+ endl).

(** ** The messages with the 24-byte header *)

Definition old_msgId (b : list Z) : outcome Z := int_field b 0.

Definition old_data (b : list Z) : list Z := drop (Z.to_nat sizeof_old) b.

Definition old_print (b : list Z) : outcome string :=
  id ← old_msgId b;
  n ← old_dataSize b;
  p ← old_paramsSize b;
  ds ← print_ints (rounds 0 n) (old_data b) 0;
  ps ← print_ints (rounds n (u64 (n + p))) (old_data b) n;
  Ret ("  Id: " +:+ show_int id +:+ "  Data size: " +:+ show_int n +:+ endl +:+
       "  Params size: " +:+ show_int p +:+ endl +:+
       "  Data: " +:+ ds +:+ endl +:+ "  Params: " +:+ ps +:+ endl).

(** [for (i = 0; i < dataSize * sizeof(int); i++) cout << data[i]] *)
Definition print_control (b : list Z) : outcome string :=
  id ← old_msgId b;
  n ← old_dataSize b;
  bs ← read_bytes 0 (u64 (n * sizeof_int)) (old_data b);
  Ret ("ControlMSG" +:+ String (ascii_of_nat 9) "" +:+ "  Id: " +:+ show_int id +:+
       foldr (λ c s, String (ascii_of_nat (Z.to_nat c)) s) "" bs +:+ endl).

Definition pb_print (b : list Z) : outcome string :=
  id ← old_msgId b;
  if id =? MSG_CONTROL then print_control b else old_print b.

(** The functions protobuf/message.cpp has in common with old_message. *)
Definition pb_sizeBytes : list Z → outcome Z := old_sizeBytes.
Definition pb_dataBytes : list Z → outcome Z := old_dataBytes.
Definition pb_firstParam : list Z → outcome Z := old_firstParam.
Definition pb_msg_empty : outcome (list Z) := old_msg_empty.
Definition pb_msg_ack : outcome (list Z) := old_msg_ack.
Definition pb_msg_moving_avg : Z → Z → list Z → outcome (list Z) := old_msg_moving_avg.

(** ** Resources and jobs *)

(** [stream >> i]: white space, a sign, digits; 0 without digits, the nearest
    [int] when the number is too large. *)
Definition clamp_int (z : Z) : Z := Z.max INT_MIN (Z.min INT_MAX z).

Fixpoint stream_int (s : string) : Z :=
  match s with
  | EmptyString => 0
  | String a t =>
      if is_space a then stream_int t
      else if Ascii.eqb a "-"%char then clamp_int (- digits 0 t)
      else if Ascii.eqb a "+"%char then clamp_int (digits 0 t)
      else clamp_int (digits 0 s)
  end.

(** The constructor with the port as a string. *)
Definition Resource_of_string (port_ name_ type_ : string) : Resource :=
  MkResource (-1) (stream_int port_) name_ type_.

Definition Resource_print (r : Resource) : string :=
  "{ID: " +:+ show_int (rid r) +:+ ",TYPE: " +:+ rtype r +:+
  ",HOSTNAME: " +:+ url r +:+ ",PORT: " +:+ show_int (port r) +:+ "}".

Definition Job_str (j : Job) : string := "Job[" +:+ show_int (jid j) +:+ "]".

(** [Job::run] returns the request. *)
Definition Job_run (j : Job) : msg_t := jreq j.

(** ** Lemmas *)

Lemma read_show_int z : read_dec 0 (show_int z) = Z.abs z.
Proof.
  unfold show_int. case_match; zbool.
  - rewrite read_dec_app. destruct (read_dec_string 0 (- z)) as [k Hk]; [lia|].
    change (read_dec 0 "-") with 0. rewrite Hk. lia.
  - destruct (read_dec_string 0 z) as [k Hk]; [done|]. rewrite Hk. lia.
Qed.

(** Printing reads exactly the integers of the range, and only in the array. *)
Lemma print_ints_ret l : ∀ pre post,
  Forall int_range l →
  print_ints (length l) (ints_bytes pre ++ ints_bytes l ++ post) (Z.of_nat (length pre)) =
    Ret (foldr (λ x s, show_int x +:+ " " +:+ s) "" l).
Proof.
  induction l as [|x l IH]; intros pre post HF; [done|].
  apply Forall_cons in HF as [Hx HF]. cbn [length print_ints foldr].
  rewrite ints_bytes_cons, <-app_assoc.
  unfold int_field. rewrite read_bytes_slice; [|rewrite length_ints_bytes; unfold sizeof_int; lia
    |by rewrite length_le_bytes].
  cbn [mbind outcome_bind]. rewrite i32_le by done.
  specialize (IH (pre ++ [x]) post HF). rewrite length_app in IH. cbn [length] in IH.
  replace (Z.of_nat (length pre + 1)) with (Z.of_nat (length pre) + 1) in IH by lia.
  assert (ints_bytes (pre ++ [x]) = ints_bytes pre ++ le_bytes 4 x) as Hpx.
  { unfold ints_bytes. rewrite fmap_app, join_app. cbn. by rewrite app_nil_r. }
  rewrite Hpx, <-app_assoc in IH. by rewrite IH.
Qed.

Lemma print_ints_oob n data from :
  0 ≤ from → Z.of_nat (length data) < 4 * (from + Z.of_nat n) → (0 < n)%nat →
  print_ints n data from = Undef OutOfBounds.
Proof.
  revert from. induction n as [|n IH]; intros from Hf Hl Hn; [lia|]. cbn [print_ints].
  unfold int_field, read_bytes, sizeof_int.
  destruct (_ && _)%bool eqn:E; [|done]. cbn [mbind outcome_bind]. zbool.
  rewrite IH; [done|lia..|]. destruct n; lia.
Qed.

(** The 8 bytes of the width are two integers, of which [print] shows one. *)
Lemma width_halves w :
  size_range w → le_bytes 8 w = ints_bytes [i32 w; i32 (w / 2 ^ 32)].
Proof.
  intros Hw. unfold ints_bytes. cbn [fmap list_fmap mjoin list_join]. rewrite app_nil_r.
  assert (Hle : ∀ z, le_bytes 4 (i32 z) = le_bytes 4 z).
  { intros z. rewrite <-(le_bytes_le_val (le_bytes 4 (i32 z))) by apply le_bytes_ok.
    rewrite <-(le_bytes_le_val (le_bytes 4 z)) by apply le_bytes_ok.
    rewrite !length_le_bytes, !le_val_le_bytes. f_equal. change (8 * Z.of_nat 4) with 32.
    unfold swrap, wrap. pose proof (Z.mod_pos_bound z (2 ^ 32)).
    case_match; zbool; [by rewrite Z.mod_mod by lia|].
    rewrite <-(Z.mod_add _ 1) by lia. rewrite Z.mul_1_l, Z.sub_add. by rewrite Z.mod_mod by lia. }
  rewrite !Hle. change 8%nat with (4 + 4)%nat.
  assert (∀ n k z, le_bytes (n + k) z = le_bytes n z ++ le_bytes k (z / 2 ^ (8 * Z.of_nat n)))
    as Hsplit.
  { clear. induction n as [|n IH]; intros k z.
    - cbn [Nat.add]. by rewrite Z.mul_0_r, Z.pow_0_r, Z.div_1_r.
    - change (le_bytes (S n + k) z) with (z mod 256 :: le_bytes (n + k) (z / 256)).
      change (le_bytes (S n) z ++ ?r) with (z mod 256 :: le_bytes n (z / 256) ++ r).
      rewrite IH. do 3 f_equal.
      rewrite Z.div_div by lia. f_equal. change 256 with (2 ^ 8).
      rewrite <-Z.pow_add_r by lia. f_equal. lia. }
  rewrite Hsplit. done.
Qed.

(** Printing a moving-average request stays inside the message and shows the
    array, and of the window's width the lower half as an [int]. *)
Theorem print_moving_avg n width dataIn m :
  n = Z.of_nat (length dataIn) → n ≤ MAX_N → Forall int_range dataIn → size_range width →
  msg_moving_avg n width dataIn = Ret m →
  ∃ header, print m = Ret (header +:+
    foldr (λ x s, show_int x +:+ " " +:+ s) "" dataIn +:+ endl +:+
    "  Params: " +:+ show_int (i32 width) +:+ " " +:+ endl).
Proof.
  intros Hn Hmax HF Hw Hm. rewrite (msg_moving_avg_ret n width dataIn) in Hm by done.
  injection Hm as <-. unfold print, rounds, MAX_N in *. cbn [dataSize paramsSize data].
  rewrite (wrap_small 64 (n + 1)) by lia.
  replace (Z.to_nat (n - 0)) with (length dataIn) by lia.
  replace (Z.to_nat (n + 1 - n)) with 1%nat by lia.
  pose proof (print_ints_ret dataIn [] (le_bytes 8 width) HF) as H1. cbn [length] in H1.
  change (ints_bytes [] ++ ?x) with x in H1. change (Z.of_nat 0) with 0 in H1.
  rewrite H1. cbn [mbind outcome_bind].
  assert (Hi : Forall int_range [i32 width]).
  { apply Forall_singleton. pose proof (swrap_range 32 width ltac:(lia)).
    unfold int_range, INT_MIN, INT_MAX. lia. }
  pose proof (print_ints_ret [i32 width] dataIn (ints_bytes [i32 (width / 2 ^ 32)]) Hi) as H2.
  rewrite width_halves by done. cbn [length] in H2.
  change (ints_bytes [i32 width; i32 (width / 2 ^ 32)])
    with (ints_bytes [i32 width] ++ ints_bytes [i32 (width / 2 ^ 32)]).
  rewrite Hn. rewrite H2. cbn [mbind outcome_bind foldr].
  rewrite append_nil. eexists. by rewrite <-!append_assoc.
Qed.

(** A control message of the protobuf layer is printed from a block of no bytes. *)
Example print_empty_block : pb_print [] = Undef OutOfBounds.
Proof. reflexivity. Qed.

Example printed :
  Resource_print (Resource_of_string "8122" "localhost" "CPU") =
    "{ID: -1,TYPE: CPU,HOSTNAME: localhost,PORT: 8122}" ∧
  stream_int "99999999999" = INT_MAX ∧ stream_int "abc" = 0.
Proof. by vm_compute. Qed.
