(* ===== verification/Executor.v ===== *)
(** * The executor: executor/PerfModel.cpp, Task.cpp, Executor.cpp

    Performance models fitted by gradient descent on binary64 numbers, the
    choice of an implementation by predicted time, and the executor's handler,
    which forwards a request to the resource of the chosen implementation.
    [pow] is the function of the C library (the standard leaves its accuracy
    open), the measured times of [GenerateTestData] are a stream, and [network]
    is the connection attempt of boost::asio; all are parameters. *)

From S2P Require Import Prelude CxxFloat StdAlg Message Client Job Printing.

#[local] Open Scope Z_scope.

(** ** Implementation.hpp, PerfModel.hpp *)

Record Implementation := MkImp {
  libraryName : string;
  funcName : string;
  iname : string;
  iurl : string;
  iport : string;
  itype : string
}.

Record PerfModel := MkModel {
  alpha : float64;
  iterations : Z;          (** uint64_t *)
  numberOfFeatures : Z;    (** int *)
  numberOfDataPoints : Z;  (** int *)
  order : Z;               (** int *)
  features : list (list float64);
  weights : list float64;
  milliseconds : list float64;
  mimp : option Implementation
}.

(** The constructor with explicit parameters; [points] is the value of the
    member it leaves uninitialised. *)
Definition new_PerfModel (imp : option Implementation) (a : float64) (it feat ord points : Z)
    : PerfModel :=
  MkModel a it feat points ord [] [] [] imp.

Definition set_data_points (m : PerfModel) fs ms :=
  MkModel (alpha m) (iterations m) (numberOfFeatures m) (numberOfDataPoints m) (order m)
    fs (weights m) ms (mimp m).
Definition set_fit (m : PerfModel) points ws :=
  MkModel (alpha m) (iterations m) (numberOfFeatures m) points (order m)
    (features m) ws (milliseconds m) (mimp m).

(** [v[i]] of a vector, with an [int] index that is not negative here. *)
Definition vec_at {A} (v : list A) (i : nat) : outcome A :=
  match v !! i with Some x => Ret x | None => Undef OutOfBounds end.

(** The loop [for (int i = 0; i < n; i++) acc = body(i, acc)]. *)
Fixpoint for_from {A} (i n : nat) (body : nat → A → outcome A) (acc : A) : outcome A :=
  match n with
  | O => Ret acc
  | S n => acc ← body i acc; for_from (S i) n body acc
  end.

Definition for_int {A} (n : Z) (body : nat → A → outcome A) (acc : A) : outcome A :=
  for_from 0 (Z.to_nat n) body acc.

(** ** LinearRegression *)

(** [H]: the prediction of the weights for the data point [m]. *)
Definition hypothesis (M : PerfModel) (ws : list float64) (m : nat) : outcome float64 :=
  for_int (numberOfFeatures M) (λ i H,
    w ← vec_at ws i;
    row ← vec_at (features M) m;
    x ← vec_at row i;
    Ret (f64_add H (f64_mul w x))) f_zero.

Definition costDerivative (M : PerfModel) (points : Z) (ws : list float64) (f : nat)
    : outcome float64 :=
  for_int points (λ m acc,
    Y ← vec_at (milliseconds M) m;
    H ← hypothesis M ws m;
    row ← vec_at (features M) m;
    x ← vec_at row f;
    Ret (f64_add acc (f64_mul (f64_sub H Y) x))) f_zero.

(** One iteration: [newWeights], which replace the weights at its end. *)
Definition descent_step (M : PerfModel) (points : Z) (ws : list float64)
    : outcome (list float64) :=
  for_int (numberOfFeatures M) (λ f newWeights,
    currentWeight ← vec_at ws f;
    d ← costDerivative M points ws f;
    Ret (newWeights ++ [f64_sub currentWeight (f64_mul (alpha M) d)])) [].

(** [iter % (iterations / 10)] guards the progress output. *)
Definition LinearRegression (M : PerfModel) : outcome PerfModel :=
  let points := i32 (Z.of_nat (length (milliseconds M))) in
  ws ← for_int (iterations M) (λ _ ws,
         if iterations M / 10 =? 0 then Undef DivByZero
         else descent_step M points ws)
         (replicate (Z.to_nat (numberOfFeatures M)) f_zero);
  Ret (set_fit M points ws).

Section pow.
Context (pow : float64 → float64 → float64).

(** [pow(x, 0), ..., pow(x, order)] *)
Definition powers (x : float64) (ord : Z) : list float64 :=
  (λ j, pow x (f64_of_Z (Z.of_nat j))) <$> seq 0 (Z.to_nat (ord + 1)).

(** ** GenerateTestData

    [f k i] is the time of the [k]-th measurement, of size [i]. *)
Fixpoint generate_loop (fuel : nat) (f : nat → Z → float64) (maxsize ord i : Z) (k : nat)
    (fs : list (list float64)) (ms : list float64)
    : outcome (list (list float64) * list float64) :=
  match fuel with
  | O => OutOfFuel
  | S fuel =>
      if i <? maxsize then
        let '(k, fs, ms) :=
          if 0 <? i then
            let sum := f64_add (f64_add (f (k + 1)%nat i) (f (k + 2)%nat i)) (f (k + 3)%nat i) in
            ((k + 4)%nat, fs ++ [powers (f64_of_Z i) ord], ms ++ [f64_div sum (f64_of_Z 3)])
          else (k, fs, ms) in
        if maxsize / 100 =? 0 then Undef DivByZero
        else generate_loop fuel f maxsize ord (u64 (i + maxsize / 100)) k fs ms
      else Ret (fs, ms)
  end.

Definition GenerateTestData (fuel : nat) (M : PerfModel) (maxsize : Z) (f : nat → Z → float64)
    : outcome PerfModel :=
  let tmp := replicate (Z.to_nat (order M + 1)) (f64_of_Z 1) in
  '(fs, ms) ← generate_loop fuel f maxsize (order M) 0 0
                (features M ++ [tmp]) (milliseconds M ++ [f64_of_Z 1]);
  Ret (set_data_points M fs ms).

(** The measured function takes an [int]. *)
Definition CreateModel (fuel : nat) (M : PerfModel) (maxsize : Z) (f : nat → Z → float64)
    : outcome PerfModel :=
  M ← GenerateTestData fuel M maxsize (λ k i, f k (i32 i));
  LinearRegression M.

Definition QueryModel (M : PerfModel) (input : float64) : outcome float64 :=
  let input_data := powers input (order M) in
  for_int (numberOfFeatures M) (λ i projectedCost,
    w ← vec_at (weights M) i;
    x ← vec_at input_data i;
    Ret (f64_add projectedCost (f64_mul w x))) f_zero.

(** ** serialize

    What the archive holds, and loading it into a model. *)
Record Archive := MkArchive {
  ar_alpha : float64;
  ar_iterations : Z;
  ar_numberOfFeatures : Z;
  ar_order : Z;
  ar_features : list (list float64);
  ar_weights : list float64;
  ar_milliseconds : list float64
}.

Definition save (M : PerfModel) : outcome Archive :=
  match mimp M with
  | None => Throw "Invalid Implementation when attempting to serialize PerfModel"
  | Some _ => Ret (MkArchive (alpha M) (iterations M) (numberOfFeatures M) (order M)
                     (features M) (weights M) (milliseconds M))
  end.

Definition load (a : Archive) (M : PerfModel) : outcome PerfModel :=
  match mimp M with
  | None => Throw "Invalid Implementation when attempting to serialize PerfModel"
  | Some _ => Ret (MkModel (ar_alpha a) (ar_iterations a) (ar_numberOfFeatures a)
                     (numberOfDataPoints M) (ar_order a) (ar_features a) (ar_weights a)
                     (ar_milliseconds a) (mimp M))
  end.

(** ** Task.cpp *)

Record Task := MkTask {
  tname : string;
  PerformanceModels : list (option PerfModel)
}.

Definition AddPerfModel (t : Task) (p : option PerfModel) : Task :=
  MkTask (tname t) (PerformanceModels t ++ [p]).

(** The prediction for one model; the waiting time counts for the shared DFEs. *)
Definition predict (M : PerfModel) (dataSize wt : Z) : outcome float64 :=
  t ← QueryModel M (f64_of_Z dataSize);
  imp ← deref (mimp M);
  Ret (if bool_decide (itype imp = "SHARED_DFE"%string) then f64_add t (f64_of_Z wt) else t).

(** The loop over the models: [values] and the last [predicted_time]. *)
Fixpoint query_models (ps : list (option PerfModel)) (dataSize wt : Z) (predicted_time : float64)
    : outcome (list float64 * float64) :=
  match ps with
  | [] => Ret ([], predicted_time)
  | None :: ps => query_models ps dataSize wt predicted_time
  | Some M :: ps =>
      predicted_time ← predict M dataSize wt;
      '(values, last) ← query_models ps dataSize wt predicted_time;
      Ret (predicted_time :: values, last)
  end.

Definition SelectImplementation (t : Task) (dataSize wt : Z)
    : outcome (Implementation * float64) :=
  '(values, predicted_time) ← query_models (PerformanceModels t) dataSize wt (f64_of_Z (-1));
  index ← min_element (λ x y, Ret (SFltb x y)) (length values) values;
  head ← vec_at (PerformanceModels t) index;
  M ← deref head;
  imp ← deref (mimp M);
  Ret (imp, predicted_time).

(** ** Executor.cpp

    Tasks are shared by pointer: the list holds the pointers, [theap] the
    objects they point to. *)
Record Executor := MkExecutor {
  AvailableRes : list Resource;
  Tasks : list nat;
  theap : gmap nat Task;
  eavg_wt : Z;  (** size_t *)
  cid : string
}.

Definition new_Executor (clientId : string) : Executor := MkExecutor [] [] ∅ 0 clientId.

Definition AddResource (e : Executor) (r : Resource) : Executor :=
  MkExecutor (AvailableRes e ++ [r]) (Tasks e) (theap e) (eavg_wt e) (cid e).

Definition AddTask (e : Executor) (p : nat) : Executor :=
  MkExecutor (AvailableRes e) (Tasks e ++ [p]) (theap e) (eavg_wt e) (cid e).

Definition SetTasks (e : Executor) (ps : list nat) : Executor :=
  MkExecutor (AvailableRes e) ps (theap e) (eavg_wt e) (cid e).

(** Declared to change the executor, but without a body. *)
Definition SetResources (e : Executor) (_ : list Resource) : Executor := e.
Definition DelResource (e : Executor) (_ : Resource) : Executor := e.
Definition CreatePerfomanceModels (e : Executor) : Executor := e.

(** [Tasks.remove(tsk); delete(tsk)] *)
Definition DelTask (e : Executor) (p : nat) : Executor :=
  MkExecutor (AvailableRes e) (List.filter (λ q, negb (p =? q)%nat) (Tasks e))
    (delete p (theap e)) (eavg_wt e) (cid e).

(** The first task of the name; every pointer compared is dereferenced. *)
Fixpoint find_task (heap : gmap nat Task) (name : string) (ps : list nat)
    : outcome (option nat) :=
  match ps with
  | [] => Ret None
  | p :: ps =>
      t ← deref (heap !! p);
      if bool_decide (name = tname t) then Ret (Some p) else find_task heap name ps
  end.

Definition FindTask (e : Executor) (name : string) : outcome (option nat) :=
  find_task (theap e) name (Tasks e).

Definition FindResource (e : Executor) (type : string) : option Resource :=
  i ← find_if (λ r, bool_decide (type = rtype r)) (AvailableRes e); AvailableRes e !! i.

(** [AddImp(tsk, p)] for a pointer to a task. *)
Definition AddImp (e : Executor) (tsk : option nat) (p : option PerfModel) : outcome Executor :=
  q ← deref tsk;
  t ← deref (theap e !! q);
  Ret (MkExecutor (AvailableRes e) (Tasks e) (<[q := AddPerfModel t p]> (theap e))
         (eavg_wt e) (cid e)).

Definition set_eavg_wt (e : Executor) (wt : Z) : Executor :=
  MkExecutor (AvailableRes e) (Tasks e) (theap e) wt (cid e).

Context (network : Z → string → option Conn).

(** The reading loop of [handle_request], which prints what it reads. *)
Fixpoint await_printed (fuel : nat) (n : nat) (stream : list Z) : outcome (msg_t * list Z) :=
  match fuel with
  | O => OutOfFuel
  | S fuel =>
      '(buff, stream) ← client_read stream n;
      rsp ← msg_of_bytes buff;
      _ ← print rsp;
      if (msgId rsp =? MSG_RESULT)%Z then Ret (rsp, stream)
      else await_printed fuel n stream
  end.

(** Sends [m] to a server and waits with the loop [await] for its result: the
    result, and the client with everything that was sent. *)
Definition forward_with (await : nat → nat → list Z → outcome (msg_t * list Z))
    (port : Z) (host : string) (m : msg_t) (sizeBytes : Z) : outcome (msg_t * Client) :=
  match calloc (u64 sizeBytes) with
  | None => Undef NullDeref
  | Some _ =>
      let c := start network (new_Client port host) in
      c ← send c m;
      s ← with_socket c;
      '(rsp, rest) ← await (S (length (incoming s))) (Z.to_nat (u64 sizeBytes)) (incoming s);
      c ← client_stop (MkClient (cport c) (cname c) (Connected (MkConn rest (outgoing s))));
      Ret (rsp, c)
  end.

Definition forward := forward_with await_result.
Definition proxy := forward_with await_printed.

(** The buffer for a result of as many [int]s as the request has. *)
Definition result_size (m : msg_t) : Z := i32 (u64 (sizeof_msg + sizeof_int * dataSize m)).

(** Resource.cpp *)
Definition dispatch (r : Resource) (m : msg_t) : outcome (msg_t * Client) :=
  let m := if bool_decide (rtype r = "SHARED_DFE"%string) || bool_decide (rtype r = "DFE"%string)
           then set_resourceType m DFE else m in
  let m := if bool_decide (rtype r = "CPU"%string) then set_resourceType m CPU else m in
  forward (port r) (url r) m (result_size m).

Definition runImp (e : Executor) (imp : Implementation) (m : msg_t) : outcome (msg_t * Client) :=
  r ← deref (FindResource e (itype imp));
  dispatch r m.

(** The handler: the reply ([None]: NULL), the executor after it and the
    connection it used, if any. *)
Definition executor_handle (e : Executor) (request : msg_t)
    : outcome (option msg_t * Executor * option Client) :=
  id ← atoi (cid e);
  if negb (clientId request =? id) then Ret (Some msg_ack, e, None)
  else if msgId request =? MSG_CONTROL then Ret (None, e, None)
  else if msgId request =? MSG_DONE then Ret (Some msg_ack, e, None)
  else if msgId request =? MSG_TERM then
    c ← send (start network (new_Client 8121 "localhost")) request;
    Ret (Some msg_done, e, Some c)
  else if (msgId request =? MSG_ACK) || (msgId request =? MSG_MOVING_AVG) then
    p ← FindTask e "MOVING_AVERAGE";
    q ← deref p;
    t ← deref (theap e !! q);
    '(imp, time) ← SelectImplementation t (dataSize request) (eavg_wt e);
    runtime ← int_of_float time;
    '(rsp, c) ← runImp e imp (set_predictedTimeMillis request runtime);
    Ret (Some rsp, set_eavg_wt e (u64 (avg_wt rsp)), Some c)
  else
    '(rsp, c) ← proxy 8121 "localhost" (set_predictedTimeMillis request 1)
                  (result_size request);
    Ret (Some rsp, e, Some c).

End pow.

(** ** main.cxx of the executor

    The two resources, the task and its two implementations; [dfe] and [cpu]
    are the models after loading. *)
Definition mav_DFE : Implementation :=
  MkImp "MAV" "mavDFE" "MOVING_AVERAGE" "" "" "SHARED_DFE".
Definition mav_CPU : Implementation := MkImp "MAV" "mavCPU" "MOVING_AVERAGE" "" "" "CPU".

Definition main_Executor (clientId : string) (scheduler_port : Z) (hostname : string)
    (dfe cpu : PerfModel) : outcome Executor :=
  let e := new_Executor clientId in
  let e := AddResource e (MkResource 1 scheduler_port hostname "SHARED_DFE") in
  let e := AddResource e (MkResource 2 8122 "localhost" "CPU") in
  let e := MkExecutor (AvailableRes e) (Tasks e) {[ 0%nat := MkTask "MOVING_AVERAGE" [] ]}
             (eavg_wt e) (cid e) in
  let e := AddTask e 0 in
  p ← FindTask e "MOVING_AVERAGE";
  e ← AddImp e p (Some dfe);
  p ← FindTask e "MOVING_AVERAGE";
  AddImp e p (Some cpu).
