(* ===== verification/ExecutorFacts.v ===== *)
(** * Correctness of the executor

    Gradient descent against its vector definition, safety of fitting and
    querying a model, minimality of the chosen implementation, and what the
    handler sends, answers and remembers. *)

From S2P Require Import Prelude CxxFloat StdAlg Message Server Client ClientFacts Job Executor.

#[local] Open Scope Z_scope.

(** ** Loops *)

(** A loop over the indices of a list that returns on each is a fold. *)
Lemma for_from_foldl {A B} (body : nat → A → outcome A) (g : A → B → A) l :
  ∀ i acc, (∀ k x a, l !! k = Some x → body (i + k)%nat a = Ret (g a x)) →
  for_from i (length l) body acc = Ret (foldl g acc l).
Proof.
  induction l as [|x l IH]; intros i acc H; [done|]. cbn [length for_from].
  pose proof (H 0%nat x acc eq_refl) as H0. rewrite Nat.add_0_r in H0. rewrite H0.
  cbn [mbind outcome_bind foldl]. apply IH. intros k y a Hk.
  replace (S i + k)%nat with (i + S k)%nat by lia. by apply H.
Qed.

Lemma for_int_foldl {A B} n (body : nat → A → outcome A) (g : A → B → A) l acc :
  Z.to_nat n = length l → (∀ k x a, l !! k = Some x → body k a = Ret (g a x)) →
  for_int n body acc = Ret (foldl g acc l).
Proof. intros Hn H. unfold for_int. rewrite Hn. by apply for_from_foldl. Qed.

(** A loop whose body ignores the index iterates a function. *)
Lemma for_from_iter {A} (P : A → Prop) (body : nat → A → outcome A) (g : A → A) n :
  (∀ k a, P a → body k a = Ret (g a)) → (∀ a, P a → P (g a)) →
  ∀ i acc, P acc → for_from i n body acc = Ret (Nat.iter n g acc).
Proof.
  intros Hb Hg. induction n as [|n IH]; intros i acc Ha; [done|].
  cbn [for_from]. rewrite Hb by done. cbn [mbind outcome_bind].
  rewrite IH by auto. by rewrite Nat.iter_succ_r.
Qed.

Lemma foldl_snoc {A B} (h : A → B) l acc :
  foldl (λ acc x, acc ++ [h x]) acc l = acc ++ (h <$> l).
Proof.
  revert acc. induction l as [|x l IH]; intros acc; cbn; [by rewrite app_nil_r|].
  rewrite IH. by rewrite <-app_assoc.
Qed.

Lemma vec_at_Some {A} (v : list A) i x : v !! i = Some x → vec_at v i = Ret x.
Proof. unfold vec_at. by intros ->. Qed.

(** ** Gradient descent, as vectors *)

Definition dot (ws xs : list float64) : float64 :=
  foldl (λ acc p, f64_add acc (f64_mul (fst p) (snd p))) f_zero (zip ws xs).

(** The derivative of the squared error with respect to the weight [f]. *)
Definition gradient (X : list (list float64)) (Y : list float64) (ws : list float64) (f : nat)
    : float64 :=
  foldl (λ acc p, f64_add acc (f64_mul (f64_sub (dot ws (fst p)) (snd p)) (nth f (fst p) f_zero)))
    f_zero (zip X Y).

Definition gd_step (a : float64) (X : list (list float64)) (Y ws : list float64) : list float64 :=
  zip_with (λ f w, f64_sub w (f64_mul a (gradient X Y ws f))) (seq 0 (length ws)) ws.

(** A model with consistent data: one row and one time per data point, rows at
    least as long as the number of features. *)
Record data_wf (M : PerfModel) : Prop := {
  dw_points : length (features M) = length (milliseconds M);
  dw_bound : Z.of_nat (length (milliseconds M)) ≤ INT_MAX;
  dw_rows : Forall (λ row, numberOfFeatures M ≤ Z.of_nat (length row)) (features M);
  dw_feat : 0 ≤ numberOfFeatures M
}.

Lemma length_gd_step a X Y ws : length (gd_step a X Y ws) = length ws.
Proof. unfold gd_step. rewrite length_zip_with, length_seq. lia. Qed.

Section descent.
Context (M : PerfModel) (HM : data_wf M).
Let F : nat := Z.to_nat (numberOfFeatures M).

Lemma hypothesis_dot ws m row :
  length ws = F → features M !! m = Some row → hypothesis M ws m = Ret (dot ws row).
Proof.
  intros Hw Hr. pose proof (dw_feat M HM).
  assert (Hlen : (F ≤ length row)%nat).
  { pose proof (proj1 (Forall_lookup _ _) (dw_rows M HM) m row Hr). simpl in *. lia. }
  unfold hypothesis. apply for_int_foldl.
  - rewrite length_zip_with. lia.
  - intros k [w x] H0 Hk. apply lookup_zip_with_Some in Hk as (w'&x'&[= -> ->]&Hk1&Hk2).
    rewrite (vec_at_Some ws k w') by done. cbn [mbind outcome_bind].
    rewrite (vec_at_Some (features M) m row) by done. cbn [mbind outcome_bind].
    by rewrite (vec_at_Some row k x').
Qed.

Lemma costDerivative_gradient ws f :
  length ws = F → (f < F)%nat →
  costDerivative M (Z.of_nat (length (milliseconds M))) ws f =
    Ret (gradient (features M) (milliseconds M) ws f).
Proof.
  intros Hw Hf. unfold costDerivative. apply for_int_foldl.
  - rewrite length_zip_with, (dw_points M HM). lia.
  - intros k [row y] acc Hk. apply lookup_zip_with_Some in Hk as (row'&y'&[= -> ->]&Hk1&Hk2).
    rewrite (vec_at_Some _ k y') by done. cbn [mbind outcome_bind].
    rewrite (hypothesis_dot ws k row') by done. cbn [mbind outcome_bind].
    rewrite (vec_at_Some _ k row') by done. cbn [mbind outcome_bind fst snd].
    pose proof (proj1 (Forall_lookup _ _) (dw_rows M HM) k row' Hk1) as Hl. simpl in Hl.
    destruct (lookup_lt_is_Some_2 row' f) as [x Hx]; [lia|].
    rewrite (vec_at_Some row' f x) by done. by rewrite (nth_lookup_Some _ _ _ _ Hx).
Qed.

Lemma descent_step_gd ws :
  length ws = F →
  descent_step M (Z.of_nat (length (milliseconds M))) ws =
    Ret (gd_step (alpha M) (features M) (milliseconds M) ws).
Proof.
  intros Hw. unfold descent_step.
  rewrite (for_int_foldl _ _ (λ acc p, acc ++ [f64_sub (snd p)
    (f64_mul (alpha M) (gradient (features M) (milliseconds M) ws (fst p)))])
    (zip (seq 0 (length ws)) ws)).
  - rewrite foldl_snoc, app_nil_l. unfold gd_step. f_equal.
    rewrite (zip_with_zip (λ f w, f64_sub w _)). apply list_fmap_ext. by intros ? [? ?].
  - rewrite length_zip_with, length_seq. lia.
  - intros k [f w] acc Hk. apply lookup_zip_with_Some in Hk as (f'&w'&[= -> ->]&Hk1&Hk2).
    apply lookup_seq in Hk1 as [-> Hk1]. simpl.
    rewrite (vec_at_Some ws k w') by done. cbn [mbind outcome_bind].
    by rewrite costDerivative_gradient by lia.
Qed.
End descent.

(** ** Fitting and querying *)

Lemma Nat_iter_length a X Y n ws : length (Nat.iter n (gd_step a X Y) ws) = length ws.
Proof. induction n as [|n IH]; [done|]. rewrite Nat.iter_succ. by rewrite length_gd_step. Qed.

Lemma LinearRegression_ret M :
  data_wf M → 10 ≤ iterations M →
  LinearRegression M = Ret (set_fit M (Z.of_nat (length (milliseconds M)))
    (Nat.iter (Z.to_nat (iterations M)) (gd_step (alpha M) (features M) (milliseconds M))
       (replicate (Z.to_nat (numberOfFeatures M)) f_zero))).
Proof.
  intros HM Hit. unfold LinearRegression, for_int.
  pose proof (dw_bound M HM). unfold INT_MAX in *. rewrite swrap_small by lia.
  rewrite (for_from_iter (λ ws, length ws = Z.to_nat (numberOfFeatures M)) _
    (gd_step (alpha M) (features M) (milliseconds M))); [done| | |by rewrite length_replicate].
  - intros _ ws Hw. rewrite (proj2 (Z.eqb_neq _ _)).
    + by apply descent_step_gd.
    + pose proof (Z.div_le_lower_bound (iterations M) 10 1). lia.
  - intros ws Hw. by rewrite length_gd_step.
Qed.

Section query.
Context (pow : float64 → float64 → float64).

Lemma length_powers x ord : length (powers pow x ord) = Z.to_nat (ord + 1).
Proof. unfold powers. by rewrite length_fmap, length_seq. Qed.

Lemma QueryModel_dot M x :
  Z.of_nat (length (weights M)) = numberOfFeatures M → numberOfFeatures M ≤ order M + 1 →
  QueryModel pow M x = Ret (dot (weights M) (powers pow x (order M))).
Proof.
  intros Hw Ho. unfold QueryModel. apply for_int_foldl.
  - rewrite length_zip_with, length_powers. lia.
  - intros k [w y] acc Hk. apply lookup_zip_with_Some in Hk as (w'&y'&[= -> ->]&Hk1&Hk2).
    rewrite (vec_at_Some (weights M) k w') by done. cbn [mbind outcome_bind].
    by rewrite (vec_at_Some (powers pow x (order M)) k y').
Qed.

(** The data points [GenerateTestData] adds: the loop needs at most 200 rounds. *)
Lemma generate_loop_spec f maxsize ord fuel : ∀ i k fs ms,
  100 ≤ maxsize → 2 * maxsize < 2 ^ 64 → 0 ≤ i →
  maxsize - i ≤ (maxsize / 100) * (Z.of_nat fuel - 1) →
  length fs = length ms → Forall (λ row, length row = Z.to_nat (ord + 1)) fs → (1 ≤ fuel)%nat →
  ∃ fs' ms', generate_loop pow fuel f maxsize ord i k fs ms = Ret (fs', ms') ∧
    length fs' = length ms' ∧ (length ms' < length ms + fuel)%nat ∧
    Forall (λ row, length row = Z.to_nat (ord + 1)) fs'.
Proof.
  induction fuel as [|fuel IH]; intros i k fs ms Hmax H64 Hi Hfuel Hlen Hrows Hf; [lia|].
  assert (1 ≤ maxsize / 100) by (apply Z.div_le_lower_bound; lia).
  assert (maxsize / 100 ≤ maxsize) by (apply Z.div_le_upper_bound; lia).
  cbn [generate_loop]. destruct (Z.ltb_spec i maxsize) as [Hlt|Hge].
  2:{ exists fs, ms. split_and!; done || lia. }
  assert (1 ≤ fuel)%nat by nia.
  rewrite (proj2 (Z.eqb_neq (maxsize / 100) 0)) by lia. rewrite (wrap_small 64) by lia.
  destruct (0 <? i); cbv zeta beta iota.
  - destruct (IH (i + maxsize / 100) (k + 4)%nat (fs ++ [powers pow (f64_of_Z i) ord])
      (ms ++ [f64_div (f64_add (f64_add (f (k + 1)%nat i) (f (k + 2)%nat i)) (f (k + 3)%nat i))
                (f64_of_Z 3)])) as (fs'&ms'&Hg&Hl&Hb&Hr); try done; try lia.
    + rewrite !length_app. simpl. lia.
    + apply Forall_app. split; [done|]. apply Forall_singleton, length_powers.
    + exists fs', ms'. rewrite length_app in Hb. simpl in Hb. split_and!; done || lia.
  - destruct (IH (i + maxsize / 100) k fs ms) as (fs'&ms'&Hg&Hl&Hb&Hr); try done; try lia.
    exists fs', ms'. split_and!; done || lia.
Qed.

End query.

(** ** The smallest prediction *)

(** [best] is the first index of the smallest value of [l]. *)
Definition first_min (l : list float64) (best : nat) (bx : float64) : Prop :=
  l !! best = Some bx ∧
  ∀ j w, l !! j = Some w → SFleb bx w = true ∧ ((j < best)%nat → SFltb bx w = true).

Lemma SFltb_leb x y : is_nan x = false → is_nan y = false → SFltb x y = true → SFleb x y = true.
Proof.
  intros Hx Hy H. rewrite SFltb_negb_SFleb in H by done.
  destruct (SFleb_total x y Hx Hy) as [?|E]; [done|]. by rewrite E in H.
Qed.

Lemma SFltb_leb_trans x y z :
  is_nan x = false → is_nan y = false → is_nan z = false →
  SFltb x y = true → SFleb y z = true → SFltb x z = true.
Proof.
  intros Hx Hy Hz Hxy Hyz. rewrite SFltb_negb_SFleb in * by done.
  destruct (SFleb z x) eqn:E; [|done].
  by rewrite (SFleb_trans y z x Hyz E) in Hxy.
Qed.

Lemma first_min_snoc l best bx x :
  first_min l best bx → Forall (λ y, is_nan y = false) (l ++ [x]) →
  if SFltb x bx then first_min (l ++ [x]) (length l) x else first_min (l ++ [x]) best bx.
Proof.
  intros [Hb Hmin] Hn. apply Forall_app in Hn as [Hn [Hx _]%Forall_cons].
  pose proof (proj1 (Forall_lookup _ _) Hn best bx Hb) as Hbn. simpl in Hbn.
  destruct (SFltb x bx) eqn:E; split.
  - rewrite lookup_app_r, Nat.sub_diag by lia. done.
  - intros j w Hj. destruct (decide (j < length l)%nat) as [Hlt|Hge].
    + rewrite lookup_app_l in Hj by done. destruct (Hmin j w Hj) as [Hle _].
      pose proof (proj1 (Forall_lookup _ _) Hn j w Hj) as Hwn. simpl in Hwn.
      pose proof (SFltb_leb_trans _ _ _ Hx Hbn Hwn E Hle). split; [by apply SFltb_leb|done].
    + apply lookup_app_Some in Hj as [Hj|[? Hj]]; [apply lookup_lt_Some in Hj; lia|].
      apply list_lookup_singleton_Some in Hj as [? <-]. split; [by apply SFleb_refl|lia].
  - by apply lookup_app_l_Some.
  - intros j w [Hj|[? Hj]]%lookup_app_Some; [auto|].
    apply list_lookup_singleton_Some in Hj as [? <-]. apply lookup_lt_Some in Hb.
    split; [|lia]. rewrite SFltb_negb_SFleb in E by done. by apply negb_false_iff in E.
Qed.

Lemma min_element_from_first l : ∀ pre best bx,
  first_min pre best bx → Forall (λ y, is_nan y = false) (pre ++ l) →
  ∃ k v, min_element_from (λ x y, Ret (SFltb x y)) best bx (length pre) l = Ret k ∧
    first_min (pre ++ l) k v.
Proof.
  induction l as [|x l IH]; intros pre best bx Hm Hn.
  - exists best, bx. by rewrite app_nil_r.
  - rewrite cons_middle, app_assoc in Hn |- *.
    pose proof (first_min_snoc pre best bx x Hm ltac:(by apply Forall_app in Hn as [? _])) as Hs.
    cbn [min_element_from mbind outcome_bind].
    replace (S (length pre)) with (length (pre ++ [x])) by (rewrite length_app; simpl; lia).
    destruct (SFltb x bx); eauto.
Qed.

Lemma min_element_first l :
  l ≠ [] → Forall (λ y, is_nan y = false) l →
  ∃ k v, min_element (λ x y, Ret (SFltb x y)) (length l) l = Ret k ∧ first_min l k v.
Proof.
  intros Hne Hn. destruct l as [|x l]; [done|]. unfold min_element. rewrite firstn_all.
  apply (min_element_from_first l [x] 0 x); [|done]. split; [done|].
  intros j w [-> <-]%list_lookup_singleton_Some. apply Forall_cons in Hn as [Hx _].
  split; [by apply SFleb_refl|lia].
Qed.

Section choose.
Context (pow : float64 → float64 → float64).

(** Model [p] predicts [v]. *)
Definition predicts (dataSize wt : Z) (p : option PerfModel) (v : float64) : Prop :=
  ∃ M imp, p = Some M ∧ mimp M = Some imp ∧ predict pow M dataSize wt = Ret v ∧ is_nan v = false.

Lemma query_models_ret dataSize wt ps values d :
  Forall2 (predicts dataSize wt) ps values →
  query_models pow ps dataSize wt d = Ret (values, List.last values d).
Proof.
  intros H. revert d. induction H as [|p v ps values (M&imp&->&_&Hp&_) H IH]; intros d; [done|].
  cbn [query_models]. rewrite Hp. cbn [mbind outcome_bind]. rewrite IH. cbn [mbind outcome_bind].
  f_equal. f_equal. destruct values as [|v' values]; [done|].
  change (List.last (v :: v' :: values) d) with (List.last (v' :: values) d).
  clear. revert v'. induction values as [|u values IH]; intros v'; [done|]. apply IH.
Qed.

(** C29: the executor chooses the implementation with the smallest predicted time,
    the first of them when several tie, whenever every model of the task predicts
    a number.  The time it returns with it is the prediction of the last model,
    whichever was chosen. *)
Theorem SelectImplementation_minimal t dataSize wt values :
  Forall2 (predicts dataSize wt) (PerformanceModels t) values → values ≠ [] →
  ∃ k v M imp, SelectImplementation pow t dataSize wt = Ret (imp, List.last values f_zero) ∧
    PerformanceModels t !! k = Some (Some M) ∧ mimp M = Some imp ∧
    predict pow M dataSize wt = Ret v ∧ first_min values k v.
Proof.
  intros HF Hne. unfold SelectImplementation.
  rewrite (query_models_ret dataSize wt _ values _ HF). cbn [mbind outcome_bind].
  destruct (min_element_first values Hne) as (k&v&Hk&Hm).
  { apply Forall_forall. intros v Hv. apply list_elem_of_lookup in Hv as [i Hi].
    destruct (Forall2_lookup_r _ _ _ _ _ HF Hi) as (p&_&(M&imp&_&_&_&Hn)). done. }
  rewrite Hk. cbn [mbind outcome_bind]. pose proof Hm as [Hkv _].
  destruct (Forall2_lookup_r _ _ _ _ _ HF Hkv) as (p&Hp&(M&imp&->&Hi&Hv&_)).
  rewrite (vec_at_Some _ k (Some M)) by done. cbn [mbind outcome_bind deref].
  rewrite Hi. cbn [mbind outcome_bind deref]. exists k, v, M, imp. split_and!; try done.
  do 2 f_equal. destruct values as [|u values]; [done|].
  clear. revert u. induction values as [|u' values IH]; intros u; [done|]. apply IH.
Qed.

End choose.

(** ** Properties of models *)

Section models.
Context (pow : float64 → float64 → float64).


(** Fewer than ten iterations divide by zero for the progress output. *)
Lemma LinearRegression_few_iterations M :
  1 ≤ iterations M < 10 → LinearRegression M = Undef DivByZero.
Proof.
  intros H. unfold LinearRegression, for_int.
  replace (Z.to_nat (iterations M)) with (S (Z.to_nat (iterations M - 1))) by lia.
  cbn [for_from]. by rewrite (Z.div_small (iterations M) 10) by lia.
Qed.

(** A model read back from the archive another model was written to predicts
    the same times; but the number of data points is not in the archive, so that
    the two compare equal only if it was the same before loading. *)
Lemma load_save_query M M0 a x :
  save M = Ret a → mimp M0 ≠ None →
  ∃ M', load a M0 = Ret M' ∧ mimp M' = mimp M0 ∧ QueryModel pow M' x = QueryModel pow M x ∧
    numberOfDataPoints M' = numberOfDataPoints M0.
Proof.
  unfold save, load. intros Hs Hi. destruct (mimp M); [|done]. injection Hs as <-.
  destruct (mimp M0) eqn:E; [|done]. eexists. by split_and!.
Qed.

End models.

(** ** The handler *)

Section handler.
Context (pow : float64 → float64 → float64) (network : Z → string → option Conn).

Lemma FindResource_type e type r : FindResource e type = Some r → rtype r = type.
Proof.
  unfold FindResource. destruct (find_if _ _) as [i|] eqn:E; [|done]. simpl. intros Hr.
  apply find_if_Some in E as (x&Hx&Hp&_). rewrite Hr in Hx. injection Hx as ->.
  by apply bool_decide_eq_true in Hp.
Qed.

(** Forwarding a message, whatever follows it in memory, to a server that answers
    with a result of the expected size. *)
Lemma forward_ret port host m rest rsp size :
  network port host = Some (MkConn (msg_bytes rsp) []) → msg_sent rsp → msgId rsp = MSG_RESULT →
  size = totalBytes rsp → totalBytes m = Z.of_nat (length (msg_bytes m)) →
  forward network port host (set_data m (data m ++ rest)) size = Ret (rsp, MkClient port host
    (Connected (MkConn [] (msg_bytes m ++ msg_bytes msg_done)))).
Proof.
  intros Hnet (Hty&Ht&Hmax) Hid -> Hm. unfold forward, forward_with, INT_MAX in *.
  pose proof (length_msg_bytes rsp). rewrite (wrap_small 64) by lia. unfold calloc.
  rewrite (proj2 (Z.leb_gt _ _)) by lia. unfold start, new_Client. cbn [cport cname].
  rewrite Hnet, (send_buffered _ (MkConn (msg_bytes rsp) [])) by done.
  cbn [mbind outcome_bind with_socket socket incoming outgoing cport cname app].
  rewrite Ht, Nat2Z.id, await_result_now by done. cbn [mbind outcome_bind]. unfold client_stop.
  by rewrite (send_connected _ (MkConn [] (msg_bytes m))) by done.
Qed.

(** The resource type [Resource::dispatch] writes into the request. *)
Definition dispatch_type (type : string) (old : Z) : Z :=
  if bool_decide (type = "CPU"%string) then CPU
  else if bool_decide (type = "SHARED_DFE"%string) || bool_decide (type = "DFE"%string)
  then DFE else old.

(** What the executor sends for a moving average. *)
Definition dispatched (request : msg_t) (ms : Z) (type : string) : msg_t :=
  set_resourceType (set_predictedTimeMillis request ms)
    (dispatch_type type (resourceType request)).

Lemma executor_handle_ret e request rest q t imp time ms r rsp :
  atoi (cid e) = Ret (clientId request) → msgId request = MSG_MOVING_AVG →
  FindTask e "MOVING_AVERAGE" = Ret (Some q) → theap e !! q = Some t →
  SelectImplementation pow t (dataSize request) (eavg_wt e) = Ret (imp, time) →
  int_of_float time = Ret ms → FindResource e (itype imp) = Some r →
  network (port r) (url r) = Some (MkConn (msg_bytes rsp) []) →
  msg_sent request → msg_sent rsp → msgId rsp = MSG_RESULT →
  totalBytes rsp = sizeof_msg + sizeof_int * dataSize request →
  executor_handle pow network e (set_data request (data request ++ rest)) =
    Ret (Some rsp, set_eavg_wt e (u64 (avg_wt rsp)), Some (MkClient (port r) (url r)
      (Connected (MkConn [] (msg_bytes (dispatched request ms (itype imp)) ++
         msg_bytes msg_done))))).
Proof.
  intros Hcid Hid Ht Hq Hsel Hms Hr Hnet Hreq Hrsp Hres Hsize.
  pose proof (FindResource_type _ _ _ Hr) as Hty. pose proof Hrsp as (_&Htot&Hmax).
  unfold INT_MAX in *. unfold executor_handle. rewrite Hcid. cbn [mbind outcome_bind].
  change (clientId (set_data ?m _)) with (clientId m).
  change (msgId (set_data ?m _)) with (msgId m).
  change (dataSize (set_data ?m _)) with (dataSize m).
  rewrite Z.eqb_refl, Hid. cbn [negb]. cbv iota.
  change (MSG_MOVING_AVG =? MSG_CONTROL) with false. change (MSG_MOVING_AVG =? MSG_DONE) with false.
  change (MSG_MOVING_AVG =? MSG_TERM) with false.
  change ((MSG_MOVING_AVG =? MSG_ACK) || (MSG_MOVING_AVG =? MSG_MOVING_AVG)) with true. cbv iota.
  rewrite Ht. cbn [mbind outcome_bind deref]. rewrite Hq. cbn [mbind outcome_bind deref].
  rewrite Hsel. cbn [mbind outcome_bind]. rewrite Hms. cbn [mbind outcome_bind].
  unfold runImp. rewrite Hr. cbn [mbind outcome_bind deref]. unfold dispatch. rewrite Hty.
  assert (Hm : ∀ m : msg_t, m = set_data (dispatched request ms (itype imp))
      (data (dispatched request ms (itype imp)) ++ rest) →
    forward network (port r) (url r) m (result_size m) = Ret (rsp, MkClient (port r) (url r)
      (Connected (MkConn [] (msg_bytes (dispatched request ms (itype imp)) ++
        msg_bytes msg_done))))).
  { intros m ->. apply forward_ret; try done.
    - unfold result_size. change (dataSize (set_data _ _)) with (dataSize request).
      rewrite <-Hsize, wrap_small, swrap_small; pose proof (length_msg_bytes rsp); lia.
    - destruct Hreq as (_&Hrt&_). by rewrite length_msg_bytes in *. }
  rewrite Hm; [done|]. unfold dispatched, dispatch_type. by repeat case_bool_decide.
Qed.

(** A moving-average request through the executor.  Once the task is found and
    an implementation chosen, the handler sends to the resource of that
    implementation's type the request with the predicted time and the resource
    type filled in and nothing else changed, closes the connection, answers with
    the result, and keeps the waiting time of the result for the next choice. *)
Theorem executor_forwards e request q t imp time ms r rsp :
  atoi (cid e) = Ret (clientId request) → msgId request = MSG_MOVING_AVG →
  FindTask e "MOVING_AVERAGE" = Ret (Some q) → theap e !! q = Some t →
  SelectImplementation pow t (dataSize request) (eavg_wt e) = Ret (imp, time) →
  int_of_float time = Ret ms → FindResource e (itype imp) = Some r →
  network (port r) (url r) = Some (MkConn (msg_bytes rsp) []) →
  msg_sent request → msg_sent rsp → msgId rsp = MSG_RESULT →
  totalBytes rsp = sizeof_msg + sizeof_int * dataSize request →
  executor_handle pow network e request =
    Ret (Some rsp, set_eavg_wt e (u64 (avg_wt rsp)), Some (MkClient (port r) (url r)
      (Connected (MkConn []
        (msg_bytes (dispatched request ms (itype imp)) ++ msg_bytes msg_done))))).
Proof.
  intros. rewrite <-(set_data_app_nil request) at 1. by eapply executor_handle_ret.
Qed.

Lemma executor_control e m :
  atoi (cid e) = Ret (clientId m) → msgId m = MSG_CONTROL →
  executor_handle pow network e m = Ret (None, e, None).
Proof.
  intros Hcid Hid. unfold executor_handle. rewrite Hcid. cbn [mbind outcome_bind].
  by rewrite Z.eqb_refl, Hid.
Qed.

(** A control message stops a connection of the executor for good: its handler
    has no reply to it, so that the loop of the connection neither answers nor
    reads, and handles the same message again for any amount of fuel. *)
Theorem executor_control_never_returns e m buf ps fuel :
  atoi (cid e) = Ret (clientId m) → msgId m = MSG_CONTROL → msg_sent m →
  (length (msg_bytes m) ≤ length buf)%nat →
  connection_start (λ r, '(reply, _, _) ← executor_handle pow network e r; Ret reply) fuel buf
    (MkSocket (msg_bytes m :: ps) [] true) = OutOfFuel.
Proof.
  intros Hcid Hid Hs Hb. unfold connection_start, handle_read. rewrite read_some_fits by done.
  unfold overlay. set (x := drop _ buf). pose proof Hs as (Hty&Ht&_).
  assert (Hloop : ∀ fuel, handle_read_loop (λ r, '(reply, _, _) ← executor_handle pow network e r;
      Ret reply) fuel (msg_bytes m ++ x) (Z.of_nat (length (msg_bytes m)))
      (MkSocket ps [] true) = OutOfFuel).
  { clear fuel. induction fuel as [|fuel IH]; [done|]. cbn [handle_read_loop].
    rewrite full_request_whole by (done || lia). cbn [mbind outcome_bind].
    rewrite (executor_control e (set_data m (data m ++ x))) by done. cbn [mbind outcome_bind].
    rewrite msg_of_bytes_app by done. cbn [mbind outcome_bind].
    replace (last_request (set_data m (data m ++ x))) with false
      by (unfold last_request; cbn [set_data msgId]; by rewrite Hid).
    exact IH. }
  by rewrite Hloop.
Qed.

End handler.

(** ** Witnesses *)

(** A power function for exponents 0 and 1. *)
Definition linear_pow (x y : float64) : float64 := if SFeqb y f_zero then f64_of_Z 1 else x.

(** A loaded model with the given constant and slope. *)
Definition line_model (imp : Implementation) (c s : Z) : PerfModel :=
  MkModel (f64_of_Z 1) 100 2 0 1 [] [f64_of_Z c; f64_of_Z s] [] (Some imp).

Definition sample_task : Task :=
  MkTask "MOVING_AVERAGE" [Some (line_model mav_DFE 5 1); Some (line_model mav_CPU 2 3)].

(** The executor of main.cxx with two such models. *)
Definition sample_executor : Executor :=
  match main_Executor "1" 8121 "localhost" (line_model mav_DFE 5 1) (line_model mav_CPU 2 3) with
  | Ret e => e
  | _ => new_Executor ""
  end.

(** For 6 elements the shared DFE is predicted to take 11 ms and the CPU 20. *)
Lemma SelectImplementation_minimal_witness :
  ∃ k v M imp,
    SelectImplementation linear_pow sample_task 6 0 = Ret (imp, f64_of_Z 20) ∧
    PerformanceModels sample_task !! k = Some (Some M) ∧ mimp M = Some imp ∧
    predict linear_pow M 6 0 = Ret v ∧ first_min [f64_of_Z 11; f64_of_Z 20] k v.
Proof.
  apply (SelectImplementation_minimal linear_pow sample_task 6 0 [f64_of_Z 11; f64_of_Z 20]).
  - repeat constructor; do 2 eexists; (split; [reflexivity|]); (split; [reflexivity|]);
      vm_compute; done.
  - done.
Defined.

Definition fresh_model : PerfModel :=
  new_PerfModel (Some mav_CPU) (f64_div (f64_of_Z 1) (f64_of_Z 1000)) 10 2 1 0.


Definition sample_request : msg_t :=
  Msg MSG_MOVING_AVG 1 0 0 0 0 0 0 24 6 1 101 32 (replicate 32 1).
Definition sample_result : msg_t :=
  Msg MSG_RESULT 0 0 9 0 0 0 0 0 6 0 93 24 (replicate 24 2).

Lemma sample_msgs_sent : msg_sent sample_request ∧ msg_sent sample_result.
Proof.
  unfold msg_sent, msg_typed, int_range, size_range. vm_compute. split_and!; congruence.
Qed.

(** The time sent to the scheduler is the CPU's 20 ms. *)
Lemma executor_forwards_witness :
  executor_handle linear_pow (λ _ _, Some (MkConn (msg_bytes sample_result) []))
    sample_executor sample_request =
  Ret (Some sample_result, set_eavg_wt sample_executor 9, Some (MkClient 8121 "localhost"
    (Connected (MkConn [] (msg_bytes (set_resourceType (set_predictedTimeMillis sample_request 20)
      DFE) ++ msg_bytes msg_done))))).
Proof.
  apply (executor_forwards linear_pow (λ _ _, Some (MkConn (msg_bytes sample_result) []))
    sample_executor sample_request 0%nat sample_task mav_DFE (f64_of_Z 20) 20
    (MkResource 1 8121 "localhost" "SHARED_DFE") sample_result);
    try (vm_compute; reflexivity); apply sample_msgs_sent.
Defined.

Lemma executor_control_never_returns_witness :
  connection_start (λ r, '(reply, _, _) ←
      executor_handle linear_pow (λ _ _, None) sample_executor r; Ret reply) 1000
    (replicate 128 0) (MkSocket [msg_bytes (sized_msg 0); msg_bytes msg_done] [] true) = OutOfFuel.
Proof.
  apply (executor_control_never_returns linear_pow (λ _ _, None) sample_executor (sized_msg 0));
    [vm_compute; reflexivity..| |].
  - by apply sized_msg_sent.
  - vm_compute. lia.
Defined.
