(* ===== verification/ModelFiles.v ===== *)
(** * Performance models on disk: PerfModel.cpp, Executor.cpp, executor/main.cxx

    Saving a model to a file and loading it back, the comparison of models, the
    overload of [Executor::AddImp] that loads a model for an implementation, and
    the start of the executor program.  A directory is a map from file names to
    contents; the text format of boost's archives, which are not part of the
    sources, is the interface [TextArchive]. *)

From S2P Require Import Prelude CxxFloat StdAlg Message Client Job Printing Executor ExecutorFacts.

#[local] Open Scope Z_scope.

(** ** Archives *)

Definition finite (x : float64) : bool :=
  match x with S754_zero _ | S754_finite _ _ _ => true | _ => false end.

(** The numbers of a model are printed as numbers. *)
Definition archive_finite (a : Archive) : bool :=
  finite (ar_alpha a) && forallb (forallb finite) (ar_features a) &&
  forallb finite (ar_weights a) && forallb finite (ar_milliseconds a).

(** What text_oarchive writes and text_iarchive reads; [text_header] is what is
    in the file before the first member. *)
Class TextArchive := {
  Text : Type;
  text_header : Text;
  text_write : Archive → Text;
  text_read : Text → option Archive;
  text_read_write a : archive_finite a = true → text_read (text_write a) = Some a;
  text_read_header : text_read text_header = None
}.

(** The constructor without parameters; [points] is the uninitialised member. *)
Definition default_alpha : float64 := f64_div (f64_of_Z 4) (f64_of_Z (10 ^ 18)).

Definition new_PerfModel_default (imp : option Implementation) (points : Z) : PerfModel :=
  new_PerfModel imp default_alpha 100 4 3 points.

(** [operator==]: the values compare, not the bit patterns. *)
Fixpoint vec_eqb {A} (eqb : A → A → bool) (l k : list A) : bool :=
  match l, k with
  | [], [] => true
  | x :: l, y :: k => eqb x y && vec_eqb eqb l k
  | _, _ => false
  end.

Definition PerfModel_eqb (l r : PerfModel) : bool :=
  SFeqb (alpha l) (alpha r) && (iterations l =? iterations r) &&
  (numberOfFeatures l =? numberOfFeatures r) && (numberOfDataPoints l =? numberOfDataPoints r) &&
  (order l =? order r) && vec_eqb (vec_eqb SFeqb) (features l) (features r) &&
  vec_eqb SFeqb (weights l) (weights r) && vec_eqb SFeqb (milliseconds l) (milliseconds r).

(** The constant parts of a printed model. *)
Definition tab : string := String (Ascii.ascii_of_nat 9) "".
Definition tab_equals : string := tab +:+ " = ".
Definition tab_x : string := tab +:+ "(x=".
Definition close_line : string := ")" +:+ endl.

Section files.
Context `{!TextArchive}.

Abbreviation Disk := (gmap string Text).

Definition file_name (name : string) : string := name +:+ ".mdl".

(** [libName + "_" + funcName] *)
Definition imp_file (imp : Implementation) : string := libraryName imp +:+ "_" +:+ funcName imp.

(** Opening the file truncates it; the archive writes its header, then the
    model.  The directory after the call is returned in every case. *)
Definition SaveToDisk_as (M : PerfModel) (name : string) (d : Disk) : Disk * outcome unit :=
  match save M with
  | Ret a => (<[file_name name := text_write a]> d, Ret ())
  | Throw e => (<[file_name name := text_header]> d, Throw e)
  | _ => (d, Undef NullDeref)
  end.

Definition SaveToDisk (M : PerfModel) (d : Disk) : Disk * outcome unit :=
  match mimp M with
  | None => (d, Undef NullDeref)
  | Some imp => SaveToDisk_as M (imp_file imp) d
  end.

Definition LoadFromDisk_as (M : PerfModel) (name : string) (d : Disk) : outcome PerfModel :=
  match d !! file_name name with
  | None => Throw "input stream error"
  | Some t =>
      match mimp M with
      | None => load (MkArchive f_zero 0 0 0 [] [] []) M
      | Some _ =>
          match text_read t with
          | Some a => load a M
          | None => Throw "input stream error"
          end
      end
  end.

(** The overload with a model: the file of this model is read into [pm]. *)
Definition LoadFromDisk (this pm : PerfModel) (d : Disk) : outcome PerfModel :=
  imp ← deref (mimp this);
  LoadFromDisk_as pm (imp_file imp) d.

(** ** Executor::AddImp(tsk, imp)

    The model is in the task's list before it is loaded: an exception leaves it
    there as it is. *)
Definition AddImp_load (e : Executor) (tsk : option nat) (imp : option Implementation)
    (points : Z) (d : Disk) : outcome (Executor * outcome unit) :=
  let p := new_PerfModel_default imp points in
  e0 ← AddImp e tsk (Some p);
  match LoadFromDisk_as p "MAV_DFE" d with
  | Ret p' => e1 ← AddImp e tsk (Some p'); Ret (e1, Ret ())
  | Throw what => Ret (e0, Throw what)
  | Undef u => Undef u
  | Blocked => Blocked
  | OutOfFuel => OutOfFuel
  end.

(** ** main of the executor *)

(** The client id: the environment's, or the option's. *)
Definition main_clientId (env : option string) (option_ : string) : string :=
  match env with Some s => s | None => option_ end.

(** [operator<<] of a model: what is inserted into the stream, with the numbers as
    numbers (their decimal form is the library's). *)
Definition print_PerfModel (pow : float64 → float64 → float64) (pm : PerfModel)
    : outcome (list (float64 + string)) :=
  let input_data := powers pow (f64_of_Z 2) (order pm) in
  '(os, projectedCost) ← for_int (numberOfFeatures pm) (λ i '(os, projectedCost),
    w ← vec_at (weights pm) i;
    let os := os ++ [inl w] ++ (if (0 <? i)%nat then [inr ("x^" +:+ show_int (Z.of_nat i))] else [])
                ++ (if Z.of_nat i <? numberOfFeatures pm - 1 then [inr " + "] else []) in
    x ← vec_at input_data i;
    Ret (os, f64_add projectedCost (f64_mul w x))) ([], f_zero);
  Ret (os ++ [inr tab_equals; inl projectedCost; inr tab_x; inl (f64_of_Z 2); inr close_line]).

(** The options of the command line, all of which have to be there. *)
Record Options := MkOptions {
  opt_client_id : string;
  opt_scheduler_port : Z;
  opt_hostname : string
}.

(** An exit code (of the usage message), or the executor before [start] and what was printed
    of the models; [pc] and [pd] are the uninitialised members of the two models. *)
Definition executor_main (pow : float64 → float64 → float64) (env : option string)
    (vm : option Options) (pc pd : Z) (d : Disk)
    : outcome (Z + Executor * list (float64 + string)) :=
  match vm with
  | None => Ret (inl 1)
  | Some vm =>
      let perf_CPU := new_PerfModel (Some mav_CPU) default_alpha 100 2 1 pc in
      let perf_DFE := new_PerfModel (Some mav_DFE) default_alpha 100 2 1 pd in
      perf_CPU ← LoadFromDisk_as perf_CPU "MAV_CPU" d;
      perf_DFE ← LoadFromDisk_as perf_DFE "MAV_DFE" d;
      os_CPU ← print_PerfModel pow perf_CPU;
      os_DFE ← print_PerfModel pow perf_DFE;
      e ← main_Executor (main_clientId env (opt_client_id vm)) (opt_scheduler_port vm)
            (opt_hostname vm) perf_DFE perf_CPU;
      Ret (inr (e, os_CPU ++ os_DFE))
  end.

End files.

(** The port of the executor's server: the digits of the id after 811. *)
Definition executor_port (clientId : string) : string := "811" +:+ clientId.

(** ** Lemmas *)

Lemma SFeqb_refl x : is_nan x = false → SFeqb x x = true.
Proof.
  unfold SFeqb, SFcompare. destruct x as [[]|[]| |[] m e]; try done; intros _;
    rewrite Z.compare_refl, Pos.compare_refl; done.
Qed.

Lemma finite_not_nan x : finite x = true → is_nan x = false.
Proof. by destruct x. Qed.

Lemma vec_eqb_refl {A} (eqb : A → A → bool) l :
  Forall (λ x, eqb x x = true) l → vec_eqb eqb l l = true.
Proof. induction 1 as [|x l Hx _ IH]; [done|]. cbn. by rewrite Hx, IH. Qed.

Lemma vec_eqb_finite l : forallb finite l = true → vec_eqb SFeqb l l = true.
Proof.
  intros H. apply vec_eqb_refl, Forall_forall. intros x Hx.
  apply SFeqb_refl, finite_not_nan. rewrite forallb_forall in H.
  by apply H, list_elem_of_In.
Qed.

Lemma vec_eqb_finite2 l : forallb (forallb finite) l = true → vec_eqb (vec_eqb SFeqb) l l = true.
Proof.
  intros H. apply vec_eqb_refl, Forall_forall. intros x Hx.
  apply vec_eqb_finite. rewrite forallb_forall in H. by apply H, list_elem_of_In.
Qed.

Section facts.
Context `{!TextArchive} (pow : float64 → float64 → float64).

(** C31: a performance model survives its file.  A model with finite numbers that
    is saved and then loaded into another model (of the same or another
    implementation) predicts the same time for every input; the receiving
    model keeps its implementation, the other files are untouched, and the two
    models compare equal exactly if the receiver happened to hold the same
    number of data points, which is not in the file. *)
Theorem model_file_roundtrip M M0 name d a :
  save M = Ret a → archive_finite a = true → mimp M0 ≠ None →
  ∃ d' M', SaveToDisk_as M name d = (d', Ret ()) ∧ LoadFromDisk_as M0 name d' = Ret M' ∧
    (∀ f, f ≠ file_name name → d' !! f = d !! f) ∧
    mimp M' = mimp M0 ∧ (∀ x, QueryModel pow M' x = QueryModel pow M x) ∧
    PerfModel_eqb M' M = (numberOfDataPoints M0 =? numberOfDataPoints M).
Proof.
  intros Hs Hf Hi. unfold SaveToDisk_as, LoadFromDisk_as. rewrite Hs.
  exists (<[file_name name := text_write a]> d).
  rewrite lookup_insert, decide_True by done.
  destruct (mimp M0) as [imp|] eqn:Hm; [|done]. rewrite text_read_write by done.
  unfold load. rewrite Hm. eexists. split; [done|]. split; [done|].
  split; [intros f Hne; by rewrite lookup_insert_ne|].
  unfold save in Hs. destruct (mimp M); [|done]. injection Hs as <-.
  split; [done|]. split; [done|]. unfold PerfModel_eqb, archive_finite in *. cbn in *.
  apply andb_true_iff in Hf as [Hf Hms]. apply andb_true_iff in Hf as [Hf Hw].
  apply andb_true_iff in Hf as [Ha Hfe].
  rewrite (SFeqb_refl (alpha M)) by (by apply finite_not_nan).
  rewrite !Z.eqb_refl, (vec_eqb_finite2 _ Hfe), (vec_eqb_finite _ Hw), (vec_eqb_finite _ Hms).
  by rewrite !andb_true_r.
Qed.

(** A model that was not fitted cannot be queried. *)
Lemma query_unfitted imp points x :
  QueryModel pow (new_PerfModel_default imp points) x = Undef OutOfBounds.
Proof. reflexivity. Qed.

Lemma query_models_undef ps M ps' dataSize wt t u :
  Forall (λ p, match p with Some M => ∃ v, predict pow M dataSize wt = Ret v | None => True end) ps →
  predict pow M dataSize wt = Undef u →
  query_models pow (ps ++ Some M :: ps') dataSize wt t = Undef u.
Proof.
  intros HF HM. revert t. induction HF as [|[M0|] ps H0 _ IH]; intros t.
  - cbn. by rewrite HM.
  - destruct H0 as [v Hv]. cbn. rewrite Hv. cbn. by rewrite IH.
  - cbn. apply IH.
Qed.

(** Adding an implementation whose model file cannot be read leaves a model
    without weights in the task: the call throws, and from then on the choice of
    an implementation for that task is undefined (it reads weights that are not
    there), although the models that were there before are fitted. *)
Theorem failed_load_poisons_task e q t imp points d dataSize wt :
  theap e !! q = Some t → d !! file_name "MAV_DFE" = None →
  Forall (λ p, match p with Some M => ∃ v, predict pow M dataSize wt = Ret v | None => True end)
    (PerformanceModels t) →
  ∃ e' t' what, AddImp_load e (Some q) (Some imp) points d = Ret (e', Throw what) ∧
    theap e' !! q = Some t' ∧ SelectImplementation pow t' dataSize wt = Undef OutOfBounds.
Proof.
  intros Hq Hd HF. unfold AddImp_load, AddImp, LoadFromDisk_as. cbn [deref mbind outcome_bind].
  rewrite Hq. cbn [deref mbind outcome_bind]. rewrite Hd. do 3 eexists. split; [done|].
  cbn [theap]. rewrite lookup_insert, decide_True by done. split; [done|].
  unfold SelectImplementation, AddPerfModel. cbn [PerformanceModels].
  by rewrite (query_models_undef _ _ [] _ _ _ OutOfBounds).
Qed.

(** A model with as many weights as features and powers. *)
Definition fitted (a : Archive) : Prop :=
  Z.of_nat (length (ar_weights a)) = ar_numberOfFeatures a ∧ ar_order a + 1 = ar_numberOfFeatures a.

(** A vector that is long enough is read within its bounds. *)
Lemma vec_at_ret {A} (v : list A) i : (i < length v)%nat → ∃ x, vec_at v i = Ret x.
Proof.
  intros Hi. destruct (lookup_lt_is_Some_2 v i Hi) as [x Hx]. exists x.
  unfold vec_at. by rewrite Hx.
Qed.

Lemma for_from_total {A} n (body : nat → A → outcome A) :
  ∀ i acc, (∀ j a, (i ≤ j < i + n)%nat → ∃ b, body j a = Ret b) → ∃ b, for_from i n body acc = Ret b.
Proof.
  induction n as [|n IH]; intros i acc Hb; [by eexists|]. cbn [for_from].
  destruct (Hb i acc) as [b ->]; [lia|]. cbn [mbind outcome_bind].
  apply IH. intros j a Hj. apply Hb. lia.
Qed.

Lemma print_fitted M :
  Z.of_nat (length (weights M)) = numberOfFeatures M → numberOfFeatures M ≤ order M + 1 →
  ∃ os, print_PerfModel pow M = Ret os.
Proof.
  intros Hw Ho. unfold print_PerfModel, for_int.
  match goal with |- context [for_from 0 _ ?body ?acc] =>
    destruct (for_from_total (Z.to_nat (numberOfFeatures M)) body 0 acc) as [[os c] Hr] end.
  - intros j [os c] Hj. destruct (vec_at_ret (weights M) j) as [w ->]; [lia|].
    cbn [mbind outcome_bind].
    destruct (vec_at_ret (powers pow (f64_of_Z 2) (order M)) j) as [x ->]; [|by eexists].
    rewrite length_powers. lia.
  - rewrite Hr. by eexists.
Qed.

Lemma load_fitted a M : fitted a → is_Some (mimp M) →
  ∃ M' os, load a M = Ret M' ∧ mimp M' = mimp M ∧ print_PerfModel pow M' = Ret os ∧
    ∀ x, QueryModel pow M' x = Ret (dot (ar_weights a) (powers pow x (ar_order a))).
Proof.
  intros [Hw Ho] [imp Himp]. unfold load. rewrite Himp. eexists.
  edestruct print_fitted as [os Hos]; [| |exists os; split; [reflexivity|]; split; [done|];
    split; [exact Hos|]]; [exact Hw|cbn [order numberOfFeatures]; lia|].
  intros x. apply (QueryModel_dot pow); cbn [order numberOfFeatures weights]; lia.
Qed.

(** The executor program starts when the files of its two models can be read and
    hold fitted models: the task "MOVING_AVERAGE" is there with the DFE's and the
    CPU's model, each predicting by the weights of its file, and each of their
    implementations has a resource (the scheduler of the command line, and the
    local dispatcher); without one of the files the program ends with an
    exception, without its options with the usage message. *)
Theorem executor_starts env vm pc pd d tc td ac ad :
  d !! file_name "MAV_CPU" = Some tc → text_read tc = Some ac → fitted ac →
  d !! file_name "MAV_DFE" = Some td → text_read td = Some ad → fitted ad →
  (∃ e os Mc Md, executor_main pow env (Some vm) pc pd d = Ret (inr (e, os)) ∧
    cid e = main_clientId env (opt_client_id vm) ∧
    FindTask e "MOVING_AVERAGE" = Ret (Some 0%nat) ∧
    theap e !! 0%nat = Some (MkTask "MOVING_AVERAGE" [Some Md; Some Mc]) ∧
    mimp Md = Some mav_DFE ∧ mimp Mc = Some mav_CPU ∧
    (∀ x, QueryModel pow Md x = Ret (dot (ar_weights ad) (powers pow x (ar_order ad)))) ∧
    (∀ x, QueryModel pow Mc x = Ret (dot (ar_weights ac) (powers pow x (ar_order ac)))) ∧
    FindResource e (itype mav_DFE) =
      Some (MkResource 1 (opt_scheduler_port vm) (opt_hostname vm) "SHARED_DFE") ∧
    FindResource e (itype mav_CPU) = Some (MkResource 2 8122 "localhost" "CPU")) ∧
  executor_main pow env (Some vm) pc pd (delete (file_name "MAV_CPU") d) = Throw "input stream error" ∧
  executor_main pow env (Some vm) pc pd (delete (file_name "MAV_DFE") d) = Throw "input stream error" ∧
  executor_main pow env None pc pd d = Ret (inl 1).
Proof.
  intros Hc Hrc Hfc Hd Hrd Hfd. unfold executor_main, LoadFromDisk_as.
  destruct (load_fitted ac (new_PerfModel (Some mav_CPU) default_alpha 100 2 1 pc) Hfc)
    as (Mc & osc & Hlc & Hic & Hpc & Hqc); [by eexists|].
  destruct (load_fitted ad (new_PerfModel (Some mav_DFE) default_alpha 100 2 1 pd) Hfd)
    as (Md & osd & Hld & Hid & Hpd & Hqd); [by eexists|].
  split; [|split; [|split; [|done]]].
  - rewrite Hc, Hd. change (mimp (new_PerfModel ?i _ _ _ _ _)) with i.
    rewrite Hrc, Hrd, Hlc, Hld. cbn [mbind outcome_bind]. rewrite Hpc, Hpd. cbn [mbind outcome_bind].
    do 4 eexists. split; [reflexivity|]. by split_and!.
  - by rewrite lookup_delete_eq.
  - rewrite (lookup_delete_ne d (file_name "MAV_DFE") (file_name "MAV_CPU")) by done. rewrite lookup_delete_eq, Hc.
    change (mimp (new_PerfModel ?i _ _ _ _ _)) with i. by rewrite Hrc, Hlc.
Qed.

End facts.

(** A client with an id from 1 to 9 reaches the port its executor listens on;
    the ids 0 and 10 do not. *)
Example executor_ports :
  Forall (λ s, ∃ id, client_id (Some s) = Ret id ∧ client_port id = atoi (executor_port s))
    ["1"; "2"; "3"; "4"; "5"; "6"; "7"; "8"; "9"]%string ∧
  client_port 0 = Ret 8111 ∧ atoi (executor_port "0") = Ret 8110 ∧
  client_port 10 = Ret 8120 ∧ atoi (executor_port "10") = Ret 81110.
Proof.
  split; [|by vm_compute]. repeat constructor; (eexists; split; [reflexivity|by vm_compute]).
Qed.

(** ** Witnesses *)

(** A disk that keeps archives as they are. *)
Instance plain_archive : TextArchive := {|
  Text := option Archive;
  text_header := None;
  text_write := Some;
  text_read := id;
  text_read_write _ _ := eq_refl;
  text_read_header := eq_refl
|}.

Lemma model_file_roundtrip_witness :
  ∃ d' M', SaveToDisk_as (line_model mav_DFE 5 1) "MAV_DFE" ∅ = (d', Ret ()) ∧
    LoadFromDisk_as (new_PerfModel_default (Some mav_CPU) 7) "MAV_DFE" d' = Ret M' ∧
    mimp M' = Some mav_CPU ∧
    QueryModel linear_pow M' (f64_of_Z 6) = QueryModel linear_pow (line_model mav_DFE 5 1)
      (f64_of_Z 6) ∧
    PerfModel_eqb M' (line_model mav_DFE 5 1) = false.
Proof.
  destruct (model_file_roundtrip linear_pow (line_model mav_DFE 5 1)
    (new_PerfModel_default (Some mav_CPU) 7) "MAV_DFE" ∅
    (MkArchive (f64_of_Z 1) 100 2 1 [] [f64_of_Z 5; f64_of_Z 1] []))
    as (d' & M' & H1 & H2 & _ & H3 & H4 & H5); [reflexivity|vm_compute; reflexivity|done|].
  exists d', M'. split_and!; [exact H1|exact H2|exact H3|apply H4|exact H5].
Defined.

Lemma failed_load_poisons_task_witness :
  ∃ e' t' what, AddImp_load sample_executor (Some 0%nat) (Some mav_CPU) 0 ∅ = Ret (e', Throw what) ∧
    theap e' !! 0%nat = Some t' ∧ SelectImplementation linear_pow t' 6 0 = Undef OutOfBounds.
Proof.
  apply (failed_load_poisons_task linear_pow sample_executor 0%nat sample_task).
  - vm_compute. reflexivity.
  - reflexivity.
  - repeat constructor; eexists; vm_compute; reflexivity.
Defined.

(** The executor starts from the two files. *)
Definition sample_disk : gmap string Text :=
  {[ "MAV_DFE.mdl" := Some (MkArchive (f64_of_Z 1) 100 2 1 [] [f64_of_Z 5; f64_of_Z 1] []);
     "MAV_CPU.mdl" := Some (MkArchive (f64_of_Z 1) 100 2 1 [] [f64_of_Z 2; f64_of_Z 3] []) ]}.

Lemma executor_starts_witness :
  ∃ e os, executor_main linear_pow (Some "1"%string) (Some (MkOptions "2" 8121 "localhost")) 0 0
    sample_disk = Ret (inr (e, os)) ∧ cid e = "1"%string ∧
    FindTask e "MOVING_AVERAGE" = Ret (Some 0%nat).
Proof.
  destruct (executor_starts linear_pow (Some "1"%string) (MkOptions "2" 8121 "localhost") 0 0 sample_disk
    (Some (MkArchive (f64_of_Z 1) 100 2 1 [] [f64_of_Z 2; f64_of_Z 3] []))
    (Some (MkArchive (f64_of_Z 1) 100 2 1 [] [f64_of_Z 5; f64_of_Z 1] []))
    (MkArchive (f64_of_Z 1) 100 2 1 [] [f64_of_Z 2; f64_of_Z 3] [])
    (MkArchive (f64_of_Z 1) 100 2 1 [] [f64_of_Z 5; f64_of_Z 1] []))
    as [(e & os & Mc & Md & H1 & H2 & H3 & _) _]; try done; try (split; done).
  exists e, os. split_and!; [exact H1|exact H2|exact H3].
Defined.

(** With a model in a file that lacks a weight, printing it is undefined. *)
Example executor_main_runs :
  (∃ e os, executor_main linear_pow (Some "1"%string) (Some (MkOptions "2" 8121 "localhost")) 0 0
    sample_disk = Ret (inr (e, os)) ∧ theap e !! 0%nat = Some sample_task) ∧
  executor_main linear_pow None (Some (MkOptions "2" 8121 "localhost")) 0 0
    (<["MAV_CPU.mdl"%string := Some (MkArchive (f64_of_Z 1) 100 2 1 [] [f64_of_Z 2] [])]> sample_disk)
  = Undef OutOfBounds.
Proof.
  split; [|vm_compute; reflexivity].
  do 2 eexists. split; [vm_compute; reflexivity|]. vm_compute; reflexivity.
Qed.
