(* ===== verification/Ownership.v ===== *)
(** * Who deletes what: Task.hpp, Task.cpp and the destructor of Executor.cpp

    The executor hands raw pointers around; this file follows the objects
    behind them.  A heap is the objects that exist; [delete] of anything else
    is undefined. *)

From S2P Require Import Prelude.

(** ** Objects *)

Record TaskObj := MkTaskObj {
  oname : string;
  Implementations : list nat;
  OwnedModels : list nat  (** [PerformanceModels] *)
}.

Record Objects := MkObjects {
  otasks : gmap nat TaskObj;
  oimps : gset nat;
  omodels : gset nat;
  oresources : gset nat
}.

Definition set_otasks h x := MkObjects x (oimps h) (omodels h) (oresources h).
Definition set_oimps h x := MkObjects (otasks h) x (omodels h) (oresources h).
Definition set_omodels h x := MkObjects (otasks h) (oimps h) x (oresources h).
Definition set_oresources h x := MkObjects (otasks h) (oimps h) (omodels h) x.

Definition free (p : nat) (live : gset nat) : outcome (gset nat) :=
  if decide (p ∈ live) then Ret (live ∖ {[p]}) else Undef BadFree.

(** [delete] of the objects at the front of a list, one after the other. *)
Fixpoint free_all (ps : list nat) (live : gset nat) : outcome (gset nat) :=
  match ps with
  | [] => Ret live
  | p :: ps => live ← free p live; free_all ps live
  end.

(** [std::list::remove] *)
Definition list_remove (p : nat) (l : list nat) : list nat := List.filter (λ q, negb (p =? q)%nat) l.

(** ** Task *)

Definition new_TaskObj (s : string) : TaskObj := MkTaskObj s [] [].

Definition task_at (h : Objects) (t : nat) : outcome TaskObj := deref (otasks h !! t).

Definition Task_AddImp (h : Objects) (t imp : nat) : outcome Objects :=
  o ← task_at h t;
  Ret (set_otasks h (<[t := MkTaskObj (oname o) (Implementations o ++ [imp]) (OwnedModels o)]>
         (otasks h))).

Definition Task_DelImp (h : Objects) (t imp : nat) : outcome Objects :=
  o ← task_at h t;
  live ← free imp (oimps h);
  Ret (set_oimps (set_otasks h (<[t := MkTaskObj (oname o) (list_remove imp (Implementations o))
         (OwnedModels o)]> (otasks h))) live).

Definition Task_AddPerfModel (h : Objects) (t p : nat) : outcome Objects :=
  o ← task_at h t;
  Ret (set_otasks h (<[t := MkTaskObj (oname o) (Implementations o) (OwnedModels o ++ [p])]>
         (otasks h))).

Definition Task_DelPerfModel (h : Objects) (t p : nat) : outcome Objects :=
  o ← task_at h t;
  live ← free p (omodels h);
  Ret (set_omodels (set_otasks h (<[t := MkTaskObj (oname o) (Implementations o)
         (list_remove p (OwnedModels o))]> (otasks h))) live).

Definition GetImplementations (h : Objects) (t : nat) : outcome (list nat) :=
  o ← task_at h t; Ret (Implementations o).

(** [delete tsk]: the destructor deletes the implementations, then the task goes. *)
Definition delete_task (h : Objects) (t : nat) : outcome Objects :=
  match otasks h !! t with
  | None => Undef BadFree
  | Some o =>
      live ← free_all (Implementations o) (oimps h);
      Ret (set_oimps (set_otasks h (delete t (otasks h))) live)
  end.

(** The order of tasks is that of their names. *)
Definition Task_eqb (l r : TaskObj) : bool :=
  match String.compare (oname l) (oname r) with Eq => true | _ => false end.
Definition Task_ltb (l r : TaskObj) : bool :=
  match String.compare (oname l) (oname r) with Lt => true | _ => false end.
Definition Task_gtb (l r : TaskObj) : bool := Task_ltb r l.
Definition Task_leb (l r : TaskObj) : bool := negb (Task_gtb l r).
Definition Task_geb (l r : TaskObj) : bool := negb (Task_ltb l r).

(** ** Executor *)

Record Owner := MkOwner {
  OwnedTasks : list nat;       (** [Tasks] *)
  OwnedResources : list nat    (** [AvailableRes] *)
}.

Definition Executor_DelTask (e : Owner) (h : Objects) (t : nat) : outcome (Owner * Objects) :=
  h ← delete_task h t;
  Ret (MkOwner (list_remove t (OwnedTasks e)) (OwnedResources e), h).

Definition Executor_DelImp (e : Owner) (h : Objects) (t imp : nat) : outcome (Owner * Objects) :=
  h ← Task_DelImp h t imp; Ret (e, h).

Definition Executor_GetImplementations (h : Objects) (t : nat) : outcome (list nat) :=
  GetImplementations h t.

Fixpoint delete_tasks (ts : list nat) (h : Objects) : outcome Objects :=
  match ts with
  | [] => Ret h
  | t :: ts => h ← delete_task h t; delete_tasks ts h
  end.

(** The destructor: the tasks, then the resources. *)
Definition delete_executor (e : Owner) (h : Objects) : outcome Objects :=
  h ← delete_tasks (OwnedTasks e) h;
  live ← free_all (OwnedResources e) (oresources h);
  Ret (set_oresources h live).

(** ** Well-formed heaps *)

(** The implementations of the tasks of a list. *)
Definition imps_of (h : Objects) (ts : list nat) : list nat :=
  mjoin ((λ t, from_option Implementations [] (otasks h !! t)) <$> ts).

(** Every object is owned once and exists. *)
Record owned (e : Owner) (h : Objects) : Prop := {
  ow_tasks : NoDup (OwnedTasks e);
  ow_live : Forall (λ t, is_Some (otasks h !! t)) (OwnedTasks e);
  ow_imps : NoDup (imps_of h (OwnedTasks e));
  ow_imps_live : Forall (.∈ oimps h) (imps_of h (OwnedTasks e));
  ow_resources : NoDup (OwnedResources e);
  ow_resources_live : Forall (.∈ oresources h) (OwnedResources e)
}.

(** ** Lemmas *)

Lemma free_all_ret ps live :
  NoDup ps → Forall (.∈ live) ps → free_all ps live = Ret (live ∖ list_to_set ps).
Proof.
  intros Hn. revert live. induction Hn as [|p ps Hp Hn IH]; intros live HF.
  - cbn. f_equal. set_solver.
  - apply Forall_cons in HF as [H1 HF]. cbn [free_all]. unfold free.
    rewrite decide_True by done. cbn [mbind outcome_bind]. rewrite IH.
    + f_equal. cbn. set_solver.
    + eapply Forall_impl; [apply Forall_and; split; [exact HF|]|].
      * apply Forall_forall. intros q Hq. exact (λ E, Hp (eq_ind q (.∈ ps) Hq p E)).
      * intros q [? Hne]. set_solver.
Qed.

(** Conversely, a run that returns has deleted every object once. *)
Lemma free_all_inv ps : ∀ live,
  free_all ps live = Undef BadFree ∨
  (∃ live', free_all ps live = Ret live') ∧ NoDup ps ∧ Forall (.∈ live) ps.
Proof.
  induction ps as [|p ps IH]; intros live.
  - right. split; [by eexists|]. split; [apply NoDup_nil_2|apply Forall_nil_2].
  - cbn. unfold free. case_decide as Hp; [|by left]. cbn [mbind outcome_bind].
    destruct (IH (live ∖ {[p]})) as [Hu|(Hr & Hn & HF)]; [by left|right].
    split; [done|]. rewrite Forall_forall in HF. split.
    + apply NoDup_cons. split; [|done]. intros Hin. specialize (HF p Hin). set_solver.
    + apply Forall_cons. split; [done|]. apply Forall_forall. intros q Hq.
      specialize (HF q Hq). set_solver.
Qed.

(** Removing a task from the heap keeps what the other tasks own. *)
Lemma imps_of_delete h t ts live :
  t ∉ ts → imps_of (set_oimps (set_otasks h (delete t (otasks h))) live) ts = imps_of h ts.
Proof.
  intros Ht. unfold imps_of. f_equal. apply list_fmap_ext. intros i t' Ht'. cbn.
  rewrite lookup_delete_ne; [done|]. intros ->. apply Ht. by apply list_elem_of_lookup_2 in Ht'.
Qed.

Lemma delete_tasks_ret ts : ∀ h,
  NoDup ts → Forall (λ t, is_Some (otasks h !! t)) ts →
  NoDup (imps_of h ts) → Forall (.∈ oimps h) (imps_of h ts) →
  ∃ m, delete_tasks ts h = Ret (MkObjects m (oimps h ∖ list_to_set (imps_of h ts)) (omodels h)
         (oresources h)) ∧
    ∀ t, m !! t = if decide (t ∈ ts) then None else otasks h !! t.
Proof.
  induction ts as [|t ts IH]; intros h Hn Hl Hni Hli.
  - exists (otasks h). cbn. split; [|intros t; by rewrite decide_False by apply not_elem_of_nil].
    destruct h. cbn. do 2 f_equal. set_solver.
  - apply NoDup_cons in Hn as [Ht Hn]. apply Forall_cons in Hl as [[o Ho] Hl].
    cbn [delete_tasks]. unfold delete_task. rewrite Ho.
    assert (Hi : imps_of h (t :: ts) = Implementations o ++ imps_of h ts)
      by (unfold imps_of; cbn; by rewrite Ho).
    rewrite Hi in *. apply NoDup_app in Hni as (Hn1 & Hdisj & Hn2).
    apply Forall_app in Hli as [Hl1 Hl2].
    rewrite free_all_ret by done. cbn [mbind outcome_bind].
    set (h' := set_oimps _ _).
    pose proof (imps_of_delete h t ts (oimps h ∖ list_to_set (Implementations o)) Ht) as Hi'.
    fold h' in Hi'.
    destruct (IH h') as (m & Hm & Hlk); try done.
    + rewrite Forall_forall in Hl |- *. intros t' Ht'. cbn.
      rewrite lookup_delete_ne; [by apply Hl|]. by intros ->.
    + by rewrite Hi'.
    + rewrite Hi'. apply Forall_forall. intros i Hin. cbn.
      rewrite Forall_forall in Hl2. specialize (Hl2 i Hin). set_solver.
    + exists m. rewrite Hm, Hi'. cbn. split; [do 2 f_equal; set_solver|].
      intros t'. rewrite Hlk. cbn. destruct (decide (t' = t)) as [->|Hne].
      * rewrite (decide_True (P := t ∈ t :: ts)) by (by left). case_decide; [done|].
        by rewrite lookup_delete, decide_True.
      * rewrite lookup_delete_ne by done. destruct (decide (t' ∈ ts)).
        -- by rewrite decide_True by (by right).
        -- rewrite decide_False; [done|]. by intros [|]%elem_of_cons.
Qed.

Lemma delete_tasks_inv ts : ∀ h,
  delete_tasks ts h = Undef BadFree ∨
  (∃ h', delete_tasks ts h = Ret h' ∧ oresources h' = oresources h) ∧
  NoDup ts ∧ Forall (λ t, is_Some (otasks h !! t)) ts ∧
  NoDup (imps_of h ts) ∧ Forall (.∈ oimps h) (imps_of h ts).
Proof.
  induction ts as [|t ts IH]; intros h.
  - right. split; [by eexists|]. split_and!; try apply NoDup_nil_2; apply Forall_nil_2.
  - cbn [delete_tasks]. unfold delete_task. destruct (otasks h !! t) as [o|] eqn:Ho; [|by left].
    destruct (free_all_inv (Implementations o) (oimps h)) as [->|((live & Hlive) & Hn & HF)];
      [by left|].
    pose proof (free_all_ret _ _ Hn HF) as Hr. rewrite Hr in Hlive. injection Hlive as <-.
    rewrite Hr. cbn [mbind outcome_bind]. set (h' := set_oimps _ _).
    destruct (IH h') as [Hu|(Hh & Hnt & Hlt & Hni & Hli)]; [by left|right].
    assert (Ht : t ∉ ts).
    { intros Hin. rewrite Forall_forall in Hlt. destruct (Hlt t Hin) as [x Hx].
      cbn in Hx. by rewrite lookup_delete, decide_True in Hx. }
    pose proof (imps_of_delete h t ts (oimps h ∖ list_to_set (Implementations o)) Ht) as Hi.
    fold h' in Hi. rewrite Hi in Hni, Hli.
    assert (Himps : imps_of h (t :: ts) = Implementations o ++ imps_of h ts)
      by (unfold imps_of; cbn; by rewrite Ho).
    rewrite Himps. rewrite Forall_forall in Hli. split; [exact Hh|]. split_and!.
    + by apply NoDup_cons.
    + apply Forall_cons. split; [by eexists|]. rewrite Forall_forall in Hlt |- *.
      intros t' Ht'. specialize (Hlt t' Ht'). cbn in Hlt.
      rewrite lookup_delete_ne in Hlt; [done|]. by intros ->.
    + apply NoDup_app. split; [done|]. split; [|done]. intros i H1 H2.
      specialize (Hli i H2). cbn in Hli. set_solver.
    + apply Forall_app. split; [done|]. apply Forall_forall. intros i H2.
      specialize (Hli i H2). cbn in Hli. set_solver.
Qed.

(** ** Properties *)

(** The destructor of the executor deletes every task, every implementation of
    a task and every resource exactly once when each of them exists and is
    owned once, and is undefined in every other case (a task or resource that
    was added twice, an implementation that two tasks share).  The performance
    models are never deleted. *)
Theorem executor_destructor e h :
  (owned e h →
   ∃ h', delete_executor e h = Ret h' ∧
     (∀ t, otasks h' !! t = if decide (t ∈ OwnedTasks e) then None else otasks h !! t) ∧
     oimps h' = oimps h ∖ list_to_set (imps_of h (OwnedTasks e)) ∧
     oresources h' = oresources h ∖ list_to_set (OwnedResources e) ∧
     omodels h' = omodels h) ∧
  (¬ owned e h → delete_executor e h = Undef BadFree).
Proof.
  unfold delete_executor. split.
  - intros [Hn Hl Hni Hli Hnr Hlr].
    destruct (delete_tasks_ret (OwnedTasks e) h Hn Hl Hni Hli) as (m & Hm & Hlk).
    rewrite Hm. cbn [mbind outcome_bind oresources]. rewrite free_all_ret by done.
    cbn [mbind outcome_bind]. eexists. split; [done|]. by cbn.
  - intros Hno. destruct (delete_tasks_inv (OwnedTasks e) h) as [->|((h' & Hh & Hr) & Hrest)];
      [done|].
    rewrite Hh. cbn [mbind outcome_bind]. rewrite Hr.
    destruct (free_all_inv (OwnedResources e) (oresources h)) as [->|(_ & Hnr & Hlr)]; [done|].
    exfalso. apply Hno. destruct Hrest as (?&?&?&?). by split.
Qed.

(** What is added to a task can be deleted from it: the implementation goes, and a
    task that had it once is as before. *)
Lemma DelImp_AddImp e h t imp o h1 :
  otasks h !! t = Some o → imp ∉ Implementations o → imp ∈ oimps h →
  Task_AddImp h t imp = Ret h1 →
  ∃ h2, Executor_DelImp e h1 t imp = Ret (e, h2) ∧ Executor_GetImplementations h2 t =
    Ret (Implementations o) ∧ oimps h2 = oimps h ∖ {[imp]} ∧
    Executor_DelImp e h2 t imp = Undef BadFree.
Proof.
  intros Ht Hn Hi H1. unfold Task_AddImp, task_at in H1. rewrite Ht in H1. simplify_eq/=.
  unfold Executor_DelImp, Executor_GetImplementations, GetImplementations, Task_DelImp, task_at, free.
  cbn [set_otasks otasks oimps]. rewrite lookup_insert_eq. cbn [deref mbind outcome_bind oname
    Implementations OwnedModels]. rewrite decide_True by done. cbn [mbind outcome_bind].
  eexists. split; [reflexivity|]. cbn [set_oimps set_otasks otasks oimps].
  rewrite insert_insert_eq, lookup_insert_eq. cbn [deref mbind outcome_bind oname Implementations].
  rewrite decide_False by set_solver. split_and!; [|done|done]. f_equal. unfold list_remove.
  rewrite List.filter_app. cbn. rewrite Nat.eqb_refl. cbn. rewrite app_nil_r.
  clear -Hn. induction (Implementations o) as [|q l IH]; [done|]. cbn.
  apply not_elem_of_cons in Hn as [Hq Hn]. rewrite (proj2 (Nat.eqb_neq _ _)) by done.
  cbn. by rewrite IH.
Qed.

(** The comparisons of tasks are a total order on their names. *)
Lemma Task_order l r :
  Task_leb l r = Task_ltb l r || Task_eqb l r ∧ Task_geb l r = Task_gtb l r || Task_eqb l r ∧
  Task_leb l r || Task_leb r l = true.
Proof.
  unfold Task_leb, Task_geb, Task_gtb, Task_ltb, Task_eqb.
  rewrite (String.compare_antisym (oname r) (oname l)).
  by destruct (String.compare (oname l) (oname r)).
Qed.

(** ** Witnesses *)

(** Two tasks, three implementations, two resources, one model. *)
Definition sample_objects : Objects :=
  MkObjects {[ 1%nat := MkTaskObj "A" [5; 6]%nat [9]%nat; 2%nat := MkTaskObj "B" [7]%nat [] ]}
    {[ 5; 6; 7 ]}%nat {[ 9 ]}%nat {[ 3; 4 ]}%nat.

Example destructor_runs :
  is_ret (delete_executor (MkOwner [1; 2] [3; 4])%nat sample_objects) = true ∧
  delete_executor (MkOwner [1; 2; 1] [3; 4])%nat sample_objects = Undef BadFree ∧
  delete_executor (MkOwner [1; 2] [3; 3])%nat sample_objects = Undef BadFree.
Proof. by vm_compute. Qed.

Lemma executor_destructor_witness :
  ∃ h', delete_executor (MkOwner [1; 2] [3; 4])%nat sample_objects = Ret h' ∧
    omodels h' = {[ 9 ]}%nat ∧
    delete_executor (MkOwner [1; 2; 1] [3; 4])%nat sample_objects = Undef BadFree.
Proof.
  destruct (executor_destructor (MkOwner [1; 2] [3; 4])%nat sample_objects) as [H _].
  destruct H as (h' & Hh & _ & _ & _ & Hm).
  - split; cbn.
    + repeat constructor; set_solver.
    + repeat constructor; by eexists.
    + vm_compute. repeat constructor; set_solver.
    + vm_compute. repeat constructor.
    + repeat constructor; set_solver.
    + vm_compute. repeat constructor.
  - exists h'. split; [exact Hh|]. split; [exact Hm|].
    apply (executor_destructor (MkOwner [1; 2; 1] [3; 4])%nat sample_objects).
    intros [Hn _ _ _ _ _]. cbn in Hn. apply NoDup_cons in Hn as [Hn _]. apply Hn. set_solver.
Defined.
