(* ===== verification/DynLib.v ===== *)
(** * Functions of shared libraries: common/dynlib/DynLibFunc.cpp

    [dlopen], [dlsym], [dlclose] and [dlerror] are not part of the sources; the
    class [DynamicLinker] says which libraries open and which symbols they and
    the global scope have, and the state of the linker is what the manual
    documents: a count per open library and the error of the last call that
    failed, which [dlerror] returns and clears. *)

From S2P Require Import Prelude.

Class DynamicLinker := {
  Library : Type;
  lib_eq :: EqDecision Library;
  lib_countable :: Countable Library;
  Code : Type;
  find_library : string → option Library;
  symbol : Library → string → option Code;
  (** what a NULL handle (RTLD_DEFAULT) finds *)
  global_symbol : string → option Code
}.

Section dynlib.
Context `{!DynamicLinker}.

Record Linker := MkLinker {
  dl_err : option string;
  dl_count : gmap Library nat
}.

Definition dlerror (l : Linker) : option string * Linker := (dl_err l, MkLinker None (dl_count l)).

Definition count_of (l : Linker) (h : Library) : nat := default 0%nat (dl_count l !! h).

Definition dlopen (name : string) (l : Linker) : option Library * Linker :=
  match find_library name with
  | Some h => (Some h, MkLinker (dl_err l) (<[h := S (count_of l h)]> (dl_count l)))
  | None => (None, MkLinker (Some "cannot open shared object file") (dl_count l))
  end.

Definition dlsym (handle : option Library) (name : string) (l : Linker) : option Code * Linker :=
  match (match handle with Some h => symbol h name | None => global_symbol name end) with
  | Some f => (Some f, l)
  | None => (None, MkLinker (Some "undefined symbol") (dl_count l))
  end.

(** A handle that is not open is not checked. *)
Definition dlclose (handle : option Library) (l : Linker) : outcome (bool * Linker) :=
  h ← deref handle;
  match count_of l h with
  | O => Undef BadFree
  | S n => Ret (true, MkLinker (dl_err l) (<[h := n]> (dl_count l)))
  end.

(** ** DynLibFunc *)

(** [funcPtr] is not initialised by the constructor. *)
Record DynLibFunc := MkDyn {
  dlibrary : string;
  dfunc : string;
  handle : option Library;
  funcPtr : option (option Code)
}.

Definition new_DynLibFunc (libname func : string) : DynLibFunc := MkDyn libname func None None.

Definition getFunction (d : DynLibFunc) (l : Linker) : option Code * Linker :=
  let '(_, l) := dlerror l in
  let '(fptr, l) := dlsym (handle d) (dfunc d) l in
  let '(err, l) := dlerror l in
  match err with
  | Some _ => (None, l)
  | None => (fptr, l)
  end.

Definition load (d : DynLibFunc) (l : Linker) : bool * DynLibFunc * Linker :=
  let '(_, l) := dlerror l in
  let '(h, l) := dlopen (dlibrary d) l in
  let '(err, l) := dlerror l in
  let h := match err with Some _ => None | None => h end in
  let d := MkDyn (dlibrary d) (dfunc d) h (funcPtr d) in
  let '(f, l) := getFunction d l in
  let d := MkDyn (dlibrary d) (dfunc d) h (Some f) in
  (match f with None => false | Some _ => match err with None => true | Some _ => false end end,
   d, l).

Definition unload (d : DynLibFunc) (l : Linker) : outcome (bool * Linker) := dlclose (handle d) l.

(** The destructor. *)
Definition delete_DynLibFunc (d : DynLibFunc) (l : Linker) : outcome Linker :=
  '(_, l) ← unload d l; Ret l.

(** [run]: the function that is called, or none ([return NULL]). *)
Definition run (d : DynLibFunc) : outcome (option Code) :=
  match funcPtr d with
  | None => Undef Uninitialised
  | Some f => Ret f
  end.

(** ** Properties *)

(** What [load] reports is whether the library opens and has the function, and
    then [run] calls that function and the destructor releases the library.
    When the library opens without the function, [load] reports the failure,
    [run] calls nothing and the library is still released.  When it does not
    open, the report is the failure too, but the function is looked up in the
    program itself (a NULL handle), [run] calls what is found there, and the
    destructor closes a NULL handle. *)
Theorem load_cases lib name l :
  let '(ok, d, l') := load (new_DynLibFunc lib name) l in
  match find_library lib with
  | Some h =>
      ok = match symbol h name with Some _ => true | None => false end ∧ run d = Ret (symbol h name) ∧
      ∃ l'', delete_DynLibFunc d l' = Ret l'' ∧ ∀ k, count_of l'' k = count_of l k
  | None =>
      ok = false ∧ run d = Ret (global_symbol name) ∧
      delete_DynLibFunc d l' = Undef NullDeref ∧ dl_count l' = dl_count l
  end.
Proof.
  unfold load, getFunction, dlerror, dlopen. cbn.
  destruct (find_library lib) as [h|]; cbn.
  - unfold dlsym. cbn. destruct (symbol h name) as [f|]; cbn.
    all: split; [done|]; split; [done|].
    all: unfold delete_DynLibFunc, unload, dlclose, count_of; cbn.
    all: rewrite lookup_insert, decide_True by done; cbn; eexists; split; [done|].
    all: intros k; cbn; destruct (decide (k = h)) as [->|Hne].
    all: first [by rewrite lookup_insert, decide_True | by rewrite !lookup_insert_ne].
  - unfold dlsym. cbn. by destruct (global_symbol name).
Qed.

(** A second [load] forgets the first handle: the library stays open. *)
Lemma load_twice_leaks lib name l h :
  find_library lib = Some h →
  let '(_, d, l1) := load (new_DynLibFunc lib name) l in
  let '(_, d, l2) := load d l1 in
  ∃ l3, delete_DynLibFunc d l2 = Ret l3 ∧ count_of l3 h = S (count_of l h).
Proof.
  intros Hh. unfold load, getFunction, dlerror, dlopen. cbn. rewrite Hh. cbn.
  unfold dlsym. cbn. destruct (symbol h name) as [f|]; cbn; rewrite Hh; cbn;
    destruct (symbol h name) as [f'|] eqn:E; try done; cbn.
  all: unfold delete_DynLibFunc, unload, dlclose, count_of; cbn.
  all: rewrite !lookup_insert, !decide_True by done; cbn; eexists; split; [done|]; cbn.
  all: by rewrite !lookup_insert, !decide_True by done.
Qed.

(** Deleting an object that was never loaded closes a NULL handle. *)
Lemma delete_unloaded lib name l :
  delete_DynLibFunc (new_DynLibFunc lib name) l = Undef NullDeref ∧
  run (new_DynLibFunc lib name) = Undef Uninitialised.
Proof. done. Qed.

End dynlib.
