(* ===== verification/Scheduler.v ===== *)
(** * The scheduler's state and operations

    scheduler/Scheduler.hpp, scheduler/Scheduler.cpp and the operations of
    scheduler/Allocations.cpp on the scheduler.  The state is a record with the
    class's data members; every operation is a function from the state (and the
    clock reading or socket bytes it consumes) to its outcome.  Container sizes
    are [nat]; [int] counters are [Z] with overflow undefined. *)

From S2P Require Import Prelude CxxFloat StdAlg ConcurrentDeque Message Client Job.

(** ** State *)

(** The scheduling algorithms main.cxx registers, by name. *)
Inductive AlgId : Type :=
| FCFSMaxAlg | FCFSMinAlg | FCFSAsManyAsPosAlg | SJTFAlg | PriorityAlg | ManagedModeAlg.

#[export] Instance AlgId_eq_dec : EqDecision AlgId.
Proof. solve_decision. Defined.

Record Stats := MkStats {
  meanWaitTime : float64;
  totalWaitTime : float64;
  meanServiceTime : float64;
  totalServiceTime : float64;
  meanLatency : float64;
  totalLatency : float64;
  totalSchedTime : Z;          (** microseconds *)
  totBusyTime : float64;       (** microseconds *)
  numSchedules : Z;
  totalJobsScheduled : Z;
  startTime : float64;         (** seconds *)
  meanThroughput : float64;
  meanUtilization : float64;
  totalCompletions : Z
}.

Record Sched := MkSched {
  readyQ : list Job;
  runQ : list JobResPair;
  finishedQ : list Job;
  resPool : list Resource;
  jobStates : gmap Z JobState;
  algVec : list AlgId;
  window : nat;
  strat : string;
  nextJid : Z;
  resourceId : Z;
  provisionedResources : Z;
  dispatcherPortNumber : Z;
  dispatcherHostname : string;
  stats : Stats
}.

Definition set_readyQ (s : Sched) q := MkSched q (runQ s) (finishedQ s) (resPool s)
  (jobStates s) (algVec s) (window s) (strat s) (nextJid s) (resourceId s)
  (provisionedResources s) (dispatcherPortNumber s) (dispatcherHostname s) (stats s).
Definition set_runQ (s : Sched) q := MkSched (readyQ s) q (finishedQ s) (resPool s)
  (jobStates s) (algVec s) (window s) (strat s) (nextJid s) (resourceId s)
  (provisionedResources s) (dispatcherPortNumber s) (dispatcherHostname s) (stats s).
Definition set_finishedQ (s : Sched) q := MkSched (readyQ s) (runQ s) q (resPool s)
  (jobStates s) (algVec s) (window s) (strat s) (nextJid s) (resourceId s)
  (provisionedResources s) (dispatcherPortNumber s) (dispatcherHostname s) (stats s).
Definition set_resPool (s : Sched) p := MkSched (readyQ s) (runQ s) (finishedQ s) p
  (jobStates s) (algVec s) (window s) (strat s) (nextJid s) (resourceId s)
  (provisionedResources s) (dispatcherPortNumber s) (dispatcherHostname s) (stats s).
Definition set_jobStates (s : Sched) m := MkSched (readyQ s) (runQ s) (finishedQ s) (resPool s)
  m (algVec s) (window s) (strat s) (nextJid s) (resourceId s)
  (provisionedResources s) (dispatcherPortNumber s) (dispatcherHostname s) (stats s).
Definition set_nextJid (s : Sched) v := MkSched (readyQ s) (runQ s) (finishedQ s) (resPool s)
  (jobStates s) (algVec s) (window s) (strat s) v (resourceId s)
  (provisionedResources s) (dispatcherPortNumber s) (dispatcherHostname s) (stats s).
Definition set_resourceId (s : Sched) v := MkSched (readyQ s) (runQ s) (finishedQ s) (resPool s)
  (jobStates s) (algVec s) (window s) (strat s) (nextJid s) v
  (provisionedResources s) (dispatcherPortNumber s) (dispatcherHostname s) (stats s).
Definition set_provisioned (s : Sched) v := MkSched (readyQ s) (runQ s) (finishedQ s) (resPool s)
  (jobStates s) (algVec s) (window s) (strat s) (nextJid s) (resourceId s)
  v (dispatcherPortNumber s) (dispatcherHostname s) (stats s).
Definition set_stats (s : Sched) v := MkSched (readyQ s) (runQ s) (finishedQ s) (resPool s)
  (jobStates s) (algVec s) (window s) (strat s) (nextJid s) (resourceId s)
  (provisionedResources s) (dispatcherPortNumber s) (dispatcherHostname s) v.
Definition set_algVec (s : Sched) v := MkSched (readyQ s) (runQ s) (finishedQ s) (resPool s)
  (jobStates s) v (window s) (strat s) (nextJid s) (resourceId s)
  (provisionedResources s) (dispatcherPortNumber s) (dispatcherHostname s) (stats s).

(** Writes through the shared pointers to a job and its [JobInfo]. *)
Definition update_job (s : Sched) (id : Z) (f : JobState → JobState) : Sched :=
  set_jobStates s (alter f id (jobStates s)).

(** ** Sizes and queues *)

Definition readyQSize (s : Sched) : nat := Deque.size (readyQ s).
Definition resPoolSize (s : Sched) : nat := Deque.size (resPool s).

Definition copyJobFromQ (q : list Job) (i : nat) : outcome (option Job) :=
  if (length q <? i)%nat then Ret None
  else j ← Deque.at_ q i; Ret (Some j).

(** The window of jobs the sorting algorithms build:
    [for (i = 0; i < w_size && i < rq->size(); i++)
       job_window.push_back(s.copyJobFromQ(rq, i))]. *)
Fixpoint job_window_from (q : list Job) (i n : nat) : outcome (list (option Job)) :=
  match n with
  | O => Ret []
  | S n =>
      p ← copyJobFromQ q i;
      w ← job_window_from q (S i) n;
      Ret (p :: w)
  end.

Definition job_window (s : Sched) : outcome (list (option Job)) :=
  job_window_from (readyQ s) 0 (window s `min` length (readyQ s)).

(** ** Resources *)

(** [addResource(Resource&)]: a copy at the back of the pool. *)
Definition addResource (s : Sched) (r : Resource) : Sched :=
  set_resPool s (Deque.push_back (Resource_copy r) (resPool s)).

(** [addResource(PortNo, Hostname)]: a new DFE with the next resource id. *)
Definition addNewResource (s : Sched) (PortNo : Z) (Hostname : string) : outcome Sched :=
  let s := set_resPool s
    (Deque.push_back (MkResource (resourceId s) PortNo Hostname "DFE") (resPool s)) in
  id ← int_of (resourceId s + 1);
  Ret (set_resourceId s id).

Definition provisionResource (s : Sched) : outcome Sched :=
  s ← addNewResource s (dispatcherPortNumber s) (dispatcherHostname s);
  n ← int_of (provisionedResources s + 1);
  Ret (set_provisioned s n).

Definition deprovisionResource (s : Sched) : outcome Sched :=
  if (0 <? provisionedResources s)%Z then
    let s := set_provisioned s (provisionedResources s - 1) in
    '(_, pool) ← Deque.wait_pop_back (resPool s);
    Ret (set_resPool s pool)
  else Ret s.

(** The loop of [allocate]: at most [max_res] pops from the back. *)
Fixpoint allocate_loop (max_res : nat) (pool : list Resource) (acc : list Resource)
    : outcome (list Resource * list Resource) :=
  match max_res with
  | O => Ret (acc, pool)
  | S max_res =>
      if (0 <? length pool)%nat then
        '(r, pool) ← Deque.wait_pop_back pool;
        allocate_loop max_res pool (acc ++ [r])
      else Ret (acc, pool)
  end.

Definition allocate (s : Sched) (j : Job) (max_res min_res : nat)
    : outcome (list Resource * Sched) :=
  if (min_res <=? resPoolSize s)%nat then
    '(rs, pool) ← allocate_loop max_res (resPool s) [];
    Ret (rs, set_resPool s pool)
  else Ret ([], s).

Definition returnResources (s : Sched) (res : ResourceList) : Sched :=
  foldl addResource s res.

(** [claimResources]: erases the resources of a job from the pool, by id. *)
Definition claim_one (s : Sched) (r : Resource) : outcome Sched :=
  pool ← erase (find_if (Resource_eqb r) (resPool s)) (resPool s);
  Ret (set_resPool s pool).

Fixpoint claimResources (s : Sched) (r : ResourceList) : outcome Sched :=
  match r with
  | [] => Ret s
  | x :: r => s ← claim_one s x; claimResources s r
  end.

(** ** Jobs *)

Definition getNextId (s : Sched) : outcome (Z * Sched) :=
  n ← int_of (nextJid s + 1);
  Ret (nextJid s, set_nextJid s n).

(** The predicates of the searches by job id. *)
Definition idEq (id : Z) (item : JobResPair) : bool := (id =? jid (fst item))%Z.
Definition idEqrq (id : Z) (item : Job) : bool := (id =? jid item)%Z.

Definition removeJobFromReadyQ (s : Sched) (p : JobResPair) : outcome Sched :=
  if (0 <? readyQSize s)%nat then
    match find_if (idEqrq (jid (fst p))) (readyQ s) with
    | Some i => q ← erase (Some i) (readyQ s); Ret (set_readyQ s q)
    | None => Ret s
    end
  else Ret s.

Definition removeJobFromRunQ (s : Sched) (id : Z) : outcome Sched :=
  match find_if (idEq id) (runQ s) with
  | Some i => q ← erase (Some i) (runQ s); Ret (set_runQ s q)
  | None => Ret s
  end.

Definition setDispatchTime (now : Z) (js : JobState) : JobState :=
  MkJobState (issueTime js) now (finishTime js) (actualExecutionTime js)
    (measuredExecutionTime js) (jrsp js) (started js) (finished js).
Definition setIssueTime (now : Z) (js : JobState) : JobState :=
  MkJobState now (dispatchTime js) (finishTime js) (actualExecutionTime js)
    (measuredExecutionTime js) (jrsp js) (started js) (finished js).
Definition setFinishTime (now : Z) (js : JobState) : JobState :=
  MkJobState (issueTime js) (dispatchTime js) now (actualExecutionTime js)
    (measuredExecutionTime js) (jrsp js) (started js) (finished js).
Definition setResult (measured actual : float64) (rsp : msg_t) (js : JobState) : JobState :=
  MkJobState (issueTime js) (dispatchTime js) (finishTime js) actual measured (Some rsp)
    (started js) (finished js).
Definition setStarted (b : bool) (js : JobState) : JobState :=
  MkJobState (issueTime js) (dispatchTime js) (finishTime js) (actualExecutionTime js)
    (measuredExecutionTime js) (jrsp js) b (finished js).
Definition setFinished (b : bool) (js : JobState) : JobState :=
  MkJobState (issueTime js) (dispatchTime js) (finishTime js) (actualExecutionTime js)
    (measuredExecutionTime js) (jrsp js) (started js) b.

Definition addToRunQ (s : Sched) (now : Z) (p : JobResPair) : Sched :=
  let s := update_job s (jid (fst p)) (setDispatchTime now) in
  set_runQ s (Deque.push_front p (runQ s)).

(** ** Allocations.cpp *)

Fixpoint serviceAllocations_loop (s : Sched) (now : Z) (js : list JobResPair) : outcome Sched :=
  match js with
  | [] => Ret s
  | p :: js =>
      s ← removeJobFromReadyQ s p;
      s ← claimResources s (snd p);
      serviceAllocations_loop (addToRunQ s now p) now js
  end.

Definition serviceAllocations (s : Sched) (now : Z) (a : Allocations) : outcome Sched :=
  serviceAllocations_loop s now (ajobs a).

Definition returnAllocations (s : Sched) (a : Allocations) : Sched :=
  foldl (λ s p, returnResources s (snd p)) s (ajobs a).

(** ** ElasticityManager.cpp *)

Definition updateResourcePool (s : Sched) (a : Allocations) : outcome Sched :=
  let jloMetric := getJLOMetric a in
  if SFltb jloMetric f_zero then provisionResource s
  else if SFltb (f64_of_Z 1) jloMetric then deprovisionResource s
  else Ret s.

(** ** Construction *)

(** The constructor does not initialise [totBusyTime]: [busy] is what its memory holds. *)
Definition new_Stats (now : Z) (busy : float64) : Stats :=
  MkStats f_zero f_zero f_zero f_zero f_zero f_zero 0 busy 0 0
    (seconds_of_nanos now) f_zero f_zero 0.

(** The constructor at clock time [now]; main.cxx then adds the algorithms. *)
Definition new_Scheduler (port : Z) (host : string) (now : Z) (busy : float64) : outcome Sched :=
  provisionResource
    (MkSched [] [] [] [] ∅ [] 5 "Completion Time" 1 1 0 port host (new_Stats now busy)).

Definition addSchedAlg (s : Sched) (f : AlgId) : Sched := set_algVec s (algVec s ++ [f]).

Definition main_algs : list AlgId :=
  [FCFSMaxAlg; FCFSMinAlg; FCFSAsManyAsPosAlg; SJTFAlg; PriorityAlg; ManagedModeAlg].

Definition main_Scheduler (port now : Z) (busy : float64) : outcome Sched :=
  s ← new_Scheduler port "localhost" now busy;
  Ret (foldl addSchedAlg s main_algs).

(** ** Server: submitting a job and answering the client *)

(** The first half of [concurrentHandler]: a new job at the front of the
    ready queue. *)
Definition submit (s : Sched) (now : Z) (request : msg_t) : outcome (Job * Sched) :=
  '(id, s) ← getNextId s;
  let j := new_Job request id in
  let s := set_jobStates s (<[id := setIssueTime now (new_JobState now)]> (jobStates s)) in
  Ret (j, set_readyQ s (Deque.push_front j (readyQ s))).

(** The second half, after the wait: the response of [sizeBytes] bytes is
    filled from the result ([None]: no result, the response stays zeroed). *)
Definition fill_response (rsp : option msg_t) (response : msg_t) : outcome msg_t :=
  match rsp with
  | None => Ret response
  | Some rsp =>
      bs ← read_bytes 0 (dataBytes rsp) (data rsp);
      d ← write_bytes 0 bs (data response);
      Ret (Msg (msgId rsp) (clientId response) (priority response) (avg_wt response)
             (resourceType response) (predictedTimeMillis response)
             (targetExecutionTimeMillis response) (rids response)
             (expDataSizeBytes response) (dataSize rsp) 0 (totalBytes rsp) (dataBytes rsp) d)
  end.

(** The zeroed response [handle_request] allocates. *)
Definition new_response (request : msg_t) : outcome msg_t :=
  calloc_msg (u64 (sizeof_msg + expDataSizeBytes request)).

(** What [handle_request] does first with a message. *)
Inductive request_kind : Type :=
| Terminate    (** stop(), no reply *)
| RunOption    (** submit, wait, answer *)
| RunAverage   (** the same, with [avg_wt] in the answer *)
| Acknowledge. (** reply [msg_ack()] *)

Definition request_kind_of (m : msg_t) : request_kind :=
  if (msgId m =? MSG_TERM)%Z then Terminate
  else if (msgId m =? MSG_OPTION_PRICE)%Z then RunOption
  else if (msgId m =? MSG_MOVING_AVG)%Z then RunAverage
  else Acknowledge.

(** A [double] count of a duration cast to a 64-bit integer count. *)
Definition i64_of_float (x : float64) : outcome Z :=
  match trunc x with
  | Some z => if (- 2 ^ 63 <=? z)%Z && (z <? 2 ^ 63)%Z then Ret z else Undef BadFloatToInt
  | None => Undef BadFloatToInt
  end.

(** [(int)duration_cast<milliseconds>(meanWaitTime).count()]: to a 64-bit count
    of milliseconds, then to [int]. *)
Definition avg_wt_millis (s : Sched) : outcome Z :=
  z ← i64_of_float (f64_mul (meanWaitTime (stats s)) (f64_of_Z 1000));
  Ret (i32 z).

(** ** Running a job *)

(** The bit of a resource id in the [rids] of a request. *)
Definition RID0 : Z := 0.
Definition RID1 : Z := 1.
Definition RID2 : Z := 2.
Definition RID3 : Z := 4.
Definition RID4 : Z := 8.

Definition rid_bit (id : Z) : Z :=
  if (id =? 1)%Z then RID1 else if (id =? 2)%Z then RID2
  else if (id =? 3)%Z then RID3 else if (id =? 4)%Z then RID4 else RID0.

Definition pack_rids (rs : ResourceList) : Z :=
  foldl (λ p r, i8 (Z.lor p (rid_bit (rid r)))) 0%Z rs.

(** The connection of a job: the port and host of its first resource, and the
    request it sends. *)
Definition runJob_request (p : JobResPair) : outcome (Z * string * msg_t) :=
  let packed := pack_rids (snd p) in
  r ← Deque.front (snd p);
  Ret (port r, url r, set_rids (jreq (fst p)) packed).

Definition reply_size (req : msg_t) : Z := i32 (u64 (sizeof_msg + expDataSizeBytes req)).

(** The reply of the dispatcher to a job's request, from the bytes it sends. *)
Definition runJob_reply (req : msg_t) (stream : list Z) : outcome (msg_t * list Z) :=
  match calloc (u64 (reply_size req)) with
  | None => Undef NullDeref
  | Some _ => await_result (S (length stream)) (Z.to_nat (u64 (reply_size req))) stream
  end.

(** After the reply: the result is recorded, the resources go back to the
    pool, the job to the finished queue.  [t0], [t1] are the clock readings
    around the exchange, [now] the last one. *)
Definition runJob_finish (s : Sched) (p : JobResPair) (rsp : msg_t) (t0 t1 now : Z)
    : outcome Sched :=
  let j := fst p in
  let s := update_job s (jid j)
    (setResult (seconds_of_nanos (t1 - t0)) (seconds_of_millis (predictedTimeMillis rsp)) rsp) in
  let s := returnResources s (snd p) in
  let s := update_job s (jid j) (setFinishTime now) in
  let s := set_finishedQ s (Deque.push_front j (finishedQ s)) in
  removeJobFromRunQ s (jid j).

Definition runJob (s : Sched) (p : JobResPair) (stream : list Z) (t0 t1 now : Z)
    : outcome Sched :=
  '(_, req) ← runJob_request p;
  '(rsp, _) ← runJob_reply req stream;
  runJob_finish s p rsp t0 t1 now.

(** One iteration of [dispatcherLoop]: the pair that a new thread runs. *)
Definition dispatcherLoop_iter (s : Sched) : outcome (option JobResPair * Sched) :=
  '(p, q) ← Deque.wait_pop_front (runQ s);
  let s := set_runQ s q in
  js ← deref (jobStates s !! jid (fst p));
  if started js then Ret (None, s)
  else Ret (Some p, update_job s (jid (fst p)) (setStarted true)).

(** ** Statistics *)

Definition estimateExecutionTime (j : Job) : float64 :=
  seconds_of_millis (predictedTimeMillis (jreq j)).

Definition seconds_between (t1 t2 : Z) : float64 := seconds_of_nanos (t1 - t2).

(** [tp - startTime]: nanoseconds as a double. *)
Definition uptime_nanos (st : Stats) (now : Z) : float64 :=
  f64_sub (f64_of_Z now) (f64_mul (startTime st) (f64_of_Z 1000000000)).

(** What [stop()] prints. *)
Record Report := MkReport {
  r_uptime : Z;
  r_meanWaitTime : float64;
  r_meanServiceTime : float64;
  r_meanLatency : float64;
  r_meanThroughput : float64;
  r_meanUtilization : float64;
  r_overhead : Z;
  r_totalJobs : Z;
  r_totalCompletions : Z;
  r_jobsPerSchedule : float64
}.

(** [stop()] at clock time [now]; the mean scheduling overhead is an integer
    division by the number of schedules. *)
Definition stop (s : Sched) (now : Z) : outcome Report :=
  let st := stats s in
  uptime ← i64_of_float (f64_div (uptime_nanos st now) (f64_of_Z 1000000000));
  if (numSchedules st =? 0)%Z then Undef DivByZero
  else Ret (MkReport uptime (meanWaitTime st) (meanServiceTime st) (meanLatency st)
    (meanThroughput st) (meanUtilization st) (Z.quot (totalSchedTime st) (numSchedules st))
    (u64 (totalCompletions st + Z.of_nat (readyQSize s) + Z.of_nat (length (runQ s))))
    (totalCompletions st)
    (f64_div (f64_of_Z (totalJobsScheduled st)) (f64_of_Z (numSchedules st)))).

(** [updateStatistics]; [now_t] and [now_u] are the clock readings of
    [updateThroughput] and [updateUtilization].  [totalCompletions] is a
    uint64_t and the totals are divided by it. *)
Definition updateStatistics (s : Sched) (js : JobState) (now_t now_u : Z) : outcome Sched :=
  let st := stats s in
  let n := u64 (totalCompletions st + 1) in
  let fn := f64_of_Z n in
  let tw := f64_add (totalWaitTime st) (seconds_between (dispatchTime js) (issueTime js)) in
  let ts := f64_add (totalServiceTime st) (seconds_between (finishTime js) (dispatchTime js)) in
  let tl := f64_add (totalLatency st)
              (f64_sub (measuredExecutionTime js) (actualExecutionTime js)) in
  secs ← i64_of_float (f64_div (uptime_nanos st now_t) (f64_of_Z 1000000000));
  let tb := f64_add (totBusyTime st)
              (f64_mul (actualExecutionTime js) (f64_of_Z 1000000)) in
  totMs ← i64_of_float (f64_div (uptime_nanos st now_u) (f64_of_Z 1000000));
  busyMs ← i64_of_float (f64_div tb (f64_of_Z 1000));
  Ret (set_stats s (MkStats (f64_div tw fn) tw (f64_div ts fn) ts (f64_div tl fn) tl
    (totalSchedTime st) tb (numSchedules st) (totalJobsScheduled st) (startTime st)
    (f64_div fn (f64_of_Z secs)) (f64_div (f64_of_Z busyMs) (f64_of_Z totMs)) n)).

(** One iteration of [finishedLoop]: the job whose handler is notified. *)
Definition finishedLoop_iter (s : Sched) (now_t now_u : Z) : outcome (Job * Sched) :=
  '(j, q) ← Deque.wait_pop_front (finishedQ s);
  let s := set_finishedQ s q in
  js ← deref (jobStates s !! jid j);
  s ← updateStatistics s js now_t now_u;
  Ret (j, update_job s (jid j) (setFinished true)).

(** Jobs of the finished queue that waited more than a second. *)
Definition numLateJobs (s : Sched) : outcome Z :=
  foldl (λ acc j,
    sum ← acc;
    js ← deref (jobStates s !! jid j);
    Ret (if (1000000000 <? dispatchTime js - issueTime js)%Z then sum + 1 else sum)%Z)
    (Ret 0%Z) (finishedQ s).
