(* ===== verification/StatsFacts.v ===== *)
(** * The statistics of finished jobs

    [updateStatistics] (Scheduler.hpp) converts the uptime and the busy time of the
    scheduler from [double] to 64-bit counts.  Clock readings below 2^62
    nanoseconds, results that report a non-negative time and at most 2^20 jobs keep
    these conversions defined. *)

From S2P Require Import Prelude CxxFloat FloatRound FloatBounds FloatSigned StdAlg.
From S2P Require Import ConcurrentDeque Message Job Scheduler.

#[local] Open Scope Z_scope.

(** A reading of the clock, in nanoseconds. *)
Definition clock (t : Z) : Prop := 0 ≤ t ≤ 2 ^ 62.

(** ** Conversions to 64-bit counts *)

(** [x] is, up to its sign, a number of at most [hi]. *)
Definition magnitude (hi : Z) (x : float64) : Prop :=
  ∃ z, between64 0 hi z ∧ (x = z ∨ x = SFopp z).

Lemma within_magnitude hi x : between64 0 hi x → magnitude hi x.
Proof. intros Hx. exists x. auto. Qed.

Lemma i64_of_float_small x : magnitude (2 ^ 62 * pw 0) x → ∃ n, i64_of_float x = Ret n.
Proof.
  intros (z & Hz & Hx). destruct (trunc64_between _ _ Hz) as (n & Hn & Hb).
  unfold i64_of_float. destruct Hx as [-> | ->].
  - rewrite Hn. exists n. by rewrite (proj2 (Z.leb_le _ _)), (proj2 (Z.ltb_lt _ _)) by lia.
  - rewrite trunc_opp, Hn. exists (- n). cbn.
    by rewrite (proj2 (Z.leb_le _ _)), (proj2 (Z.ltb_lt _ _)) by lia.
Qed.

(** The integer constants of the conversions. *)
Lemma f64_const_between k c :
  0 ≤ k ≤ 60 → 2 ^ k ≤ c ≤ 2 ^ (k + 1) → between64 (pw k) (pw (k + 1)) (f64_of_Z c).
Proof.
  intros Hk Hc. pose proof pw_0_pos. pose proof (pow_gt0 k ltac:(lia)).
  apply normalize_between; fmt; try (unfold unit_exp; lia).
  rewrite (pw_0_eq k), (pw_0_eq (k + 1)) by lia. rewrite !(Z.mul_comm (pw 0)).
  split; apply Z.mul_le_mono_pos_r; lia.
Qed.

Lemma f64_of_Z_between0 m k :
  0 ≤ m ≤ 2 ^ k → 0 ≤ k ≤ 80 → between64 0 (pw k) (f64_of_Z m).
Proof.
  intros Hm Hk. pose proof pw_0_pos. apply normalize_between; fmt; try (unfold unit_exp; lia).
  - by exists (S754_zero false).
  - rewrite (pw_0_eq k) by lia. nia.
Qed.

(** Dividing by a constant between [2^k] and [2^(k+1)]. *)
Lemma div_const_between a k c x :
  between64 0 (pw a) x → 0 ≤ k ≤ 60 → 2 ^ k ≤ c ≤ 2 ^ (k + 1) → k ≤ a ≤ 80 →
  between64 0 (pw (a - k)) (f64_div x (f64_of_Z c)).
Proof.
  intros Hx Hk Hc Ha. destruct (f64_const_between k c Hk Hc) as [Hn Hv].
  assert (unit_exp = -2100) by done.
  assert (pw 0 ≤ pw k) by (apply pw_le; lia).
  apply (div_between0 (pw a)); try done; [lia|apply rep_pw1; [apply f64_Format|lia]|].
  transitivity (pw (a - k) * pw k).
  - rewrite !pw_mul by lia. apply Z.mul_le_mono_nonneg_r; [by apply Z.pow_nonneg|].
    apply pw_le. lia.
  - pose proof (pw_pos (a - k) ltac:(lia)). apply Z.mul_le_mono_nonneg_l; lia.
Qed.

Lemma magnitude_div a k c x :
  magnitude (pw a) x → 0 ≤ k ≤ 60 → 2 ^ k ≤ c ≤ 2 ^ (k + 1) → k ≤ a ≤ 80 →
  magnitude (pw (a - k)) (f64_div x (f64_of_Z c)).
Proof.
  intros (z & Hz & Hx) Hk Hc Ha. exists (f64_div z (f64_of_Z c)).
  split; [by apply div_const_between|]. destruct Hx as [-> | ->]; [by left|right].
  apply f64_div_opp. eapply between64_not_nan, (f64_const_between k); done.
Qed.

Lemma magnitude_le a hi x : magnitude (pw a) x → pw a ≤ hi → magnitude hi x.
Proof. intros (z & [Hz Hv] & Hx) Hle. exists z. split; [split; [done|lia]|done]. Qed.

(** *** Sums *)

Lemma SFadd_opp_r m1 e1 m2 e2 :
  f64_add (S754_finite false m1 e1) (S754_finite true m2 e2) =
  f64_sub (S754_finite false m1 e1) (S754_finite false m2 e2).
Proof. done. Qed.

Lemma SFadd_opp_l m1 e1 m2 e2 :
  f64_add (S754_finite true m1 e1) (S754_finite false m2 e2) =
  f64_sub (S754_finite false m2 e2) (S754_finite false m1 e1).
Proof.
  unfold f64_add, f64_sub, SFadd, SFsub. cbn [cond_Zopp].
  by rewrite (Z.min_comm e1 e2), Z.add_comm.
Qed.

(** The sum of two numbers of known magnitude, whatever their signs. *)
Lemma magnitude_add a b x y :
  magnitude a x → magnitude b y → rep f64_prec f64_emax unit_exp (a + b) →
  magnitude (a + b) (f64_add x y).
Proof.
  intros (z1 & [H1 Hv1] & Hx) (z2 & [H2 Hv2] & Hy) Hrep.
  assert (Hl : between64 0 (a + b) z1) by (split; [done|lia]).
  assert (Hr : between64 0 (a + b) z2) by (split; [done|lia]).
  destruct z1 as [s1| | |[] m1 e1]; try done; destruct z2 as [s2| | |[] m2 e2]; try done.
  - exists (f64_add x y). split; [|by left]. destruct Hx as [-> | ->], Hy as [-> | ->];
      destruct s1, s2; (split; [done|]); simpl in *; lia.
  - exists (S754_finite false m2 e2). split; [done|].
    destruct Hx as [-> | ->], Hy as [-> | ->]; [by left|by right|by left|by right].
  - exists (S754_finite false m1 e1). split; [done|].
    destruct Hx as [-> | ->], Hy as [-> | ->]; [by left|by left|by right|by right].
  - assert (Hsum : between64 0 (a + b) (f64_add (S754_finite false m1 e1) (S754_finite false m2 e2))).
    { apply (add_between f64_prec f64_emax); try done; [by exists (S754_zero false)|lia]. }
    assert (Hpos : ∀ m e, nn64 (S754_finite false m e) = true → 0 < value (S754_finite false m e)).
    { intros m e Hn. pose proof (val_nonneg unit_exp (S754_finite false m e)).
      destruct (decide (value (S754_finite false m e) = 0)) as [E|]; [|lia].
      by destruct (val_zero_nn _ Hn E). }
    destruct Hx as [-> | ->], Hy as [-> | ->].
    + by exists (f64_add (S754_finite false m1 e1) (S754_finite false m2 e2)); auto.
    + cbn [SFopp negb]. rewrite SFadd_opp_r.
      apply (sub_magnitude f64_prec f64_emax eq_refl eq_refl unit_exp); try done; lia.
    + cbn [SFopp negb]. rewrite SFadd_opp_l.
      apply (sub_magnitude f64_prec f64_emax eq_refl eq_refl unit_exp); try done; lia.
    + rewrite f64_add_opp by auto.
      by exists (f64_add (S754_finite false m1 e1) (S754_finite false m2 e2)); auto.
Qed.

(** The mean of [n] numbers. *)
Lemma magnitude_mean n a x :
  1 ≤ n ≤ 2 ^ 24 → -100 ≤ a ≤ 80 → magnitude (n * pw a) x →
  magnitude (pw a) (f64_div x (f64_of_Z n)).
Proof.
  intros Hn Ha (z & Hz & Hx). destruct (of_Z_value f64_prec f64_emax n ltac:(lia)) as [Hf Hv].
  fold (f64_of_Z n) in Hf, Hv. assert (Hval : value (f64_of_Z n) = n * pw 0) by lia.
  pose proof pw_0_pos. exists (f64_div z (f64_of_Z n)). split.
  - apply (div_between0 (n * pw a)); rewrite ?Hval; try done; [nia| |lia].
    by apply (rep_pw1 f64_prec f64_emax).
  - destruct Hx as [-> | ->]; [by left|right]. apply f64_div_opp.
    by destruct (f64_of_Z n).
Qed.

(** ** Uptime and busy time *)

Lemma seconds_of_nanos_clock t : clock t → between64 0 (pw 33) (seconds_of_nanos t).
Proof.
  intros Ht. apply (div_const_between 62 29); try done. by apply f64_of_Z_between0.
Qed.

Lemma uptime_magnitude st now :
  between64 0 (pw 33) (startTime st) → clock now → magnitude (pw 63) (uptime_nanos st now).
Proof.
  intros Hst Hnow. unfold uptime_nanos.
  destruct (f64_of_Z_between0 now 62) as [Hn Hv]; [done..|].
  assert (Hm : between64 0 (pw 63) (f64_mul (startTime st) (f64_of_Z 1000000000))).
  { apply (mul_between (pw 33) (pw 30)); [done| | | |].
    - by apply f64_of_Z_between0.
    - apply rep_pw1; [apply f64_Format|done].
    - vm_compute. by intros m e [= _ <-].
    - rewrite !pw_mul by done. done. }
  destruct Hm as [Hmn Hmv].
  destruct (sub_magnitude f64_prec f64_emax eq_refl eq_refl unit_exp (pw 63) _ _ ltac:(done) Hn Hmn)
    as (z & Hz & Hs).
  - apply rep_pw1; [apply f64_Format|done].
  - pose proof (pw_le 62 63). lia.
  - lia.
  - by exists z.
Qed.

Lemma busy_between ms :
  0 ≤ ms ≤ INT_MAX → between64 0 (pw 42) (f64_mul (seconds_of_millis ms) (f64_of_Z 1000000)).
Proof.
  intros Hms. apply (mul_between (pw 22) (pw 20)).
  - apply (div_const_between 31 9); try done. apply f64_of_Z_between0; [|done].
    unfold INT_MAX in Hms. lia.
  - by apply f64_of_Z_between0.
  - apply rep_pw1; [apply f64_Format|done].
  - vm_compute. by intros m e [= _ <-].
  - rewrite !pw_mul by done. done.
Qed.

(** ** Recording a job *)

(** The statistics after [n] recorded jobs. *)
Record stats_ok (st : Stats) : Prop := {
  so_count : 0 ≤ totalCompletions st ≤ 2 ^ 20;
  so_start : between64 0 (pw 33) (startTime st);
  so_busy : between64 0 ((2 ^ 19 + totalCompletions st) * pw 42) (totBusyTime st);
  so_wait : magnitude (totalCompletions st * pw 33) (totalWaitTime st);
  so_mean : magnitude (pw 33) (meanWaitTime st)
}.

(** What the memory of the busy time may hold at the start (in microseconds). *)
Definition busy_ok (busy : float64) : Prop := between64 0 (2 ^ 19 * pw 42) busy.

(** The clock readings of a job. *)
Definition times_ok (js : JobState) : Prop := clock (issueTime js) ∧ clock (dispatchTime js).

Lemma wait_magnitude js :
  times_ok js → magnitude (pw 33) (seconds_between (dispatchTime js) (issueTime js)).
Proof.
  intros [Hi Hd]. unfold seconds_between, seconds_of_nanos.
  apply (magnitude_div 62 29); try done. unfold clock in *.
  destruct (dispatchTime js - issueTime js) as [|p|p] eqn:E.
  - exists f_zero. split; [by split|by left].
  - exists (f64_of_Z (Zpos p)). split; [|by left]. apply f64_of_Z_between0; lia.
  - exists (f64_of_Z (Zpos p)). split; [apply f64_of_Z_between0; lia|]. right. apply f64_of_Z_opp.
Qed.

(** The busy time after one more job. *)
Lemma busy_grows st ms :
  stats_ok st → 0 ≤ ms ≤ INT_MAX →
  between64 0 ((2 ^ 19 + (totalCompletions st + 1)) * pw 42)
    (f64_add (totBusyTime st) (f64_mul (seconds_of_millis ms) (f64_of_Z 1000000))).
Proof.
  intros [Hn _ [Hbn Hbv] _ _] Hms. destruct (busy_between ms Hms) as [Hjn Hjv].
  apply (add_between f64_prec f64_emax); try done; [by exists (S754_zero false)| |lia].
  apply (rep_pw f64_prec f64_emax); lia.
Qed.

(** The waiting times after one more job. *)
Lemma wait_grows st js :
  stats_ok st → times_ok js → let n := totalCompletions st + 1 in
  let tw := f64_add (totalWaitTime st) (seconds_between (dispatchTime js) (issueTime js)) in
  magnitude (n * pw 33) tw ∧ magnitude (pw 33) (f64_div tw (f64_of_Z n)).
Proof.
  intros Hok Ht n tw. pose proof (so_count _ Hok) as Hn.
  assert (Htw : magnitude (n * pw 33) tw).
  { replace (n * pw 33) with (totalCompletions st * pw 33 + pw 33) by lia.
    apply magnitude_add; [apply Hok|by apply wait_magnitude|].
    replace (totalCompletions st * pw 33 + pw 33) with (n * pw 33) by lia.
    apply (rep_pw f64_prec f64_emax); lia. }
  split; [done|]. apply magnitude_mean; [lia..|done].
Qed.

(** What stays of [stats_ok] without the bound on the count. *)
Definition stats_grown (st st' : Stats) : Prop :=
  totalCompletions st' = totalCompletions st + 1 ∧ startTime st' = startTime st ∧
  between64 0 ((2 ^ 19 + totalCompletions st') * pw 42) (totBusyTime st') ∧
  magnitude (totalCompletions st' * pw 33) (totalWaitTime st') ∧ magnitude (pw 33) (meanWaitTime st').

Lemma updateStatistics_effect s js now_t now_u ms s' :
  stats_ok (stats s) → times_ok js → 0 ≤ ms ≤ INT_MAX →
  actualExecutionTime js = seconds_of_millis ms → updateStatistics s js now_t now_u = Ret s' →
  ∃ st, s' = set_stats s st ∧ stats_grown (stats s) st.
Proof.
  intros Hok Ht Hms Hact Hs. unfold updateStatistics in Hs. rewrite Hact in Hs. inv_ret.
  pose proof (busy_grows _ ms Hok Hms) as Hb. pose proof (so_count _ Hok).
  destruct (wait_grows _ js Hok Ht) as [Hw Hm].
  assert (Hc : u64 (totalCompletions (stats s) + 1) = totalCompletions (stats s) + 1)
    by (apply wrap_small; lia).
  eexists. split; [done|]. unfold stats_grown.
  cbn [totalCompletions totBusyTime startTime totalWaitTime meanWaitTime]. rewrite Hc. by split_and!.
Qed.

(** The average waiting time of an answer. *)
Lemma avg_wt_millis_ret s : stats_ok (stats s) → ∃ wt, avg_wt_millis s = Ret wt.
Proof.
  intros Hok. destruct (so_mean _ Hok) as (z & Hz & Hx).
  assert (Hm : between64 0 (pw 43) (f64_mul z (f64_of_Z 1000))).
  { apply (mul_between (pw 33) (pw 10)); [done|by apply f64_of_Z_between0| | |].
    - by apply (rep_pw1 f64_prec f64_emax).
    - vm_compute. by intros m e [= _ <-].
    - rewrite !pw_mul by done. done. }
  destruct (i64_of_float_small (f64_mul (meanWaitTime (stats s)) (f64_of_Z 1000))) as [n Hn].
  - apply (magnitude_le 43); [|by vm_compute]. exists (f64_mul z (f64_of_Z 1000)). split; [done|].
    destruct Hx as [-> | ->]; [by left|right]. apply f64_mul_opp. by destruct Hz as [Hz _], z.
  - unfold avg_wt_millis. rewrite Hn. by eexists.
Qed.

Lemma updateStatistics_ret s js now_t now_u ms :
  stats_ok (stats s) → 0 ≤ ms ≤ INT_MAX → actualExecutionTime js = seconds_of_millis ms →
  clock now_t → clock now_u → ∃ s', updateStatistics s js now_t now_u = Ret s'.
Proof.
  intros Hok Hms Hact Ht Hu. unfold updateStatistics. rewrite Hact.
  pose proof (busy_grows _ ms Hok Hms) as [Htn Htv]. destruct Hok as [Hn Hst _ _ _].
  destruct (i64_of_float_small (f64_div (uptime_nanos (stats s) now_t) (f64_of_Z 1000000000)))
    as [secs ->].
  { eapply magnitude_le; [apply (magnitude_div 63 29); [by apply uptime_magnitude|done..]|].
    by vm_compute. }
  destruct (i64_of_float_small (f64_div (uptime_nanos (stats s) now_u) (f64_of_Z 1000000)))
    as [totMs ->].
  { eapply magnitude_le; [apply (magnitude_div 63 19); [by apply uptime_magnitude|done..]|].
    by vm_compute. }
  set (tb := f64_add _ (f64_mul _ (f64_of_Z 1000000))) in *.
  destruct (i64_of_float_small (f64_div tb (f64_of_Z 1000))) as [busyMs ->]; [|by eexists].
  eapply magnitude_le; [apply (magnitude_div 63 9); [|done..]|by vm_compute].
  apply within_magnitude. split; [done|]. split; [lia|].
  etransitivity; [apply Htv|]. replace (pw 63) with (2 ^ 21 * pw 42) by (by vm_compute).
  apply Z.mul_le_mono_nonneg_r; [by vm_compute|]. lia.
Qed.

(** ** The busy time is not initialised *)

Lemma i64_of_float_cases x : (∃ n, i64_of_float x = Ret n) ∨ i64_of_float x = Undef BadFloatToInt.
Proof. unfold i64_of_float. repeat case_match; eauto. Qed.

(** The constructor leaves [totBusyTime] as its memory was; when that holds a NaN, the
    first finished job is recorded with an undefined conversion. *)
Theorem busy_uninitialised port now s js now_t now_u :
  main_Scheduler port now S754_nan = Ret s →
  updateStatistics s js now_t now_u = Undef BadFloatToInt.
Proof.
  intros Hs. unfold main_Scheduler, new_Scheduler, provisionResource, addNewResource in Hs. inv_ret.
  unfold updateStatistics. cbn [stats set_algVec addSchedAlg foldl main_algs].
  match goal with |- context [i64_of_float (f64_div (uptime_nanos ?st now_t) ?c)] =>
    destruct (i64_of_float_cases (f64_div (uptime_nanos st now_t) c)) as [[n ->] | ->]; [|done] end.
  cbn [mbind outcome_bind].
  match goal with |- context [i64_of_float (f64_div (uptime_nanos ?st now_u) ?c)] =>
    destruct (i64_of_float_cases (f64_div (uptime_nanos st now_u) c)) as [[m ->] | ->]; [|done] end.
  done.
Qed.
