(* ===== verification/Members.v ===== *)
(** * Accessors and small classes of the headers

    The members that the components above do not need but that the headers offer:
    the event flags of typedefs.hpp, the constructor and the accessors of
    Implementation.hpp, the remaining members of Job.hpp, Resource.hpp, Task.hpp,
    PerfModel.hpp, Scheduler.hpp and Executor.cpp, the timer, and the constructor
    of a client from a resource. *)

From S2P Require Import Prelude CxxFloat StdAlg Message Server Client Executor Ownership DynLib.
From S2P Require Import Job Scheduler.

#[local] Open Scope Z_scope.

(** ** typedefs.hpp: QInfo *)

(** Which queue an event occurred on; every access holds the flag's own lock. *)
Record QInfo := MkQInfo {
  readyQEvent : bool;
  runQEvent : bool;
  finishedQEvent : bool
}.

Definition getReadyQStatus (q : QInfo) : bool := readyQEvent q.
Definition getRunQStatus (q : QInfo) : bool := runQEvent q.
Definition getFinishedQStatus (q : QInfo) : bool := finishedQEvent q.
Definition setReadyQStatus (p : bool) (q : QInfo) : QInfo := MkQInfo p (runQEvent q) (finishedQEvent q).
Definition setRunQStatus (p : bool) (q : QInfo) : QInfo := MkQInfo (readyQEvent q) p (finishedQEvent q).
Definition setFinishedQStatus (p : bool) (q : QInfo) : QInfo := MkQInfo (readyQEvent q) (runQEvent q) p.

(** ** Implementation.hpp *)

Definition new_Implementation (libraryName_ funcName_ name_ url_ port_ type_ : string) : Implementation :=
  MkImp libraryName_ funcName_ name_ url_ port_ type_.

Definition imp_setFuncName (arg : string) (i : Implementation) : Implementation :=
  MkImp (libraryName i) arg (iname i) (iurl i) (iport i) (itype i).
Definition imp_setLibName (arg : string) (i : Implementation) : Implementation :=
  MkImp arg (funcName i) (iname i) (iurl i) (iport i) (itype i).
Definition imp_setName (arg : string) (i : Implementation) : Implementation :=
  MkImp (libraryName i) (funcName i) arg (iurl i) (iport i) (itype i).
Definition imp_setUrl (arg : string) (i : Implementation) : Implementation :=
  MkImp (libraryName i) (funcName i) (iname i) arg (iport i) (itype i).
Definition imp_setPort (arg : string) (i : Implementation) : Implementation :=
  MkImp (libraryName i) (funcName i) (iname i) (iurl i) arg (itype i).
Definition imp_setType (arg : string) (i : Implementation) : Implementation :=
  MkImp (libraryName i) (funcName i) (iname i) (iurl i) (iport i) arg.

(** ** Job.hpp and Job.cpp *)

Definition setMax (a : nat) (j : Job) : Job :=
  MkJob (jmin j) a (jid j) (jpriority j) (jstatus j) (targetExecutionTime j) (predictedTime j) (jreq j).
Definition setMin (a : nat) (j : Job) : Job :=
  MkJob a (jmax j) (jid j) (jpriority j) (jstatus j) (targetExecutionTime j) (predictedTime j) (jreq j).
Definition setJid (a : Z) (j : Job) : Job :=
  MkJob (jmin j) (jmax j) a (jpriority j) (jstatus j) (targetExecutionTime j) (predictedTime j) (jreq j).
Definition setStatus (a : Z) (j : Job) : Job :=
  MkJob (jmin j) (jmax j) (jid j) (jpriority j) a (targetExecutionTime j) (predictedTime j) (jreq j).

Definition setMeasuredExecutionTime (tp : float64) (js : JobState) : JobState :=
  MkJobState (issueTime js) (dispatchTime js) (finishTime js) (actualExecutionTime js) tp (jrsp js)
    (started js) (finished js).
Definition setActualExecutionTime (tp : float64) (js : JobState) : JobState :=
  MkJobState (issueTime js) (dispatchTime js) (finishTime js) tp (measuredExecutionTime js) (jrsp js)
    (started js) (finished js).
Definition setRsp (r : option msg_t) (js : JobState) : JobState :=
  MkJobState (issueTime js) (dispatchTime js) (finishTime js) (actualExecutionTime js)
    (measuredExecutionTime js) r (started js) (finished js).

(** [copyRsp]: the data of the message in the buffer over the data of [rsp]. *)
Definition copyRsp (buff : list Z) (js : JobState) : outcome JobState :=
  r ← msg_of_bytes buff;
  rsp ← deref (jrsp js);
  bs ← read_bytes 0 (dataBytes r) (data r);
  d ← write_bytes 0 bs (data rsp);
  Ret (setRsp (Some (set_data rsp d)) js).

(** [getResponse] prints the first byte of the buffer. *)
Definition getResponse (buffer : list Z) (sizeBytes : Z) : outcome () :=
  _ ← read_bytes 0 1 buffer; Ret ().

(** ** Resource.hpp and Task.hpp *)

Definition new_Resource (id port_ : Z) (name_ type_ : string) : Resource := MkResource id port_ name_ type_.
Definition Resource_neqb (l r : Resource) : bool := negb (Resource_eqb l r).
Definition Task_neqb (l r : TaskObj) : bool := negb (Task_eqb l r).
Definition Task_print (t : TaskObj) : string := oname t.

(** ** PerfModel.hpp *)

Definition setAlpha (a : float64) (m : PerfModel) : PerfModel :=
  MkModel a (iterations m) (numberOfFeatures m) (numberOfDataPoints m) (order m) (features m) (weights m)
    (milliseconds m) (mimp m).
Definition setIter (i : Z) (m : PerfModel) : PerfModel :=
  MkModel (alpha m) i (numberOfFeatures m) (numberOfDataPoints m) (order m) (features m) (weights m)
    (milliseconds m) (mimp m).

(** ** Executor.cpp *)

Definition GetResources (e : Executor) : list Resource := AvailableRes e.
Definition GetTasks (e : Executor) : list nat := Tasks e.

(** The overload of [SelectImplementation] that takes the implementation itself. *)
Definition SelectImplementation_input (input : option Implementation) : outcome Implementation :=
  deref input.

(** ** Scheduler.hpp *)

Definition getStrategy (s : Sched) : string := strat s.
Definition getWindow (s : Sched) : nat := window s.
Definition setWindow (w : nat) (s : Sched) : Sched :=
  MkSched (readyQ s) (runQ s) (finishedQ s) (resPool s) (jobStates s) (algVec s) w (strat s) (nextJid s)
    (resourceId s) (provisionedResources s) (dispatcherPortNumber s) (dispatcherHostname s) (stats s).
Definition noAlgs (s : Sched) : nat := length (algVec s).
Definition getAlg (i : nat) (s : Sched) : outcome AlgId := vec_at (algVec s) i.

(** ** SimpleTimer.hpp *)

(** The reading [c] of the microsecond clock at the last [start]. *)
Record SimpleTimer := MkTimer { timer_c : Z }.

Definition timer_start (now : Z) (t : SimpleTimer) : SimpleTimer := MkTimer now.
Definition timer_end (now : Z) (t : SimpleTimer) : Z := Z.quot (now - timer_c t) 1000.

(** ** Client.cpp: the constructor from a resource *)

(** [name] is a reference: to a string that is alive, or to one that is not. *)
Inductive name_ref :=
| Alive (name : string)
| Ended.

Record ClientRef := MkClientRef { ref_port : Z; ref_name : name_ref }.

(** [Client(portNumber_, name_)] refers to the caller's string. *)
Definition new_ClientRef (portNumber_ : Z) (name_ : string) : ClientRef :=
  MkClientRef portNumber_ (Alive name_).

(** [Client(r)] binds the reference to a temporary copy of the resource's name,
    which ends with the initialiser. *)
Definition Client_of_Resource (r : Resource) : ClientRef := MkClientRef (port r) Ended.

(** The first use of the name, in [start]. *)
Definition start_ref (network : Z → string → option Conn) (c : ClientRef) : outcome Client :=
  match ref_name c with
  | Alive name => Ret (start network (new_Client (ref_port c) name))
  | Ended => Undef Dangling
  end.

(** ** Properties *)

(** A client made from a resource cannot be started, unlike one made from the
    resource's port and name. *)
Theorem resource_client_dangles network r :
  start_ref network (Client_of_Resource r) = Undef Dangling ∧
  start_ref network (new_ClientRef (port r) (url r)) = Ret (start network (new_Client (port r) (url r))).
Proof. done. Qed.

(** [copyRsp] needs a response to copy into, which a new job does not have, and
    room for the data; then it replaces the beginning of the response's data by the
    data of the message and leaves the rest of the job as it is. *)
Theorem copyRsp_spec m js :
  msg_typed m → dataBytes m = Z.of_nat (length (data m)) →
  (jrsp js = None → copyRsp (msg_bytes m) js = Undef NullDeref) ∧
  ∀ rsp, jrsp js = Some rsp →
    ((length (data rsp) < length (data m))%nat → copyRsp (msg_bytes m) js = Undef OutOfBounds) ∧
    ((length (data m) ≤ length (data rsp))%nat → copyRsp (msg_bytes m) js =
      Ret (setRsp (Some (set_data rsp (data m ++ drop (length (data m)) (data rsp)))) js)).
Proof.
  intros Hty Hdb. pose proof (msg_of_bytes_app m [] Hty) as Hm. rewrite !app_nil_r in Hm.
  pose proof (read_bytes_0 (data m) [] (dataBytes m) Hdb) as Hr. rewrite app_nil_r in Hr.
  unfold copyRsp. rewrite Hm. cbn [mbind outcome_bind set_data dataBytes data]. split.
  - intros ->. done.
  - intros rsp ->. cbn [deref mbind outcome_bind]. rewrite Hr. cbn [mbind outcome_bind]. split.
    + intros Hlt. unfold write_bytes. rewrite (proj2 (Z.leb_gt (0 + _) _)) by lia. by rewrite andb_false_r.
    + intros Hle. rewrite <-(take_drop (length (data m)) (data rsp)) at 1.
      pose proof (write_bytes_slice [] (take (length (data m)) (data rsp))
        (drop (length (data m)) (data rsp)) (data m) 0 eq_refl) as Hw.
      cbn [app] in Hw. rewrite Hw by (rewrite length_take; lia). done.
Qed.

(** The timer counts whole milliseconds since its last start: the difference to the
    time in microseconds is less than one of them, and time adds up. *)
Theorem timer_counts t0 t1 t :
  t0 ≤ t1 → let ms := timer_end t1 (timer_start t0 t) in
  0 ≤ ms ∧ 1000 * ms ≤ t1 - t0 < 1000 * ms + 1000.
Proof.
  intros Ht ms. subst ms. unfold timer_end, timer_start. cbn [timer_c].
  rewrite Z.quot_div_nonneg by lia. pose proof (Z.div_mod (t1 - t0) 1000 ltac:(done)).
  pose proof (Z.mod_pos_bound (t1 - t0) 1000 ltac:(done)). lia.
Qed.

(** The flags are three independent registers. *)
Theorem QInfo_registers p q :
  getReadyQStatus (setReadyQStatus p q) = p ∧ getRunQStatus (setReadyQStatus p q) = getRunQStatus q ∧
  getFinishedQStatus (setReadyQStatus p q) = getFinishedQStatus q ∧
  getRunQStatus (setRunQStatus p q) = p ∧ getReadyQStatus (setRunQStatus p q) = getReadyQStatus q ∧
  getFinishedQStatus (setRunQStatus p q) = getFinishedQStatus q ∧
  getFinishedQStatus (setFinishedQStatus p q) = p ∧
  getReadyQStatus (setFinishedQStatus p q) = getReadyQStatus q ∧
  getRunQStatus (setFinishedQStatus p q) = getRunQStatus q.
Proof. done. Qed.

(** What the result of a job is recorded with is the composition of the setters. *)
Lemma setResult_setters measured actual rsp js :
  setResult measured actual rsp js =
    setRsp (Some rsp) (setActualExecutionTime actual (setMeasuredExecutionTime measured js)).
Proof. done. Qed.
