(* ===== verification/Handshake.v ===== *)
(** * Waiting for a job: concurrentHandler and finishedLoop

    The handler of a request waits on its own condition variable until the
    finished flag of its job is set; the finished thread sets the flag and
    notifies.  The handler's mutex is local to it, so the finished thread holds
    no lock that the handler's test and wait are protected by.  The accesses to
    the flag itself are atomic (JobInfo's locks). *)

From S2P Require Import Prelude.

(** The handler: at the test of the loop, past a test that failed and about to
    wait, in the wait set, past the loop. *)
Inductive handler_pc : Type := Testing | Entering | Asleep | Answering.

(** The finished thread: before [setFinished(true)], between it and
    [notify_all()], after it. *)
Inductive finisher_pc : Type := Working | Notifying | Gone.

#[export] Instance handler_pc_eq_dec : EqDecision handler_pc.
Proof. solve_decision. Defined.
#[export] Instance finisher_pc_eq_dec : EqDecision finisher_pc.
Proof. solve_decision. Defined.

Record wait_state := MkWait {
  handler : handler_pc;
  finisher : finisher_pc;
  is_finished : bool
}.

Definition submitted : wait_state := MkWait Testing Working false.

(** The steps of the two threads. *)
Inductive wait_step : wait_state → wait_state → Prop :=
| wait_test f b :
    wait_step (MkWait Testing f b) (MkWait (if b then Answering else Entering) f b)
| wait_enter f b : wait_step (MkWait Entering f b) (MkWait Asleep f b)
| wait_set h b : wait_step (MkWait h Working b) (MkWait h Notifying true)
| wait_notify h b :
    wait_step (MkWait h Notifying b)
      (MkWait (match h with Asleep => Testing | _ => h end) Gone b).

(** A condition variable may also wake its waiters without a notification. *)
Inductive spurious_step : wait_state → wait_state → Prop :=
| wait_spurious f b : spurious_step (MkWait Asleep f b) (MkWait Testing f b).

Definition any_step (s s' : wait_state) : Prop := wait_step s s' ∨ spurious_step s s'.

(** The only notification is over and the handler waits, or is about to. *)
Definition forgotten (s : wait_state) : Prop :=
  finisher s = Gone ∧ (handler s = Entering ∨ handler s = Asleep).

#[export] Instance forgotten_dec s : Decision (forgotten s).
Proof. unfold forgotten. apply _. Defined.

Definition answered_later (s : wait_state) : Prop :=
  ∃ s', rtc wait_step s s' ∧ handler s' = Answering.

(** ** Lemmas *)

(** The flag is set exactly from [setFinished] on, and the handler leaves its
    loop only with the flag set. *)
Definition wait_inv (s : wait_state) : Prop :=
  is_finished s = (match finisher s with Working => false | _ => true end) ∧
  (handler s = Answering → is_finished s = true).

Lemma wait_inv_reachable s : rtc any_step submitted s → wait_inv s.
Proof.
  revert s. apply (rtc_ind_r wait_inv submitted); [done|].
  intros s s' _ [Hst|Hst] [IHf IHa]; destruct Hst; unfold wait_inv in *; cbn in *; subst; repeat case_match; naive_solver.
Qed.

Lemma forgotten_step s s' : forgotten s → wait_step s s' → forgotten s'.
Proof. intros [Hg Hh] Hst. destruct Hst; cbn in *; subst; split; cbn; naive_solver. Qed.

Lemma forgotten_stays s s' : forgotten s → rtc wait_step s s' → forgotten s'.
Proof. intros Hf H. induction H; eauto using forgotten_step. Qed.

Lemma not_forgotten_answered s : wait_inv s → ¬ forgotten s → answered_later s.
Proof.
  intros [Hf Ha] Hn. destruct s as [h f b]. cbn in Hf. subst b.
  assert (Hend : answered_later (MkWait Testing Gone true)).
  { eexists. split; [apply rtc_once, wait_test|done]. }
  assert (Hasleep : answered_later (MkWait Asleep Notifying true)).
  { destruct Hend as (s'&Hs&He). exists s'. split; [|done].
    eapply rtc_l; [apply wait_notify|done]. }
  assert (Hworking : ∀ h, answered_later (MkWait h Notifying true) →
    answered_later (MkWait h Working false)).
  { intros h' (s'&Hs&He). exists s'. split; [|done]. eapply rtc_l; [apply wait_set|done]. }
  assert (Hnotify : answered_later (MkWait h Notifying true)).
  { destruct h; [..|by eexists].
    - eexists. split; [apply rtc_once, wait_test|done].
    - destruct Hasleep as (s'&Hs&He). exists s'. split; [|done]. eapply rtc_l; [apply wait_enter|done].
    - done. }
  destruct f; [by apply Hworking|done|].
  destruct h; [done| | |by eexists]; exfalso; apply Hn; split; cbn; auto.
Qed.

(** ** Properties *)

(** A client can wait for ever for a job that is finished.  The handler never
    answers before the finished flag is set; and in every reachable state it will
    be able to answer exactly if it has not been forgotten, that is, unless the
    one notification came between its test of the flag and its wait, which can
    happen because the finished thread takes no lock of the handler: such a
    state is reachable, and only a spurious wake-up leaves it. *)
Theorem handler_can_be_forgotten :
  (∀ s, rtc any_step submitted s →
     (handler s = Answering → is_finished s = true) ∧
     (answered_later s ↔ ¬ forgotten s)) ∧
  ∃ s, rtc wait_step submitted s ∧ forgotten s ∧ is_finished s = true ∧
    ∀ s', ¬ wait_step s s'.
Proof.
  split.
  - intros s Hs. apply wait_inv_reachable in Hs. split; [apply Hs|]. split.
    + intros (s'&Hs'&He) Hf. destruct (forgotten_stays _ _ Hf Hs') as [_ [E|E]]; congruence.
    + by apply not_forgotten_answered.
  - exists (MkWait Asleep Gone true). split_and!; [|by split; [|right]|done|by inversion 1].
    eapply rtc_l; [apply wait_test|]. eapply rtc_l; [apply wait_set|].
    eapply rtc_l; [apply wait_notify|]. cbn. apply rtc_once, wait_enter.
Qed.
