(* ===== verification/EndToEnd.v ===== *)
(** * A request through the whole system

    The client's stub (client_api.cpp, Client.cpp), the wire, the scheduler's
    handler and job thread (Scheduler.cpp) and the dispatcher
    (DispatcherServer.cpp) composed: what the caller's array holds after
    [movingAverage] returns. *)

From S2P Require Import Prelude CxxFloat ConcurrentDeque Message Server Client ClientFacts.
From S2P Require Import Dispatcher DispatcherFacts Job Scheduler.

#[local] Open Scope Z_scope.

(** ** The composition *)

(** The handler of the dispatcher's server. *)
Definition dispatcher_handler (lib : option DfeLib) (elapsed res : Z) (m : msg_t)
    : outcome (option msg_t) :=
  rsp ← handle_request lib m elapsed res; Ret (Some rsp).

(** A stream that arrives in at most two pieces, the first of at most [k] bytes. *)
Definition cut (k : nat) (bs : list Z) : list (list Z) :=
  if (length bs <=? k)%nat then [bs] else [take k bs; drop k bs].

(** What a server writes to a client that sends [bs] and then the closing
    message; [buf] is the connection's fresh buffer. *)
Definition answer_stream (h : msg_t → outcome (option msg_t)) (k : nat) (buf bs : list Z)
    : outcome (list Z) :=
  '(_, sk) ← connection_start h 1 buf (MkSocket (cut k bs ++ [msg_bytes msg_done]) [] true);
  Ret (written sk).

(** [concurrentHandler] for a job that is scheduled on the resources [rs]: the
    job's thread sends the request to the dispatcher, whose server answers it,
    and the response is filled from the result. *)
Definition run_request (lib : option DfeLib) (elapsed res : Z) (k : nat) (buf : list Z)
    (rs : ResourceList) (id : Z) (request response : msg_t) : outcome msg_t :=
  '(port, name, req) ← runJob_request (new_Job request id, rs);
  c ← send (MkClient port name (Connected (MkConn [] []))) req;
  s ← with_socket c;
  stream ← answer_stream (dispatcher_handler lib elapsed res) k buf (outgoing s);
  '(rsp, _) ← runJob_reply req stream;
  fill_response (Some rsp) response.

(** [Scheduler::handle_request]; [s] is the scheduler, and [now] the time, when the
    handler stops it or answers. *)
Definition scheduler_handler (s : Sched) (now : Z) (lib : option DfeLib) (elapsed res : Z) (k : nat)
    (buf : list Z) (rs : ResourceList) (id : Z) (request : msg_t) : outcome (option msg_t) :=
  match request_kind_of request with
  | Terminate => _ ← stop s now; Ret None
  | RunOption =>
      response ← new_response request;
      response ← run_request lib elapsed res k buf rs id request response;
      Ret (Some response)
  | RunAverage =>
      response ← new_response request;
      response ← run_request lib elapsed res k buf rs id request response;
      wt ← avg_wt_millis s;
      Ret (Some (set_avg_wt response wt))
  | Acknowledge => Ret (Some msg_ack)
  end.

(** ** The wire *)

Lemma cut_pieces k bs :
  (1 ≤ k)%nat → ∃ piece more, cut k bs = piece :: more ∧ bs = piece ++ mjoin more ∧
    Forall (λ p, p ≠ []) more ∧ length piece = Nat.min k (length bs).
Proof.
  intros Hk. unfold cut. destruct (Nat.leb_spec (length bs) k).
  - exists bs, []. rewrite app_nil_r. split_and!; done || lia.
  - exists (take k bs), [drop k bs]. split_and!; [done| | |by rewrite length_take].
    + cbn [mjoin list_join]. by rewrite app_nil_r, take_drop.
    + apply Forall_singleton. intros Hd. apply (f_equal length) in Hd.
      rewrite length_drop in Hd. simpl in Hd. lia.
Qed.

(** A server whose handler answers a request writes exactly the answer. *)
Lemma answer_stream_ret h k buf m reply :
  (69 ≤ k)%nat → msg_sent m → answers h m reply → (length (msg_bytes m) ≤ length buf)%nat →
  answer_stream h k buf (msg_bytes m) = Ret (msg_bytes reply).
Proof.
  intros Hk Hs Ha Hl. destruct (cut_pieces k (msg_bytes m)) as (piece&more&Hc&Hm&Hne&Hp); [lia|].
  rewrite length_msg_bytes in Hp, Hl. unfold answer_stream. rewrite Hc.
  rewrite <-app_comm_cons. unfold connection_start, handle_read. rewrite read_some_fits by lia.
  destruct (first_request_read h m reply piece more (followed_by []) buf []) as (m'&Hf&Hh);
    [done..|lia|].
  destruct (loop_serves h [] 1 (overlay piece buf) (Z.of_nat (length piece))
    (MkSocket (more ++ followed_by []) [] true) m' reply []) as [x Hx]; try done.
  - apply Ha.
  - rewrite length_overlay; lia.
  - simpl; lia.
  - change (followed_by []) with [msg_bytes msg_done] in Hx. rewrite Hx.
    cbn [mbind outcome_bind written]. by rewrite app_nil_l, app_nil_r.
Qed.

(** ** The scheduler between client and dispatcher *)

Lemma pack_rids_range rs : -128 ≤ pack_rids rs < 128.
Proof.
  unfold pack_rids. destruct rs as [|r rs _] using rev_ind; [simpl; lia|].
  rewrite foldl_app. cbn [foldl]. apply (swrap_range 8). lia.
Qed.

Lemma set_rids_sent m v : -128 ≤ v < 128 → msg_sent m → msg_sent (set_rids m v).
Proof.
  intros Hv [Hty Hs]. split; [|by rewrite length_msg_bytes in *].
  unfold msg_typed in *. unfold set_rids.
  cbn [msgId clientId priority avg_wt resourceType predictedTimeMillis targetExecutionTimeMillis
    rids expDataSizeBytes dataSize paramsSize totalBytes dataBytes]. intuition lia.
Qed.

Lemma result_msg_sent ms ints :
  int_range ms → Z.of_nat (length ints) ≤ MAX_N → msg_sent (result_msg ms ints).
Proof.
  intros Hms Hn. unfold msg_sent, msg_typed, result_msg, int_range, size_range, MAX_N, INT_MIN,
    INT_MAX, sizeof_msg, MSG_RESULT in *. rewrite length_msg_bytes.
  cbn [msgId clientId priority avg_wt resourceType predictedTimeMillis targetExecutionTimeMillis
    rids expDataSizeBytes dataSize paramsSize totalBytes dataBytes data].
  rewrite length_ints_bytes. split_and!; lia.
Qed.

(** The handler's response to a result: its own zeroed header, with the sizes and
    the data of the result. *)
Definition forwarded (rsp : msg_t) : msg_t :=
  Msg (msgId rsp) 0 0 0 0 0 0 0 0 (dataSize rsp) 0 (totalBytes rsp) (dataBytes rsp) (data rsp).

Lemma runJob_reply_ret req rsp :
  msg_sent rsp → msgId rsp = MSG_RESULT →
  sizeof_msg + expDataSizeBytes req = totalBytes rsp →
  runJob_reply req (msg_bytes rsp) = Ret (rsp, []).
Proof.
  intros (Hty&Ht&Hmax) Hid Hexp. pose proof (length_msg_bytes rsp). unfold INT_MAX in Hmax.
  unfold runJob_reply, reply_size. rewrite Hexp.
  rewrite (wrap_small 64 (totalBytes rsp)), swrap_small, wrap_small by lia.
  unfold calloc. rewrite (proj2 (Z.leb_gt _ _)) by lia.
  rewrite Ht, Nat2Z.id. by apply await_result_now.
Qed.

Lemma response_forwards req rsp :
  msg_sent rsp → dataBytes rsp = Z.of_nat (length (data rsp)) →
  expDataSizeBytes req = dataBytes rsp →
  ∃ r0, new_response req = Ret r0 ∧ fill_response (Some rsp) r0 = Ret (forwarded rsp).
Proof.
  intros (Hty&Ht&Hmax) Hdb Hexp. rewrite length_msg_bytes in Ht. unfold INT_MAX in Hmax.
  unfold new_response. rewrite Hexp, wrap_small by (unfold sizeof_msg in *; lia).
  rewrite calloc_msg_ok by (unfold sizeof_msg; lia). eexists. split; [done|]. unfold fill_response.
  pose proof (read_bytes_0 (data rsp) [] (dataBytes rsp) Hdb) as Hr. rewrite app_nil_r in Hr.
  rewrite Hr. cbn [mbind outcome_bind data].
  pose proof (write_bytes_slice [] (replicate (Z.to_nat (dataBytes rsp)) 0) [] (data rsp) 0
    eq_refl) as Hw.
  rewrite !app_nil_r in Hw. simpl in Hw. by rewrite Hw by (rewrite length_replicate; lia).
Qed.

Lemma forwarded_sent rsp wt :
  int_range wt → msg_sent rsp → msg_sent (set_avg_wt (forwarded rsp) wt).
Proof.
  intros Hw ((?&?&?&?&?&?&?&?&?&?&?&?&?)&Hs). split; [|by rewrite length_msg_bytes in *].
  unfold msg_typed, set_avg_wt, forwarded. simpl. unfold int_range, size_range, INT_MIN, INT_MAX in *.
  split_and!; done || lia.
Qed.

(** What the dispatcher answers reaches the response, whatever the request is. *)
Lemma run_request_relays lib m rest rsp elapsed res k buf r rs id :
  msg_sent m → answers (dispatcher_handler lib elapsed res) (set_rids m (pack_rids (r :: rs))) rsp →
  msgId rsp = MSG_RESULT → dataBytes rsp = Z.of_nat (length (data rsp)) →
  expDataSizeBytes m = dataBytes rsp → (69 ≤ k)%nat → (length (msg_bytes m) ≤ length buf)%nat →
  let request := set_data m (data m ++ rest) in
  ∃ r0, new_response request = Ret r0 ∧
    run_request lib elapsed res k buf (r :: rs) id request r0 = Ret (forwarded rsp).
Proof.
  intros Hm Ha Hid Hdb Hexp Hk Hbuf request. pose proof Ha as [_ Hrsp].
  destruct (response_forwards request rsp Hrsp Hdb) as (r0&Hr0&Hfill); [done|].
  exists r0. split; [done|]. unfold run_request, runJob_request. cbn [snd fst Deque.front].
  cbn [mbind outcome_bind]. set (ids := pack_rids (r :: rs)) in *.
  change (set_rids (jreq (new_Job request id)) ids)
    with (set_data (set_rids m ids) (data (set_rids m ids) ++ rest)).
  assert (Hm' : msg_sent (set_rids m ids)) by (by apply set_rids_sent; [apply pack_rids_range|]).
  erewrite send_buffered by (done || apply Hm').
  cbn [mbind outcome_bind with_socket socket outgoing app].
  rewrite (answer_stream_ret _ k buf (set_rids m ids) rsp) by done.
  cbn [mbind outcome_bind]. rewrite runJob_reply_ret; [|done..|].
  - cbn [mbind outcome_bind]. by rewrite Hfill.
  - destruct Hrsp as (_&Ht&_). rewrite length_msg_bytes in Ht.
    cbn [set_data set_rids expDataSizeBytes]. rewrite Hexp, Hdb. unfold sizeof_msg. lia.
Qed.

Lemma avg_wt_millis_range s wt : avg_wt_millis s = Ret wt → int_range wt.
Proof.
  unfold avg_wt_millis. intros H. inv_ret. pose proof (swrap_range 32 a ltac:(lia)).
  unfold int_range, INT_MIN, INT_MAX. lia.
Qed.

(** The dispatcher answers a moving average, whatever resources were chosen. *)
Lemma dispatcher_answers_average size dataIn m elapsed res ids :
  (1 ≤ size ≤ length dataIn)%nat → (size < 128)%nat → Z.of_nat (length dataIn) ≤ MAX_N →
  Forall int_range dataIn → windows_ok size dataIn →
  msgId m = MSG_MOVING_AVG → dataSize m = Z.of_nat (length dataIn) →
  data m = ints_bytes dataIn ++ le_bytes 8 (Z.of_nat size) →
  answers (dispatcher_handler None elapsed res) (set_rids m ids)
    (result_msg (i32 elapsed) (kernel_result size dataIn)).
Proof.
  intros Hs H128 Hmax Hint Hok Hid Hds Hd. split.
  - intros rest. unfold dispatcher_handler.
    rewrite (handle_moving_avg_ret _ size dataIn rest); try done.
    cbn [set_data set_rids data]. by rewrite Hd, <-app_assoc.
  - apply result_msg_sent; [|by rewrite length_kernel_result].
    pose proof (swrap_range 32 elapsed ltac:(lia)). unfold int_range, INT_MIN, INT_MAX. lia.
Qed.

(** The scheduler's handler answers a moving-average request with the result of
    the dispatcher. *)
Lemma scheduler_answers s now size dataIn m elapsed res k buf r rs id wt :
  (1 ≤ size ≤ length dataIn)%nat → (size < 128)%nat → Z.of_nat (length dataIn) ≤ MAX_N →
  Forall int_range dataIn → windows_ok size dataIn →
  msg_sent m → msgId m = MSG_MOVING_AVG → dataSize m = Z.of_nat (length dataIn) →
  expDataSizeBytes m = 4 * Z.of_nat (length dataIn) →
  data m = ints_bytes dataIn ++ le_bytes 8 (Z.of_nat size) →
  (69 ≤ k)%nat → (length (msg_bytes m) ≤ length buf)%nat → avg_wt_millis s = Ret wt →
  answers (scheduler_handler s now None elapsed res k buf (r :: rs) id) m
    (set_avg_wt (forwarded (result_msg (i32 elapsed) (kernel_result size dataIn))) wt).
Proof.
  intros Hs H128 Hmax Hint Hok Hm Hid Hds Hexp Hd Hk Hbuf Hwt.
  set (rsp := result_msg _ _). pose proof (length_kernel_result size dataIn Hs) as Hkl.
  pose proof (dispatcher_answers_average size dataIn m elapsed res (pack_rids (r :: rs))) as Ha.
  specialize (Ha Hs H128 Hmax Hint Hok Hid Hds Hd).
  split; [|apply forwarded_sent; [by eapply avg_wt_millis_range|apply Ha]].
  intros rest. unfold scheduler_handler, request_kind_of.
  change (msgId (set_data m _)) with (msgId m). rewrite Hid. cbv match.
  destruct (run_request_relays None m rest rsp elapsed res k buf r rs id) as (r0&Hr0&Hrun);
    try done.
  - cbn [rsp result_msg dataBytes data]. rewrite length_ints_bytes. lia.
  - cbn [rsp result_msg dataBytes]. by rewrite Hexp, Hkl.
  - change (MSG_MOVING_AVG =? MSG_TERM) with false.
    change (MSG_MOVING_AVG =? MSG_OPTION_PRICE) with false.
    rewrite Z.eqb_refl. rewrite Hr0. cbn [mbind outcome_bind]. rewrite Hrun.
    cbn [mbind outcome_bind]. by rewrite Hwt.
Qed.

(** ** Properties *)

(** The request [movingAverage] sends. *)
Definition avg_request (size : nat) (dataIn : list Z) (id : Z) : msg_t :=
  let n := Z.of_nat (length dataIn) in
  Msg MSG_MOVING_AVG id 0 0 0 0 0 0 (4 * n) n 1 (77 + 4 * n) (4 * n + 8)
    (ints_bytes dataIn ++ le_bytes 8 (Z.of_nat size)).

Lemma avg_request_sent size dataIn id :
  Z.of_nat (length dataIn) ≤ MAX_N → int_range id → msg_sent (avg_request size dataIn id).
Proof.
  intros Hn Hid. unfold msg_sent, msg_typed, avg_request, int_range, size_range, MAX_N, INT_MIN,
    INT_MAX, MSG_MOVING_AVG in *. rewrite length_msg_bytes.
  cbn [msgId clientId priority avg_wt resourceType predictedTimeMillis targetExecutionTimeMillis
    rids expDataSizeBytes dataSize paramsSize totalBytes dataBytes data].
  rewrite length_app, length_ints_bytes, length_le_bytes. split_and!; lia.
Qed.

(** The stub of the client against a server that answers with a result of the
    announced size. *)
Lemma movingAverage_ret network env id port size dataIn out reply :
  Z.of_nat (length dataIn) ≤ MAX_N → client_id env = Ret id → client_port id = Ret port →
  network port "localhost" = Some (MkConn (msg_bytes reply) []) →
  msg_sent reply → dataBytes reply = 4 * Z.of_nat (length dataIn) →
  length (data reply) = (4 * length dataIn)%nat → length out = (4 * length dataIn)%nat →
  movingAverage network env (Z.of_nat (length dataIn)) (Z.of_nat size) dataIn out =
    Ret (data reply, MkClient port "localhost" (Connected (MkConn []
      (msg_bytes (avg_request size dataIn id) ++ msg_bytes msg_done)))).
Proof.
  intros Hmax Hid Hport Hnet Hr Hdb Hlr Hlo. pose proof Hmax as Hn. unfold MAX_N in Hn.
  unfold movingAverage. rewrite (swrap_small 32 (Z.of_nat (length dataIn))) by lia.
  rewrite (msg_moving_avg_ret _ _ dataIn) by done. cbn [mbind outcome_bind].
  rewrite Hid. cbn [mbind outcome_bind]. rewrite Hport. cbn [mbind outcome_bind].
  replace (i32 (u64 (Z.of_nat (length dataIn) * sizeof_int))) with (dataBytes reply)
    by (unfold sizeof_int; rewrite (wrap_small 64) by lia; rewrite swrap_small by lia; lia).
  pose proof (avg_request_sent size dataIn id Hmax (client_id_range _ _ Hid)) as Hs.
  destruct Hr as (Hty&_). rewrite (exchange_spec network port _ reply out); try done.
  - apply Hs.
  - lia.
  - lia.
  - unfold sizeof_msg, INT_MAX. lia.
Qed.


(** ** Witnesses *)

(** A scheduler with one resource that has not scheduled anything. *)
Definition sample_sched : Sched :=
  MkSched [] [] [] [MkResource 1 8122 "localhost" "DFE"] ∅ main_algs 5 "Completion Time" 1 2 1
    8122 "localhost" (new_Stats 0 f_zero).

