(* ===== verification/SchedulerFacts.v ===== *)
(** * Properties of the scheduler's operations

    Functional behaviour of allocation, claiming and returning of resources,
    of moving jobs between the queues, of the elasticity manager and of the
    request a job sends; the algorithms are in AlgFacts.v. *)

From S2P Require Import Prelude CxxFloat StdAlg ConcurrentDeque Message Job Scheduler.

(** ** Resources *)

Lemma set_resPool_id s : set_resPool s (resPool s) = s.
Proof. by destruct s. Qed.

Lemma allocate_loop_spec n pool acc :
  ∃ rs, allocate_loop n pool acc = Ret (acc ++ rs, take (length pool - n) pool) ∧
    rs = reverse (drop (length pool - n) pool).
Proof.
  revert pool acc. induction n as [|n IH]; intros pool acc; simpl.
  - exists []. rewrite app_nil_r, Nat.sub_0_r, take_ge, drop_ge by lia. done.
  - destruct pool as [|r pool _] using rev_ind; simpl.
    + exists []. by rewrite app_nil_r.
    + rewrite length_app. simpl.
      replace (0 <? length pool + 1)%nat with true by (symmetry; apply Nat.ltb_lt; lia).
      rewrite Deque.wait_pop_back_snoc. cbn [mbind outcome_bind].
      destruct (IH pool (acc ++ [r])) as (rs & -> & ->).
      replace (length pool + 1 - S n)%nat with (length pool - n)%nat by lia.
      rewrite take_app_le, drop_app_le by lia. rewrite reverse_app. simpl.
      eexists. split; [|done]. by rewrite <-(assoc_L (++)).
Qed.

Lemma allocate_spec s j mx mn :
  ∃ rs pool', allocate s j mx mn = Ret (rs, set_resPool s pool') ∧
    resPool s = pool' ++ reverse rs ∧
    length rs = if (mn <=? resPoolSize s)%nat then (mx `min` resPoolSize s)%nat else 0%nat.
Proof.
  unfold allocate, resPoolSize, Deque.size. case_match.
  - destruct (allocate_loop_spec mx (resPool s) []) as (rs & -> & ->).
    cbn [mbind outcome_bind]. simpl. do 2 eexists. split; [done|]. split.
    + by rewrite reverse_involutive, take_drop.
    + autorewrite with hlen. lia.
  - exists [], (resPool s). rewrite set_resPool_id. split_and!; auto. by rewrite app_nil_r.
Qed.

(** The same with the pool up to order. *)
Lemma allocate_perm s j mx mn :
  ∃ rs pool', allocate s j mx mn = Ret (rs, set_resPool s pool') ∧
    resPool s ≡ₚ pool' ++ rs ∧
    length rs = (if (mn <=? resPoolSize s)%nat then mx `min` resPoolSize s else 0)%nat.
Proof.
  destruct (allocate_spec s j mx mn) as (rs & pool' & -> & Hp & Hl).
  exists rs, pool'. split_and!; auto. rewrite Hp. by rewrite (reverse_Permutation rs).
Qed.

Lemma returnResources_eq s rs : returnResources s rs = set_resPool s (resPool s ++ rs).
Proof.
  unfold returnResources. revert s. induction rs as [|r rs IH]; intros s; simpl.
  - by rewrite app_nil_r, set_resPool_id.
  - rewrite IH. unfold addResource, Deque.push_back. simpl. rewrite Resource_copy_id.
    by rewrite <-(assoc_L (++)).
Qed.

Lemma returnAllocations_eq s a :
  returnAllocations s a = set_resPool s (resPool s ++ aresources a).
Proof.
  unfold returnAllocations, aresources. generalize (ajobs a) as l. clear a.
  intros l. revert s. induction l as [|[j rs] l IH]; intros s; csimpl.
  - by rewrite app_nil_r, set_resPool_id.
  - rewrite IH, returnResources_eq. simpl. by rewrite <-(assoc_L (++)).
Qed.

(** Claiming a resource that is in a pool with distinct ids. *)
Lemma claim_one_in s r :
  NoDup (rid <$> resPool s) → r ∈ resPool s →
  ∃ pool', claim_one s r = Ret (set_resPool s pool') ∧ resPool s ≡ₚ r :: pool'.
Proof.
  intros Hnd Hr. unfold claim_one.
  destruct (find_if_is_Some (Resource_eqb r) (resPool s) r Hr) as [i Hi].
  { unfold Resource_eqb. by rewrite Z.eqb_refl. }
  rewrite Hi. simpl. eexists. split; [done|].
  apply find_if_Some in Hi as (x & Hx & Hxe & _). unfold Resource_eqb in Hxe. zbool.
  assert (x = r) as ->.
  { apply list_elem_of_lookup in Hr as [k Hk].
    assert (i = k) as <-; [|congruence].
    apply (NoDup_lookup (rid <$> resPool s) i k (rid r) Hnd);
      rewrite list_lookup_fmap, ?Hx, ?Hk; simpl; congruence. }
  by apply delete_Permutation.
Qed.

(** Claiming a resource whose id is not in the pool erases [end()]. *)
Lemma claim_one_missing s r :
  rid r ∉ rid <$> resPool s → claim_one s r = Undef EraseEnd.
Proof.
  intros H. unfold claim_one. rewrite (proj2 (find_if_None _ _)); [done|].
  apply Forall_forall. intros x Hx. unfold Resource_eqb. apply Z.eqb_neq. intros E.
  apply H. rewrite E. by apply list_elem_of_fmap_2.
Qed.

Lemma claimResources_spec s rs rest :
  NoDup (rid <$> resPool s) → resPool s ≡ₚ rs ++ rest →
  ∃ pool', claimResources s rs = Ret (set_resPool s pool') ∧ pool' ≡ₚ rest.
Proof.
  revert s. induction rs as [|r rs IH]; intros s Hnd Hp; simpl.
  - exists (resPool s). by rewrite set_resPool_id.
  - destruct (claim_one_in s r) as (p1 & -> & Hp1); auto.
    { rewrite Hp. constructor. }
    cbn [mbind outcome_bind].
    destruct (IH (set_resPool s p1)) as (p2 & -> & Hp2); simpl.
    + rewrite Hp1 in Hnd. csimpl in Hnd. by apply NoDup_cons in Hnd as [_ ?].
    + rewrite Hp1 in Hp. by apply (inj (r ::.)) in Hp.
    + by exists p2.
Qed.

(** If some resource is missing from the pool, claiming is undefined. *)
Lemma claimResources_missing s rs r :
  NoDup (rid <$> rs) → r ∈ rs → rid r ∉ rid <$> resPool s →
  ∃ u, claimResources s rs = Undef u.
Proof.
  revert s. induction rs as [|x rs IH]; intros s Hnd Hr Hm; [by apply elem_of_nil in Hr|].
  csimpl in Hnd. apply NoDup_cons in Hnd as [Hx Hnd]. simpl.
  apply elem_of_cons in Hr as [->|Hr].
  - rewrite claim_one_missing by done. by eexists.
  - unfold claim_one. destruct (find_if (Resource_eqb x) (resPool s)) as [i|] eqn:E; simpl.
    + apply IH; auto. simpl. intros Hin. apply Hm.
      apply list_elem_of_fmap in Hin as (y & -> & Hy). apply list_elem_of_fmap_2.
      by eapply elem_of_submseteq, submseteq_delete.
    + by eexists.
Qed.

(** ** Jobs and queues *)

(** The members that scheduling a job leaves alone. *)
Definition same_config (s s' : Sched) : Prop :=
  finishedQ s' = finishedQ s ∧ algVec s' = algVec s ∧ window s' = window s ∧
  strat s' = strat s ∧ nextJid s' = nextJid s ∧ resourceId s' = resourceId s ∧
  provisionedResources s' = provisionedResources s ∧
  dispatcherPortNumber s' = dispatcherPortNumber s ∧
  dispatcherHostname s' = dispatcherHostname s ∧ stats s' = stats s.

#[export] Instance same_config_po : PreOrder same_config.
Proof.
  split; [by intros s; repeat split|].
  unfold same_config. intros s1 s2 s3. intuition congruence.
Qed.

Lemma find_job_in j q :
  NoDup (jid <$> q) → j ∈ q →
  ∃ i, find_if (idEqrq (jid j)) q = Some i ∧ q ≡ₚ j :: delete i q.
Proof.
  intros Hnd Hj. destruct (find_if_is_Some (idEqrq (jid j)) q j Hj) as [i Hi].
  { apply Z.eqb_refl. }
  exists i. split; [done|]. apply find_if_Some in Hi as (x & Hx & Hxe & _).
  apply Z.eqb_eq in Hxe. apply list_elem_of_lookup in Hj as [k Hk].
  assert (i = k) as ->.
  { apply (NoDup_lookup (jid <$> q) i k (jid j) Hnd);
      rewrite list_lookup_fmap, ?Hx, ?Hk; simpl; congruence. }
  by apply delete_Permutation.
Qed.

Lemma removeJobFromReadyQ_in s j rs :
  NoDup (jid <$> readyQ s) → j ∈ readyQ s →
  ∃ q', removeJobFromReadyQ s (j, rs) = Ret (set_readyQ s q') ∧ readyQ s ≡ₚ j :: q' ∧
    q' `sublist_of` readyQ s.
Proof.
  intros Hnd Hj. unfold removeJobFromReadyQ, readyQSize, Deque.size. simpl.
  destruct (find_job_in j (readyQ s) Hnd Hj) as (i & Hi & Hp). rewrite Hi. simpl.
  destruct (readyQ s) as [|x q] eqn:E; [by apply elem_of_nil in Hj|]. simpl.
  eexists. split; [done|]. split; [done|]. apply sublist_delete.
Qed.

Lemma serviceAllocations_loop_spec s now js rest :
  NoDup (rid <$> resPool s) → resPool s ≡ₚ mjoin js.*2 ++ rest →
  NoDup (jid <$> readyQ s) → js.*1 ⊆+ readyQ s →
  ∃ s', serviceAllocations_loop s now js = Ret s' ∧ resPool s' ≡ₚ rest ∧
    runQ s' = reverse js ++ runQ s ∧ readyQ s ≡ₚ js.*1 ++ readyQ s' ∧
    readyQ s' `sublist_of` readyQ s ∧ same_config s s'.
Proof.
  revert s. induction js as [|[j rs] js IH]; intros s Hnd Hp Hj Hsub; csimpl in *.
  - exists s. split_and!; auto. reflexivity.
  - destruct (removeJobFromReadyQ_in s j rs) as (q1 & -> & Hq1 & Hsl); auto.
    { eapply elem_of_submseteq; [|exact Hsub]. constructor. }
    cbn [mbind outcome_bind]. rewrite <-(assoc_L (++)) in Hp.
    destruct (claimResources_spec (set_readyQ s q1) rs (mjoin js.*2 ++ rest))
      as (p1 & -> & Hp1); auto.
    cbn [mbind outcome_bind].
    assert (Hnd1 : NoDup (rid <$> p1)).
    { rewrite Hp, fmap_app in Hnd. rewrite Hp1. by apply NoDup_app in Hnd as (_&_&?). }
    assert (Hj1 : NoDup (jid <$> q1)).
    { rewrite Hq1 in Hj. csimpl in Hj. by apply NoDup_cons in Hj as [_ ?]. }
    assert (Hsub1 : js.*1 ⊆+ q1).
    { rewrite Hq1 in Hsub. by apply (submseteq_app_inv_l _ _ [j]) in Hsub. }
    destruct (IH (addToRunQ (set_resPool (set_readyQ s q1) p1) now (j, rs)))
      as (s' & -> & Hr & Hrun & Hq & Hsl' & Hc); auto.
    exists s'. split_and!; auto.
    + rewrite Hrun, reverse_cons. unfold addToRunQ, Deque.push_front. simpl.
      by rewrite <-(assoc_L (++)).
    + rewrite Hq1. simpl. f_equiv. done.
    + etrans; [exact Hsl'|exact Hsl].
Qed.

(** ** Properties *)

(** Allocate never blocks; when the pool holds at least the minimum it takes
    min(max_res, pool size) resources off the back of the pool, last one first,
    and otherwise it takes nothing. *)
Theorem allocate_takes_back s j max_res min_res :
  ∃ rs pool', allocate s j max_res min_res = Ret (rs, set_resPool s pool') ∧
    resPool s = pool' ++ reverse rs ∧
    length rs = if (min_res <=? resPoolSize s)%nat
                then (max_res `min` resPoolSize s)%nat else 0%nat.
Proof. apply allocate_spec. Qed.

(** Putting back what allocate took restores the pool up to order, and the
    rest of the scheduler's state exactly. *)
Theorem allocate_return_roundtrip s j max_res min_res rs s1 :
  allocate s j max_res min_res = Ret (rs, s1) →
  ∃ pool, returnResources s1 rs = set_resPool s pool ∧ pool ≡ₚ resPool s.
Proof.
  destruct (allocate_perm s j max_res min_res) as (rs' & pool' & -> & Hp & _).
  intros [= <- <-]. exists (pool' ++ rs'). by rewrite returnResources_eq, Hp.
Qed.

(** Servicing an allocation whose resources are in the pool (ids distinct) and
    whose jobs are in the ready queue (ids distinct) succeeds: its jobs leave the
    ready queue, whose order is kept, its resources leave the pool, and its pairs
    are pushed to the front of the run queue one by one; nothing else of the
    configuration changes. *)
Theorem serviceAllocations_moves s now a rest :
  NoDup (rid <$> resPool s) → resPool s ≡ₚ aresources a ++ rest →
  NoDup (jid <$> readyQ s) → (ajobs a).*1 ⊆+ readyQ s →
  ∃ s', serviceAllocations s now a = Ret s' ∧ resPool s' ≡ₚ rest ∧
    runQ s' = reverse (ajobs a) ++ runQ s ∧ readyQ s ≡ₚ (ajobs a).*1 ++ readyQ s' ∧
    readyQ s' `sublist_of` readyQ s ∧ same_config s s'.
Proof. apply serviceAllocations_loop_spec. Qed.

(** ** The elasticity manager *)

Definition ids_bounded (s : Sched) : Prop :=
  (INT_MIN ≤ resourceId s < INT_MAX ∧ INT_MIN ≤ provisionedResources s < INT_MAX)%Z.

Lemma provisionResource_ret s :
  ids_bounded s →
  provisionResource s = Ret (set_provisioned (set_resourceId (set_resPool s
    (resPool s ++ [MkResource (resourceId s) (dispatcherPortNumber s)
                     (dispatcherHostname s) "DFE"]))
    (resourceId s + 1)) (provisionedResources s + 1))%Z.
Proof.
  unfold ids_bounded. intros [H1 H2]. unfold provisionResource, addNewResource. simpl.
  rewrite int_of_in by lia. cbn [mbind outcome_bind]. simpl.
  rewrite int_of_in by lia. done.
Qed.

Lemma deprovisionResource_ret s p r :
  (0 < provisionedResources s)%Z → resPool s = p ++ [r] →
  deprovisionResource s =
    Ret (set_resPool (set_provisioned s (provisionedResources s - 1)) p)%Z.
Proof.
  intros Hpos Hp. unfold deprovisionResource. rewrite (proj2 (Z.ltb_lt _ _)) by done.
  simpl. rewrite Hp, Deque.wait_pop_back_snoc. done.
Qed.

(** The elasticity manager.  A negative JLO metric (targets missed) adds one
    DFE of the dispatcher with a new id to the back of the pool; a metric above
    one second removes the resource at the back of the pool; otherwise, and when
    no resource is provisioned, the scheduler is unchanged; on an empty pool the
    removal blocks the scheduler thread. *)
Theorem updateResourcePool_cases s a :
  ids_bounded s →
  (SFltb (getJLOMetric a) f_zero = true →
    ∃ s', updateResourcePool s a = Ret s' ∧
      resPool s' = resPool s ++ [MkResource (resourceId s) (dispatcherPortNumber s)
                                   (dispatcherHostname s) "DFE"] ∧
      (resourceId s' = resourceId s + 1)%Z ∧
      (provisionedResources s' = provisionedResources s + 1)%Z ∧ readyQ s' = readyQ s) ∧
  (SFltb (getJLOMetric a) f_zero = false → SFltb (f64_of_Z 1) (getJLOMetric a) = true →
    (0 < provisionedResources s)%Z →
    (resPool s = [] → updateResourcePool s a = Blocked) ∧
    (∀ p r, resPool s = p ++ [r] →
      updateResourcePool s a =
        Ret (set_resPool (set_provisioned s (provisionedResources s - 1)) p)%Z)) ∧
  (SFltb (getJLOMetric a) f_zero = false →
    SFltb (f64_of_Z 1) (getJLOMetric a) = false ∨ (provisionedResources s ≤ 0)%Z →
    updateResourcePool s a = Ret s).
Proof.
  intros Hb. unfold updateResourcePool. split_and!.
  - intros ->. rewrite provisionResource_ret by done. by eexists.
  - intros -> -> Hpos. split.
    + intros Hp. unfold deprovisionResource. rewrite (proj2 (Z.ltb_lt _ _)) by done.
      simpl. by rewrite Hp.
    + intros p r Hp. by apply deprovisionResource_ret with r.
  - intros -> H. case_match; [|done]. destruct H as [?|H]; [congruence|].
    unfold deprovisionResource. by rewrite (proj2 (Z.ltb_ge _ _)).
Qed.

(** ** The resource ids of a request *)

Definition has_rid (k : Z) (rs : list Resource) : bool := existsb (λ r, (rid r =? k)%Z) rs.

Definition dfe_id (r : Resource) : bool := ((1 <=? rid r) && (rid r <=? 4))%Z.

Lemma has_rid_snoc k rs r : has_rid k (rs ++ [r]) = has_rid k rs || (rid r =? k)%Z.
Proof. unfold has_rid. rewrite existsb_app. simpl. by rewrite orb_false_r. Qed.

Lemma pack_rids_bits rs :
  (pack_rids rs = Z.b2z (has_rid 1 rs) + 2 * Z.b2z (has_rid 2 rs) + 4 * Z.b2z (has_rid 3 rs)
    + 8 * Z.b2z (has_rid 4 rs))%Z.
Proof.
  unfold pack_rids. induction rs as [|r rs IH] using rev_ind; [done|].
  rewrite foldl_app, !has_rid_snoc. simpl. rewrite IH. unfold rid_bit.
  destruct (Z.eqb_spec (rid r) 1) as [E|?]; [rewrite E|
    destruct (Z.eqb_spec (rid r) 2) as [E|?]; [rewrite E|
    destruct (Z.eqb_spec (rid r) 3) as [E|?]; [rewrite E|
    destruct (Z.eqb_spec (rid r) 4) as [E|?]]]];
    destruct (has_rid 1 rs), (has_rid 2 rs), (has_rid 3 rs), (has_rid 4 rs); reflexivity.
Qed.

Lemma has_rid_false_notin k rs : k ∉ rid <$> rs → has_rid k rs = false.
Proof.
  intros H. unfold has_rid. apply not_true_iff_false. rewrite existsb_exists.
  intros (r & Hr & E). zbool. apply H. rewrite <-E. by apply list_elem_of_fmap_2, list_elem_of_In.
Qed.

Lemma count_dfe_ids rs :
  NoDup (rid <$> rs) →
  (Z.of_nat (length (List.filter dfe_id rs)) = Z.b2z (has_rid 1 rs) + Z.b2z (has_rid 2 rs)
    + Z.b2z (has_rid 3 rs) + Z.b2z (has_rid 4 rs))%Z.
Proof.
  induction rs as [|r rs IH]; [done|]. csimpl. intros [Hr Hnd]%NoDup_cons.
  specialize (IH Hnd). unfold dfe_id at 1.
  destruct (decide (1 ≤ rid r ≤ 4)%Z) as [Hin|Hout].
  - rewrite !(proj2 (Z.leb_le _ _)) by lia. cbn [andb length]. apply has_rid_false_notin in Hr.
    assert (rid r = 1 ∨ rid r = 2 ∨ rid r = 3 ∨ rid r = 4)%Z as [E|[E|[E|E]]] by lia;
      rewrite E in *; cbn; rewrite Hr in IH; simpl in IH; lia.
  - assert ((1 <=? rid r)%Z && (rid r <=? 4)%Z = false) as ->.
    { destruct (Z.leb_spec 1 (rid r)), (Z.leb_spec (rid r) 4); simpl; lia. }
    rewrite IH. unfold has_rid at 5 6 7 8. simpl.
    rewrite !(proj2 (Z.eqb_neq (rid r) _)) by lia. done.
Qed.

(** The request runJob sends carries one bit per allocated resource with an id
    between 1 and 4, so the number of DFEs the dispatcher counts in it is the
    number of such resources; a resource with a higher id is not transmitted. *)
Theorem runJob_request_nDfes j rs p host req :
  NoDup (rid <$> rs) → runJob_request (j, rs) = Ret (p, host, req) →
  nDfes req = Z.of_nat (length (List.filter dfe_id rs)) ∧
  ∃ r rs', rs = r :: rs' ∧ p = port r ∧ host = url r.
Proof.
  intros Hnd. unfold runJob_request. simpl. destruct rs as [|r rs']; [done|].
  cbn [Deque.front mbind outcome_bind]. intros [= <- <- <-]. split; [|by eexists _, _].
  rewrite count_dfe_ids by done. unfold nDfes, set_rids. simpl rids.
  rewrite pack_rids_bits.
  destruct (has_rid 1 _), (has_rid 2 _), (has_rid 3 _), (has_rid 4 _); reflexivity.
Qed.

(** ** Instances *)

(** Two jobs wait, two DFEs (ids 1 and 2) are free. *)
Module Small.

Definition dfe (id : Z) : Resource := MkResource id 8111 "localhost" "DFE".
Definition req (client : Z) : msg_t :=
  Msg MSG_MOVING_AVG client 0 0 0 1000 1500 0 0 0 0 0 0 [].
Definition job (id : Z) : Job := new_Job (req id) id.

Definition s : Sched :=
  MkSched [job 2; job 1] [] [] [dfe 1; dfe 2] ∅ main_algs 5 "Completion Time" 3 3 2 8111
    "localhost" (new_Stats 0 f_zero).

Definition a : Allocations := MkAllocations [(job 2, [dfe 2])] 0.

End Small.

Lemma allocate_return_roundtrip_witness :
  ∃ pool, returnResources (set_resPool Small.s [Small.dfe 1]) [Small.dfe 2] =
      set_resPool Small.s pool ∧ pool ≡ₚ resPool Small.s.
Proof.
  apply (allocate_return_roundtrip Small.s (Small.job 2) 1 1 [Small.dfe 2]). reflexivity.
Defined.

Lemma serviceAllocations_moves_witness :
  ∃ s', serviceAllocations Small.s 7 Small.a = Ret s' ∧ resPool s' ≡ₚ [Small.dfe 1] ∧
    runQ s' = [(Small.job 2, [Small.dfe 2])] ∧
    [Small.job 2; Small.job 1] ≡ₚ [Small.job 2] ++ readyQ s' ∧
    readyQ s' `sublist_of` [Small.job 2; Small.job 1] ∧ same_config Small.s s'.
Proof.
  apply (serviceAllocations_moves Small.s 7 Small.a [Small.dfe 1]).
  - by apply (bool_decide_unpack _).
  - apply Permutation_swap.
  - by apply (bool_decide_unpack _).
  - simpl. apply submseteq_skip, submseteq_nil_l.
Defined.

Lemma updateResourcePool_cases_witness :
  ∃ s', updateResourcePool Small.s
      (MkAllocations [(new_Job (Msg MSG_MOVING_AVG 1 0 0 0 2000 1500 0 0 0 0 0 0 []) 9,
         [Small.dfe 2])] 0) = Ret s' ∧
    resPool s' = [Small.dfe 1; Small.dfe 2; Small.dfe 3] ∧ resourceId s' = 4%Z ∧
    provisionedResources s' = 3%Z ∧ readyQ s' = readyQ Small.s.
Proof.
  apply (updateResourcePool_cases Small.s); [|vm_compute; reflexivity].
  unfold ids_bounded, INT_MIN, INT_MAX. simpl. lia.
Defined.

Lemma runJob_request_nDfes_witness :
  nDfes (set_rids (Small.req 1) 3) = 2%Z ∧
  ∃ r rs', [Small.dfe 1; Small.dfe 2; Small.dfe 7] = r :: rs' ∧ 8111%Z = port r ∧
    "localhost" = url r.
Proof.
  apply (runJob_request_nDfes (Small.job 1) [Small.dfe 1; Small.dfe 2; Small.dfe 7]).
  - by apply (bool_decide_unpack _).
  - reflexivity.
Defined.
