(* ===== verification/IteratorRace.v ===== *)
(** * Iterators of a shared queue

    [Scheduler::removeJobFromReadyQ] looks for a job with iterators of the ready
    queue, and only its last call, [erase], takes the queue's lock.  The
    handlers of other connections push jobs meanwhile.  Here every call is a
    step of its own: the queue has a version, which a push changes, since
    inserting into a std::deque invalidates its iterators; an iterator is good
    for the version it was made for. *)

From S2P Require Import Prelude CxxFloat StdAlg ConcurrentDeque Message Job Scheduler SchedulerFacts.

Record VQueue := MkVQueue {
  vjobs : list Job;
  version : nat
}.

Record Iter := MkIter {
  position : nat;
  made_for : nat
}.

(** [push_front] by another thread. *)
Definition vpush (q : VQueue) (j : Job) : VQueue :=
  MkVQueue (Deque.push_front j (vjobs q)) (S (version q)).

Definition vpushes (js : list Job) (q : VQueue) : VQueue := foldl vpush q js.

Definition valid (it : Iter) (q : VQueue) : bool := (made_for it =? version q)%nat.

Definition vbegin (q : VQueue) : Iter := MkIter 0 (version q).
Definition vend (q : VQueue) : Iter := MkIter (length (vjobs q)) (version q).

(** [std::find_if(first, last, f)] for iterators of the whole queue. *)
Definition vfind (f : Job → bool) (first last : Iter) (q : VQueue) : outcome Iter :=
  if valid first q && valid last q then
    Ret (MkIter (default (length (vjobs q)) (find_if f (vjobs q))) (version q))
  else Undef StaleIterator.

Definition viter_ne (it last : Iter) (q : VQueue) : outcome bool :=
  if valid it q && valid last q then Ret (negb (position it =? position last)%nat)
  else Undef StaleIterator.

Definition verase (it : Iter) (q : VQueue) : outcome VQueue :=
  if valid it q then
    l ← erase (Some (position it)) (vjobs q); Ret (MkVQueue l (S (version q)))
  else Undef StaleIterator.

(** [removeJobFromReadyQ], with the jobs other threads push before each call. *)
Definition racing_remove (w0 w1 w2 w3 w4 : list Job) (p : JobResPair) (q : VQueue)
    : outcome VQueue :=
  let q := vpushes w0 q in
  if (0 <? length (vjobs q))%nat then
    let first := vbegin q in
    let q := vpushes w1 q in
    let last := vend q in
    let q := vpushes w2 q in
    elem ← vfind (idEqrq (jid (fst p))) first last q;
    let q := vpushes w3 q in
    ne ← viter_ne elem (vend q) q;
    let q := vpushes w4 q in
    if ne : bool then verase elem q else Ret q
  else Ret q.

(** ** Lemmas *)

Lemma vpushes_cons j js q : vpushes (j :: js) q = vpushes js (vpush q j).
Proof. done. Qed.

Lemma version_pushes js q : version (vpushes js q) = (version q + length js)%nat.
Proof.
  revert q. induction js as [|j js IH]; intros q; [cbn; lia|]. rewrite vpushes_cons, IH. cbn. lia.
Qed.

Lemma elem_pushes js q j : j ∈ vjobs q → j ∈ vjobs (vpushes js q).
Proof.
  revert q. induction js as [|k js IH]; intros q Hj; [done|].
  rewrite vpushes_cons. apply IH. by right.
Qed.

Lemma pushes_stale js q q' it :
  js ≠ [] → made_for it = version q → q' = vpushes js q → valid it q' = false.
Proof.
  intros Hne Hm ->. unfold valid. rewrite version_pushes, Hm. apply Nat.eqb_neq.
  destruct js; [done|]. cbn. lia.
Qed.

Lemma valid_self q i : valid (MkIter i (version q)) q = true.
Proof. apply Nat.eqb_refl. Qed.

Lemma find_if_lt {A} (f : A → bool) l i : find_if f l = Some i → (i < length l)%nat.
Proof. intros (x & Hx & _)%find_if_Some. by eapply lookup_lt_Some. Qed.

(** ** Properties *)

(** C38: removing a job from the ready queue is safe only if no other thread pushes
    while it searches.  If all pushes come before the search starts, the
    removal does what the atomic [removeJobFromReadyQ] does; if a handler pushes
    between any two of the later calls, for a job that is in the queue, an
    iterator is used after the queue has changed, and the removal is undefined. *)
Theorem removal_races s w0 w1 w2 w3 w4 p v :
  fst p ∈ readyQ s →
  let q := MkVQueue (readyQ s) v in
  (w1 ++ w2 ++ w3 ++ w4 = [] →
   ∃ s' v', removeJobFromReadyQ (set_readyQ s (vjobs (vpushes w0 q))) p = Ret s' ∧
     racing_remove w0 w1 w2 w3 w4 p q = Ret (MkVQueue (readyQ s') v')) ∧
  (w1 ++ w2 ++ w3 ++ w4 ≠ [] → racing_remove w0 w1 w2 w3 w4 p q = Undef StaleIterator).
Proof.
  intros Hp q. set (q0 := vpushes w0 q).
  assert (Hin : fst p ∈ vjobs q0) by (by apply elem_pushes).
  assert (Hlen : (0 <? length (vjobs q0))%nat = true).
  { apply Nat.ltb_lt. destruct (vjobs q0); [by apply elem_of_nil in Hin|cbn; lia]. }
  assert (Hfind : ∀ ws, ∃ i, find_if (idEqrq (jid (fst p))) (vjobs (vpushes ws q0)) = Some i).
  { intros ws. apply (find_if_is_Some _ _ (fst p)); [by apply elem_pushes|]. apply Z.eqb_refl. }
  unfold racing_remove. fold q0. rewrite Hlen. split.
  - intros Hw. apply app_eq_nil in Hw as [-> Hw]. apply app_eq_nil in Hw as [-> Hw].
    apply app_eq_nil in Hw as [-> ->]. cbn [vpushes foldl].
    unfold vfind, vbegin, vend. rewrite !valid_self. cbn [andb mbind outcome_bind].
    destruct (Hfind []) as [i Hi]. cbn [vpushes foldl] in Hi. rewrite Hi. cbn [default].
    unfold viter_ne, vend. rewrite !valid_self. cbn [andb mbind outcome_bind position vend].
    pose proof (find_if_lt _ _ _ Hi) as Hlt.
    rewrite (proj2 (Nat.eqb_neq i _)) by lia. cbn [negb]. unfold verase. rewrite valid_self.
    unfold removeJobFromReadyQ, readyQSize, Deque.size. cbn [readyQ set_readyQ].
    rewrite Hlen, Hi. cbn [position]. do 2 eexists. split; reflexivity.
  - intros Hne. destruct (Hfind (w1 ++ w2)) as [i Hi].
    assert (Hq2 : vpushes (w1 ++ w2) q0 = vpushes w2 (vpushes w1 q0)).
    { unfold vpushes. by rewrite foldl_app. }
    unfold vfind, vbegin, vend. destruct (decide (w1 ++ w2 = [])) as [H12|H12].
    + apply app_eq_nil in H12 as [-> ->]. cbn [app vpushes foldl] in *. rewrite !valid_self. cbn [andb mbind outcome_bind].
      rewrite Hi. cbn [default]. unfold viter_ne. destruct (decide (w3 = [])) as [->|H3].
      * cbn [app vpushes foldl]. rewrite !valid_self. cbn [andb mbind outcome_bind position vend].
        pose proof (find_if_lt _ _ _ Hi) as Hlt.
        rewrite (proj2 (Nat.eqb_neq i _)) by lia. cbn [negb]. unfold verase.
        by rewrite (pushes_stale w4 q0).
      * by rewrite (pushes_stale w3 q0).
    + assert (valid (MkIter 0 (version q0)) (vpushes w2 (vpushes w1 q0)) = false) as ->; [|done].
      by rewrite <-Hq2, (pushes_stale (w1 ++ w2) q0).
Qed.

(** ** Witnesses *)

Definition queued_job (id : Z) : Job := new_Job msg_empty id.

Definition one_queued : Sched :=
  MkSched [queued_job 1] [] [] [] ∅ [] 5 "Completion Time" 2 1 0 8111 "localhost" (new_Stats 0 f_zero).

(** One push before the search, and one before [erase]. *)
Lemma removal_races_witness :
  (∃ s' v', removeJobFromReadyQ (set_readyQ one_queued [queued_job 2; queued_job 1])
     (queued_job 1, []) = Ret s' ∧
     racing_remove [queued_job 2] [] [] [] [] (queued_job 1, []) (MkVQueue [queued_job 1] 0) =
       Ret (MkVQueue (readyQ s') v')) ∧
  racing_remove [] [] [] [] [queued_job 2] (queued_job 1, []) (MkVQueue [queued_job 1] 0) =
    Undef StaleIterator.
Proof.
  split.
  - apply (removal_races one_queued [queued_job 2] [] [] [] [] (queued_job 1, []) 0);
      [constructor|reflexivity].
  - apply (removal_races one_queued [] [] [] [] [queued_job 2] (queued_job 1, []) 0);
      [constructor|discriminate].
Defined.
