(* ===== verification/Algs.v ===== *)
(** * The scheduling algorithms: scheduler/algs.cpp, and the scheduler loop

    FCFSMin, FCFSAsManyAsPos, FCFSMax, Priority, SJTF and ManagedMode with its
    scoring, [Scheduler::schedule] and one iteration of
    [Scheduler::schedLoop].  The algorithms are verified for every
    implementation of [std::sort] ([StdSort]).  The loops of FCFS are bounded
    by the window, those of Priority and SJTF run with one unit of fuel per
    job of the window plus one for the last test; ManagedMode, which calls
    [schedule] on the registered algorithms, has fuel for its nesting depth
    (one for the vector main.cxx registers). *)

From S2P Require Import Prelude CxxFloat StdAlg ConcurrentDeque Message Job Scheduler.

Section algs.
Context `{!StdSort}.

(** ** First come, first served *)

(** [for (i = 0; i < w_size && i < s.readyQSize(); i++)] with [n] = [w_size - i];
    [mx] and [mn] choose the arguments of [allocate]. *)
Fixpoint fcfs_loop (mx mn : Job → nat) (n i : nat) (s : Sched) (a : Allocations)
    : outcome (Allocations * Sched) :=
  match n with
  | O => Ret (a, s)
  | S n =>
      if (i <? readyQSize s)%nat then
        p ← copyJobFromQ (readyQ s) i;
        j ← deref p;
        '(rs, s) ← allocate s j (mx j) (mn j);
        if (0 <? length rs)%nat
        then fcfs_loop mx mn n (S i) s (addJobResourcePair a j rs)
        else Ret (a, s)
      else Ret (a, s)
  end.

Definition FCFSMin (s : Sched) : outcome (Allocations * Sched) :=
  fcfs_loop jmin jmin (window s) 0 s new_Allocations.

Definition FCFSAsManyAsPos (s : Sched) : outcome (Allocations * Sched) :=
  fcfs_loop jmax jmin (window s) 0 s new_Allocations.

Definition FCFSMax (s : Sched) : outcome (Allocations * Sched) :=
  fcfs_loop jmax jmax (window s) 0 s new_Allocations.

(** ** Comparators *)

Definition sortByPriority (i j : Job) : bool := (jpriority i <? jpriority j)%Z.
Definition sortByTime (i j : Job) : bool := SFltb (minCost i) (minCost j).
Definition sortByMin (i j : Job) : bool := (jmin i <? jmin j)%nat.

(** A comparator on pointers dereferences both. *)
Definition on_ptrs (lt : Job → Job → bool) (p q : option Job) : outcome bool :=
  i ← deref p; j ← deref q; Ret (lt i j).

(** ** The greedy loop of Priority and SJTF *)

(** [*elem], where [elem] may be [end()]. *)
Definition deref_it (arr : list (option Job)) (i : nat) : outcome (option Job) :=
  match arr !! i with Some p => Ret p | None => Undef OutOfBounds end.

Section greedy.
Context (need : Job → nat)
        (select : nat → list (option Job) → outcome nat)
        (inside : nat → nat → bool).

(** [while ( *elem != nullptr && need(elem) < s.resPoolSize() && elem inside nend)] *)
Fixpoint greedy_loop (fuel : nat) (s : Sched) (a : Allocations)
    (arr : list (option Job)) (nend elem : nat) : outcome (Allocations * Sched) :=
  match fuel with
  | O => OutOfFuel
  | S fuel =>
      p ← deref_it arr elem;
      match p with
      | None => Ret (a, s)
      | Some j =>
          if (need j <? resPoolSize s)%nat && inside elem nend then
            '(rs, s) ← allocate s j (jmax j) (jmax j);
            let a := addJobResourcePair a j rs in
            let '(nend, arr) := std_remove Job_eqb nend elem arr in
            elem ← select nend arr;
            greedy_loop fuel s a arr nend elem
          else Ret (a, s)
      end
  end.

End greedy.

Definition select_max : nat → list (option Job) → outcome nat :=
  max_element (on_ptrs sortByPriority).
Definition select_min : nat → list (option Job) → outcome nat :=
  min_element (on_ptrs sortByMin).

Definition Priority (s : Sched) : outcome (Allocations * Sched) :=
  w ← job_window s;
  jobs ← mapM deref w;
  let arr := Some <$> std_sort sortByPriority jobs in
  let nend := length arr in
  elem ← select_max nend arr;
  greedy_loop jmax select_max (λ elem nend, negb (elem =? nend)%nat)
    (S (length arr)) s new_Allocations arr nend elem.

Definition SJTF (s : Sched) : outcome (Allocations * Sched) :=
  if (readyQSize s =? 0)%nat then Ret (new_Allocations, s) else
  w ← job_window s;
  jobs ← mapM deref w;
  let arr := Some <$> std_sort sortByTime jobs in
  let nend := length arr in
  elem ← select_min nend arr;
  greedy_loop jmin select_min (λ elem nend, (elem <? nend)%nat)
    (S (length arr)) s new_Allocations arr nend elem.

(** ** Scoring *)

(** The score of an allocation with [nj] jobs: the second summand is a float,
    so the product is converted and the sum is rounded. *)
Definition score_value (q nj : nat) (mk : float32) : float32 :=
  f32_add (f32_of_Z (u64 (Z.of_nat q * Z.of_nat nj))) (f32_div (f32_of_Z (Z.of_nat nj)) mk).

Definition score (a : Allocations) (s : Sched) : outcome Allocations :=
  a ← (if bool_decide (strat s = "Completion Time") then
         if (noJobs a =? 0)%nat || SFleb (makespan a) f_zero then Ret (setScore a 0)
         else
           let q := if (0 <? readyQSize s)%nat then readyQSize s else 1%nat in
           z ← int_of_float (score_value q (noJobs a) (makespan a));
           Ret (setScore a z)
       else Ret a);
  if bool_decide (strat s = "Fairness") then
    z ← int_of_float (totalPriorities a);
    Ret (setScore a z)
  else Ret a.

(** The loop of [selectMaxScore]: the last index whose score, as a float, is
    not below the best so far. *)
Fixpoint select_index (l : list Allocations) (i : nat) (maxScore : float32) (index : nat) : nat :=
  match l with
  | [] => index
  | a :: l =>
      let f := f32_of_Z (getScore a) in
      if SFleb maxScore f then select_index l (S i) f i
      else select_index l (S i) maxScore index
  end.

Definition selectMaxScore (l : list Allocations) : outcome Allocations :=
  match l with
  | [] => Undef OutOfBounds
  | a0 :: _ =>
      match l !! select_index l 0 (f32_of_Z (getScore a0)) 0 with
      | Some a => Ret a
      | None => Undef OutOfBounds
      end
  end.

(** ** Scheduler::schedule and ManagedMode *)

Section managed.
Context (run : AlgId → Sched → outcome (Allocations * Sched)).

Definition schedule (s : Sched) (choice : nat) : outcome (option Allocations * Sched) :=
  if (0 <? resPoolSize s)%nat && (0 <? readyQSize s)%nat then
    match algVec s !! choice with
    | Some alg => '(a, s) ← run alg s; Ret (Some a, s)
    | None => Undef OutOfBounds
    end
  else Ret (None, s).

(** Runs each algorithm and puts the resources it took back into the pool. *)
Fixpoint trial_allocations (n i : nat) (s : Sched) : outcome (list Allocations * Sched) :=
  match n with
  | O => Ret ([], s)
  | S n =>
      '(p, s) ← schedule s i;
      a ← deref p;
      let s := returnAllocations s a in
      '(l, s) ← trial_allocations n (S i) s;
      Ret (a :: l, s)
  end.

Definition ManagedMode (s : Sched) : outcome (Allocations * Sched) :=
  '(l, s) ← trial_allocations (length (algVec s) - 1) 0 s;
  l ← mapM (λ a, score a s) l;
  a ← selectMaxScore l;
  Ret (a, s).

End managed.

(** The algorithm a name stands for. *)
Fixpoint run_alg (fuel : nat) (alg : AlgId) (s : Sched) : outcome (Allocations * Sched) :=
  match alg with
  | FCFSMaxAlg => FCFSMax s
  | FCFSMinAlg => FCFSMin s
  | FCFSAsManyAsPosAlg => FCFSAsManyAsPos s
  | SJTFAlg => SJTF s
  | PriorityAlg => Priority s
  | ManagedModeAlg =>
      match fuel with
      | O => OutOfFuel
      | S fuel => ManagedMode (run_alg fuel) s
      end
  end.

(** ** Scheduler::schedLoop *)

Definition MODE_MANAGED : nat := 5.

Definition add_sched_stats (st : Stats) (n : nat) (duration : Z) : Stats :=
  let '(dt, dn) := if (0 <? n)%nat then (duration, 1%Z) else (0%Z, 0%Z) in
  MkStats (meanWaitTime st) (totalWaitTime st) (meanServiceTime st) (totalServiceTime st)
    (meanLatency st) (totalLatency st) (totalSchedTime st + dt) (totBusyTime st)
    (numSchedules st + dn) (totalJobsScheduled st + Z.of_nat n) (startTime st)
    (meanThroughput st) (meanUtilization st) (totalCompletions st).

(** What an iteration does with the allocation it got ([duration] is the
    measured scheduling time in microseconds). *)
Definition apply_schedule (s : Sched) (a : Allocations) (now duration : Z) : outcome Sched :=
  let n := noJobs a in
  s ← (if (0 <? n)%nat then
         s ← updateResourcePool s a;
         serviceAllocations s now a
       else Ret s);
  Ret (set_stats s (add_sched_stats (stats s) n duration)).

(** One iteration: blocked while there is no job, a retry while there is no
    free resource. *)
Definition schedLoop_iter (fuel : nat) (s : Sched) (now duration : Z) : outcome Sched :=
  _ ← Deque.wait_not_empty (readyQ s);
  if (0 <? resPoolSize s)%nat then
    match algVec s !! MODE_MANAGED with
    | Some alg =>
        '(a, s) ← run_alg fuel alg s;
        apply_schedule s a now duration
    | None => Undef OutOfBounds
    end
  else Ret s.

End algs.
