(* ===== verification/Requests.v ===== *)
(** * Requests through every server

    The remaining paths of a request: option pricing through scheduler and
    dispatcher (client_api.cpp, Scheduler.cpp, DispatcherServer.cpp), a moving
    average through executor, scheduler and dispatcher or through the executor
    and its local dispatcher (Executor.cpp, Resource.cpp), and the message that
    terminates a server. *)

From S2P Require Import Prelude CxxFloat ConcurrentDeque Message Server ServerLife Client ClientFacts.
From S2P Require Import Dispatcher DispatcherFacts Job Executor ExecutorFacts Scheduler EndToEnd.
From S2P Require Import StdAlg Algs Printing.

#[local] Open Scope Z_scope.

(** ** Servers *)

(** The handler of the executor's server. *)
Definition executor_handler (pow : float64 → float64 → float64)
    (network : Z → string → option Conn) (e : Executor) (m : msg_t) : outcome (option msg_t) :=
  '(reply, _, _) ← executor_handle pow network e m; Ret reply.

(** ** Option pricing *)

Section pricing.
(** The parameters of an option: doubles are their bit patterns. *)
Context (strike sigma timestep numMaturity paraNode numPathGroup T : Z).
Context (Hstrike : size_range strike) (Hsigma : size_range sigma).
Context (Htimestep : size_range timestep) (HT : size_range T).
Context (HnumMaturity : int_range numMaturity) (HparaNode : int_range paraNode).
Context (HnumPathGroup : int_range numPathGroup).

Definition price_data : list Z :=
  le_bytes 8 strike ++ le_bytes 8 sigma ++ le_bytes 8 timestep ++ le_bytes 4 numMaturity ++
  le_bytes 4 paraNode ++ le_bytes 4 numPathGroup ++ le_bytes 8 T.

Definition price_result (price : Z) : msg_t :=
  Msg MSG_RESULT 0 0 0 0 0 0 0 0 1 0 77 8 (le_bytes 8 price).

Lemma price_result_sent price : msg_sent (price_result price).
Proof.
  unfold msg_sent. rewrite length_msg_bytes. cbn [price_result data totalBytes].
  rewrite length_le_bytes. split; [|by vm_compute].
  unfold msg_typed, int_range, size_range. by vm_compute.
Qed.

Lemma double_at_slice pre x post off :
  off = Z.of_nat (length pre) → size_range x →
  double_at (pre ++ le_bytes 8 x ++ post) off = Ret x.
Proof.
  intros Ho Hx. unfold double_at. rewrite read_bytes_slice by done. cbn [mbind outcome_bind].
  by rewrite size_le.
Qed.

Lemma int_field_slice pre x post off :
  off = Z.of_nat (length pre) → int_range x →
  int_field (pre ++ le_bytes 4 x ++ post) off = Ret x.
Proof.
  intros Ho Hx. unfold int_field. rewrite read_bytes_slice by done. cbn [mbind outcome_bind].
  by rewrite i32_le.
Qed.

(** The dispatcher calls the kernel with the parameters of the message. *)
Lemma handle_option_price_ret lib m rest elapsed res :
  msgId m = MSG_OPTION_PRICE → data m = price_data ++ rest →
  handle_request (Some lib) m elapsed res = Ret (price_result (optionPricing lib strike sigma
    timestep numMaturity paraNode numPathGroup T (nDfes m))).
Proof.
  intros Hid Hd. unfold handle_request. rewrite Hid.
  change (MSG_OPTION_PRICE =? MSG_MOVING_AVG) with false. rewrite Z.eqb_refl.
  unfold handle_option_price. rewrite Hd. unfold price_data. rewrite <-!app_assoc.
  set (d1 := le_bytes 8 strike). set (d2 := le_bytes 8 sigma). set (d3 := le_bytes 8 timestep).
  set (i1 := le_bytes 4 numMaturity). set (i2 := le_bytes 4 paraNode).
  set (i3 := le_bytes 4 numPathGroup). set (d4 := le_bytes 8 T).
  pose proof (double_at_slice [] strike (d2 ++ d3 ++ i1 ++ i2 ++ i3 ++ d4 ++ rest) 0
    eq_refl Hstrike) as H1.
  pose proof (double_at_slice d1 sigma (d3 ++ i1 ++ i2 ++ i3 ++ d4 ++ rest)
    sizeof_double eq_refl Hsigma) as H2.
  pose proof (double_at_slice (d1 ++ d2) timestep (i1 ++ i2 ++ i3 ++ d4 ++ rest)
    (2 * sizeof_double) eq_refl Htimestep) as H3.
  pose proof (int_field_slice (d1 ++ d2 ++ d3) numMaturity (i2 ++ i3 ++ d4 ++ rest)
    (3 * sizeof_double) eq_refl HnumMaturity) as H4.
  pose proof (int_field_slice (d1 ++ d2 ++ d3 ++ i1) paraNode (i3 ++ d4 ++ rest)
    (3 * sizeof_double + sizeof_int) eq_refl HparaNode) as H5.
  pose proof (int_field_slice (d1 ++ d2 ++ d3 ++ i1 ++ i2) numPathGroup (d4 ++ rest)
    (3 * sizeof_double + 2 * sizeof_int) eq_refl HnumPathGroup) as H6.
  pose proof (double_at_slice (d1 ++ d2 ++ d3 ++ i1 ++ i2 ++ i3) T rest
    (3 * sizeof_double + 3 * sizeof_int) eq_refl HT) as H7.
  rewrite <-!app_assoc in H3. rewrite <-!app_assoc in H4. rewrite <-!app_assoc in H5.
  rewrite <-!app_assoc in H6. rewrite <-!app_assoc in H7.
  cbn [app] in H1. fold d1 in H1. fold d2 in H2. fold d3 in H3. fold i1 in H4. fold i2 in H5.
  fold i3 in H6. fold d4 in H7.
  rewrite H1. cbn [mbind outcome_bind]. rewrite H2. cbn [mbind outcome_bind].
  rewrite H3. cbn [mbind outcome_bind]. rewrite H4. cbn [mbind outcome_bind].
  rewrite H5. cbn [mbind outcome_bind]. rewrite H6. cbn [mbind outcome_bind].
  rewrite H7. reflexivity.
Qed.

(** The request of a client, with or without the fields of a JLO. *)
Definition price_request (id : Z) (jlo : option (Z * Z)) : msg_t :=
  let m := Msg MSG_OPTION_PRICE id 0 0 0 0 0 0 8 0 7 113 44 price_data in
  match jlo with None => m | Some (predicted, target) => set_jlo m predicted target end.

Definition jlo_range (jlo : option (Z * Z)) : Prop :=
  match jlo with None => True | Some (p, t) => int_range p ∧ int_range t end.

Lemma price_request_fields id jlo :
  let m := price_request id jlo in
  msgId m = MSG_OPTION_PRICE ∧ expDataSizeBytes m = 8 ∧ totalBytes m = 113 ∧ data m = price_data.
Proof. by destruct jlo as [[p t]|]. Qed.

Lemma length_price_request id jlo : length (msg_bytes (price_request id jlo)) = 113%nat.
Proof.
  rewrite length_msg_bytes. destruct (price_request_fields id jlo) as (_&_&_&->).
  unfold price_data. by rewrite !length_app, !length_le_bytes.
Qed.

Lemma price_request_sent id jlo :
  int_range id → jlo_range jlo → msg_sent (price_request id jlo).
Proof.
  intros Hid Hj. unfold msg_sent. rewrite length_price_request.
  destruct (price_request_fields id jlo) as (_&_&->&_). split; [|by vm_compute].
  unfold jlo_range in Hj. unfold msg_typed, price_request, size_range.
  destruct jlo as [[p t]|]; cbn [set_jlo msgId clientId priority avg_wt resourceType
    predictedTimeMillis targetExecutionTimeMillis rids expDataSizeBytes dataSize paramsSize
    totalBytes dataBytes data]; unfold int_range, INT_MIN, INT_MAX in *; unfold MSG_OPTION_PRICE, DFE; lia.
Qed.

(** The two calls of the client's API. *)
Definition price_call (network : Z → string → option Conn) (env : option string)
    (jlo : option (Z * Z)) (out : list Z) : outcome (list Z * Client) :=
  match jlo with
  | None => optionPricing_call network env strike sigma timestep numMaturity paraNode
              numPathGroup T out
  | Some (predicted, target) =>
      optionPricingJlo network env strike sigma timestep numMaturity paraNode numPathGroup T out
        predicted target
  end.

Lemma price_call_ret network env id port jlo out reply :
  client_id env = Ret id → client_port id = Ret port →
  network port "localhost" = Some (MkConn (msg_bytes reply) []) →
  msg_sent reply → dataBytes reply = 8 → length (data reply) = 8%nat → length out = 8%nat →
  price_call network env jlo out = Ret (data reply, MkClient port "localhost"
    (Connected (MkConn [] (msg_bytes (price_request id jlo) ++ msg_bytes msg_done)))).
Proof.
  intros Hid Hport Hnet (Hty&_) Hdb Hlr Hlo.
  assert (exchange network port (price_request id jlo) out sizeof_double = Ret (data reply,
    MkClient port "localhost"
      (Connected (MkConn [] (msg_bytes (price_request id jlo) ++ msg_bytes msg_done))))) as Hex.
  { change sizeof_double with 8. rewrite <-Hdb. apply exchange_spec; try done; try lia.
    - rewrite length_price_request. by destruct (price_request_fields id jlo) as (_&_&->&_).
    - rewrite Hdb. by vm_compute. }
  destruct jlo as [[p t]|]; unfold price_call, optionPricing_call, optionPricingJlo;
    rewrite msg_option_pricing_ret; cbn [mbind outcome_bind]; rewrite Hid;
    cbn [mbind outcome_bind]; rewrite Hport; exact Hex.
Qed.


(** Printing a result of which only the header was read leaves the buffer. *)
Lemma await_printed_overread reply rest fuel :
  msg_typed reply → 0 < dataSize reply →
  await_printed (S fuel) 69 (msg_bytes reply ++ rest) = Undef OutOfBounds.
Proof.
  intros Hty Hds. cbn [await_printed]. unfold client_read. rewrite length_app, length_msg_bytes.
  rewrite (proj2 (Nat.ltb_ge _ _)) by lia. cbn [mbind outcome_bind].
  unfold msg_bytes. rewrite <-app_assoc.
  rewrite <-(length_header_bytes reply), take_app_length.
  rewrite <-(app_nil_r (header_bytes reply)), msg_of_header by done. cbn [mbind outcome_bind].
  unfold print. cbn [set_data dataSize data].
  rewrite (print_ints_oob (rounds 0 (dataSize reply)) [] 0);
    [done|lia|unfold rounds; cbn [length]; lia|unfold rounds; lia].
Qed.

(** C32: an option cannot be priced through the executor.  The executor, as proxy,
    reserves a buffer for as many integers as the request has, of which an
    option's request has none; the result of every scheduler carries the price,
    and printing the header that was read as a message reads past the buffer.
    So the handler, and with it the connection, is undefined for every
    executor the client's id belongs to. *)
Theorem optionPricing_executor_overread pow network e id jlo reply rest buf :
  atoi (cid e) = Ret id → jlo_range jlo → (113 ≤ length buf)%nat →
  network 8121 "localhost" = Some (MkConn (msg_bytes reply ++ rest) []) →
  msg_sent reply → 0 < dataSize reply →
  executor_handle pow network e (price_request id jlo) = Undef OutOfBounds ∧
  connection_start (executor_handler pow network e) 1 buf
    (MkSocket [msg_bytes (price_request id jlo)] [] true) = Undef OutOfBounds.
Proof.
  intros Hcid Hj Hb Hnet (Hty&_) Hds. set (m := price_request id jlo).
  assert (Hid : int_range id) by exact (client_id_range (Some (cid e)) id Hcid).
  assert (Hm : msg_sent m) by (by apply price_request_sent).
  assert (Hmf : msgId m = MSG_OPTION_PRICE ∧ clientId m = id ∧ dataSize m = 0)
    by (by destruct jlo as [[p t]|]). destruct Hmf as (Hmid&Hmc&Hmd).
  assert (Hh : ∀ x, executor_handle pow network e (set_data m (data m ++ x)) = Undef OutOfBounds).
  { intros x. unfold executor_handle. rewrite Hcid. cbn [mbind outcome_bind].
    change (clientId (set_data ?m _)) with (clientId m). change (msgId (set_data ?m _)) with (msgId m).
    rewrite Hmc, Z.eqb_refl, Hmid. cbn [negb]. cbv iota.
    change (MSG_OPTION_PRICE =? MSG_CONTROL) with false. change (MSG_OPTION_PRICE =? MSG_DONE) with false.
    change (MSG_OPTION_PRICE =? MSG_TERM) with false. change (MSG_OPTION_PRICE =? MSG_ACK) with false.
    change (MSG_OPTION_PRICE =? MSG_MOVING_AVG) with false. cbn [orb]. cbv iota. unfold proxy, forward_with, result_size.
    change (dataSize (set_data ?m _)) with (dataSize m). rewrite Hmd.
    change (calloc (u64 (i32 (u64 (sizeof_msg + sizeof_int * 0))))) with (Some (replicate 69 0)).
    change (Z.to_nat (u64 (i32 (u64 (sizeof_msg + sizeof_int * 0))))) with 69%nat.
    unfold start, new_Client. cbn [cport cname]. rewrite Hnet.
    change (set_predictedTimeMillis (set_data m (data m ++ x)) 1)
      with (set_data (set_predictedTimeMillis m 1) (data (set_predictedTimeMillis m 1) ++ x)).
    rewrite (send_buffered _ (MkConn (msg_bytes reply ++ rest) [])); [|done|].
    - cbn [mbind outcome_bind with_socket socket incoming]. by rewrite await_printed_overread.
    - destruct Hm as (_&Hmt&_). by rewrite length_msg_bytes in *. }
  split; [rewrite <-(set_data_app_nil m); apply Hh|].
  unfold connection_start, handle_read.
  rewrite read_some_fits by (unfold m; by rewrite length_price_request). unfold overlay.
  cbn [handle_read_loop]. rewrite full_request_whole; [|done|destruct Hm as (_&?&_); lia].
  cbn [mbind outcome_bind]. unfold executor_handler. by rewrite Hh.
Qed.

End pricing.

(** ** A moving average through the executor *)

(** The server behind a resource of the executor: the scheduler for the shared
    DFEs, a dispatcher of its own for the CPU. *)
Inductive backend : Type :=
| ViaScheduler (s : Sched) (now : Z) (k : nat) (buf : list Z) (rs : ResourceList) (id : Z)
| ViaDispatcher.

Definition backend_handler (elapsed res : Z) (b : backend) : msg_t → outcome (option msg_t) :=
  match b with
  | ViaScheduler s now k buf rs id => scheduler_handler s now None elapsed res k buf rs id
  | ViaDispatcher => dispatcher_handler None elapsed res
  end.

(** What the scheduler needs: a resource for the job, a mean waiting time that
    converts, a buffer for [n] bytes. *)
Definition backend_ok (n : nat) (b : backend) : Prop :=
  match b with
  | ViaScheduler s _ k buf rs _ =>
      rs ≠ [] ∧ is_ret (avg_wt_millis s) = true ∧ (69 ≤ k)%nat ∧ (n ≤ length buf)%nat
  | ViaDispatcher => True
  end.

Definition averages_reply (size : nat) (dataIn : list Z) (reply : msg_t) : Prop :=
  msg_sent reply ∧ msgId reply = MSG_RESULT ∧
  dataBytes reply = 4 * Z.of_nat (length dataIn) ∧
  totalBytes reply = sizeof_msg + 4 * Z.of_nat (length dataIn) ∧
  data reply = ints_bytes (kernel_result size dataIn).

Lemma backend_answers size dataIn m elapsed res b :
  (1 ≤ size ≤ length dataIn)%nat → (size < 128)%nat → Z.of_nat (length dataIn) ≤ MAX_N →
  Forall int_range dataIn → windows_ok size dataIn →
  msg_sent m → msgId m = MSG_MOVING_AVG → dataSize m = Z.of_nat (length dataIn) →
  expDataSizeBytes m = 4 * Z.of_nat (length dataIn) →
  data m = ints_bytes dataIn ++ le_bytes 8 (Z.of_nat size) →
  backend_ok (length (msg_bytes m)) b →
  ∃ reply, answers (backend_handler elapsed res b) m reply ∧ averages_reply size dataIn reply.
Proof.
  intros Hs H128 Hmax Hint Hok Hm Hid Hds Hexp Hd Hb.
  pose proof (length_kernel_result size dataIn Hs) as Hkl.
  destruct b as [s now k buf [|r rs] id|]; cbn [backend_handler backend_ok] in *.
  - by destruct Hb.
  - destruct Hb as (_&[wt Hwt]%is_ret_true&Hk&Hl). eexists.
    pose proof (scheduler_answers s now size dataIn m elapsed res k buf r rs id wt) as Ha.
    specialize (Ha Hs H128 Hmax Hint Hok Hm Hid Hds Hexp Hd Hk Hl Hwt).
    split; [exact Ha|]. split; [apply Ha|]. cbn. by rewrite Hkl.
  - pose proof (dispatcher_answers_average size dataIn m elapsed res (rids m)) as Ha.
    specialize (Ha Hs H128 Hmax Hint Hok Hid Hds Hd). eexists.
    split; [by destruct m|]. split; [apply Ha|]. cbn. by rewrite Hkl.
Qed.

Lemma int_of_float_range x z : int_of_float x = Ret z → int_range z.
Proof.
  unfold int_of_float, int_range, in_int. repeat case_match; try done. intros [= <-]. by zbool.
Qed.

Lemma dispatched_sent m ms type :
  int_range ms → msg_sent m → msg_sent (dispatched m ms type).
Proof.
  intros Hms ((?&?&?&?&?&?&?&?&?&?&?&?&?)&Hs). split; [|by rewrite length_msg_bytes in *].
  unfold msg_typed, dispatched. cbn [set_resourceType set_predictedTimeMillis msgId clientId priority
    avg_wt resourceType predictedTimeMillis targetExecutionTimeMillis rids expDataSizeBytes dataSize
    paramsSize totalBytes dataBytes]. split_and!; try done; try apply Hms.
  all: unfold dispatch_type, int_range, INT_MIN, INT_MAX, CPU, DFE in *;
    repeat case_bool_decide; cbn; lia.
Qed.


(** ** Termination *)

(** What [TerminateServer] sends. *)
Definition term_request (id : Z) : msg_t := set_msgId (set_clientId msg_empty id) MSG_TERM.

Lemma term_request_sent id : int_range id → msg_sent (term_request id).
Proof.
  intros Hid. split; [|by vm_compute]. unfold msg_typed, size_range.
  cbn [term_request set_msgId set_clientId msg_empty header_msg msgId clientId priority avg_wt resourceType
    predictedTimeMillis targetExecutionTimeMillis rids expDataSizeBytes dataSize paramsSize
    totalBytes dataBytes]. unfold int_range, INT_MIN, INT_MAX, MSG_TERM, sizeof_msg in *. lia.
Qed.

(** A server that gets the terminating message: the reply, if any, is written,
    the read that follows fails, and the signal is raised. *)
Lemma connection_terminates h id buf reply :
  int_range id → (69 ≤ length buf)%nat →
  (∀ rest, h (set_data (term_request id) rest) = Ret reply) →
  (∀ r, reply = Some r → msg_sent r) →
  connection_start h 1 buf (MkSocket [msg_bytes (term_request id)] [] true) =
    Ret (true, MkSocket [] (from_option msg_bytes [] reply) false).
Proof.
  intros Hid Hb Hh Hr. set (m := term_request id). pose proof (term_request_sent id Hid) as Hm.
  fold m in Hm. unfold connection_start, handle_read.
  rewrite read_some_fits by (by rewrite length_msg_bytes). unfold overlay.
  cbn [handle_read_loop]. rewrite full_request_whole; [|done|destruct Hm as (_&?&_); lia].
  cbn [mbind outcome_bind]. unfold m at 1. rewrite Hh. cbn [mbind outcome_bind]. fold m.
  pose proof (msg_of_bytes_app m (drop (length (msg_bytes m)) buf) ltac:(apply Hm)) as Hlast.
  destruct reply as [r|]; cbn [from_option].
  - destruct (Hr r eq_refl) as (_&Ht&_). unfold write_reply.
    pose proof (read_bytes_0 (msg_bytes r) [] (totalBytes r) Ht) as Hrd.
    rewrite app_nil_r in Hrd. rewrite Hrd.
    cbn [mbind outcome_bind write_socket peer_open pieces written read_some app].
    by rewrite Hlast.
  - cbn [mbind outcome_bind].
    by rewrite Hlast.
Qed.

Lemma TerminateServer_ret network env id port :
  client_id env = Ret id → client_port id = Ret port →
  network port "localhost" = Some (MkConn [] []) →
  TerminateServer network env = Ret (MkClient port "localhost"
    (Connected (MkConn [] (msg_bytes (term_request id))))).
Proof.
  intros Hid Hport Hnet. unfold TerminateServer. rewrite Hid. cbn [mbind outcome_bind].
  rewrite Hport. cbn [mbind outcome_bind]. unfold start, new_Client. cbn [cport cname].
  rewrite Hnet. by rewrite (send_connected _ (MkConn [] [])).
Qed.

(** The uptime [stop] prints first fits its integer. *)
Definition uptime_ok (s : Sched) (now : Z) : bool :=
  is_ret (i64_of_float (f64_div (uptime_nanos (stats s) now) (f64_of_Z 1000000000))).

Lemma scheduler_terminates s now lib elapsed res k buf rs id rest cid :
  uptime_ok s now = true → numSchedules (stats s) ≠ 0 →
  scheduler_handler s now lib elapsed res k buf rs id (set_data (term_request cid) rest) = Ret None.
Proof.
  intros [u Hu]%is_ret_true Hn. unfold scheduler_handler, request_kind_of.
  change (msgId (set_data (term_request cid) rest)) with MSG_TERM. rewrite Z.eqb_refl.
  unfold stop. rewrite Hu. cbn [mbind outcome_bind]. by rewrite (proj2 (Z.eqb_neq _ _)).
Qed.

Lemma executor_terminates pow network e id rest :
  atoi (cid e) = Ret id → network 8121 "localhost" = Some (MkConn [] []) →
  executor_handle pow network e (set_data (term_request id) rest) =
    Ret (Some msg_done, e, Some (MkClient 8121 "localhost"
      (Connected (MkConn [] (msg_bytes (term_request id)))))).
Proof.
  intros Hcid Hnet. unfold executor_handle. rewrite Hcid. cbn [mbind outcome_bind].
  change (clientId (set_data (term_request id) rest)) with id.
  change (msgId (set_data (term_request id) rest)) with MSG_TERM. rewrite Z.eqb_refl.
  change (MSG_TERM =? MSG_CONTROL) with false. change (MSG_TERM =? MSG_DONE) with false.
  cbn [negb]. rewrite Z.eqb_refl. unfold start, new_Client. cbn [cport cname]. rewrite Hnet.
  change (set_data (term_request id) rest)
    with (set_data (term_request id) (data (term_request id) ++ rest)).
  by rewrite (send_buffered _ (MkConn [] [])).
Qed.


(** ** Witnesses *)


(** The price of an option reaches the executor, and is read past its buffer. *)
Lemma optionPricing_executor_overread_witness :
  connection_start (executor_handler linear_pow (λ _ _, Some (MkConn (msg_bytes (price_result 42)) []))
    sample_executor) 1 (replicate 128 0)
    (MkSocket [msg_bytes (price_request 1 2 3 4 5 6 7 1 None)] [] true) = Undef OutOfBounds.
Proof.
  apply (optionPricing_executor_overread 1 2 3 4 5 6 7 linear_pow (λ _ _, Some (MkConn (msg_bytes (price_result 42)) []))
    sample_executor 1 None (price_result 42) []).
  - by vm_compute.
  - done.
  - simpl. lia.
  - by rewrite app_nil_r.
  - apply price_result_sent.
  - done.
Defined.


