(* ===== verification/ScoreFacts.v ===== *)
(** * Costs, makespans and scores

    The cost of a job, the makespan of an allocation and its score
    (Job.cpp, Allocations.hpp, algs.cpp) for jobs with a predicted time of at
    least a millisecond: every one of them is a number, the score is at least
    the queue length times the number of jobs, and an allocation that pairs a
    job with no resources has an infinite makespan. *)

From S2P Require Import Prelude CxxFloat FloatRound FloatBounds StdAlg ConcurrentDeque Message.
From S2P Require Import Job Scheduler Algs.

#[local] Open Scope Z_scope.

(** A job the handler made from a request whose fields are [int]s. *)
Definition job_wf (j : Job) : Prop :=
  ∃ req id, j = new_Job req id ∧ INT_MIN ≤ predictedTimeMillis req ≤ INT_MAX.

(** A job with a positive predicted time. *)
Definition timed (j : Job) : Prop :=
  ∃ req id, j = new_Job req id ∧ 1 ≤ predictedTimeMillis req ≤ INT_MAX.

Lemma timed_wf j : timed j → job_wf j.
Proof. intros (req & id & -> & H). exists req, id. split; [done|]. unfold INT_MIN. lia. Qed.

Lemma job_wf_min j : job_wf j → jmin j = 1%nat.
Proof. by intros (req & id & -> & _). Qed.
Lemma job_wf_max j : job_wf j → jmax j = 4%nat.
Proof. by intros (req & id & -> & _). Qed.

Lemma minCost_not_nan j : job_wf j → is_nan (minCost j) = false.
Proof. intros (req & id & -> & H). by apply millis_share_not_nan. Qed.

(** ** Costs *)

Lemma getDefaultJobTime_between j :
  timed j → between32 (pw (-10)) (pw 22) (getDefaultJobTime j).
Proof.
  intros (req & id & -> & H). apply f32_of_f64_between; [|done..].
  apply seconds_of_millis_between. unfold INT_MAX in H. simpl. lia.
Qed.

Lemma cost_between j rs :
  timed j → (1 ≤ length rs ≤ 4)%nat → between32 (pw (-12)) (pw 22) (cost (j, rs)).
Proof.
  intros Hj Hrs. apply (div_between f32_prec f32_emax (-10) 22 0 2); fmt; try done.
  - by apply getDefaultJobTime_between.
  - apply f32_of_Z_between; simpl; lia.
Qed.

Lemma cost_empty j : timed j → cost (j, []) = S754_infinity false.
Proof.
  intros Hj. destruct (getDefaultJobTime_between j Hj) as [Hx Hv].
  assert (0 < pw (-10)) by (by apply pw_pos).
  unfold cost, defaultCostFunction. cbn [fst snd length].
  change (f32_of_Z (Z.of_nat 0)) with (S754_zero false).
  destruct (getDefaultJobTime j) as [| | |[]]; simpl in *; try done; lia.
Qed.

(** ** Makespans *)

Definition pair_ok (p : JobResPair) : Prop := timed (fst p) ∧ (length (snd p) ≤ 4)%nat.

Definition sum_costs (sum : float32) (l : list JobResPair) : float32 :=
  foldl (λ sum p, f32_add sum (cost p)) sum l.

Lemma sum_costs_between l sum lo k :
  Forall pair_ok l → Forall (λ p, snd p ≠ []) l →
  rep f32_prec f32_emax unit_exp lo → nn32 sum = true → 0 ≤ k → k + Z.of_nat (length l) ≤ 2 ^ 20 →
  lo ≤ value sum ≤ k * pw 22 →
  between32 lo ((k + Z.of_nat (length l)) * pw 22) (sum_costs sum l).
Proof.
  revert sum k. induction l as [|[j rs] l IH]; intros sum k Hok Hne Hlo Hs Hk Hl Hv.
  - simpl. split; [done|]. lia.
  - apply Forall_cons in Hok as [[Hj Hrs] Hok], Hne as [Hr Hne]. simpl in Hj, Hrs, Hr.
    destruct (cost_between j rs Hj) as [Hc Hcv]; [destruct rs; simpl in *; [done|lia]|].
    assert (0 < pw (-12)) by (by apply pw_pos).
    assert (Hadd : between32 lo ((k + 1) * pw 22) (f32_add sum (cost (j, rs)))).
    { apply add_between; fmt; try done; [|lia]. apply rep_pw; fmt; simpl in Hl; lia. }
    destruct Hadd as [Hn Hv'].
    replace (k + Z.of_nat (length ((j, rs) :: l))) with (k + 1 + Z.of_nat (length l))
      by (simpl length; lia).
    apply IH; try done; simpl length in Hl; lia.
Qed.

Lemma sum_costs_inf l :
  Forall pair_ok l → sum_costs (S754_infinity false) l = S754_infinity false.
Proof.
  induction 1 as [|[j rs] l [Hj Hrs] Hok IH]; [done|]. simpl in Hj, Hrs.
  change (sum_costs (f32_add (S754_infinity false) (cost (j, rs))) l = S754_infinity false).
  replace (f32_add (S754_infinity false) (cost (j, rs))) with (S754_infinity false); [done|].
  destruct rs as [|r rs].
  - by rewrite cost_empty.
  - destruct (cost_between j (r :: rs) Hj) as [Hc _]; [simpl in *; lia|].
    by destruct (cost (j, r :: rs)) as [| | |[]].
Qed.

Lemma makespan_between a :
  Forall pair_ok (ajobs a) → Forall (λ p, snd p ≠ []) (ajobs a) →
  (1 ≤ length (ajobs a) ≤ 8)%nat → between32 (pw (-12)) (pw 25) (makespan a).
Proof.
  intros Hok Hne Hl. unfold makespan. change (foldl _ f_zero (ajobs a)) with (sum_costs f_zero (ajobs a)).
  destruct (ajobs a) as [|[j rs] l]; [simpl in Hl; lia|].
  apply Forall_cons in Hok as [[Hj Hrs] Hok], Hne as [Hr Hne]. simpl in Hj, Hrs, Hr.
  destruct (cost_between j rs Hj) as [Hc Hcv]; [destruct rs; simpl in *; [done|lia]|].
  assert (0 < pw 22) by (by apply pw_pos).
  assert (Hadd : between32 (pw (-12)) (1 * pw 22) (f32_add f_zero (cost (j, rs)))).
  { apply add_between; fmt; try done; try (apply rep_pw; fmt; lia). }
  destruct Hadd as [Hn Hv'].
  destruct (sum_costs_between l (f32_add f_zero (cost (j, rs))) (pw (-12)) 1) as [Hm Hmv];
    fmt; try done; [simpl in Hl; lia|].
  split; [done|]. change (sum_costs f_zero ((j, rs) :: l)) with
    (sum_costs (f32_add f_zero (cost (j, rs))) l).
  replace (pw 25) with (8 * pw 22) by (rewrite Z.mul_comm; symmetry; by apply (pw_add 22 3)).
  simpl length in Hl. nia.
Qed.

Lemma sum_costs_some_empty l sum k :
  Forall pair_ok l → Exists (λ p, snd p = []) l →
  nn32 sum = true → 0 ≤ k → k + Z.of_nat (length l) ≤ 2 ^ 20 → value sum ≤ k * pw 22 →
  sum_costs sum l = S754_infinity false.
Proof.
  revert sum k. induction l as [|[j rs] l IH]; intros sum k Hok Hex Hs Hk Hl Hv;
    [by inversion Hex|].
  apply Forall_cons in Hok as [Hp Hok]. destruct (Hp) as [Hj Hrs]. simpl in Hj, Hrs.
  change (sum_costs (f32_add sum (cost (j, rs))) l = S754_infinity false).
  destruct rs as [|r rs].
  - rewrite cost_empty by done.
    replace (f32_add sum (S754_infinity false)) with (S754_infinity false);
      [by apply sum_costs_inf|]. by destruct sum as [| | |[]].
  - apply Exists_cons in Hex as [?|Hex]; [done|].
    assert (Hb : between32 0 ((k + 1) * pw 22) (f32_add sum (cost (j, r :: rs)))).
    { apply (sum_costs_between [(j, r :: rs)] sum 0 k); simpl length in *; try (done || lia).
      - by constructor.
      - by constructor.
      - by apply (rep_pw f32_prec f32_emax 0 0).
      - split; [apply val_nonneg|done]. }
    destruct Hb as [Hn Hv']. apply (IH _ (k + 1)); try done; simpl length in *; lia.
Qed.

Lemma makespan_some_empty a :
  Forall pair_ok (ajobs a) → Exists (λ p, snd p = []) (ajobs a) →
  (length (ajobs a) ≤ 8)%nat → makespan a = S754_infinity false.
Proof.
  intros Hok Hex Hl. apply (sum_costs_some_empty _ f_zero 0); try done. simpl. lia.
Qed.

(** ** Scores *)

Lemma SFleb_pos_zero lo hi x : between32 lo hi x → 0 < lo → SFleb x f_zero = false.
Proof.
  intros [Hx Hv] Hlo. apply not_true_iff_false. rewrite SFleb_value by done. simpl. lia.
Qed.

Lemma mul_of_nat_nonneg q n : 0 ≤ Z.of_nat q * Z.of_nat n.
Proof. apply Z.mul_nonneg_nonneg; lia. Qed.

Lemma score_value_between q nj mk :
  (1 ≤ nj ≤ 8)%nat → Z.of_nat q * Z.of_nat nj ≤ 2 ^ 23 → between32 (pw (-12)) (pw 25) mk →
  between32 (Z.of_nat q * Z.of_nat nj * pw 0) (2 ^ 24 * pw 0) (score_value q nj mk).
Proof.
  intros Hnj Hq Hmk. unfold score_value. pose proof (mul_of_nat_nonneg q nj).
  rewrite wrap_small by lia.
  destruct (f32_of_Z_exact (Z.of_nat q * Z.of_nat nj)) as [Hn Hv]; [lia|].
  assert (Hd : between32 (pw (0 - 25)) (pw (3 - -12)) (f32_div (f32_of_Z (Z.of_nat nj)) mk)).
  { apply div_between; fmt; try done. apply f32_of_Z_between; simpl; lia. }
  destruct Hd as [Hdn Hdv]. assert (0 < pw (0 - 25)) by (by apply pw_pos).
  rewrite (pw_0_eq (3 - -12)) in Hdv by done. pose proof pw_0_pos.
  apply add_between; fmt; try done; try (apply rep_pw; fmt; lia).
  assert (Z.of_nat q * Z.of_nat nj * pw 0 ≤ 2 ^ 23 * pw 0)
    by (apply Z.mul_le_mono_nonneg_r; lia).
  rewrite Hv. change (2 ^ (3 - -12)) with (2 ^ 15) in Hdv. lia.
Qed.

Lemma score_value_inf q nj :
  (1 ≤ q)%nat → (1 ≤ nj ≤ 8)%nat → Z.of_nat q * Z.of_nat nj ≤ 2 ^ 23 →
  score_value q nj (S754_infinity false) = f32_of_Z (Z.of_nat q * Z.of_nat nj).
Proof.
  intros Hq1 Hnj Hq. unfold score_value. pose proof (mul_of_nat_nonneg q nj).
  rewrite wrap_small by lia.
  destruct (f32_of_Z_between (Z.of_nat nj) 3) as [Hx Hxv]; [simpl; lia..|].
  replace (f32_div (f32_of_Z (Z.of_nat nj)) (S754_infinity false)) with f_zero.
  2: { pose proof pw_0_pos.
       destruct (f32_of_Z (Z.of_nat nj)) as [| | |[]]; simpl in *; (done || lia). }
  destruct (f32_of_Z_between (Z.of_nat q * Z.of_nat nj) 23) as [Hn Hv]; [nia|done|].
  pose proof pw_0_pos.
  destruct (f32_of_Z (Z.of_nat q * Z.of_nat nj)) as [| | |[]]; simpl in *; (done || lia).
Qed.

(** What scoring an allocation of at most eight jobs gives. *)
Lemma score_spec a s :
  strat s = "Completion Time" → Forall pair_ok (ajobs a) → (length (ajobs a) ≤ 8)%nat →
  (1 ≤ readyQSize s)%nat → Z.of_nat (readyQSize s) ≤ 2 ^ 20 →
  ∃ z, score a s = Ret (setScore a z) ∧ z ≤ 2 ^ 24 ∧
    (noJobs a = 0%nat → z = 0) ∧
    Z.of_nat (readyQSize s) * Z.of_nat (noJobs a) ≤ z ∧
    (Exists (λ p, snd p = []) (ajobs a) → z = Z.of_nat (readyQSize s) * Z.of_nat (noJobs a)).
Proof.
  intros Hstrat Hok Hl Hq1 Hq. unfold score. rewrite Hstrat.
  replace (bool_decide ("Completion Time" = "Completion Time")) with true by done.
  replace (bool_decide ("Completion Time" = "Fairness")) with false by done.
  pose proof (noJobs_le a) as Hnj.
  destruct (Nat.eqb_spec (noJobs a) 0) as [E|E]; simpl.
  { exists 0. split_and!; try done; rewrite E; lia. }
  rewrite (proj2 (Nat.ltb_lt _ _)) by lia.
  assert (Hqn : Z.of_nat (readyQSize s) * Z.of_nat (noJobs a) ≤ 2 ^ 23) by nia.
  pose proof (mul_of_nat_nonneg (readyQSize s) (noJobs a)).
  destruct (decide (Exists (λ p, snd p = []) (ajobs a))) as [Hex|Hall].
  - rewrite makespan_some_empty by done. simpl. rewrite score_value_inf by lia.
    destruct (int_of_float_between (Z.of_nat (readyQSize s) * Z.of_nat (noJobs a))
      (Z.of_nat (readyQSize s) * Z.of_nat (noJobs a))
      (f32_of_Z (Z.of_nat (readyQSize s) * Z.of_nat (noJobs a)))) as (z & -> & Hz).
    + apply of_Z_value; fmt. lia.
    + lia.
    + unfold INT_MAX. lia.
    + exists z. simpl. split_and!; try done; lia.
  - apply not_Exists_Forall in Hall; [|apply _].
    assert (Hmk : between32 (pw (-12)) (pw 25) (makespan a)) by (apply makespan_between; auto; lia).
    rewrite (SFleb_pos_zero _ _ _ Hmk) by (by apply pw_pos).
    destruct (int_of_float_between (Z.of_nat (readyQSize s) * Z.of_nat (noJobs a)) (2 ^ 24)
      (score_value (readyQSize s) (noJobs a) (makespan a))) as (z & -> & Hz).
    + apply score_value_between; auto; lia.
    + lia.
    + done.
    + exists z. simpl. split_and!; try done; try lia.
      intros Hex. exfalso. apply Exists_exists in Hex as (p & Hp & Hnil).
      rewrite Forall_forall in Hall. by apply (Hall p Hp).
Qed.

(** ** Choosing the best score *)

Lemma select_index_spec l i maxScore index :
  let k := select_index l i maxScore index in
  Forall (λ a, is_nan (f32_of_Z (getScore a)) = false) l → is_nan maxScore = false →
  (k = index ∧ Forall (λ a, SFleb maxScore (f32_of_Z (getScore a)) = false) l) ∨
  (∃ j a, k = (i + j)%nat ∧ l !! j = Some a ∧ SFleb maxScore (f32_of_Z (getScore a)) = true ∧
     Forall (λ b, SFleb (f32_of_Z (getScore b)) (f32_of_Z (getScore a)) = true) l ∧
     Forall (λ b, SFleb (f32_of_Z (getScore a)) (f32_of_Z (getScore b)) = false) (drop (S j) l)).
Proof.
  simpl. revert i maxScore index. induction l as [|b l IH]; intros i mx index Hl Hmx; simpl.
  { left. done. }
  apply Forall_cons in Hl as [Hb Hl]. destruct (SFleb mx (f32_of_Z (getScore b))) eqn:E.
  - right. destruct (IH (S i) (f32_of_Z (getScore b)) i Hl Hb)
      as [[-> Hf]|(j & a & -> & Hj & Hba & Hf & Hd)].
    + exists 0%nat, b. split_and!; try (done || lia).
      constructor; [by apply SFleb_refl|]. rewrite Forall_forall in Hf, Hl |- *.
      intros c Hc. specialize (Hf c Hc). specialize (Hl c Hc).
      destruct (SFleb_total (f32_of_Z (getScore c)) (f32_of_Z (getScore b))); congruence.
    + exists (S j), a. split_and!; try (done || lia); [by eapply SFleb_trans|by constructor].
  - destruct (IH (S i) mx index Hl Hmx) as [[-> Hf]|(j & a & -> & Hj & Hma & Hf & Hd)].
    + left. split; [done|]. by constructor.
    + right. exists (S j), a. split_and!; try (done || lia). constructor; [|done].
      eapply SFleb_trans; [|exact Hma].
      destruct (SFleb_total (f32_of_Z (getScore b)) mx); congruence.
Qed.

(** The chosen allocation is the last one with a maximal score. *)
Lemma selectMaxScore_spec l :
  l ≠ [] → Forall (λ a, is_nan (f32_of_Z (getScore a)) = false) l →
  ∃ k a, selectMaxScore l = Ret a ∧ l !! k = Some a ∧
    Forall (λ b, SFleb (f32_of_Z (getScore b)) (f32_of_Z (getScore a)) = true) l ∧
    Forall (λ b, SFleb (f32_of_Z (getScore a)) (f32_of_Z (getScore b)) = false) (drop (S k) l).
Proof.
  intros Hne Hl. destruct l as [|a0 l]; [done|]. unfold selectMaxScore.
  assert (H0 : is_nan (f32_of_Z (getScore a0)) = false) by (by apply Forall_cons in Hl as [? _]).
  destruct (select_index_spec (a0 :: l) 0 (f32_of_Z (getScore a0)) 0 Hl H0)
    as [[_ Hf]|(j & a & -> & Hj & Ha & Hf & Hd)].
  - apply Forall_cons in Hf as [Hf _]. by rewrite SFleb_refl in Hf.
  - rewrite Nat.add_0_l, Hj. by exists j, a.
Qed.
