(* ===== verification/AlgFacts.v ===== *)
(** * Properties of the scheduling algorithms

    FCFSMin, FCFSAsManyAsPos, FCFSMax, Priority and SJTF refine plans (which
    job gets how many resources, as a function of the queue and the number of
    free resources), take what they allocate off the back of the pool and
    nothing else; ManagedMode is proved against that interface
    ([SoundAlg]). *)

From S2P Require Import Prelude CxxFloat FloatRound FloatBounds StdAlg ConcurrentDeque Message.
From S2P Require Import Job Scheduler SchedulerFacts Algs ScoreFacts.

(** ** Plans *)

(** How many resources each pair of an allocation has. *)
Definition grants (ps : list JobResPair) : list (Job * nat) :=
  (λ p, (fst p, length (snd p))) <$> ps.

(** First come, first served over [jobs] with [free] resources: job by job
    between [mn] and [mx] resources, until one cannot be served. *)
Fixpoint fcfs_plan (mx mn : Job → nat) (jobs : list Job) (free : nat) : list (Job * nat) :=
  match jobs with
  | [] => []
  | j :: jobs =>
      let k := if (mn j <=? free)%nat then (mx j `min` free)%nat else 0%nat in
      if (0 <? k)%nat then (j, k) :: fcfs_plan mx mn jobs (free - k) else []
  end.

(** The greedy plan over an order of the jobs: exactly [jmax] resources or
    none, while the next job needs strictly less than what is free. *)
Fixpoint greedy_plan (need : Job → nat) (order : list Job) (free : nat) : list (Job * nat) :=
  match order with
  | [] => []
  | j :: order =>
      if (need j <? free)%nat then
        let k := if (jmax j <=? free)%nat then jmax j else 0%nat in
        (j, k) :: greedy_plan need order (free - k)
      else []
  end.

(** An order that takes out of [live], again and again, an element at a
    position [R] allows. *)
Inductive selects (R : nat → list Job → Prop) : list Job → list Job → Prop :=
| selects_nil : selects R [] []
| selects_cons live k x order :
    live !! k = Some x → R k live → selects R (delete k live) order →
    selects R live (x :: order).

Lemma selects_perm R live order : selects R live order → order ≡ₚ live.
Proof.
  induction 1 as [|live k x order Hk _ _ IH]; [done|]. rewrite IH. symmetry.
  by apply delete_Permutation.
Qed.

Lemma set_resPool_twice s p1 p2 : set_resPool (set_resPool s p1) p2 = set_resPool s p2.
Proof. done. Qed.

(** What one of the algorithms does: [ps] are the pairs it made. *)
Definition allocates (s : Sched) (a : Allocations) (ps : list JobResPair)
    (m : outcome (Allocations * Sched)) : Prop :=
  ∃ pool', m = Ret (MkAllocations (ajobs a ++ ps) (ascore a), set_resPool s pool') ∧
    resPool s = pool' ++ reverse (mjoin ps.*2).

Lemma allocates_nil s a : allocates s a [] (Ret (a, s)).
Proof.
  exists (resPool s). split; [|by rewrite app_nil_r].
  rewrite set_resPool_id, app_nil_r. by destruct a.
Qed.

Lemma allocates_cons s pool' a j rs ps m :
  resPool s = pool' ++ reverse rs →
  allocates (set_resPool s pool') (addJobResourcePair a j rs) ps m →
  allocates s a ((j, rs) :: ps) m.
Proof.
  intros Hp (p2 & -> & Hp2). exists p2. split.
  - unfold addJobResourcePair. simpl. by rewrite <-(assoc_L (++)).
  - csimpl in *. by rewrite Hp, Hp2, reverse_app, (assoc_L (++)).
Qed.

(** ** First come, first served *)

Lemma copyJobFromQ_lookup q i j : q !! i = Some j → copyJobFromQ q i = Ret (Some j).
Proof.
  intros H. unfold copyJobFromQ. pose proof (lookup_lt_Some _ _ _ H).
  rewrite (proj2 (Nat.ltb_ge _ _)) by lia. unfold Deque.at_. by rewrite H.
Qed.

Lemma fcfs_loop_spec mx mn n i s a :
  ∃ ps, allocates s a ps (fcfs_loop mx mn n i s a) ∧
    grants ps = fcfs_plan mx mn (take n (drop i (readyQ s))) (resPoolSize s).
Proof.
  revert i s a. induction n as [|n IH]; intros i s a; simpl.
  { exists []. split; [apply allocates_nil|done]. }
  unfold readyQSize, Deque.size. destruct (Nat.ltb_spec i (length (readyQ s))) as [Hi|Hi].
  - destruct (lookup_lt_is_Some_2 (readyQ s) i Hi) as [j Hj].
    rewrite (copyJobFromQ_lookup _ _ _ Hj). cbn [mbind outcome_bind deref].
    destruct (allocate_spec s j (mx j) (mn j)) as (rs & pool' & -> & Hp & Hl).
    cbn [mbind outcome_bind]. rewrite (drop_S (readyQ s) j i Hj). simpl.
    rewrite <-Hl. destruct (0 <? length rs)%nat eqn:E.
    + destruct (IH (S i) (set_resPool s pool') (addJobResourcePair a j rs)) as (ps & Ha & Hg).
      exists ((j, rs) :: ps). split; [by eapply allocates_cons|].
      unfold grants in *. csimpl. rewrite Hg. simpl. do 2 f_equal.
      unfold resPoolSize, Deque.size. simpl. rewrite Hp. autorewrite with hlen. lia.
    + zbool. assert (rs = []) as -> by (destruct rs; simpl in *; [done|lia]).
      exists []. split; [|done]. rewrite app_nil_r in Hp. rewrite <-Hp, set_resPool_id.
      apply allocates_nil.
  - rewrite drop_ge by done. exists []. split; [apply allocates_nil|done].
Qed.

(** ** The greedy loop *)

Section greedy.
Context (need : Job → nat)
        (select : nat → list (option Job) → outcome nat)
        (inside : nat → nat → bool)
        (P : Job → Prop) (R : nat → list Job → Prop).
Context (select_live : ∀ live dead, live ≠ [] → Forall P live →
           ∃ k x, select (length live) ((Some <$> live) ++ dead) = Ret k ∧
             live !! k = Some x ∧ R k live)
        (select_empty : ∀ dead, select 0 dead = Ret 0%nat)
        (inside_lt : ∀ k n, (k < n)%nat → inside k n = true)
        (inside_0 : inside 0 0 = false).

Lemma selects_total live : Forall P live → ∃ order, selects R live order.
Proof.
  remember (length live) as n eqn:Hn. revert live Hn.
  induction n as [|n IH]; intros live Hn HP.
  { destruct live; [|done]. exists []. constructor. }
  destruct (select_live live []) as (k & x & _ & Hk & HR); [by intros ->|done|].
  destruct (IH (delete k live)) as [order Ho].
  - pose proof (lookup_lt_Some _ _ _ Hk). rewrite length_delete by eauto. lia.
  - by apply Forall_delete.
  - exists (x :: order). by apply selects_cons with k.
Qed.

(** What a round of the greedy loop allocates. *)
Lemma greedy_allocation s x :
  ∃ rs pool', allocate s x (jmax x) (jmax x) = Ret (rs, set_resPool s pool') ∧
    resPool s = pool' ++ reverse rs ∧
    length rs = (if (jmax x <=? resPoolSize s)%nat then jmax x else 0%nat) ∧
    resPoolSize (set_resPool s pool') = (resPoolSize s - length rs)%nat.
Proof.
  destruct (allocate_spec s x (jmax x) (jmax x)) as (rs & pool' & E & Hp & Hl).
  exists rs, pool'. split_and!; try done.
  - rewrite Hl. destruct (Nat.leb_spec (jmax x) (resPoolSize s)); lia.
  - unfold resPoolSize, Deque.size. simpl. rewrite Hp. autorewrite with hlen. lia.
Qed.

Lemma greedy_loop_spec fuel s a live dead k x :
  NoDup (jid <$> live) → Forall P live → live !! k = Some x → R k live →
  (length live < fuel)%nat →
  ∃ order ps, selects R live order ∧
    allocates s a ps
      (greedy_loop need select inside fuel s a ((Some <$> live) ++ dead) (length live) k) ∧
    grants ps = greedy_plan need order (resPoolSize s).
Proof.
  revert s a live dead k x. induction fuel as [|fuel IH];
    intros s a live dead k x Hnd HP Hk HR Hfuel; [lia|].
  pose proof (lookup_lt_Some _ _ _ Hk) as Hlt.
  assert (HPd : Forall P (delete k live)) by (by apply Forall_delete).
  destruct (selects_total (delete k live) HPd) as [order0 Ho0].
  cbn [greedy_loop]. unfold deref_it at 1.
  rewrite lookup_app_l, list_lookup_fmap, Hk by (by rewrite length_fmap).
  cbn [fmap option_fmap option_map mbind outcome_bind]. rewrite inside_lt, andb_true_r by done.
  destruct (need x <? resPoolSize s)%nat eqn:En.
  2: { exists (x :: order0), []. split_and!; [by apply selects_cons with k| |].
       - apply allocates_nil.
       - simpl. by rewrite En. }
  destruct (greedy_allocation s x) as (rs & pool' & -> & Hp & Hk' & Hfree).
  cbn [mbind outcome_bind].
  destruct (std_remove_spec Job_eqb jid Job_eqb_eq_jid live dead k x Hnd Hk) as (g & -> & Hg).
  assert (Hlen : length (delete k live) = (length live - 1)%nat)
    by (rewrite length_delete by eauto; lia).
  rewrite <-Hlen. destruct (delete k live) as [|y live'] eqn:Ed.
  - (* that was the last job *)
    simpl length. rewrite select_empty. cbn [mbind outcome_bind].
    exists [x], [(x, rs)]. split_and!.
    + apply selects_cons with k; try done. rewrite Ed. constructor.
    + apply (allocates_cons s pool' a x rs []); [done|].
      destruct fuel as [|fuel]; [lia|]. cbn [greedy_loop]. unfold deref_it. simpl.
      destruct Hg as [->| ->]; [apply allocates_nil|]. rewrite inside_0, andb_false_r.
      apply allocates_nil.
    + simpl. rewrite En, Hk'. done.
  - rewrite <-Ed in *.
    destruct (select_live (delete k live) (g :: dead)) as (k' & x' & -> & Hk2 & HR2);
      [by rewrite Ed|done|]. cbn [mbind outcome_bind].
    destruct (IH (set_resPool s pool') (addJobResourcePair a x rs) (delete k live)
      (g :: dead) k' x') as (order & ps & Ho & Ha & Hgr); try done; [|lia|].
    { rewrite list_fmap_delete. by eapply sublist_NoDup, sublist_delete. }
    exists (x :: order), ((x, rs) :: ps). split_and!.
    + by apply selects_cons with k.
    + by apply (allocates_cons s pool').
    + unfold grants in *. csimpl. rewrite Hgr, En, Hfree, Hk'. done.
Qed.

End greedy.

(** ** The window *)

(** What the algorithms need of the scheduler's state. *)
Record sched_wf (s : Sched) : Prop := {
  wf_nonempty : readyQ s ≠ [];
  wf_window : (0 < window s)%nat;
  wf_ids : NoDup (jid <$> readyQ s);
  wf_jobs : Forall job_wf (readyQ s)
}.

Abbreviation window_jobs s := (take (window s) (readyQ s)).

Lemma window_jobs_nonempty s : sched_wf s → window_jobs s ≠ [].
Proof. intros [Hne Hw _ _]. destruct (readyQ s); [done|]. by destruct (window s); [lia|]. Qed.

Lemma window_jobs_ids s : sched_wf s → NoDup (jid <$> window_jobs s).
Proof.
  intros [_ _ Hnd _]. rewrite fmap_take. eapply sublist_NoDup; [done|]. apply sublist_take.
Qed.

Lemma window_jobs_wf s : sched_wf s → Forall job_wf (window_jobs s).
Proof. intros [_ _ _ H]. by apply Forall_take. Qed.

Lemma job_window_from_spec q i n :
  (i + n ≤ length q)%nat → job_window_from q i n = Ret (Some <$> take n (drop i q)).
Proof.
  revert i. induction n as [|n IH]; intros i Hi; [done|].
  destruct (lookup_lt_is_Some_2 q i) as [j Hj]; [lia|]. cbn [job_window_from].
  rewrite (copyJobFromQ_lookup _ _ _ Hj). cbn [mbind outcome_bind]. rewrite IH by lia.
  by rewrite (drop_S q j i Hj).
Qed.

Lemma job_window_spec s : job_window s = Ret (Some <$> window_jobs s).
Proof.
  unfold job_window. rewrite job_window_from_spec by lia. rewrite drop_0. do 2 f_equal.
  destruct (decide (window s ≤ length (readyQ s))%nat).
  - f_equal. lia.
  - by rewrite !take_ge by lia.
Qed.

Lemma mapM_deref (l : list Job) : mapM deref (Some <$> l) = Ret l.
Proof.
  induction l as [|j l IH]; [done|].
  change (mapM deref (Some <$> j :: l)) with
    (x ← deref (Some j); k ← mapM deref (Some <$> l); mret (x :: k)).
  by rewrite IH.
Qed.

(** ** The comparators *)

#[export] Instance sortByPriority_sw : StrictWeak sortByPriority.
Proof. split; unfold sortByPriority; intros; zbool; rewrite ?Z.ltb_lt, ?Z.ltb_ge; lia. Qed.

#[export] Instance sortByMin_sw : StrictWeak sortByMin.
Proof. split; unfold sortByMin; intros; zbool; rewrite ?Nat.ltb_lt, ?Nat.ltb_ge; lia. Qed.

#[export] Instance sortByTime_sw : StrictWeakOn job_wf sortByTime.
Proof.
  split; unfold sortByTime.
  - intros x Hx. apply minCost_not_nan in Hx. by rewrite SFltb_negb_SFleb, SFleb_refl.
  - intros x y z Hx%minCost_not_nan Hy%minCost_not_nan Hz%minCost_not_nan.
    rewrite !SFltb_rank by done. unfold rank_le.
    destruct (frank (minCost x)) as [[??]?], (frank (minCost y)) as [[??]?],
      (frank (minCost z)) as [[??]?]. lia.
  - intros x y z Hx%minCost_not_nan Hy%minCost_not_nan Hz%minCost_not_nan.
    rewrite !SFltb_negb_SFleb, !negb_false_iff by done. eauto using SFleb_trans.
Qed.

(** ** Priority and SJTF *)

Definition best_at (lt : Job → Job → bool) (k : nat) (live : list Job) : Prop :=
  ∃ x, live !! k = Some x ∧ Forall (λ y, lt x y = false) live.

Lemma selects_best_sorted lt live order :
  selects (best_at lt) live order → StronglySorted (λ x y, lt x y = false) order.
Proof.
  induction 1 as [|live k x order Hk (y & Hy & Hf) Hs IH]; [constructor|].
  simplify_eq. constructor; [done|]. rewrite (selects_perm _ _ _ Hs).
  by apply Forall_delete.
Qed.

Lemma selects_first live order : selects (λ k _, k = 0%nat) live order → order = live.
Proof.
  induction 1 as [|live k x order Hk -> _ ->]; [done|].
  destruct live as [|y live]; [done|]. by injection Hk as ->.
Qed.

Lemma min_element_const live dead :
  live ≠ [] → Forall (λ j, jmin j = 1%nat) live →
  select_min (length live) ((Some <$> live) ++ dead) = Ret 0%nat.
Proof.
  intros Hne HP. unfold select_min, min_element.
  rewrite take_app_length' by (by rewrite length_fmap).
  destruct live as [|x l]; [done|]. csimpl. apply Forall_cons in HP as [Hx HP].
  generalize 1%nat as i. induction HP as [|y l Hy _ IH]; intros i; csimpl; [done|].
  unfold on_ptrs at 1. cbn [mbind outcome_bind deref]. unfold sortByMin at 1.
  rewrite Hx, Hy. apply IH. done.
Qed.

Section algorithms.
Context `{Hsort : !StdSort}.

Lemma Priority_spec s :
  sched_wf s →
  ∃ order ps, order ≡ₚ window_jobs s ∧
    StronglySorted (λ x y, sortByPriority x y = false) order ∧
    allocates s new_Allocations ps (Priority s) ∧
    grants ps = greedy_plan jmax order (resPoolSize s).
Proof.
  intros Hwf. unfold Priority. rewrite job_window_spec. cbn [mbind outcome_bind].
  rewrite mapM_deref. cbn [mbind outcome_bind].
  set (live := std_sort sortByPriority (window_jobs s)).
  assert (Hperm : live ≡ₚ window_jobs s).
  { apply std_sort_perm with (λ _, True); [apply _|by apply Forall_true]. }
  assert (Hsel : ∀ live dead, live ≠ [] → Forall (λ _ : Job, True) live →
    ∃ k x, select_max (length live) ((Some <$> live) ++ dead) = Ret k ∧
      live !! k = Some x ∧ best_at sortByPriority k live).
  { intros l dead Hne _. destruct (max_element_spec sortByPriority (on_ptrs sortByPriority)
      (λ _ _, eq_refl) l dead Hne) as (k & x & ? & ? & ?). exists k, x. by split_and!; try eexists. }
  assert (Hne : live ≠ []).
  { intros E. apply (window_jobs_nonempty s Hwf), Permutation_nil. by rewrite <-Hperm, E. }
  assert (Hall : Forall (λ _ : Job, True) live) by (by apply Forall_true).
  destruct (Hsel live [] Hne Hall) as (k & x & Hk & Hx & HR). rewrite app_nil_r in Hk.
  rewrite length_fmap, Hk. cbn [mbind outcome_bind].
  destruct (greedy_loop_spec jmax select_max (λ elem nend, negb (elem =? nend)%nat)
    (λ _, True) (best_at sortByPriority) Hsel (λ _, eq_refl)
    ltac:(intros ???; apply negb_true_iff, Nat.eqb_neq; lia) eq_refl
    (S (length live)) s new_Allocations live [] k x) as (order & ps & Ho & Ha & Hg); try done.
  { rewrite Hperm. by apply window_jobs_ids. }
  { lia. }
  exists order, ps. rewrite app_nil_r in Ha. split_and!; try done.
  - by rewrite (selects_perm _ _ _ Ho).
  - by eapply selects_best_sorted.
Qed.

Lemma SJTF_spec s :
  sched_wf s →
  ∃ order ps, order ≡ₚ window_jobs s ∧ sorted_by sortByTime order ∧
    allocates s new_Allocations ps (SJTF s) ∧
    grants ps = greedy_plan jmin order (resPoolSize s).
Proof.
  intros Hwf. unfold SJTF.
  replace (readyQSize s =? 0)%nat with false.
  2: { destruct Hwf as [Hne _ _ _]. unfold readyQSize, Deque.size. by destruct (readyQ s). }
  rewrite job_window_spec. cbn [mbind outcome_bind]. rewrite mapM_deref. cbn [mbind outcome_bind].
  set (live := std_sort sortByTime (window_jobs s)).
  assert (Hperm : live ≡ₚ window_jobs s).
  { eapply std_sort_perm; [apply _|by apply window_jobs_wf]. }
  assert (Hsel : ∀ live dead, live ≠ [] → Forall (λ j, jmin j = 1%nat) live →
    ∃ k x, select_min (length live) ((Some <$> live) ++ dead) = Ret k ∧
      live !! k = Some x ∧ k = 0%nat).
  { intros l dead Hne HP. rewrite min_element_const by done.
    destruct l as [|x l]; [done|]. by exists 0%nat, x. }
  assert (Hne : live ≠ []).
  { intros E. apply (window_jobs_nonempty s Hwf), Permutation_nil. by rewrite <-Hperm, E. }
  assert (Hmin : Forall (λ j, jmin j = 1%nat) live).
  { rewrite Hperm. eapply Forall_impl; [by apply window_jobs_wf|]. apply job_wf_min. }
  destruct (Hsel live [] Hne Hmin) as (k & x & Hk & Hx & HR). rewrite app_nil_r in Hk.
  rewrite length_fmap, Hk. cbn [mbind outcome_bind].
  destruct (greedy_loop_spec jmin select_min (λ elem nend, (elem <? nend)%nat)
    (λ j, jmin j = 1%nat) (λ k _, k = 0%nat) Hsel (λ _, eq_refl)
    ltac:(intros ???; apply Nat.ltb_lt; lia) eq_refl
    (S (length live)) s new_Allocations live [] k x) as (order & ps & Ho & Ha & Hg); try done.
  { rewrite Hperm. by apply window_jobs_ids. }
  { lia. }
  apply selects_first in Ho as ->. exists live, ps. rewrite app_nil_r in Ha.
  split_and!; try done. eapply std_sort_sorted; [apply _|by apply window_jobs_wf].
Qed.

(** ** The interface of an algorithm *)

(** Every pair has resources, or every pair has four or none. *)
Definition uniform (ns : list nat) : Prop :=
  Forall (λ n, n ≠ 0%nat) ns ∨ Forall (λ n, n = 0%nat ∨ n = 4%nat) ns.

(** Each allocated job is in the window and gets at most four resources, and
    the resources come out of the pool; nothing else of the state changes. *)
Definition sound_result (s : Sched) (a : Allocations) (s' : Sched) : Prop :=
  ∃ pool', s' = set_resPool s pool' ∧ resPool s ≡ₚ pool' ++ aresources a ∧
    (ajobs a).*1 ⊆+ window_jobs s ∧ Forall (λ p, (length (snd p) ≤ 4)%nat) (ajobs a) ∧
    uniform (grants (ajobs a)).*2.

Class SoundAlg (run : Sched → outcome (Allocations * Sched)) : Prop :=
  alg_sound s : sched_wf s → ∃ a s', run s = Ret (a, s') ∧ sound_result s a s'.

Lemma noJobs_grants a : Forall (λ n, n = 0%nat) (grants (ajobs a)).*2 → noJobs a = 0%nat.
Proof.
  unfold noJobs, grants. induction (ajobs a) as [|[j rs] l IH]; [done|]. csimpl.
  intros [Hrs Hl]%Forall_cons. destruct rs; simpl in *; [by apply IH|done].
Qed.

Lemma fst_grants ps : (grants ps).*1 = ps.*1.
Proof. unfold grants. rewrite <-list_fmap_compose. done. Qed.

Lemma snd_grants ps : (grants ps).*2 = (λ p, length (snd p)) <$> ps.
Proof. unfold grants. rewrite <-list_fmap_compose. done. Qed.

Lemma fcfs_plan_prefix mx mn jobs free : (fcfs_plan mx mn jobs free).*1 `prefix_of` jobs.
Proof.
  revert free. induction jobs as [|j jobs IH]; intros free; csimpl; [done|].
  case_match; csimpl; [by apply prefix_cons|apply prefix_nil].
Qed.

Lemma greedy_plan_prefix need jobs free : (greedy_plan need jobs free).*1 `prefix_of` jobs.
Proof.
  revert free. induction jobs as [|j jobs IH]; intros free; csimpl; [done|].
  case_match; csimpl; [by apply prefix_cons|apply prefix_nil].
Qed.

Lemma fcfs_plan_max mx mn jobs free :
  Forall (λ j, (mx j ≤ 4)%nat) jobs → Forall (λ n, (n ≤ 4)%nat) (fcfs_plan mx mn jobs free).*2.
Proof.
  intros H. revert free. induction H as [|j jobs Hj _ IH]; intros free; csimpl; [constructor|].
  repeat case_match; csimpl; constructor; auto; zbool; lia.
Qed.

Lemma greedy_plan_max need jobs free :
  Forall (λ j, (jmax j ≤ 4)%nat) jobs → Forall (λ n, (n ≤ 4)%nat) (greedy_plan need jobs free).*2.
Proof.
  intros H. revert free. induction H as [|j jobs Hj _ IH]; intros free; csimpl; [constructor|].
  repeat case_match; csimpl; constructor; auto; zbool; lia.
Qed.

Lemma fcfs_plan_pos mx mn jobs free : Forall (λ n, n ≠ 0%nat) (fcfs_plan mx mn jobs free).*2.
Proof.
  revert free. induction jobs as [|j jobs IH]; intros free; csimpl; [constructor|].
  case_match; csimpl; constructor; auto. zbool. lia.
Qed.

Lemma greedy_plan_all need jobs free :
  Forall (λ j, jmax j = 4%nat) jobs →
  Forall (λ n, n = 0%nat ∨ n = 4%nat) (greedy_plan need jobs free).*2.
Proof.
  intros H. revert free. induction H as [|j jobs Hj _ IH]; intros free; csimpl; [constructor|].
  rewrite Hj. repeat case_match; csimpl; constructor; auto.
Qed.

(** SJTF's plan when a job gets nothing. *)
Lemma greedy_plan_starved order free :
  Forall job_wf order → (2 ≤ free ≤ 3)%nat →
  greedy_plan jmin order free = (λ j, (j, 0%nat)) <$> order.
Proof.
  intros Hwf Hf. induction Hwf as [|j order Hj _ IH]; [done|]. csimpl.
  rewrite (job_wf_min j Hj), (job_wf_max j Hj).
  rewrite (proj2 (Nat.ltb_lt _ _)), (proj2 (Nat.leb_gt _ _)) by lia.
  by rewrite Nat.sub_0_r, IH.
Qed.

Lemma greedy_plan_small order free :
  Forall job_wf order → (free ≤ 4)%nat →
  Forall (λ n, n = 0%nat) (greedy_plan jmin order free).*2 ∨
  Forall (λ n, 1 ≤ n ≤ 4)%nat (greedy_plan jmin order free).*2.
Proof.
  intros Hwf Hf. destruct (decide (2 ≤ free ≤ 3)%nat) as [H23|Hn].
  { left. rewrite greedy_plan_starved by done. rewrite <-list_fmap_compose.
    apply Forall_fmap, Forall_true. done. }
  right. destruct Hwf as [|j order Hj Hwf]; [constructor|]. csimpl.
  rewrite (job_wf_min j Hj), (job_wf_max j Hj).
  destruct free as [|[|[|[|[|free]]]]]; try lia; simpl; try constructor; [lia|].
  destruct order; constructor.
Qed.

Lemma greedy_plan_priority_small order free :
  Forall job_wf order → (free ≤ 4)%nat → greedy_plan jmax order free = [].
Proof.
  intros Hwf Hf. destruct Hwf as [|j order Hj Hwf]; [done|]. simpl.
  rewrite (job_wf_max j Hj). by rewrite (proj2 (Nat.ltb_ge _ _)) by lia.
Qed.

(** An algorithm that refines a plan over an order of the window is sound. *)
Lemma allocates_sound s ps m order :
  allocates s new_Allocations ps m → order ≡ₚ window_jobs s →
  (grants ps).*1 `prefix_of` order → Forall (λ n, (n ≤ 4)%nat) (grants ps).*2 →
  uniform (grants ps).*2 →
  ∃ a s', m = Ret (a, s') ∧ sound_result s a s' ∧ ajobs a = ps.
Proof.
  intros (pool' & -> & Hp) Hord Hpre Hmax Hun. do 2 eexists. split; [done|].
  split; [|done]. exists pool'. split_and!; simpl; [done|..].
  - rewrite Hp. unfold aresources. simpl. by rewrite reverse_Permutation.
  - rewrite fst_grants in Hpre. rewrite <-Hord.
    destruct Hpre as [rest ->]. by apply submseteq_inserts_r.
  - rewrite snd_grants, Forall_fmap in Hmax. done.
  - done.
Qed.

Lemma wf_max_4 l : Forall job_wf l → Forall (λ j, (jmax j ≤ 4)%nat) l.
Proof. intros H. eapply Forall_impl; [done|]. intros j Hj. by rewrite (job_wf_max j Hj). Qed.

Lemma wf_min_4 l : Forall job_wf l → Forall (λ j, (jmin j ≤ 4)%nat) l.
Proof.
  intros H. eapply Forall_impl; [done|]. intros j Hj. rewrite (job_wf_min j Hj). lia.
Qed.

(** The three first-come-first-served algorithms. *)
Lemma fcfs_sound mx mn s :
  (∀ l, Forall job_wf l → Forall (λ j, (mx j ≤ 4)%nat) l) → sched_wf s →
  ∃ a s', fcfs_loop mx mn (window s) 0 s new_Allocations = Ret (a, s') ∧ sound_result s a s' ∧
    grants (ajobs a) = fcfs_plan mx mn (window_jobs s) (resPoolSize s).
Proof.
  intros Hmx Hwf.
  destruct (fcfs_loop_spec mx mn (window s) 0 s new_Allocations) as (ps & Ha & Hg).
  rewrite drop_0 in Hg.
  destruct (allocates_sound s ps _ (window_jobs s) Ha) as (a & s' & ? & ? & <-).
  - done.
  - rewrite Hg. apply fcfs_plan_prefix.
  - rewrite Hg. apply fcfs_plan_max, Hmx, window_jobs_wf, Hwf.
  - left. rewrite Hg. apply fcfs_plan_pos.
  - by exists a, s'.
Qed.

Lemma greedy_sound need s order ps m :
  sched_wf s → order ≡ₚ window_jobs s → allocates s new_Allocations ps m →
  grants ps = greedy_plan need order (resPoolSize s) →
  ∃ a s', m = Ret (a, s') ∧ sound_result s a s' ∧
    grants (ajobs a) = greedy_plan need order (resPoolSize s).
Proof.
  intros Hwf Ho Ha Hg.
  destruct (allocates_sound s ps m order Ha) as (a & s' & ? & ? & <-).
  - done.
  - rewrite Hg. apply greedy_plan_prefix.
  - rewrite Hg. apply greedy_plan_max, wf_max_4. rewrite Ho. by apply window_jobs_wf.
  - right. rewrite Hg. apply greedy_plan_all. rewrite Ho.
    eapply Forall_impl; [by apply window_jobs_wf|]. apply job_wf_max.
  - by exists a, s'.
Qed.

#[export] Instance FCFSMin_sound : SoundAlg FCFSMin.
Proof.
  intros s Hwf. destruct (fcfs_sound jmin jmin s wf_min_4 Hwf) as (a & s' & ? & ? & _). eauto.
Qed.

#[export] Instance FCFSAsManyAsPos_sound : SoundAlg FCFSAsManyAsPos.
Proof.
  intros s Hwf. destruct (fcfs_sound jmax jmin s wf_max_4 Hwf) as (a & s' & ? & ? & _). eauto.
Qed.

#[export] Instance FCFSMax_sound : SoundAlg FCFSMax.
Proof.
  intros s Hwf. destruct (fcfs_sound jmax jmax s wf_max_4 Hwf) as (a & s' & ? & ? & _). eauto.
Qed.

#[export] Instance Priority_sound : SoundAlg Priority.
Proof.
  intros s Hwf. destruct (Priority_spec s Hwf) as (order & ps & Ho & _ & Ha & Hg).
  destruct (greedy_sound jmax s order ps _ Hwf Ho Ha Hg) as (a & s' & ? & ? & _). eauto.
Qed.

#[export] Instance SJTF_sound : SoundAlg SJTF.
Proof.
  intros s Hwf. destruct (SJTF_spec s Hwf) as (order & ps & Ho & _ & Ha & Hg).
  destruct (greedy_sound jmin s order ps _ Hwf Ho Ha Hg) as (a & s' & ? & ? & _). eauto.
Qed.

End algorithms.
