(* ===== verification/ManagedFacts.v ===== *)
(** * ManagedMode

    The trial runs put every resource back, the scores are defined, and the
    chosen allocation schedules at least one job and gives every job it
    schedules at least one resource. *)

From S2P Require Import Prelude CxxFloat FloatRound FloatBounds StdAlg ConcurrentDeque Message.
From S2P Require Import Job Scheduler SchedulerFacts Algs ScoreFacts AlgFacts.

(** Two scheduler states that differ in the order of the pool only. *)
Definition pool_perm (s s' : Sched) : Prop :=
  ∃ pool', s' = set_resPool s pool' ∧ pool' ≡ₚ resPool s.

#[export] Instance pool_perm_equiv : Equivalence pool_perm.
Proof.
  split.
  - intros s. exists (resPool s). by rewrite set_resPool_id.
  - intros s ? (p & -> & Hp). exists (resPool s). simpl. split; [by destruct s|by rewrite Hp].
  - intros s ? ? (p & -> & Hp) (q & -> & Hq). exists q. split; [done|]. by rewrite Hq.
Qed.

#[export] Instance readyQ_proper : Proper (pool_perm ==> eq) readyQ.
Proof. by intros s ? (p & -> & _). Qed.
#[export] Instance window_proper : Proper (pool_perm ==> eq) window.
Proof. by intros s ? (p & -> & _). Qed.
#[export] Instance algVec_proper : Proper (pool_perm ==> eq) algVec.
Proof. by intros s ? (p & -> & _). Qed.
#[export] Instance strat_proper : Proper (pool_perm ==> eq) strat.
Proof. by intros s ? (p & -> & _). Qed.
#[export] Instance resPool_proper : Proper (pool_perm ==> (≡ₚ)) resPool.
Proof. intros s ? (p & -> & Hp). simpl. by rewrite Hp. Qed.
#[export] Instance resPoolSize_proper : Proper (pool_perm ==> eq) resPoolSize.
Proof. intros s s' Hs. unfold resPoolSize, Deque.size. by rewrite Hs. Qed.
#[export] Instance readyQSize_proper : Proper (pool_perm ==> eq) readyQSize.
Proof. by intros s ? (p & -> & _). Qed.

#[export] Instance sched_wf_proper : Proper (pool_perm ==> iff) sched_wf.
Proof.
  intros s ? (p & -> & _). split; intros []; split; done.
Qed.

(** Giving back what a sound algorithm took. *)
Lemma sound_result_return s a s' :
  sound_result s a s' → pool_perm s (returnAllocations s' a).
Proof.
  intros (pool' & -> & Hp & _). rewrite returnAllocations_eq. simpl. eexists. split; [done|].
  by rewrite Hp.
Qed.

Section managed.
Context (run : AlgId → Sched → outcome (Allocations * Sched)).

(** [a] is what the algorithm at [k] gave on a state like [s]. *)
Definition trial (s : Sched) (k : nat) (a : Allocations) : Prop :=
  ∃ alg sk sk', algVec s !! k = Some alg ∧ pool_perm s sk ∧ run alg sk = Ret (a, sk') ∧
    sound_result sk a sk'.

Lemma trial_proper s s' k a : pool_perm s s' → trial s' k a → trial s k a.
Proof.
  intros Hs (alg & sk & sk' & Ha & Hp & Hr). exists alg, sk, sk'. split_and!; try apply Hr.
  - by rewrite Hs.
  - by transitivity s'.
Qed.

Lemma trial_allocations_spec n i s :
  sched_wf s → (0 < resPoolSize s)%nat →
  (∀ k, (i ≤ k < i + n)%nat → ∃ alg, algVec s !! k = Some alg ∧ SoundAlg (run alg)) →
  ∃ l s', trial_allocations run n i s = Ret (l, s') ∧ pool_perm s s' ∧ length l = n ∧
    ∀ k a, l !! k = Some a → trial s (i + k) a.
Proof.
  revert i s. induction n as [|n IH]; intros i s Hwf Hpool Halgs.
  { exists [], s. split_and!; try done. }
  destruct (Halgs i) as (alg & Halg & Hsound); [lia|].
  destruct (alg_sound s Hwf) as (a & s1 & Hrun & Hres).
  cbn [trial_allocations]. unfold schedule.
  rewrite (proj2 (Nat.ltb_lt _ _) Hpool). cbn [andb].
  assert (Hq : (0 <? readyQSize s)%nat = true).
  { destruct Hwf as [Hne _ _ _]. unfold readyQSize, Deque.size. by destruct (readyQ s). }
  rewrite Hq, Halg, Hrun. cbn [mbind outcome_bind deref].
  pose proof (sound_result_return s a s1 Hres) as Hs1.
  destruct (IH (S i) (returnAllocations s1 a)) as (l & s' & -> & Hs' & Hlen & Hl).
  - by rewrite <-Hs1.
  - by rewrite <-Hs1.
  - intros k Hk. destruct (Halgs k) as (alg' & Halg' & ?); [lia|]. exists alg'.
    by rewrite <-Hs1.
  - exists (a :: l), s'. split_and!; [done|by etransitivity|simpl; lia|].
    intros [|k] b Hb; simplify_eq/=.
    + rewrite Nat.add_0_r. by exists alg, s, s1.
    + replace (i + S k)%nat with (S i + k)%nat by lia. eapply trial_proper; [done|by apply Hl].
Qed.

End managed.

(** ** The number of jobs an allocation schedules *)

Lemma noJobs_resources a :
  (noJobs a ≤ length (aresources a))%nat.
Proof.
  unfold noJobs, aresources. induction (ajobs a) as [|[j rs] l IH]; [done|].
  csimpl. rewrite length_app. destruct rs; simpl; lia.
Qed.

Lemma noJobs_resources_4 a :
  Forall (λ n, n = 0 ∨ n = 4)%nat (grants (ajobs a)).*2 →
  (4 * noJobs a ≤ length (aresources a))%nat.
Proof.
  unfold noJobs, aresources, grants. induction (ajobs a) as [|[j rs] l IH]; [done|].
  csimpl. intros [Hrs Hl]%Forall_cons. specialize (IH Hl). rewrite length_app.
  destruct rs; simpl in *; lia.
Qed.

Lemma Exists_empty_noJobs a :
  Exists (λ p : JobResPair, snd p = []) (ajobs a) → (noJobs a < length (ajobs a))%nat.
Proof.
  unfold noJobs. induction 1 as [[j rs] l Hrs|[j rs] l _ IH]; simpl in *.
  - subst rs. simpl. pose proof (List.filter_length_le
      (λ p : JobResPair, negb (length p.2 =? 0)%nat) l). lia.
  - destruct rs; simpl; lia.
Qed.

(** An allocation with a job that gets nothing schedules fewer jobs than there
    are jobs and than there are resources. *)
Lemma uniform_empty_fewer s a s' :
  sound_result s a s' → (0 < resPoolSize s)%nat →
  Exists (λ p : JobResPair, snd p = []) (ajobs a) →
  (noJobs a < length (window_jobs s) `min` resPoolSize s)%nat.
Proof.
  intros (pool' & _ & Hp & Hsub & _ & Hun) Hpos Hex.
  pose proof (Exists_empty_noJobs a Hex).
  apply submseteq_length in Hsub. rewrite length_fmap in Hsub.
  apply Permutation_length in Hp. rewrite length_app in Hp.
  unfold resPoolSize, Deque.size in *. destruct Hun as [Hall|H4].
  - exfalso. unfold grants in Hall. rewrite <-list_fmap_compose, Forall_fmap in Hall.
    apply Exists_exists in Hex as ([j rs] & Hin & Hnil). rewrite Forall_forall in Hall.
    apply (Hall _ Hin). simpl in *. by subst.
  - apply noJobs_resources_4 in H4. lia.
Qed.

Lemma fcfs_plan_min_length jobs free :
  Forall (λ j, jmin j = 1%nat) jobs →
  length (fcfs_plan jmin jmin jobs free) = (length jobs `min` free)%nat.
Proof.
  intros H. revert free. induction H as [|j jobs Hj _ IH]; intros free; [done|].
  simpl. rewrite Hj. destruct free as [|free]; simpl; [lia|].
  rewrite IH. rewrite Nat.sub_0_r. lia.
Qed.

(** FCFSMin schedules as many jobs as the window and the pool allow. *)
Lemma FCFSMin_count s a s' :
  sched_wf s → FCFSMin s = Ret (a, s') →
  noJobs a = (length (window_jobs s) `min` resPoolSize s)%nat.
Proof.
  intros Hwf Hrun. destruct (fcfs_sound jmin jmin s wf_min_4 Hwf) as (a' & s1 & Hrun' & _ & Hg).
  unfold FCFSMin in Hrun. rewrite Hrun' in Hrun. injection Hrun as <- <-.
  pose proof (fcfs_plan_pos jmin jmin (window_jobs s) (resPoolSize s)) as Hpos.
  rewrite <-Hg in Hpos. rewrite noJobs_all.
  - rewrite <-(fcfs_plan_min_length (window_jobs s)), <-Hg; [by unfold grants; rewrite length_fmap|].
    eapply Forall_impl; [by apply window_jobs_wf|]. apply job_wf_min.
  - rewrite snd_grants, Forall_fmap in Hpos. eapply Forall_impl; [exact Hpos|].
    intros [j rs] Hrs. by destruct rs.
Qed.

(** ** The choice *)

(** The state ManagedMode runs in: jobs with positive predicted times, the
    algorithms of main.cxx, free resources. *)
Record managed_wf (s : Sched) : Prop := {
  mwf_sched : sched_wf s;
  mwf_timed : Forall timed (readyQ s);
  mwf_algs : algVec s = main_algs;
  mwf_strat : strat s = "Completion Time";
  mwf_window : (window s ≤ 8)%nat;
  mwf_pool : (0 < resPoolSize s)%nat;
  mwf_queue : (Z.of_nat (readyQSize s) ≤ 2 ^ 20)%Z
}.

#[export] Instance managed_wf_proper : Proper (pool_perm ==> iff) managed_wf.
Proof.
  intros s s' Hs. split; intros []; split; try (by rewrite Hs); try (by rewrite <-Hs).
Qed.

Definition scored (s : Sched) (a b : Allocations) : Prop :=
  ∃ z, b = setScore a z ∧ (z ≤ 2 ^ 24)%Z ∧ (noJobs a = 0%nat → z = 0%Z) ∧
    (Z.of_nat (readyQSize s) * Z.of_nat (noJobs a) ≤ z)%Z ∧
    (Exists (λ p, snd p = []) (ajobs a) →
      z = Z.of_nat (readyQSize s) * Z.of_nat (noJobs a))%Z.

Lemma scored_score s a b : scored s a b → (0 ≤ getScore b ≤ 2 ^ 24)%Z.
Proof.
  intros (z & -> & ? & _ & ? & _). simpl. pose proof (mul_of_nat_nonneg (readyQSize s) (noJobs a)).
  lia.
Qed.

Section choice.
Context `{Hsort : !StdSort}.

Lemma run_alg_sound alg : alg ≠ ManagedModeAlg → SoundAlg (run_alg 0 alg).
Proof. destruct alg; intros ?; try done; simpl; apply _. Qed.

Lemma trial_scored s k a :
  managed_wf s → trial (run_alg 0) s k a → ∃ b, score a s = Ret b ∧ scored s a b.
Proof.
  intros [Hwf Htimed _ Hstrat Hw _ Hq] (alg & sk & sk' & _ & Hp & _ & Hres).
  destruct Hres as (pool' & _ & _ & Hsub & Hmax & _).
  rewrite <-Hp in Hsub.
  destruct (score_spec a s Hstrat) as (z & Hz & Hs); try done.
  - apply Forall_forall. intros [j rs] Hin. split.
    + rewrite Forall_forall in Htimed. apply Htimed.
      eapply elem_of_submseteq; [|etransitivity; [exact Hsub|]].
      * apply list_elem_of_fmap. by exists (j, rs).
      * apply sublist_submseteq, sublist_take.
    + rewrite Forall_forall in Hmax. apply (Hmax _ Hin).
  - apply submseteq_length in Hsub. rewrite length_fmap, length_take in Hsub. lia.
  - destruct Hwf as [Hne _ _ _]. unfold readyQSize, Deque.size. destruct (readyQ s); simpl; [done|lia].
  - eexists. split; [done|]. by exists z.
Qed.

(** An allocation that scores at least as much as FCFSMin's. *)
Lemma best_schedules s a a1 b b1 sk sk' :
  managed_wf s → pool_perm s sk → sound_result sk a sk' →
  scored s a b → scored s a1 b1 →
  noJobs a1 = (length (window_jobs s) `min` resPoolSize s)%nat →
  (getScore b1 ≤ getScore b)%Z →
  (0 < noJobs a)%nat ∧ Forall (λ p, snd p ≠ []) (ajobs a).
Proof.
  intros Hm Hp Hres (z & -> & _ & H0 & _ & Hex) (z1 & -> & _ & _ & Hz1 & _) H1 Hle.
  simpl in Hle. pose proof (mwf_sched s Hm) as Hwf. pose proof (mwf_pool s Hm) as Hpool.
  pose proof (window_jobs_nonempty s Hwf) as Hw.
  assert (Hq : (0 < readyQSize s)%nat).
  { destruct Hwf as [Hne _ _ _]. unfold readyQSize, Deque.size. destruct (readyQ s); simpl; [done|lia]. }
  assert (Hpos : (0 < noJobs a1)%nat).
  { rewrite H1. destruct (window_jobs s); [done|]. cbn [length]. lia. }
  split.
  - destruct (decide (noJobs a = 0%nat)) as [E|]; [|lia]. specialize (H0 E). nia.
  - destruct (decide (Exists (λ p : JobResPair, snd p = []) (ajobs a))) as [E|E].
    + exfalso. assert (Hf : (noJobs a < noJobs a1)%nat).
      { rewrite H1, Hp. apply (uniform_empty_fewer sk a sk' Hres); [by rewrite <-Hp|done]. }
      rewrite (Hex E) in Hle. nia.
    + by apply not_Exists_Forall in E; [|apply _].
Qed.

(** The five trials and their scores, which are exact in binary32. *)
Lemma managed_scores s :
  managed_wf s →
  ∃ l s' l2, trial_allocations (run_alg 0) 5 0 s = Ret (l, s') ∧ pool_perm s s' ∧ length l = 5%nat ∧
    (∀ k a, l !! k = Some a → trial (run_alg 0) s k a) ∧
    mapM (λ a, score a s') l = Ret l2 ∧ Forall2 (scored s') l l2 ∧
    Forall (λ b, 0 ≤ getScore b ≤ 2 ^ 24)%Z l2.
Proof.
  intros Hm. pose proof (mwf_sched s Hm) as Hwf. pose proof (mwf_pool s Hm) as Hpool.
  destruct (trial_allocations_spec (run_alg 0) 5 0 s Hwf Hpool) as (l & s' & Hl & Hs' & Hlen & Htrial).
  { intros k Hk. rewrite (mwf_algs s Hm).
    destruct k as [|[|[|[|[|k]]]]]; [..|lia]; eexists; (split; [done|]); by apply run_alg_sound. }
  destruct (mapM_ret (λ a, score a s') (scored s') l) as (l2 & Hl2 & Hsc).
  { apply Forall_forall. intros a [k Hk]%list_elem_of_lookup.
    apply (trial_scored s' k); [by rewrite <-Hs'|].
    apply trial_proper with s; [by symmetry|by apply (Htrial k)]. }
  exists l, s', l2. split_and!; try done.
  eapply Forall2_Forall_r; [exact Hsc|]. apply Forall_forall. eauto using scored_score.
Qed.

Lemma managed_choice s :
  managed_wf s →
  ∃ a s', ManagedMode (run_alg 0) s = Ret (a, s') ∧ pool_perm s s' ∧
    (∃ k a0, trial (run_alg 0) s k a0 ∧ ajobs a = ajobs a0) ∧
    (0 < noJobs a)%nat ∧ Forall (λ p, snd p ≠ []) (ajobs a).
Proof.
  intros Hm. destruct (managed_scores s Hm) as (l & s' & l2 & Hl & Hs' & Hlen & Htrial & Hl2 & Hsc & Hb).
  destruct (selectMaxScore_spec l2) as (k & b & Hsel & Hk & Hmax & _).
  { intros ->. inversion Hsc; subst; done. }
  { eapply Forall_impl; [exact Hb|]. intros b Hb'. simpl in Hb'.
    destruct (f32_of_Z_exact (getScore b) Hb') as [Hn _]. by destruct (f32_of_Z _). }
  exists b, s'. unfold ManagedMode. rewrite (mwf_algs s Hm). cbn [length main_algs Nat.sub].
  rewrite Hl. cbn [mbind outcome_bind]. rewrite Hl2. cbn [mbind outcome_bind]. rewrite Hsel.
  split; [done|]. split; [done|].
  destruct (Forall2_lookup_r _ _ _ _ _ Hsc Hk) as (a & Ha & Hab).
  destruct (lookup_lt_is_Some_2 l 1) as [a1 Ha1]; [lia|].
  destruct (Forall2_lookup_l _ _ _ _ _ Hsc Ha1) as (b1 & Hb1 & Hab1).
  assert (Hjobs : ajobs b = ajobs a) by (by destruct Hab as (z & -> & _)).
  assert (Hm' : managed_wf s') by (by rewrite <-Hs').
  destruct (trial_proper (run_alg 0) s' s k a) as (alg & sk & sk' & Hal & Hp & Hr & Hres);
    [by symmetry|by apply Htrial|].
  destruct (best_schedules s' a a1 b b1 sk sk') as [Hnj Hne]; try done.
  - destruct (trial_proper (run_alg 0) s' s 1 a1) as (alg1 & sk1 & sk1' & Hal1 & Hp1 & Hr1 & _);
      [by symmetry|by apply (Htrial 1)|].
    rewrite (mwf_algs s' Hm') in Hal1. injection Hal1 as <-. rewrite Hp1.
    apply (FCFSMin_count sk1 a1 sk1'); [|done]. rewrite <-Hp1. by apply mwf_sched.
  - rewrite Forall_forall in Hmax, Hb.
    pose proof (Hb b1 (list_elem_of_lookup_2 _ _ _ Hb1)) as Hb1r.
    pose proof (Hb b (list_elem_of_lookup_2 _ _ _ Hk)) as Hbr.
    specialize (Hmax b1 (list_elem_of_lookup_2 _ _ _ Hb1)).
    rewrite SFleb_f32_of_Z in Hmax by done. by apply Z.leb_le.
  - split_and!.
    + exists k, a. split; [by apply Htrial|done].
    + replace (noJobs b) with (noJobs a); [done|]. unfold noJobs. by rewrite Hjobs.
    + by rewrite Hjobs.
Qed.
End choice.
