(* ===== verification/AlgProps.v ===== *)
(** * What the scheduling algorithms compute: the theorems

    FCFS, Priority and SJTF against their plans, the choice of the best score,
    and what ManagedMode guarantees, with concrete instances of each. *)

From S2P Require Import Prelude CxxFloat FloatRound FloatBounds StdAlg ConcurrentDeque Message.
From S2P Require Import Job Scheduler SchedulerFacts Algs ScoreFacts AlgFacts ManagedFacts.

(** ** A concrete scheduler *)

(** [n] DFEs with ids 1 to [n], and the requests of jobs by client and time. *)
Definition demo_pool (n : nat) : list Resource :=
  (λ i, MkResource (Z.of_nat (S i)) 8111 "localhost" "DFE") <$> seq 0 n.

Definition demo_request (client ms target : Z) : msg_t :=
  Msg MSG_MOVING_AVG client 0 0 0 ms target 0 0 0 0 0 0 [].

Definition demo (free : nat) (jobs : list Job) : Sched :=
  MkSched jobs [] [] (demo_pool free) ∅ main_algs 5 "Completion Time"
    (1 + Z.of_nat (length jobs)) (1 + Z.of_nat free) (Z.of_nat free) 8111 "localhost"
    (new_Stats 0 f_zero).

(** Three jobs: the first in the queue is the latest. *)
Definition demo_jobs : list Job :=
  [new_Job (demo_request 7 3000 3500) 3; new_Job (demo_request 9 1000 1500) 2;
   new_Job (demo_request 8 2000 2500) 1].

Lemma demo_timed : Forall timed demo_jobs.
Proof.
  unfold demo_jobs. repeat constructor; eexists _, _; (split; [reflexivity|]);
    unfold INT_MAX; simpl; lia.
Qed.

Lemma demo_wf free : sched_wf (demo free demo_jobs).
Proof.
  split; simpl; [done|lia| |].
  - by apply (bool_decide_unpack _).
  - eapply Forall_impl; [apply demo_timed|]. apply timed_wf.
Qed.

Lemma demo_managed_wf free : (0 < free)%nat → managed_wf (demo free demo_jobs).
Proof.
  intros Hf. split; simpl; try done; [apply demo_wf|apply demo_timed|lia|].
  unfold resPoolSize, Deque.size. simpl. unfold demo_pool. by rewrite length_fmap, length_seq.
Qed.

(** ** First come, first served *)

(** C18: FCFSMin, FCFSAsManyAsPos and FCFSMax return on every state and refine the
    first-come-first-served plan over the first [window] jobs of the ready queue:
    they serve a prefix of it, job by job with as many resources as the plan
    gives, take those off the back of the pool, and change nothing else. *)
Theorem FCFS_refines_plan s :
  let refines run mx mn := ∃ a pool', run s = Ret (a, set_resPool s pool') ∧
    resPool s = pool' ++ reverse (aresources a) ∧
    grants (ajobs a) = fcfs_plan mx mn (window_jobs s) (resPoolSize s) in
  refines FCFSMin jmin jmin ∧ refines FCFSAsManyAsPos jmax jmin ∧ refines FCFSMax jmax jmax.
Proof.
  assert (H : ∀ mx mn, ∃ a pool',
    fcfs_loop mx mn (window s) 0 s new_Allocations = Ret (a, set_resPool s pool') ∧
    resPool s = pool' ++ reverse (aresources a) ∧
    grants (ajobs a) = fcfs_plan mx mn (window_jobs s) (resPoolSize s)).
  { intros mx mn.
    destruct (fcfs_loop_spec mx mn (window s) 0 s new_Allocations) as (ps & (p & -> & Hp) & Hg).
    rewrite drop_0 in Hg. eauto. }
  split_and!; apply H.
Qed.

(** The ready queue is served last in, first out: a job submitted later is
    pushed to the front of the queue, and FCFSMin with one free resource gives it
    to that job although earlier ones wait. *)
Theorem FCFS_serves_newest s now req j s1 r :
  resPool s = [r] → (0 < window s)%nat → submit s now req = Ret (j, s1) →
  ∃ s', FCFSMin s1 = Ret (MkAllocations [(j, [r])] 0, s') ∧ readyQ s1 = j :: readyQ s.
Proof.
  intros Hp Hw. unfold submit, getNextId. intros Hs. inv_ret.
  apply int_of_inv in E0 as [-> _].
  set (s1 := set_readyQ _ _). unfold FCFSMin. destruct (window s1) as [|n] eqn:Ew; [simpl in *; lia|].
  exists (set_resPool s1 []). split; [|done].
  cbn [fcfs_loop]. unfold readyQSize, Deque.size. simpl.
  unfold copyJobFromQ. simpl. unfold allocate, resPoolSize, Deque.size. simpl. rewrite Hp. simpl.
  destruct n as [|n]; [done|]. cbn [fcfs_loop]. unfold readyQSize, Deque.size. simpl.
  destruct (readyQ s) as [|j2 q]; [done|]. simpl.
  unfold allocate, resPoolSize, Deque.size. by destruct (jmin j2).
Qed.

Lemma FCFS_serves_newest_witness :
  ∃ j s1 s' r, submit (demo 1 (drop 1 demo_jobs)) 0 (demo_request 7 3000 3500) = Ret (j, s1) ∧
    FCFSMin s1 = Ret (MkAllocations [(j, [r])] 0, s') ∧ readyQ s1 = j :: drop 1 demo_jobs.
Proof.
  edestruct (FCFS_serves_newest (demo 1 (drop 1 demo_jobs)) 0 (demo_request 7 3000 3500))
    as (s' & H & Hq); [reflexivity|simpl; lia|reflexivity|].
  eexists _, _, s', _. split; [reflexivity|]. split; [exact H|exact Hq].
Defined.

Section sorted.
Context `{Hsort : !StdSort}.

(** C19: Priority, for every implementation of std::sort: it considers the window
    in an order of non-increasing priority and gives each job in turn exactly its
    maximum, as long as strictly more than that is free. *)
Theorem Priority_refines_plan s :
  sched_wf s →
  ∃ order a pool', order ≡ₚ window_jobs s ∧
    StronglySorted (λ x y, jpriority y ≤ jpriority x)%Z order ∧
    Priority s = Ret (a, set_resPool s pool') ∧ resPool s = pool' ++ reverse (aresources a) ∧
    grants (ajobs a) = greedy_plan jmax order (resPoolSize s).
Proof.
  intros Hwf. destruct (Priority_spec s Hwf) as (order & ps & Ho & Hs & (p & -> & Hp) & Hg).
  exists order. do 2 eexists. split_and!; try done.
  apply (StronglySorted_weaken (λ _, True) (λ x y, sortByPriority x y = false));
    [|by apply Forall_true|done].
  intros x y _ _. by unfold sortByPriority; rewrite Z.ltb_ge.
Qed.

(** C20: SJTF, for every implementation of std::sort: it considers the window in an
    order of non-decreasing cost on the minimum number of resources and, while more
    than the minimum of the next job is free, pairs it with its maximum number of
    resources, or with none when fewer are free. *)
Theorem SJTF_refines_plan s :
  sched_wf s →
  ∃ order a pool', order ≡ₚ window_jobs s ∧
    StronglySorted (λ x y, SFleb (minCost x) (minCost y) = true) order ∧
    SJTF s = Ret (a, set_resPool s pool') ∧ resPool s = pool' ++ reverse (aresources a) ∧
    grants (ajobs a) = greedy_plan jmin order (resPoolSize s).
Proof.
  intros Hwf. destruct (SJTF_spec s Hwf) as (order & ps & Ho & Hs & (p & -> & Hp) & Hg).
  exists order. do 2 eexists. split_and!; try done.
  assert (Hwfo : Forall job_wf order) by (rewrite Ho; by apply window_jobs_wf).
  eapply (StronglySorted_weaken job_wf); [|done|exact Hs].
  intros x y Hx%minCost_not_nan Hy%minCost_not_nan. unfold sortByTime.
  by rewrite SFltb_negb_SFleb, negb_false_iff.
Qed.

(** With two or three free resources SJTF pairs every job of the window with an
    empty list of resources: its guard tests the minimum, its allocation asks for
    the maximum. *)
Theorem SJTF_pairs_with_nothing s :
  sched_wf s → (2 ≤ resPoolSize s ≤ 3)%nat →
  ∃ a s', SJTF s = Ret (a, s') ∧ (ajobs a).*1 ≡ₚ window_jobs s ∧
    Forall (λ p, snd p = []) (ajobs a) ∧ noJobs a = 0%nat ∧ resPool s' = resPool s.
Proof.
  intros Hwf Hf. destruct (SJTF_spec s Hwf) as (order & ps & Ho & Hs & (p & -> & Hp) & Hg).
  rewrite greedy_plan_starved in Hg; [|rewrite Ho; by apply window_jobs_wf|done].
  assert (Hempty : Forall (λ p : JobResPair, snd p = []) ps).
  { assert (H0 : Forall (λ n, n = 0%nat) (grants ps).*2).
    { rewrite Hg, <-list_fmap_compose. apply Forall_fmap, Forall_true. done. }
    rewrite snd_grants, Forall_fmap in H0. eapply Forall_impl; [exact H0|].
    intros [j rs] Hrs. by destruct rs. }
  do 2 eexists. split; [done|]. simpl. split_and!.
  - by rewrite <-fst_grants, Hg, <-list_fmap_compose, list_fmap_id.
  - done.
  - unfold noJobs. simpl. clear -Hempty. induction Hempty as [|[j rs] l Hrs _ IH]; [done|].
    simpl in *. by subst.
  - assert (mjoin ps.*2 = []) as E; [|by rewrite Hp, E, app_nil_r].
    clear -Hempty. induction Hempty as [|[j rs] l Hrs _ IH]; [done|]. csimpl. simpl in Hrs.
    by rewrite Hrs.
Qed.

End sorted.

Lemma Priority_refines_plan_witness :
  ∃ order a pool', order ≡ₚ demo_jobs ∧
    StronglySorted (λ x y, jpriority y ≤ jpriority x)%Z order ∧
    Priority (demo 9 demo_jobs) = Ret (a, set_resPool (demo 9 demo_jobs) pool') ∧
    demo_pool 9 = pool' ++ reverse (aresources a) ∧
    grants (ajobs a) = greedy_plan jmax order 9.
Proof. exact (Priority_refines_plan (demo 9 demo_jobs) (demo_wf 9)). Defined.

Lemma SJTF_refines_plan_witness :
  ∃ order a pool', order ≡ₚ demo_jobs ∧
    StronglySorted (λ x y, SFleb (minCost x) (minCost y) = true) order ∧
    SJTF (demo 9 demo_jobs) = Ret (a, set_resPool (demo 9 demo_jobs) pool') ∧
    demo_pool 9 = pool' ++ reverse (aresources a) ∧
    grants (ajobs a) = greedy_plan jmin order 9.
Proof. exact (SJTF_refines_plan (demo 9 demo_jobs) (demo_wf 9)). Defined.

Lemma SJTF_pairs_with_nothing_witness :
  ∃ a s', SJTF (demo 3 demo_jobs) = Ret (a, s') ∧ (ajobs a).*1 ≡ₚ demo_jobs ∧
    Forall (λ p, snd p = []) (ajobs a) ∧ noJobs a = 0%nat ∧ resPool s' = demo_pool 3.
Proof.
  apply (SJTF_pairs_with_nothing (demo 3 demo_jobs) (demo_wf 3)). simpl. vm_compute. lia.
Defined.

(** The plans on the three jobs (3 s, 1 s and 2 s) with nine free DFEs. *)
Example Priority_demo :
  ∃ a s', Priority (demo 9 demo_jobs) = Ret (a, s') ∧
    List.map (λ p, (jid (fst p), List.map rid (snd p))) (ajobs a) =
      [(2, [9; 8; 7; 6]); (1, [5; 4; 3; 2])]%Z.
Proof. eexists _, _. split; vm_compute; reflexivity. Qed.

Example SJTF_demo :
  ∃ a s', SJTF (demo 9 demo_jobs) = Ret (a, s') ∧
    List.map (λ p, (jid (fst p), List.map rid (snd p))) (ajobs a) =
      [(2, [9; 8; 7; 6]); (1, [5; 4; 3; 2])]%Z.
Proof. eexists _, _. split; vm_compute; reflexivity. Qed.

(** ** The choice of an allocation *)

(** SelectMaxScore returns an allocation whose score, converted to float, is
    maximal, and the last one of these: every later allocation has a smaller one. *)
Theorem selectMaxScore_last_max l :
  l ≠ [] → Forall (λ a, 0 ≤ getScore a ≤ 2 ^ 24)%Z l →
  ∃ k a, selectMaxScore l = Ret a ∧ l !! k = Some a ∧
    Forall (λ b, getScore b ≤ getScore a)%Z l ∧
    Forall (λ b, getScore b < getScore a)%Z (drop (S k) l).
Proof.
  intros Hne Hl. destruct (selectMaxScore_spec l Hne) as (k & a & Hsel & Hk & Hmax & Hlast).
  { eapply Forall_impl; [exact Hl|]. intros b Hb. simpl in Hb.
    destruct (f32_of_Z_exact (getScore b) Hb) as [Hn _]. by destruct (f32_of_Z _). }
  exists k, a. split_and!; try done.
  - assert (Ha : (0 ≤ getScore a ≤ 2 ^ 24)%Z).
    { rewrite Forall_forall in Hl. by eapply Hl, list_elem_of_lookup_2. }
    apply Forall_forall. intros b Hb. rewrite Forall_forall in Hl, Hmax.
    specialize (Hl b Hb). specialize (Hmax b Hb). rewrite SFleb_f32_of_Z in Hmax by done.
    by apply Z.leb_le.
  - assert (Ha : (0 ≤ getScore a ≤ 2 ^ 24)%Z).
    { rewrite Forall_forall in Hl. by eapply Hl, list_elem_of_lookup_2. }
    apply (Forall_drop _ (S k)) in Hl. apply Forall_forall. intros b Hb.
    rewrite Forall_forall in Hl, Hlast. specialize (Hl b Hb). specialize (Hlast b Hb).
    rewrite SFleb_f32_of_Z in Hlast by done. by apply Z.leb_gt.
Qed.

Lemma selectMaxScore_last_max_witness :
  ∃ k a, selectMaxScore [MkAllocations [] 3; MkAllocations [] 5; MkAllocations [] 5;
      MkAllocations [] 1] = Ret a ∧
    [MkAllocations [] 3; MkAllocations [] 5; MkAllocations [] 5; MkAllocations [] 1] !! k = Some a ∧
    Forall (λ b, getScore b ≤ getScore a)%Z
      [MkAllocations [] 3; MkAllocations [] 5; MkAllocations [] 5; MkAllocations [] 1] ∧
    Forall (λ b, getScore b < getScore a)%Z (drop (S k)
      [MkAllocations [] 3; MkAllocations [] 5; MkAllocations [] 5; MkAllocations [] 1]).
Proof.
  apply selectMaxScore_last_max; [discriminate|].
  repeat constructor; simpl; lia.
Defined.

Section managed_props.
Context `{Hsort : !StdSort}.

(** C8: ManagedMode, on a state whose waiting jobs have positive predicted times and
    with at least one free resource: it returns (no null allocation, no undefined
    conversion of a score, whatever std::sort does with equal elements), the trial
    runs leave the scheduler as it was up to the order of the pool, and the chosen
    allocation schedules at least one job, only jobs of the window, each with one to
    four resources, which are all taken from the pool. *)
Theorem ManagedMode_schedules s :
  managed_wf s →
  ∃ a s', run_alg 1 ManagedModeAlg s = Ret (a, s') ∧ pool_perm s s' ∧
    ajobs a ≠ [] ∧ noJobs a = length (ajobs a) ∧
    Forall (λ p, 1 ≤ length (snd p) ≤ 4)%nat (ajobs a) ∧
    (ajobs a).*1 ⊆+ window_jobs s ∧ aresources a ⊆+ resPool s.
Proof.
  intros Hm. destruct (managed_choice s Hm) as (a & s' & Hrun & Hs' & Htr & Hnj & Hne).
  destruct Htr as (k & a0 & (alg & sk & sk' & _ & Hp & _ & Hres) & Hjobs).
  destruct Hres as (pool' & _ & Hpool & Hsub & Hmax & _).
  exists a, s'. split_and!; try done.
  - intros E. unfold noJobs in Hnj. rewrite E in Hnj. simpl in Hnj. lia.
  - by apply noJobs_all.
  - rewrite Hjobs in Hne |- *. rewrite Forall_forall in Hmax, Hne |- *. intros [j rs] Hin.
    specialize (Hmax _ Hin). specialize (Hne _ Hin). simpl in *. destruct rs; simpl in *; [done|lia].
  - rewrite Hjobs, Hp. done.
  - rewrite Hp, Hpool. unfold aresources. rewrite Hjobs. by apply submseteq_inserts_l.
Qed.

End managed_props.

Lemma ManagedMode_schedules_witness :
  ∃ a s', run_alg 1 ManagedModeAlg (demo 6 demo_jobs) = Ret (a, s') ∧
    pool_perm (demo 6 demo_jobs) s' ∧ ajobs a ≠ [] ∧ noJobs a = length (ajobs a) ∧
    Forall (λ p, 1 ≤ length (snd p) ≤ 4)%nat (ajobs a) ∧
    (ajobs a).*1 ⊆+ demo_jobs ∧ aresources a ⊆+ demo_pool 6.
Proof. apply (ManagedMode_schedules (demo 6 demo_jobs)), demo_managed_wf. lia. Defined.
