(* ===== verification/SchedLoop.v ===== *)
(** * The scheduler loop

    One iteration of [Scheduler::schedLoop]: choose an allocation, adapt the
    pool, move the allocated jobs and resources to the run queue. *)

From S2P Require Import Prelude CxxFloat FloatRound FloatBounds StdAlg ConcurrentDeque Message.
From S2P Require Import Job Scheduler SchedulerFacts Algs ScoreFacts AlgFacts ManagedFacts.

Lemma wait_not_empty_ret {A} (q : list A) : q ≠ [] → Deque.wait_not_empty q = Ret ().
Proof. by destruct q. Qed.

(** ** Jobs with no predicted time *)

Definition untimed (j : Job) : Prop :=
  ∃ req id, j = new_Job req id ∧ predictedTimeMillis req = 0%Z.

Lemma untimed_cost j rs :
  untimed j → (1 ≤ length rs ≤ 4)%nat → cost (j, rs) = f_zero.
Proof.
  intros (req & id & -> & Hms) Hrs. unfold cost, defaultCostFunction, getDefaultJobTime. simpl.
  rewrite Hms. destruct rs as [|? [|? [|? [|? [|? ?]]]]]; simpl in Hrs; try lia; reflexivity.
Qed.

Lemma untimed_makespan a :
  Forall (λ p : JobResPair, untimed (fst p) ∧ (1 ≤ length (snd p) ≤ 4)%nat) (ajobs a) →
  makespan a = f_zero.
Proof.
  unfold makespan. induction 1 as [|[j rs] l [Hj Hrs] _ IH]; [done|]. simpl in *.
  by rewrite untimed_cost.
Qed.

Lemma score_nothing a s :
  strat s = "Completion Time" → noJobs a = 0%nat ∨ makespan a = f_zero →
  score a s = Ret (setScore a 0).
Proof.
  intros Hs H. unfold score. rewrite Hs.
  replace (bool_decide ("Completion Time" = "Completion Time")) with true by done.
  replace (bool_decide ("Completion Time" = "Fairness")) with false by done.
  destruct H as [-> | ->]; [done|]. by rewrite orb_true_r.
Qed.

Section starvation.
Context `{Hsort : !StdSort}.

Lemma priority_small_empty s a s' :
  sched_wf s → (resPoolSize s ≤ 4)%nat → Priority s = Ret (a, s') → ajobs a = [].
Proof.
  intros Hwf Hpool Hrun. destruct (Priority_spec s Hwf) as (order & ps & Ho & _ & (p & Hr & _) & Hg).
  rewrite Hrun in Hr. injection Hr as -> _. simpl.
  rewrite greedy_plan_priority_small in Hg; [by apply fmap_nil_inv in Hg| |done].
  rewrite Ho. by apply window_jobs_wf.
Qed.

(** With at most four resources every trial allocation of such jobs gives
    nothing or resources to every pair. *)
Lemma small_trial_shape s a s' alg :
  sched_wf s → (resPoolSize s ≤ 4)%nat → alg ≠ ManagedModeAlg → run_alg 0 alg s = Ret (a, s') →
  (noJobs a = 0%nat ∨ Forall (λ p, 1 ≤ length (snd p) ≤ 4)%nat (ajobs a)) ∧
  (alg = PriorityAlg → ajobs a = []).
Proof.
  intros Hwf Hpool Halg Hrun.
  assert (Hfc : ∀ mx mn, (∀ l, Forall job_wf l → Forall (λ j, mx j ≤ 4)%nat l) →
    fcfs_loop mx mn (window s) 0 s new_Allocations = Ret (a, s') →
    Forall (λ p, 1 ≤ length (snd p) ≤ 4)%nat (ajobs a)).
  { intros mx mn Hmx Hr. destruct (fcfs_sound mx mn s Hmx Hwf) as (a' & s1 & Hr' & Hres & Hg).
    rewrite Hr' in Hr. injection Hr as -> ->. destruct Hres as (_ & _ & _ & _ & Hmax & _).
    pose proof (fcfs_plan_pos mx mn (window_jobs s) (resPoolSize s)) as Hpos.
    rewrite <-Hg, snd_grants, Forall_fmap in Hpos. rewrite Forall_forall in Hpos, Hmax |- *.
    intros p Hp. specialize (Hpos p Hp). specialize (Hmax p Hp). simpl in *. lia. }
  destruct alg; try done; simpl in Hrun; (split; [|try done]).
  - right. by apply (Hfc jmax jmax wf_max_4).
  - right. by apply (Hfc jmin jmin wf_min_4).
  - right. by apply (Hfc jmax jmin wf_max_4).
  - destruct (SJTF_spec s Hwf) as (order & ps & Ho & _ & (p & Hr & _) & Hg).
    rewrite Hrun in Hr. injection Hr as -> _.
    assert (Hwfo : Forall job_wf order) by (rewrite Ho; by apply window_jobs_wf).
    destruct (greedy_plan_small order (resPoolSize s) Hwfo Hpool) as [H|H];
      rewrite <-Hg in H; [left; by apply noJobs_grants|right].
    by rewrite snd_grants, Forall_fmap in H.
  - left. unfold noJobs. by rewrite (priority_small_empty s a s').
  - intros _. by eapply priority_small_empty.
Qed.

(** Among scores of 0 the last one is chosen. *)
Lemma selectMaxScore_zeros l :
  l ≠ [] → Forall (λ b, getScore b = 0%Z) l →
  ∃ b, selectMaxScore l = Ret b ∧ l !! (length l - 1)%nat = Some b.
Proof.
  intros Hne Hzero. destruct (selectMaxScore_spec l Hne) as (k & b & Hsel & Hk & _ & Hlast).
  { eapply Forall_impl; [exact Hzero|]. intros b. simpl. by intros ->. }
  exists b. split; [done|]. pose proof (lookup_lt_Some _ _ _ Hk).
  destruct (decide (k = length l - 1)%nat) as [->|Hn]; [done|exfalso].
  destruct (lookup_lt_is_Some_2 (drop (S k) l) 0) as [c Hc]; [rewrite length_drop; lia|].
  rewrite Forall_forall in Hlast, Hzero. specialize (Hlast c (list_elem_of_lookup_2 _ _ _ Hc)).
  rewrite lookup_drop in Hc. rewrite (Hzero c (list_elem_of_lookup_2 _ _ _ Hc)) in Hlast.
  by rewrite (Hzero b (list_elem_of_lookup_2 _ _ _ Hk)) in Hlast.
Qed.

(** A trial allocation of untimed jobs on a small pool is worth nothing. *)
Lemma untimed_trial s sk sk' alg k a :
  sched_wf s → Forall untimed (readyQ s) → (1 ≤ resPoolSize s ≤ 4)%nat → pool_perm s sk →
  main_algs !! k = Some alg → (k < 5)%nat → run_alg 0 alg sk = Ret (a, sk') →
  (ajobs a).*1 ⊆+ window_jobs sk →
  (noJobs a = 0%nat ∨ makespan a = f_zero) ∧ (k = 4%nat → ajobs a = []).
Proof.
  intros Hwf Hun Hpool Hp Hal Hk Hr Hsub.
  destruct (small_trial_shape sk a sk' alg) as [Hsh Hprio]; try done.
  - by rewrite <-Hp.
  - rewrite <-Hp. lia.
  - intros ->. destruct k as [|[|[|[|[|k]]]]]; simpl in *; simplify_eq; lia.
  - split; [|by intros ->; apply Hprio; injection Hal].
    destruct Hsh as [?|Hsh]; [by left|right]. apply untimed_makespan.
    rewrite Forall_forall in Hsh. rewrite Forall_forall in Hun. apply Forall_forall.
    intros q Hq. split; [|by apply Hsh].
    apply Hun. rewrite <-Hp in Hsub. eapply elem_of_submseteq; [|etransitivity; [exact Hsub|]].
    + by apply list_elem_of_fmap_2.
    + apply sublist_submseteq, sublist_take.
Qed.

(** ManagedMode chooses the empty allocation of Priority. *)
Lemma managed_untimed s :
  sched_wf s → Forall untimed (readyQ s) → algVec s = main_algs → strat s = "Completion Time" →
  (1 ≤ resPoolSize s ≤ 4)%nat →
  ∃ a s', run_alg 1 ManagedModeAlg s = Ret (a, s') ∧ ajobs a = [] ∧ pool_perm s s'.
Proof.
  intros Hwf Hun Halg Hstrat Hpool.
  destruct (trial_allocations_spec (run_alg 0) 5 0 s Hwf) as (l & s' & Hl & Hs' & Hlen & Htrial).
  { lia. }
  { intros k Hk. rewrite Halg.
    destruct k as [|[|[|[|[|k]]]]]; [..|lia]; eexists; (split; [done|]); by apply run_alg_sound. }
  assert (Hshape : ∀ k a, l !! k = Some a →
    (noJobs a = 0%nat ∨ makespan a = f_zero) ∧ (k = 4%nat → ajobs a = [])).
  { intros k a Hk. destruct (Htrial k a Hk) as (alg & sk & sk' & Hal & Hp & Hr & Hres).
    rewrite Halg in Hal. destruct Hres as (p & _ & _ & Hsub & _).
    apply (untimed_trial s sk sk' alg); try done. apply lookup_lt_Some in Hk. lia. }
  destruct (mapM_ret (λ a, score a s') (λ a b, b = setScore a 0) l) as (l2 & Hl2 & Hsc).
  { apply Forall_forall. intros a [k Hk]%list_elem_of_lookup. eexists. split; [|done].
    apply score_nothing; [by rewrite <-Hs'|]. by apply (Hshape k). }
  assert (Hlen2 : length l2 = 5%nat) by (by rewrite <-(Forall2_length _ _ _ Hsc)).
  destruct (selectMaxScore_zeros l2) as (b & Hsel & Hk).
  { by intros ->. }
  { eapply Forall2_Forall_r; [exact Hsc|]. apply Forall_forall. by intros a _ b ->. }
  rewrite Hlen2 in Hk. destruct (Forall2_lookup_r _ _ _ _ _ Hsc Hk) as (a & Ha & ->).
  exists (setScore a 0), s'. split_and!; [|by apply (Hshape _ a Ha)|done].
  change (run_alg 1 ManagedModeAlg s) with (ManagedMode (run_alg 0) s).
  unfold ManagedMode. rewrite Halg. cbn [length main_algs Nat.sub].
  rewrite Hl. cbn [mbind outcome_bind]. rewrite Hl2. cbn [mbind outcome_bind]. by rewrite Hsel.
Qed.

(** Jobs without a predicted time starve on a small pool.  If every waiting job
    has predicted time 0 and at most four resources are free, an iteration of the
    scheduler loop returns with the ready queue, the run queue and (up to order) the
    pool unchanged: all trial allocations score 0, the last one, Priority's, is
    chosen, and it is empty; every further iteration starts in the same
    situation. *)
Theorem untimed_jobs_starve s now duration :
  sched_wf s → Forall untimed (readyQ s) → algVec s = main_algs → strat s = "Completion Time" →
  (1 ≤ resPoolSize s ≤ 4)%nat →
  ∃ s', schedLoop_iter 1 s now duration = Ret s' ∧ readyQ s' = readyQ s ∧ runQ s' = runQ s ∧
    resPool s' ≡ₚ resPool s ∧ algVec s' = algVec s ∧ strat s' = strat s ∧ window s' = window s.
Proof.
  intros Hwf Hun Halg Hstrat Hpool.
  destruct (managed_untimed s Hwf Hun Halg Hstrat Hpool) as (a & s1 & Hrun & Ha & Hs1).
  unfold schedLoop_iter. rewrite wait_not_empty_ret by apply Hwf. cbn [mbind outcome_bind].
  rewrite (proj2 (Nat.ltb_lt _ _)) by lia. rewrite Halg. cbn [lookup list_lookup MODE_MANAGED main_algs].
  rewrite Hrun. cbn [mbind outcome_bind]. unfold apply_schedule, noJobs. rewrite Ha. simpl.
  eexists. split; [done|]. destruct Hs1 as (p & -> & Hp). by split_and!.
Qed.
End starvation.

Lemma untimed_jobs_starve_witness :
  let s := MkSched [new_Job (Msg MSG_MOVING_AVG 1 0 0 0 0 500 0 0 0 0 0 0 []) 1] [] []
    [MkResource 1 8111 "localhost" "DFE"] ∅ main_algs 5 "Completion Time" 2 2 1 8111
    "localhost" (new_Stats 0 f_zero) in
  ∃ s', schedLoop_iter 1 s 0 0 = Ret s' ∧ readyQ s' = readyQ s ∧ runQ s' = runQ s ∧
    resPool s' ≡ₚ resPool s ∧ algVec s' = algVec s ∧ strat s' = strat s ∧ window s' = window s.
Proof.
  intros s. apply (untimed_jobs_starve s 0 0); try reflexivity.
  - split; [discriminate|simpl; lia|simpl; apply NoDup_singleton|].
    repeat constructor. eexists _, _. split; [reflexivity|]. unfold INT_MIN, INT_MAX. simpl. lia.
  - repeat constructor. by eexists _, _.
  - vm_compute. lia.
Defined.

(** ** A successful iteration *)

(** Ids that identify the free resources, all below the next id. *)
Definition pool_wf (s : Sched) : Prop :=
  NoDup (rid <$> resPool s) ∧ Forall (λ r, rid r < resourceId s)%Z (resPool s).

Definition fresh_resource (s : Sched) : Resource :=
  MkResource (resourceId s) (dispatcherPortNumber s) (dispatcherHostname s) "DFE".

Lemma pool_wf_fresh s : pool_wf s → NoDup (rid <$> resPool s ++ [fresh_resource s]).
Proof.
  intros [Hnd Hlt]. rewrite fmap_app. apply NoDup_app. split_and!; [done| |apply NoDup_singleton].
  intros x Hx. csimpl. rewrite list_elem_of_singleton. intros ->.
  apply list_elem_of_fmap in Hx as (r & Hr & Hin). rewrite Forall_forall in Hlt.
  specialize (Hlt r Hin). simpl in Hr. lia.
Qed.

(** The elasticity manager when the metric does not exceed one second. *)
Lemma updateResourcePool_keeps s a :
  ids_bounded s → pool_wf s →
  SFltb (getJLOMetric a) f_zero = true ∨ SFltb (f64_of_Z 1) (getJLOMetric a) = false →
  ∃ s' new, updateResourcePool s a = Ret s' ∧ resPool s' = resPool s ++ new ∧
    new = (if SFltb (getJLOMetric a) f_zero then [fresh_resource s] else []) ∧
    NoDup (rid <$> resPool s') ∧ readyQ s' = readyQ s ∧ runQ s' = runQ s ∧ stats s' = stats s.
Proof.
  intros Hb Hwf Hm. unfold updateResourcePool. destruct (SFltb (getJLOMetric a) f_zero).
  - rewrite provisionResource_ret by done. eexists _, _. split; [done|]. simpl.
    split_and!; try done. by apply pool_wf_fresh.
  - destruct Hm as [?| ->]; [done|]. exists s, []. split_and!; try done; [by rewrite app_nil_r|].
    apply Hwf.
Qed.

Lemma apply_schedule_moves s a now duration :
  ids_bounded s → pool_wf s → NoDup (jid <$> readyQ s) →
  aresources a ⊆+ resPool s → (ajobs a).*1 ⊆+ readyQ s → (0 < noJobs a)%nat →
  SFltb (getJLOMetric a) f_zero = true ∨ SFltb (f64_of_Z 1) (getJLOMetric a) = false →
  ∃ s', apply_schedule s a now duration = Ret s' ∧
    runQ s' = reverse (ajobs a) ++ runQ s ∧
    readyQ s ≡ₚ (ajobs a).*1 ++ readyQ s' ∧ readyQ s' `sublist_of` readyQ s ∧
    resPool s' ++ aresources a ≡ₚ
      resPool s ++ (if SFltb (getJLOMetric a) f_zero then [fresh_resource s] else []) ∧
    numSchedules (stats s') = (numSchedules (stats s) + 1)%Z ∧
    totalJobsScheduled (stats s') = (totalJobsScheduled (stats s) + Z.of_nat (noJobs a))%Z.
Proof.
  intros Hb Hwf Hids [rest Hres]%submseteq_Permutation Hjobs Hnj Hm.
  unfold apply_schedule. rewrite (proj2 (Nat.ltb_lt _ _) Hnj).
  destruct (updateResourcePool_keeps s a Hb Hwf Hm)
    as (s1 & new & -> & Hpool1 & -> & Hnd1 & Hq1 & Hr1 & Hst1).
  set (new := if SFltb (getJLOMetric a) f_zero then _ else _) in *.
  cbn [mbind outcome_bind]. unfold serviceAllocations.
  destruct (serviceAllocations_loop_spec s1 now (ajobs a) (rest ++ new))
    as (s2 & -> & Hpool2 & Hrun2 & Hready2 & Hsub2 & Hc); try (by rewrite ?Hq1).
  { rewrite Hpool1, Hres. by rewrite (assoc_L (++)). }
  cbn [mbind outcome_bind]. eexists. split; [done|].
  destruct Hc as (_ & _ & _ & _ & _ & _ & _ & _ & _ & Hst2).
  simpl. unfold add_sched_stats. rewrite (proj2 (Nat.ltb_lt _ _) Hnj). simpl.
  rewrite Hq1 in Hready2, Hsub2. rewrite Hrun2, Hr1, Hst2, Hst1. split_and!; try done.
  rewrite Hpool2, Hres. solve_Permutation.
Qed.

Lemma managed_result s :
  ∀ `{Hsort : !StdSort}, managed_wf s →
  ∃ a s1, run_alg 1 ManagedModeAlg s = Ret (a, s1) ∧ pool_perm s s1 ∧ (0 < noJobs a)%nat ∧
    Forall (λ p, snd p ≠ []) (ajobs a) ∧ (ajobs a).*1 ⊆+ readyQ s ∧ aresources a ⊆+ resPool s.
Proof.
  intros Hsort Hm. destruct (managed_choice s Hm) as (a & s1 & Hrun & Hs1 & Htr & Hnj & Hne).
  destruct Htr as (k & a0 & (alg & sk & sk' & _ & Hp & _ & Hres) & Hjobs).
  destruct Hres as (pool' & _ & Hpool & Hsub & _ & _).
  exists a, s1. split_and!; try done.
  - rewrite Hjobs, Hp. etransitivity; [exact Hsub|]. apply sublist_submseteq, sublist_take.
  - rewrite Hp, Hpool. unfold aresources. rewrite Hjobs. by apply submseteq_inserts_l.
Qed.

Section iteration.
Context `{Hsort : !StdSort}.

(** C17: one iteration of the scheduler loop, for jobs with positive predicted times
    and distinct resource ids, when the elasticity manager does not remove a
    resource: the iteration returns; at least one job is scheduled, each one with
    resources; exactly the allocated jobs move from the ready queue, whose order is
    kept, to the front of the run queue; exactly the allocated resources leave the
    pool, to which at most one fresh DFE is added; and the counters grow by one
    schedule and by the number of jobs. *)
Theorem schedLoop_iter_moves s now duration :
  managed_wf s → ids_bounded s → pool_wf s →
  ∃ a s1, run_alg 1 ManagedModeAlg s = Ret (a, s1) ∧ ajobs a ≠ [] ∧
    Forall (λ p, snd p ≠ []) (ajobs a) ∧
    (SFltb (getJLOMetric a) f_zero = true ∨ SFltb (f64_of_Z 1) (getJLOMetric a) = false →
     ∃ s' new, schedLoop_iter 1 s now duration = Ret s' ∧
       runQ s' = reverse (ajobs a) ++ runQ s ∧
       readyQ s ≡ₚ (ajobs a).*1 ++ readyQ s' ∧ readyQ s' `sublist_of` readyQ s ∧
       resPool s' ++ aresources a ≡ₚ resPool s ++ new ∧
       (new = [] ∨ new = [fresh_resource s]) ∧
       numSchedules (stats s') = (numSchedules (stats s) + 1)%Z ∧
       totalJobsScheduled (stats s') =
         (totalJobsScheduled (stats s) + Z.of_nat (length (ajobs a)))%Z).
Proof.
  intros Hm Hb [Hnd Hlt]. destruct (managed_result s Hm) as (a & s1 & Hrun & Hs1 & Hnj & Hne & Hj & Hr).
  exists a, s1. split_and!; try done.
  { intros E. unfold noJobs in Hnj. rewrite E in Hnj. simpl in Hnj. lia. }
  intros Hjlo. pose proof (mwf_sched s Hm) as Hwf.
  unfold schedLoop_iter. rewrite wait_not_empty_ret by apply Hwf. cbn [mbind outcome_bind].
  rewrite (proj2 (Nat.ltb_lt _ _) (mwf_pool s Hm)). rewrite (mwf_algs s Hm).
  cbn [lookup list_lookup MODE_MANAGED main_algs]. rewrite Hrun. cbn [mbind outcome_bind].
  destruct Hs1 as (p & -> & Hp).
  destruct (apply_schedule_moves (set_resPool s p) a now duration)
    as (s' & -> & Hrun' & Hq & Hsub & Hpool & Hn & Ht); try done.
  - split; simpl; by rewrite Hp.
  - apply Hwf.
  - simpl. by rewrite Hp.
  - rewrite (noJobs_all a Hne) in Ht. exists s', (if SFltb (getJLOMetric a) f_zero then [fresh_resource s] else []).
    split_and!; try done.
    + rewrite Hpool. simpl. by apply Permutation_app_tail.
    + case_match; auto.
Qed.

End iteration.

(** ** Removing a resource that is about to be used *)

Lemma claimResources_cases s rs :
  (∃ pool', claimResources s rs = Ret (set_resPool s pool') ∧ pool' ⊆+ resPool s) ∨
  claimResources s rs = Undef EraseEnd.
Proof.
  revert s. induction rs as [|r rs IH]; intros s; simpl.
  { left. exists (resPool s). by rewrite set_resPool_id. }
  unfold claim_one. destruct (find_if (Resource_eqb r) (resPool s)) as [i|]; [|by right].
  cbn [erase mbind outcome_bind]. destruct (IH (set_resPool s (delete i (resPool s))))
    as [(pool' & -> & Hp)| ->]; [left|by right].
  exists pool'. split; [done|]. simpl in Hp. etransitivity; [exact Hp|apply submseteq_delete].
Qed.

Lemma removeJobFromReadyQ_cases s p :
  ∃ q, removeJobFromReadyQ s p = Ret (set_readyQ s q).
Proof.
  unfold removeJobFromReadyQ. case_match; [|exists (readyQ s); by destruct s].
  case_match; [by eexists|exists (readyQ s); by destruct s].
Qed.

Lemma service_missing s now js r :
  NoDup (rid <$> mjoin js.*2) → r ∈ mjoin js.*2 → rid r ∉ rid <$> resPool s →
  ∃ u, serviceAllocations_loop s now js = Undef u.
Proof.
  revert s. induction js as [|[j rs] js IH]; intros s Hnd Hr Hm; csimpl in *; [by apply elem_of_nil in Hr|].
  destruct (removeJobFromReadyQ_cases s (j, rs)) as (q & ->). cbn [mbind outcome_bind].
  rewrite fmap_app in Hnd. apply NoDup_app in Hnd as (Hnd1 & _ & Hnd2).
  apply elem_of_app in Hr as [Hr|Hr].
  - destruct (claimResources_missing (set_readyQ s q) rs r) as (u & ->); try done. by exists u.
  - destruct (claimResources_cases (set_readyQ s q) rs) as [(pool' & -> & Hp)| ->]; [|by eexists].
    cbn [mbind outcome_bind]. apply IH; try done. simpl. intros Hin. apply Hm.
    apply list_elem_of_fmap in Hin as (x & -> & Hx). apply list_elem_of_fmap_2.
    by eapply elem_of_submseteq.
Qed.

(** C36: the elasticity manager runs between the choice of an allocation and the
    claiming of its resources.  If the allocation uses the resource at the back of
    the pool (resource ids distinct) and its JLO metric exceeds one second, that
    resource is removed from the pool first and applying the schedule is undefined:
    claimResources erases the end iterator. *)
Theorem deprovision_before_claim s a p r now duration :
  NoDup (rid <$> resPool s) → resPool s = p ++ [r] → NoDup (rid <$> aresources a) →
  r ∈ aresources a → (0 < noJobs a)%nat → (0 < provisionedResources s)%Z →
  SFltb (getJLOMetric a) f_zero = false → SFltb (f64_of_Z 1) (getJLOMetric a) = true →
  ∃ u, apply_schedule s a now duration = Undef u.
Proof.
  intros Hnd Hp Hnda Hr Hnj Hpos Hm0 Hm1. unfold apply_schedule.
  rewrite (proj2 (Nat.ltb_lt _ _) Hnj). unfold updateResourcePool. rewrite Hm0, Hm1.
  rewrite (deprovisionResource_ret s p r) by done. cbn [mbind outcome_bind].
  unfold serviceAllocations.
  destruct (service_missing (set_resPool (set_provisioned s (provisionedResources s - 1)%Z) p)
    now (ajobs a) r) as (u & ->); try done; [|by exists u].
  simpl. rewrite Hp, fmap_app in Hnd. apply NoDup_app in Hnd as (_ & Hd & _).
  intros Hin. apply (Hd _ Hin). csimpl. by apply list_elem_of_singleton.
Qed.

(** A job that takes 1 s on one DFE and may take 5 s, and one provisioned DFE. *)
Definition relaxed_job : Job := new_Job (Msg MSG_MOVING_AVG 1 0 0 0 1000 5000 0 0 0 0 0 0 []) 1.

Definition relaxed_sched : Sched :=
  MkSched [relaxed_job] [] [] [MkResource 1 8111 "localhost" "DFE"] ∅ main_algs 5
    "Completion Time" 2 2 1 8111 "localhost" (new_Stats 0 f_zero).

Lemma deprovision_before_claim_witness :
  ∃ u, apply_schedule relaxed_sched
    (MkAllocations [(relaxed_job, [MkResource 1 8111 "localhost" "DFE"])] 2) 0 0 = Undef u.
Proof.
  apply (deprovision_before_claim relaxed_sched _ [] (MkResource 1 8111 "localhost" "DFE"));
    try reflexivity; try apply NoDup_singleton; [|vm_compute; lia].
  by apply list_elem_of_singleton.
Defined.

(** The whole iteration on that state. *)
Example schedLoop_iter_relaxed : schedLoop_iter 1 relaxed_sched 0 0 = Undef EraseEnd.
Proof. vm_compute. reflexivity. Qed.

(** The same job with a target of 1.5 s. *)
Definition tight_job : Job := new_Job (Msg MSG_MOVING_AVG 1 0 0 0 1000 1500 0 0 0 0 0 0 []) 1.

Definition tight_sched : Sched :=
  MkSched [tight_job] [] [] [MkResource 1 8111 "localhost" "DFE"] ∅ main_algs 5
    "Completion Time" 2 2 1 8111 "localhost" (new_Stats 0 f_zero).

Lemma tight_sched_wf : managed_wf tight_sched ∧ ids_bounded tight_sched ∧ pool_wf tight_sched.
Proof.
  assert (Ht : timed tight_job).
  { eexists _, _. split; [reflexivity|]. unfold INT_MAX. simpl. lia. }
  split_and!.
  - split; simpl; try done; [|by repeat constructor|lia|vm_compute; lia].
    split; simpl; [done|lia|apply NoDup_singleton|].
    repeat constructor. by apply timed_wf.
  - unfold ids_bounded, INT_MIN, INT_MAX. simpl. lia.
  - split; simpl; [apply NoDup_singleton|]. repeat constructor.
Qed.

Lemma schedLoop_iter_moves_witness :
  ∃ a s1, run_alg 1 ManagedModeAlg tight_sched = Ret (a, s1) ∧ ajobs a ≠ [] ∧
    Forall (λ p, snd p ≠ []) (ajobs a) ∧
    (SFltb (getJLOMetric a) f_zero = true ∨ SFltb (f64_of_Z 1) (getJLOMetric a) = false →
     ∃ s' new, schedLoop_iter 1 tight_sched 0 0 = Ret s' ∧
       runQ s' = reverse (ajobs a) ++ [] ∧
       [tight_job] ≡ₚ (ajobs a).*1 ++ readyQ s' ∧ readyQ s' `sublist_of` [tight_job] ∧
       resPool s' ++ aresources a ≡ₚ resPool tight_sched ++ new ∧
       (new = [] ∨ new = [fresh_resource tight_sched]) ∧
       numSchedules (stats s') = 1%Z ∧
       totalJobsScheduled (stats s') = (0 + Z.of_nat (length (ajobs a)))%Z).
Proof. apply (schedLoop_iter_moves tight_sched 0 0); apply tight_sched_wf. Defined.

(** And there the condition on the metric holds. *)
Example schedLoop_iter_tight :
  ∃ s', schedLoop_iter 1 tight_sched 0 0 = Ret s' ∧ readyQ s' = [] ∧ resPool s' = [] ∧
    runQ s' = [(tight_job, [MkResource 1 8111 "localhost" "DFE"])].
Proof. eexists. split_and!; vm_compute; reflexivity. Qed.
