(* ===== verification/System.v ===== *)
(** * The running scheduler: handlers and threads interleaved

    The connection handlers, the scheduling thread, the dispatcher thread, the
    job threads and the finished thread of Scheduler.cpp as one transition
    system.  A step is one operation of one thread on the shared queues:
    submitting a job, choosing an allocation (which the code does holding the
    lock of the ready queue), adapting the pool, moving one allocated job to
    the run queue, starting a job, completing a job, recording it, answering
    the client.  Steps of different threads interleave freely; in particular
    jobs are submitted and resources returned between any two steps of the
    scheduling thread. *)

From S2P Require Import Prelude CxxFloat FloatRound FloatBounds StdAlg ConcurrentDeque Message.
From S2P Require Import Job Scheduler SchedulerFacts Algs ScoreFacts AlgFacts ManagedFacts.
From S2P Require Import SchedLoop.

(** ** State *)

(** Where the scheduling thread is in its loop. *)
Inductive sched_pc : Type :=
| Idle
| Adapting (a : Allocations)
| Serving (a : Allocations) (js : list JobResPair).

Record Sys := MkSys {
  sched : Sched;
  pc : sched_pc;
  running : list JobResPair;  (** the pairs the job threads work on *)
  clients : list Job          (** the jobs whose handlers wait for an answer *)
}.

(** ** Steps *)

Section system.
Context `{Hsort : !StdSort}.
Context (adm : msg_t → Prop).  (** the requests the clients send *)

Inductive step : Sys → Sys → Prop :=
| step_submit s pc run cl now req j s' :
    adm req → submit s now req = Ret (j, s') →
    step (MkSys s pc run cl) (MkSys s' pc run (j :: cl))
| step_plan s run cl alg a s' :
    readyQ s ≠ [] → (0 < resPoolSize s)%nat → algVec s !! MODE_MANAGED = Some alg →
    run_alg 1 alg s = Ret (a, s') → (0 < noJobs a)%nat →
    step (MkSys s Idle run cl) (MkSys s' (Adapting a) run cl)
| step_plan_none s run cl alg a s' :
    readyQ s ≠ [] → (0 < resPoolSize s)%nat → algVec s !! MODE_MANAGED = Some alg →
    run_alg 1 alg s = Ret (a, s') → noJobs a = 0%nat →
    step (MkSys s Idle run cl) (MkSys s' Idle run cl)
| step_adapt s a run cl s' :
    updateResourcePool s a = Ret s' →
    step (MkSys s (Adapting a) run cl) (MkSys s' (Serving a (ajobs a)) run cl)
| step_serve s a p js run cl now s1 s2 :
    removeJobFromReadyQ s p = Ret s1 → claimResources s1 (snd p) = Ret s2 →
    step (MkSys s (Serving a (p :: js)) run cl)
      (MkSys (addToRunQ s2 now p) (Serving a js) run cl)
| step_served s a run cl duration :
    step (MkSys s (Serving a []) run cl)
      (MkSys (set_stats s (add_sched_stats (stats s) (noJobs a) duration)) Idle run cl)
| step_dispatch s pc run cl p s' :
    dispatcherLoop_iter s = Ret (Some p, s') →
    step (MkSys s pc run cl) (MkSys s' pc (p :: run) cl)
| step_drop s pc run cl s' :
    dispatcherLoop_iter s = Ret (None, s') →
    step (MkSys s pc run cl) (MkSys s' pc run cl)
| step_run s pc run1 p run2 cl stream t0 t1 now s' :
    runJob s p stream t0 t1 now = Ret s' →
    step (MkSys s pc (run1 ++ p :: run2) cl) (MkSys s' pc (run1 ++ run2) cl)
| step_finished s pc run cl now_t now_u j s' :
    finishedLoop_iter s now_t now_u = Ret (j, s') →
    step (MkSys s pc run cl) (MkSys s' pc run cl)
| step_reply s pc run cl1 j cl2 js :
    jobStates s !! jid j = Some js → finished js = true →
    step (MkSys s pc run (cl1 ++ j :: cl2)) (MkSys s pc run (cl1 ++ cl2)).

(** The state after start-up. *)
Definition initial (y : Sys) : Prop :=
  ∃ port now busy s, main_Scheduler port now busy = Ret s ∧ y = MkSys s Idle [] [].

Inductive reachable : Sys → Prop :=
| reachable_init y : initial y → reachable y
| reachable_step y y' : reachable y → step y y' → reachable y'.

(** ** Invariant *)

(** The resources of the system: free, waiting in the run queue, in use. *)
Definition all_resources (y : Sys) : list Resource :=
  resPool (sched y) ++ mjoin (runQ (sched y)).*2 ++ mjoin (running y).*2.

(** The jobs that are not finished. *)
Definition active (y : Sys) : list Job :=
  readyQ (sched y) ++ (runQ (sched y)).*1 ++ (running y).*1 ++ finishedQ (sched y).

Definition has_flags (s : Sched) (st fi : bool) (j : Job) : Prop :=
  ∃ js, jobStates s !! jid j = Some js ∧ started js = st ∧ finished js = fi.

Definition is_done (s : Sched) (j : Job) : Prop :=
  ∃ js, jobStates s !! jid j = Some js ∧ finished js = true.

(** The pairs the scheduling thread still has to serve. *)
Definition pending (p : sched_pc) : list JobResPair :=
  match p with Idle => [] | Adapting a => ajobs a | Serving _ js => js end.

(** A resource of a chosen allocation: still in the pool, or removed from the
    system by the elasticity manager. *)
Definition available (pool all : list Resource) (next : Z) (r : Resource) : Prop :=
  r ∈ pool ∨ ((rid r ∉ rid <$> all) ∧ (rid r < next)%Z).

Record inv (y : Sys) : Prop := {
  inv_config : algVec (sched y) = main_algs ∧ strat (sched y) = "Completion Time" ∧
    window (sched y) = 5%nat;
  inv_count : Z.of_nat (length (all_resources y)) = provisionedResources (sched y);
  inv_resources : NoDup (rid <$> all_resources y) ∧
    Forall (λ r, rid r < resourceId (sched y))%Z (all_resources y);
  inv_clients : ∃ dones, clients y ≡ₚ active y ++ dones ∧ Forall (is_done (sched y)) dones;
  inv_ids : NoDup (jid <$> clients y) ∧
    Forall (λ j, jid j < nextJid (sched y))%Z (clients y);
  inv_waiting : Forall (has_flags (sched y) false false)
    (readyQ (sched y) ++ (runQ (sched y)).*1);
  inv_started : Forall (has_flags (sched y) true false)
    ((running y).*1 ++ finishedQ (sched y));
  inv_requests : Forall (λ j, ∃ req id, j = new_Job req id ∧ adm req) (clients y);
  inv_pending_jobs : (pending (pc y)).*1 ⊆+ readyQ (sched y);
  inv_pending_resources :
    Forall (available (resPool (sched y)) (all_resources y) (resourceId (sched y)))
      (mjoin (pending (pc y)).*2);
  inv_pending_distinct : NoDup (rid <$> mjoin (pending (pc y)).*2)
}.

(** ** Flags *)

Lemma has_flags_update_other s id f st fi j :
  jid j ≠ id → has_flags (update_job s id f) st fi j ↔ has_flags s st fi j.
Proof.
  intros Hne. unfold has_flags, update_job. simpl.
  by setoid_rewrite lookup_alter_ne; [|congruence..].
Qed.

Lemma is_done_update_other s id f j :
  jid j ≠ id → is_done (update_job s id f) j ↔ is_done s j.
Proof.
  intros Hne. unfold is_done, update_job. simpl.
  by setoid_rewrite lookup_alter_ne; [|congruence..].
Qed.

(** Writes that keep the flags. *)
Definition keeps_flags (f : JobState → JobState) : Prop :=
  ∀ js, started (f js) = started js ∧ finished (f js) = finished js.

Lemma has_flags_keep s id f st fi j :
  keeps_flags f → has_flags s st fi j → has_flags (update_job s id f) st fi j.
Proof.
  intros Hf (js & Hj & <- & <-). unfold has_flags, update_job. simpl.
  destruct (decide (id = jid j)) as [->|Hne].
  - rewrite lookup_alter_eq, Hj. exists (f js). by destruct (Hf js).
  - rewrite lookup_alter_ne by done. by exists js.
Qed.

Lemma is_done_keep s id f j :
  keeps_flags f → is_done s j → is_done (update_job s id f) j.
Proof.
  intros Hf (js & Hj & Hfin). unfold is_done, update_job. simpl.
  destruct (decide (id = jid j)) as [->|Hne].
  - rewrite lookup_alter_eq, Hj. exists (f js). destruct (Hf js) as [_ ->]. done.
  - rewrite lookup_alter_ne by done. by exists js.
Qed.

Lemma has_flags_set s f st fi st' fi' j :
  has_flags s st fi j → (∀ js, started js = st → finished js = fi →
    started (f js) = st' ∧ finished (f js) = fi') →
  has_flags (update_job s (jid j) f) st' fi' j.
Proof.
  intros (js & Hj & Hs & Hf) H. exists (f js). unfold update_job. simpl.
  rewrite lookup_alter_eq, Hj. destruct (H js Hs Hf). done.
Qed.

(** Jobs in different places have different ids. *)
Lemma clients_parts y dones :
  NoDup (jid <$> clients y) → clients y ≡ₚ active y ++ dones →
  NoDup (jid <$> active y ++ dones).
Proof. intros Hnd Hp. by rewrite <-Hp. Qed.

Lemma NoDup_fmap_ne {A} (f : A → Z) l1 x l2 y :
  NoDup (f <$> l1 ++ x :: l2) → y ∈ l1 ++ l2 → f y ≠ f x.
Proof.
  rewrite fmap_app. csimpl. intros Hnd Hy E.
  assert (Hn : f x ∉ (f <$> l1) ++ (f <$> l2)).
  { rewrite <-(Permutation_middle (f <$> l1) (f <$> l2) (f x)) in Hnd.
    by apply NoDup_cons in Hnd as [? _]. }
  apply Hn. rewrite <-fmap_app, <-E. by apply list_elem_of_fmap_2.
Qed.

(** ** The steps preserve the invariant *)

Ltac open_inv H :=
  destruct H as [Hcfg Hcnt [Hrnd Hrlt] (dones & Hcl & Hdone) [Hjnd Hjlt] Hwait Hstart Hreq Hpj Hpr Hpd];
  unfold all_resources, active in *; simpl in *.

Lemma inv_submit s p run cl now req j s' :
  inv (MkSys s p run cl) → adm req → submit s now req = Ret (j, s') →
  inv (MkSys s' p run (j :: cl)).
Proof.
  intros Hinv Hadm. unfold submit, getNextId. intros Hs. inv_ret. apply int_of_inv in E0 as [-> _].
  open_inv Hinv.
  assert (Hfresh : ∀ k, k ∈ cl → jid k ≠ nextJid s).
  { intros k Hk. rewrite Forall_forall in Hjlt. specialize (Hjlt k Hk). lia. }
  assert (Hin : ∀ k, k ∈ (readyQ s ++ (runQ s).*1) ++ run.*1 ++ finishedQ s → k ∈ cl).
  { intros k. rewrite Hcl, !elem_of_app. tauto. }
  split; unfold all_resources, active; simpl; try done.
  - exists dones. split; [by rewrite Hcl|]. rewrite Forall_forall in Hdone |- *.
    intros k Hk. destruct (Hdone k Hk) as (js & Hjs & ?). exists js. simpl.
    rewrite lookup_insert_ne; [done|]. intros E. apply (Hfresh k); [|done].
    rewrite Hcl. in_app.
  - split.
    + csimpl. apply NoDup_cons. split; [|done]. intros Hx.
      apply list_elem_of_fmap in Hx as (k & Hk & Hkc). by apply (Hfresh k Hkc).
    + constructor; [simpl; lia|]. eapply Forall_impl; [exact Hjlt|]. simpl. lia.
  - constructor.
    + eexists. simpl. by rewrite lookup_insert_eq.
    + rewrite Forall_forall in Hwait |- *. intros k Hk. destruct (Hwait k Hk) as (js & Hjs & ?).
      exists js. simpl. rewrite lookup_insert_ne; [done|]. intros E. apply (Hfresh k); [|done].
      apply Hin. in_app.
  - rewrite Forall_forall in Hstart |- *. intros k Hk. destruct (Hstart k Hk) as (js & Hjs & ?).
    exists js. simpl. rewrite lookup_insert_ne; [done|]. intros E. apply (Hfresh k); [|done].
    apply Hin. in_app.
  - constructor; [by eexists _, _|done].
  - by apply submseteq_cons.
Qed.

Lemma inv_pool_perm s p run cl s' :
  inv (MkSys s p run cl) → pool_perm s s' → inv (MkSys s' p run cl).
Proof.
  intros Hinv (pool' & -> & Hp). open_inv Hinv.
  split; unfold all_resources, active; simpl; try done; rewrite ?Hp; try done.
  - by exists dones.
  - eapply Forall_impl; [exact Hpr|]. unfold available. intros r. simpl. by rewrite Hp.
Qed.

Lemma inv_chosen s a run cl :
  inv (MkSys s Idle run cl) → (ajobs a).*1 ⊆+ readyQ s → aresources a ⊆+ resPool s →
  inv (MkSys s (Adapting a) run cl).
Proof.
  intros Hinv Hj Hr. open_inv Hinv.
  split; unfold all_resources, active; simpl; try done; [by exists dones| |].
  - apply Forall_forall. intros r Hin. left. by eapply elem_of_submseteq.
  - apply submseteq_Permutation in Hr as [rest Hr]. rewrite Hr in Hrnd.
    rewrite !fmap_app in Hrnd. apply NoDup_app in Hrnd as [Hrnd _].
    by apply NoDup_app in Hrnd as [? _].
Qed.

Lemma inv_provision s a run cl s' :
  inv (MkSys s (Serving a (ajobs a)) run cl) → provisionResource s = Ret s' →
  inv (MkSys s' (Serving a (ajobs a)) run cl).
Proof.
  intros Hinv Hup. open_inv Hinv.
  unfold provisionResource, addNewResource in Hup. inv_ret.
  apply int_of_inv in E1 as [-> _], E0 as [-> _]. simpl in *. unfold Deque.push_back.
  split; unfold all_resources, active; simpl; try done.
  - rewrite <-Hcnt, !length_app. simpl. lia.
  - rewrite <-(assoc_L (++)). split.
    + rewrite (Permutation_app_comm [_]), (assoc_L (++)), fmap_app.
      apply NoDup_app. split_and!; [done| |apply NoDup_singleton].
      intros x Hx. csimpl. rewrite list_elem_of_singleton. intros ->.
      apply list_elem_of_fmap in Hx as (r & Hr & Hin). rewrite Forall_forall in Hrlt.
      specialize (Hrlt r Hin). simpl in *. lia.
    + rewrite (Permutation_app_comm [_]), (assoc_L (++)). apply Forall_app. split.
      * eapply Forall_impl; [exact Hrlt|]. simpl. lia.
      * repeat constructor. simpl. lia.
  - by exists dones.
  - rewrite Forall_forall in Hpr |- *. intros r Hr. unfold available.
    destruct (Hpr r Hr) as [Hin|[Hnin Hlt]]; [left; in_app|right]. split; [|lia].
    rewrite <-(assoc_L (++)), (Permutation_app_comm [_]), (assoc_L (++)), fmap_app.
    rewrite not_elem_of_app. split; [done|]. csimpl. rewrite list_elem_of_singleton. simpl. lia.
Qed.

Lemma inv_deprovision s a run cl s' :
  inv (MkSys s (Serving a (ajobs a)) run cl) → deprovisionResource s = Ret s' →
  inv (MkSys s' (Serving a (ajobs a)) run cl).
Proof.
  intros Hinv Hup. pose proof Hinv as Hsame. open_inv Hinv.
  unfold deprovisionResource in Hup.
  destruct (0 <? provisionedResources s)%Z; [|by injection Hup as <-].
  simpl in Hup. destruct (resPool s) as [|x pl _] eqn:Ep using rev_ind; [done|].
  rewrite Deque.wait_pop_back_snoc in Hup. injection Hup as <-. simpl in *.
  assert (Hx : rid x ∉ rid <$> pl ++ mjoin (runQ s).*2 ++ mjoin run.*2).
  { rewrite <-(assoc_L (++)) in Hrnd. simpl in Hrnd. rewrite <-Permutation_middle in Hrnd.
    csimpl in Hrnd. by apply NoDup_cons in Hrnd as [? _]. }
  split; unfold all_resources, active; simpl; try done.
  - rewrite <-Hcnt, !length_app. simpl. lia.
  - rewrite <-(assoc_L (++)) in Hrnd, Hrlt. simpl in Hrnd, Hrlt.
    rewrite <-Permutation_middle in Hrnd, Hrlt. csimpl in Hrnd.
    apply NoDup_cons in Hrnd as [_ ?]. by apply Forall_cons in Hrlt as [_ ?].
  - by exists dones.
  - rewrite Forall_forall in Hpr |- *. intros r Hr. unfold available.
    destruct (Hpr r Hr) as [Hin|[Hnin Hlt]].
    + apply elem_of_app in Hin as [?|Hin]; [by left|right].
      apply list_elem_of_singleton in Hin as ->. split; [done|].
      rewrite Forall_forall in Hrlt. apply Hrlt. in_app.
    + right. split; [|done]. repeat rewrite fmap_app in Hnin. rewrite !fmap_app.
      intros Hc. apply Hnin. in_app.
Qed.

Lemma inv_adapt s a run cl s' :
  inv (MkSys s (Adapting a) run cl) → updateResourcePool s a = Ret s' →
  inv (MkSys s' (Serving a (ajobs a)) run cl).
Proof.
  intros Hinv Hup. assert (Hsame : inv (MkSys s (Serving a (ajobs a)) run cl)) by (by destruct Hinv; split).
  unfold updateResourcePool in Hup. case_match; [by eapply inv_provision|].
  case_match; [by eapply inv_deprovision|by injection Hup as <-].
Qed.

(** Claiming resources that are available or gone: it succeeds only when all of
    them are in the pool. *)
Lemma claimResources_inv s rs s' :
  NoDup (rid <$> resPool s) →
  Forall (λ r, r ∈ resPool s ∨ rid r ∉ rid <$> resPool s) rs →
  claimResources s rs = Ret s' →
  ∃ pool', s' = set_resPool s pool' ∧ resPool s ≡ₚ rs ++ pool'.
Proof.
  revert s. induction rs as [|r rs IH]; intros s Hnd Hav Hc; simpl in Hc.
  { injection Hc as <-. exists (resPool s). by rewrite set_resPool_id. }
  apply Forall_cons in Hav as [[Hr|Hr] Hav]; [|by rewrite claim_one_missing in Hc].
  destruct (claim_one_in s r Hnd Hr) as (p1 & E & Hp1). rewrite E in Hc.
  cbn [mbind outcome_bind] in Hc.
  assert (Hnd1 : (rid r ∉ rid <$> p1) ∧ NoDup (rid <$> p1)).
  { rewrite Hp1 in Hnd. csimpl in Hnd. by apply NoDup_cons in Hnd. }
  destruct (IH (set_resPool s p1)) as (p2 & -> & Hp2); simpl; try done.
  - apply Hnd1.
  - rewrite Forall_forall in Hav |- *. intros r' Hr'. destruct (Hav r' Hr') as [Hin|Hnin].
    + rewrite Hp1 in Hin. apply elem_of_cons in Hin as [->|Hin]; [right; apply Hnd1|by left].
    + right. intros Hin. apply Hnin. rewrite Hp1. csimpl. by apply elem_of_cons; right.
  - exists p2. split; [done|]. simpl in Hp2. by rewrite Hp1, Hp2.
Qed.

(** The effect of serving a pair: the job leaves the ready queue, its resources
    the pool. *)
Lemma serve_effect s a p js run cl s1 s2 :
  inv (MkSys s (Serving a (p :: js)) run cl) →
  removeJobFromReadyQ s p = Ret s1 → claimResources s1 (snd p) = Ret s2 →
  ∃ q pool, s2 = set_resPool (set_readyQ s q) pool ∧ readyQ s ≡ₚ fst p :: q ∧
    resPool s ≡ₚ snd p ++ pool.
Proof.
  destruct p as [j rs]. intros Hinv Hrem Hclaim. open_inv Hinv. csimpl in *.
  destruct (removeJobFromReadyQ_in s j rs) as (q & Hrem' & Hq & _).
  { rewrite Hcl, !fmap_app in Hjnd. apply NoDup_app in Hjnd as [Hjnd _].
    by apply NoDup_app in Hjnd as [? _]. }
  { eapply elem_of_submseteq; [|exact Hpj]. constructor. }
  rewrite Hrem' in Hrem. injection Hrem as <-. apply Forall_app in Hpr as [Hpr _].
  destruct (claimResources_inv (set_readyQ s q) rs s2) as (pool' & -> & Hpool); try done.
  - simpl. rewrite !fmap_app in Hrnd. by apply NoDup_app in Hrnd as [? _].
  - eapply Forall_impl; [exact Hpr|]. intros r [?|[Hn _]]; [by left|right]. simpl.
    intros Hin. apply Hn. rewrite fmap_app. in_app.
  - by exists q, pool'.
Qed.

Lemma inv_serve s a p js run cl now s1 s2 :
  inv (MkSys s (Serving a (p :: js)) run cl) →
  removeJobFromReadyQ s p = Ret s1 → claimResources s1 (snd p) = Ret s2 →
  inv (MkSys (addToRunQ s2 now p) (Serving a js) run cl).
Proof.
  intros Hinv Hrem Hclaim.
  destruct (serve_effect _ _ _ _ _ _ _ _ Hinv Hrem Hclaim) as (q & pool' & -> & Hq & Hpool).
  destruct p as [j rs]. open_inv Hinv. csimpl in Hpj. csimpl in Hpr. csimpl in Hpd.
  apply Forall_app in Hpr as [Hprs Hpr]. rewrite fmap_app in Hpd.
  apply NoDup_app in Hpd as (_ & Hdisj & Hpd).
  assert (Hall : resPool s ++ mjoin (runQ s).*2 ++ mjoin run.*2 ≡ₚ
    pool' ++ mjoin ((j, rs) :: runQ s).*2 ++ mjoin run.*2).
  { rewrite Hpool. csimpl. solve_Permutation. }
  assert (Hkeep : keeps_flags (setDispatchTime now)) by (by intros []).
  split; unfold all_resources, active; simpl; try done.
  - by rewrite <-Hall.
  - by rewrite <-Hall.
  - exists dones. split.
    + rewrite Hcl, Hq. csimpl. solve_Permutation.
    + eapply Forall_impl; [exact Hdone|]. intros k Hk. by apply is_done_keep.
  - apply (Forall_impl (has_flags s false false)); [|by intros k Hk; apply has_flags_keep].
    rewrite Hq in Hwait. csimpl in Hwait. csimpl. rewrite Forall_app, Forall_cons.
    apply Forall_cons in Hwait as [? Hwait]. by apply Forall_app in Hwait as [? ?].
  - eapply Forall_impl; [exact Hstart|]. intros k Hk. by apply has_flags_keep.
  - rewrite Hq in Hpj. by apply (submseteq_app_inv_l _ _ [j]) in Hpj.
  - rewrite Forall_forall in Hpr |- *. intros r Hr. unfold available. rewrite <-Hall.
    destruct (Hpr r Hr) as [Hin|?]; [left|by right].
    rewrite Hpool in Hin. apply elem_of_app in Hin as [Hin|?]; [|done].
    exfalso. apply (Hdisj (rid r)); by apply list_elem_of_fmap_2.
Qed.

(** Serving a pair whose resources are all in the pool. *)
Lemma serve_ready s a p js run cl :
  inv (MkSys s (Serving a (p :: js)) run cl) → Forall (λ r, r ∈ resPool s) (snd p) →
  ∃ s1 s2, removeJobFromReadyQ s p = Ret s1 ∧ claimResources s1 (snd p) = Ret s2.
Proof.
  destruct p as [j rs]. intros Hinv Hin. open_inv Hinv. csimpl in *.
  destruct (removeJobFromReadyQ_in s j rs) as (q & Hq & _).
  { rewrite Hcl, !fmap_app in Hjnd. apply NoDup_app in Hjnd as [Hjnd _].
    by apply NoDup_app in Hjnd as [? _]. }
  { eapply elem_of_submseteq; [|exact Hpj]. constructor. }
  rewrite fmap_app in Hpd. apply NoDup_app in Hpd as (Hpd & _ & _).
  assert (Hnd : NoDup (rid <$> resPool s)).
  { rewrite !fmap_app in Hrnd. by apply NoDup_app in Hrnd as [? _]. }
  assert (Hsub : rs ⊆+ resPool s).
  { apply NoDup_submseteq; [by eapply NoDup_fmap_1|]. by rewrite Forall_forall in Hin. }
  apply submseteq_Permutation in Hsub as [rest Hrest].
  destruct (claimResources_spec (set_readyQ s q) rs rest) as (pool' & Hc & _); try done.
  eauto.
Qed.

(** The dispatcher thread always starts the head of the run queue: it is not
    started yet. *)
Lemma dispatch_head y p q :
  inv y → runQ (sched y) = p :: q →
  dispatcherLoop_iter (sched y) =
    Ret (Some p, update_job (set_runQ (sched y) q) (jid (fst p)) (setStarted true)).
Proof.
  intros Hinv Hq. pose proof (inv_waiting _ Hinv) as Hw. rewrite Hq in Hw. csimpl in Hw.
  apply Forall_app in Hw as [_ Hw]. apply Forall_cons in Hw as [(js & Hjs & Hst & _) _].
  unfold dispatcherLoop_iter. rewrite Hq. simpl. rewrite Hjs. simpl. by rewrite Hst.
Qed.

Lemma dispatch_starts s p run cl o s' :
  inv (MkSys s p run cl) → dispatcherLoop_iter s = Ret (o, s') →
  ∃ pr q, runQ s = pr :: q ∧ o = Some pr ∧
    s' = update_job (set_runQ s q) (jid (fst pr)) (setStarted true).
Proof.
  intros Hinv Hd. destruct (runQ s) as [|pr q] eqn:Eq.
  - unfold dispatcherLoop_iter in Hd. by rewrite Eq in Hd.
  - pose proof (dispatch_head _ pr q Hinv Eq) as Hh. cbn [sched] in Hh. rewrite Hh in Hd.
    injection Hd as <- <-. by exists pr, q.
Qed.

Lemma inv_dispatch s p run cl pr s' :
  inv (MkSys s p run cl) → dispatcherLoop_iter s = Ret (Some pr, s') →
  inv (MkSys s' p (pr :: run) cl).
Proof.
  intros Hinv Hd. destruct (dispatch_starts _ _ _ _ _ _ Hinv Hd) as (pr' & q & Hq & [= <-] & ->).
  open_inv Hinv. rewrite Hq in *. csimpl in *.
  assert (Hcl' : cl ≡ₚ fst pr :: (readyQ s ++ q.*1) ++ (run.*1 ++ finishedQ s) ++ dones).
  { rewrite Hcl. solve_Permutation. }
  assert (Hne : ∀ k, k ∈ (readyQ s ++ q.*1) ++ (run.*1 ++ finishedQ s) ++ dones → jid k ≠ jid (fst pr)).
  { rewrite Hcl' in Hjnd. intros k. by apply (NoDup_fmap_ne jid [] (fst pr)). }
  assert (Hall : resPool s ++ mjoin q.*2 ++ snd pr ++ mjoin run.*2 ≡ₚ
    resPool s ++ (snd pr ++ mjoin q.*2) ++ mjoin run.*2) by solve_Permutation.
  split; unfold all_resources, active; csimpl; try done.
  - by rewrite Hall.
  - by rewrite Hall.
  - exists dones. split; [rewrite Hcl; solve_Permutation|].
    rewrite Forall_forall in Hdone |- *. intros k Hk.
    apply is_done_update_other; [|by apply Hdone]. apply Hne. in_app.
  - rewrite Forall_forall in Hwait |- *. intros k Hk.
    apply has_flags_update_other; [apply Hne; in_app|]. apply (Hwait k). in_app.
  - constructor.
    + apply has_flags_set with false false; [|by intros []; simpl].
      rewrite Forall_forall in Hwait. apply (Hwait (fst pr)). in_app.
    + rewrite Forall_forall in Hstart |- *. intros k Hk.
      apply has_flags_update_other; [apply Hne; in_app|]. by apply Hstart.
  - rewrite Forall_forall in Hpr |- *. intros r Hr. unfold available.
    rewrite Hall. by apply Hpr.
Qed.

(** What a job thread writes into its job. *)
Definition record_result (rsp : msg_t) (t0 t1 now : Z) (js : JobState) : JobState :=
  setFinishTime now (setResult (seconds_of_nanos (t1 - t0))
    (seconds_of_millis (predictedTimeMillis rsp)) rsp js).

Lemma record_result_keeps rsp t0 t1 now : keeps_flags (record_result rsp t0 t1 now).
Proof. by intros []. Qed.

(** The end of a job thread: the shared state afterwards. *)
Lemma runJob_finish_effect s p rsp t0 t1 now :
  jid (fst p) ∉ jid <$> (runQ s).*1 →
  runJob_finish s p rsp t0 t1 now =
    Ret (set_finishedQ (set_resPool (update_job s (jid (fst p)) (record_result rsp t0 t1 now))
      (resPool s ++ snd p)) (fst p :: finishedQ s)).
Proof.
  intros Hnin. destruct p as [j rs]. unfold runJob_finish. simpl. rewrite returnResources_eq.
  unfold removeJobFromRunQ. simpl. rewrite (proj2 (find_if_None _ _)).
  - f_equal. unfold update_job. simpl. f_equal. unfold set_jobStates. simpl. f_equal.
    by rewrite alter_alter_eq.
  - apply Forall_forall. intros [k ks] Hk. apply Z.eqb_neq. intros E. apply Hnin.
    simpl in *. rewrite E. rewrite <-list_fmap_compose.
    apply list_elem_of_fmap. by exists (k, ks).
Qed.

(** A job thread that completes. *)
Lemma runJob_effect s p stream t0 t1 now s' :
  jid (fst p) ∉ jid <$> (runQ s).*1 → runJob s p stream t0 t1 now = Ret s' →
  ∃ rsp, s' = set_finishedQ (set_resPool
      (update_job s (jid (fst p)) (record_result rsp t0 t1 now)) (resPool s ++ snd p))
    (fst p :: finishedQ s).
Proof.
  intros Hnin H. unfold runJob in H. apply bind_ret_inv in H as ([? req] & _ & H).
  apply bind_ret_inv in H as ([rsp ?] & _ & H). rewrite runJob_finish_effect in H by done.
  injection H as <-. by exists rsp.
Qed.

Lemma inv_run s p run1 pr run2 cl stream t0 t1 now s' :
  inv (MkSys s p (run1 ++ pr :: run2) cl) → runJob s pr stream t0 t1 now = Ret s' →
  inv (MkSys s' p (run1 ++ run2) cl).
Proof.
  intros Hinv Hrun. open_inv Hinv.
  rewrite (fmap_app fst run1) in Hcl, Hstart. rewrite (fmap_app snd run1) in Hcnt, Hrnd, Hrlt, Hpr.
  csimpl in *. destruct (runJob_effect s pr stream t0 t1 now s') as (rsp & ->); [|done|].
  { rewrite Hcl in Hjnd. intros Hin.
    assert (Hp : (readyQ s ++ (runQ s).*1 ++ (run1.*1 ++ fst pr :: run2.*1) ++ finishedQ s) ++ dones
      ≡ₚ fst pr :: (runQ s).*1 ++ readyQ s ++ run1.*1 ++ run2.*1 ++ finishedQ s ++ dones)
      by solve_Permutation.
    rewrite Hp in Hjnd. csimpl in Hjnd. apply NoDup_cons in Hjnd as [Hn _]. apply Hn.
    rewrite fmap_app. in_app. }
  pose proof (record_result_keeps rsp t0 t1 now) as Hf.
  assert (Hall : (resPool s ++ snd pr) ++ mjoin (runQ s).*2 ++ mjoin (run1 ++ run2).*2 ≡ₚ
    resPool s ++ mjoin (runQ s).*2 ++ mjoin (run1.*2 ++ snd pr :: run2.*2)).
  { rewrite fmap_app, !join_app. simpl. solve_Permutation. }
  split; unfold all_resources, active; simpl; try done.
  - by rewrite Hall.
  - by rewrite Hall.
  - exists dones. split; [rewrite Hcl, fmap_app; solve_Permutation|].
    eapply Forall_impl; [exact Hdone|]. intros k Hk. by apply is_done_keep.
  - eapply Forall_impl; [exact Hwait|]. intros k Hk. by apply has_flags_keep.
  - assert (Hst : Forall (has_flags s true false) ((run1 ++ run2).*1 ++ fst pr :: finishedQ s)).
    { assert (Hp : (run1 ++ run2).*1 ++ fst pr :: finishedQ s ≡ₚ
        (run1.*1 ++ fst pr :: run2.*1) ++ finishedQ s) by (rewrite fmap_app; solve_Permutation).
      by rewrite Hp. }
    eapply Forall_impl; [exact Hst|]. intros k Hk. by apply has_flags_keep.
  - rewrite Forall_forall in Hpr |- *. intros r Hr. unfold available. rewrite Hall.
    destruct (Hpr r Hr) as [?|?]; [left; in_app|by right].
Qed.

(** The finished thread: only the statistics and the flag change. *)
Lemma updateStatistics_stats s js t u s' :
  updateStatistics s js t u = Ret s' → ∃ st, s' = set_stats s st.
Proof. unfold updateStatistics. intros H. inv_ret. by eexists. Qed.

Lemma inv_finished s p run cl t u j s' :
  inv (MkSys s p run cl) → finishedLoop_iter s t u = Ret (j, s') → inv (MkSys s' p run cl).
Proof.
  intros Hinv Hfin. open_inv Hinv. unfold finishedLoop_iter in Hfin.
  destruct (finishedQ s) as [|k q] eqn:Eq; [done|]. simpl in Hfin.
  destruct (jobStates s !! jid k) as [js|] eqn:Ejs; [|done]. simpl in Hfin.
  destruct (updateStatistics (set_finishedQ s q) js t u) as [s1| | | |] eqn:Eup; try done.
  apply updateStatistics_stats in Eup as (st & ->). simpl in Hfin. injection Hfin as <- <-.
  assert (Hcl' : cl ≡ₚ k :: (readyQ s ++ (runQ s).*1) ++ (run.*1 ++ q) ++ dones).
  { rewrite Hcl. solve_Permutation. }
  assert (Hne : ∀ x, x ∈ (readyQ s ++ (runQ s).*1) ++ (run.*1 ++ q) ++ dones → jid x ≠ jid k).
  { rewrite Hcl' in Hjnd. intros x. by apply (NoDup_fmap_ne jid [] k). }
  split; unfold all_resources, active; simpl; try done.
  - exists (k :: dones). split; [rewrite Hcl; solve_Permutation|]. constructor.
    + exists (setFinished true js). simpl. by rewrite lookup_alter_eq, Ejs.
    + rewrite Forall_forall in Hdone |- *. intros x Hx.
      apply is_done_update_other; [apply Hne; in_app|]. by apply Hdone.
  - rewrite Forall_forall in Hwait |- *. intros x Hx.
    apply has_flags_update_other; [apply Hne; in_app|]. by apply Hwait.
  - rewrite Forall_forall in Hstart |- *. intros x Hx.
    apply has_flags_update_other; [apply Hne; in_app|]. apply (Hstart x). in_app.
Qed.

Lemma inv_reply s p run cl1 j cl2 js :
  inv (MkSys s p run (cl1 ++ j :: cl2)) → jobStates s !! jid j = Some js → finished js = true →
  inv (MkSys s p run (cl1 ++ cl2)).
Proof.
  intros Hinv Hjs Hfin. open_inv Hinv.
  assert (Hj : j ∈ dones).
  { assert (Hin : j ∈ (readyQ s ++ (runQ s).*1) ++ (run.*1 ++ finishedQ s) ++ dones).
    { assert (Hp : (readyQ s ++ (runQ s).*1) ++ (run.*1 ++ finishedQ s) ++ dones ≡ₚ
        cl1 ++ j :: cl2) by (rewrite Hcl; solve_Permutation). rewrite Hp. in_app. }
    rewrite !elem_of_app in Hin. rewrite Forall_forall in Hwait. rewrite Forall_forall in Hstart.
    destruct Hin as [Hin|[Hin|?]]; [..|done]; exfalso.
    - destruct (Hwait j) as (js' & ? & _ & ?); [in_app|congruence].
    - destruct (Hstart j) as (js' & ? & _ & ?); [in_app|congruence]. }
  apply elem_of_Permutation in Hj as [dones' Hd].
  split; unfold all_resources, active; simpl; try done.
  - exists dones'. split.
    + apply (inj (j ::.)). rewrite Permutation_middle, Hcl, Hd. solve_Permutation.
    + rewrite Hd in Hdone. by apply Forall_cons in Hdone as [_ ?].
  - rewrite <-Permutation_middle in Hjnd, Hjlt. csimpl in Hjnd.
    apply NoDup_cons in Hjnd as [_ ?]. by apply Forall_cons in Hjlt as [_ ?].
  - rewrite <-Permutation_middle in Hreq. by apply Forall_cons in Hreq as [_ ?].
Qed.

(** ** Planning *)

Lemma score_keeps_jobs a s b : score a s = Ret b → ajobs b = ajobs a.
Proof.
  unfold score. intros H. apply bind_ret_inv in H as (a1 & Ha1 & H).
  assert (ajobs a1 = ajobs a) as <-.
  { destruct (bool_decide (strat s = "Completion Time")); [|by simplify_eq].
    destruct ((noJobs a =? 0)%nat || SFleb (makespan a) f_zero); [by simplify_eq|].
    apply bind_ret_inv in Ha1 as (z & _ & Ha1). by simplify_eq. }
  destruct (bool_decide (strat s = "Fairness")); [|by simplify_eq].
  apply bind_ret_inv in H as (z & _ & H). by simplify_eq.
Qed.

Lemma selectMaxScore_in l a : selectMaxScore l = Ret a → a ∈ l.
Proof.
  unfold selectMaxScore. destruct l as [|a0 l]; [done|].
  destruct (_ !! _) as [b|] eqn:E; [|done]. intros [= <-]. by eapply list_elem_of_lookup_2.
Qed.

(** Whatever ManagedMode returns is an allocation of the window from the pool. *)
Lemma managed_returns s a s' :
  sched_wf s → algVec s = main_algs → (0 < resPoolSize s)%nat →
  run_alg 1 ManagedModeAlg s = Ret (a, s') →
  pool_perm s s' ∧ (ajobs a).*1 ⊆+ readyQ s ∧ aresources a ⊆+ resPool s.
Proof.
  intros Hwf Halg Hpool Hrun.
  change (run_alg 1 ManagedModeAlg s) with (ManagedMode (run_alg 0) s) in Hrun.
  unfold ManagedMode in Hrun. rewrite Halg in Hrun. cbn [length main_algs Nat.sub] in Hrun.
  destruct (trial_allocations_spec (run_alg 0) 5 0 s Hwf Hpool) as (l & s1 & Hl & Hs1 & _ & Htrial).
  { intros k Hk. rewrite Halg.
    destruct k as [|[|[|[|[|k]]]]]; [..|lia]; eexists; (split; [done|]); by apply run_alg_sound. }
  rewrite Hl in Hrun. cbn [mbind outcome_bind] in Hrun.
  apply bind_ret_inv in Hrun as (l2 & Hl2 & Hrun). apply bind_ret_inv in Hrun as (b & Hb & Hrun).
  injection Hrun as <- <-. apply mapM_ret_inv in Hl2.
  apply selectMaxScore_in, list_elem_of_lookup in Hb as [k Hk].
  destruct (Forall2_lookup_r _ _ _ _ _ Hl2 Hk) as (a0 & Ha0 & Hsc).
  apply score_keeps_jobs in Hsc.
  destruct (Htrial k a0 Ha0) as (alg & sk & sk' & _ & Hp & _ & pool' & _ & Hpl & Hsub & _).
  unfold aresources in *. rewrite Hsc. split_and!; [done| |].
  - rewrite Hp. etransitivity; [exact Hsub|]. apply sublist_submseteq, sublist_take.
  - rewrite Hp, Hpl. by apply submseteq_inserts_l.
Qed.

Context (adm_int : ∀ req, adm req → (INT_MIN ≤ predictedTimeMillis req ≤ INT_MAX)%Z).

Lemma inv_sched_wf y : inv y → readyQ (sched y) ≠ [] → sched_wf (sched y).
Proof.
  destruct y as [s p run cl]. intros Hinv Hne. open_inv Hinv. destruct Hcfg as (_ & _ & Hw).
  split; [done|lia| |].
  - rewrite Hcl, !fmap_app in Hjnd. apply NoDup_app in Hjnd as [Hjnd _].
    by apply NoDup_app in Hjnd as [? _].
  - rewrite Forall_forall in Hreq. apply Forall_forall. intros j Hj.
    destruct (Hreq j) as (req & id & -> & Hadm); [rewrite Hcl; in_app|].
    exists req, id. auto.
Qed.

Lemma inv_plan s run cl alg a s' :
  inv (MkSys s Idle run cl) → readyQ s ≠ [] → (0 < resPoolSize s)%nat →
  algVec s !! MODE_MANAGED = Some alg → run_alg 1 alg s = Ret (a, s') →
  inv (MkSys s' Idle run cl) ∧ inv (MkSys s' (Adapting a) run cl).
Proof.
  intros Hinv Hne Hpool Halg Hrun. pose proof (inv_sched_wf _ Hinv Hne) as Hwf.
  destruct (inv_config _ Hinv) as (Hcfg & _). simpl in *.
  rewrite Hcfg in Halg. injection Halg as <-.
  destruct (managed_returns s a s' Hwf Hcfg Hpool Hrun) as (Hs & Hj & Hr).
  pose proof (inv_pool_perm _ _ _ _ _ Hinv Hs) as Hinv'. split; [done|].
  apply inv_chosen; [done|by rewrite <-Hs|by rewrite <-Hs].
Qed.

Lemma inv_initial y : initial y → inv y.
Proof.
  intros (port & now & busy & s & Hs & ->). unfold main_Scheduler in Hs. inv_ret.
  unfold new_Scheduler, provisionResource, addNewResource in E. simpl in E. inv_ret.
  split; unfold all_resources, active; simpl; try done.
  - split; [apply NoDup_singleton|]. by repeat constructor.
  - by exists [].
  - split; constructor.
  - constructor.
Qed.

Lemma inv_step y y' : inv y → step y y' → inv y'.
Proof.
  intros Hinv Hstep. destruct Hstep.
  - by eapply inv_submit.
  - by eapply inv_plan.
  - by eapply inv_plan.
  - by apply inv_adapt with s.
  - by eapply inv_serve.
  - destruct Hinv. by split.
  - by eapply inv_dispatch.
  - by destruct (dispatch_starts _ _ _ _ _ _ Hinv H) as (? & ? & _ & ? & _).
  - by eapply inv_run.
  - by eapply inv_finished.
  - by eapply inv_reply.
Qed.

Lemma reachable_inv y : reachable y → inv y.
Proof. induction 1; eauto using inv_initial, inv_step. Qed.

End system.

(** ** Properties of every reachable state *)

(** The time fields of a request are C [int]s. *)
Definition int_request (req : msg_t) : Prop :=
  (INT_MIN ≤ predictedTimeMillis req ≤ INT_MAX)%Z.

Definition timed_request (req : msg_t) : Prop :=
  (1 ≤ predictedTimeMillis req ≤ INT_MAX)%Z.

Section properties.
Context `{Hsort : !StdSort}.

(** C1: resources are never shared and never lost.  In every reachable state of the
    interleaved system the resources that are free, wait in the run queue or are
    used by a job thread have pairwise distinct ids below the next id, and there are
    exactly as many of them as are provisioned. *)
Theorem system_resources y :
  reachable int_request y →
  NoDup (rid <$> all_resources y) ∧
  Forall (λ r, rid r < resourceId (sched y))%Z (all_resources y) ∧
  Z.of_nat (length (all_resources y)) = provisionedResources (sched y).
Proof. intros Hr. by destruct (reachable_inv int_request (λ _ H, H) y Hr) as [_ ? [? ?]]. Qed.

(** C2: jobs are neither lost nor duplicated.  In every reachable state the jobs whose
    clients wait for an answer have distinct ids, and each of them is in exactly one
    place: in the ready queue, in the run queue (both not started), with one job
    thread, in the finished queue (both started, not finished), or recorded as
    finished. *)
Theorem system_jobs y :
  reachable int_request y →
  NoDup (jid <$> clients y) ∧
  ∃ dones, clients y ≡ₚ readyQ (sched y) ++ (runQ (sched y)).*1 ++ (running y).*1 ++
      finishedQ (sched y) ++ dones ∧
    Forall (has_flags (sched y) false false) (readyQ (sched y) ++ (runQ (sched y)).*1) ∧
    Forall (has_flags (sched y) true false) ((running y).*1 ++ finishedQ (sched y)) ∧
    Forall (is_done (sched y)) dones.
Proof.
  intros Hr. destruct (reachable_inv int_request (λ _ H, H) y Hr)
    as [_ _ _ (dones & Hcl & Hd) [Hnd _] Hw Hs _ _ _ _].
  split; [done|]. exists dones. split_and!; try done. rewrite Hcl. unfold active.
  by rewrite <-!(assoc_L (++)).
Qed.

(** The dispatcher thread never drops a job: in every reachable state with a
    non-empty run queue it takes the head of the queue, finds it not started, marks
    it started and hands it to a new thread. *)
Theorem system_dispatch y p q :
  reachable int_request y → runQ (sched y) = p :: q →
  dispatcherLoop_iter (sched y) =
    Ret (Some p, update_job (set_runQ (sched y) q) (jid (fst p)) (setStarted true)).
Proof.
  intros Hr Hq. apply (dispatch_head int_request); [|done].
  by apply (reachable_inv int_request (λ _ H, H)).
Qed.


(** *** Job threads have resources *)

(** Executions in which the ready queue never exceeds [2^20] jobs. *)
Definition small_queue (y : Sys) : Prop := (Z.of_nat (readyQSize (sched y)) ≤ 2 ^ 20)%Z.

Inductive reachable_small : Sys → Prop :=
| small_init y : initial y → reachable_small y
| small_step y y' : reachable_small y → small_queue y → step timed_request y y' →
    reachable_small y'.

Lemma reachable_small_reachable y : reachable_small y → reachable timed_request y.
Proof. induction 1; eauto using reachable_init, reachable_step. Qed.

Lemma timed_int req : timed_request req → (INT_MIN ≤ predictedTimeMillis req ≤ INT_MAX)%Z.
Proof. unfold timed_request, INT_MIN. lia. Qed.

Definition equipped (y : Sys) : Prop :=
  Forall (λ p : JobResPair, snd p ≠ []) (pending (pc y) ++ runQ (sched y) ++ running y).

Lemma inv_managed_wf y :
  inv timed_request y → small_queue y → readyQ (sched y) ≠ [] → (0 < resPoolSize (sched y))%nat →
  managed_wf (sched y).
Proof.
  intros Hinv Hsmall Hne Hpool. pose proof (inv_sched_wf _ timed_int y Hinv Hne) as Hwf.
  destruct (inv_config _ y Hinv) as (Ha & Hs & Hw). split; try done; [|lia].
  destruct (inv_clients _ y Hinv) as (dones & Hcl & _).
  pose proof (inv_requests _ y Hinv) as Hreq. rewrite Forall_forall in Hreq.
  apply Forall_forall. intros j Hj.
  destruct (Hreq j) as (req & id & -> & Hadm); [|by exists req, id].
  rewrite Hcl. unfold active. in_app.
Qed.

Lemma updateResourcePool_runQ s a s' : updateResourcePool s a = Ret s' → runQ s' = runQ s.
Proof.
  unfold updateResourcePool. intros H.
  destruct (SFltb (getJLOMetric a) f_zero); [|destruct (SFltb _ (getJLOMetric a)); [|by simplify_eq]].
  - unfold provisionResource, addNewResource in H. inv_ret. done.
  - unfold deprovisionResource in H. destruct (0 <? provisionedResources s)%Z; [|by simplify_eq].
    apply bind_ret_inv in H as ([x pl] & _ & H). by simplify_eq.
Qed.

Lemma runJob_runQ s p stream t0 t1 now s' :
  runJob s p stream t0 t1 now = Ret s' → runQ s' = runQ s ∨ ∃ i, runQ s' = delete i (runQ s).
Proof.
  intros H. unfold runJob in H. apply bind_ret_inv in H as ([[? ?] req] & _ & H).
  apply bind_ret_inv in H as ([rsp ?] & _ & H). unfold runJob_finish in H.
  rewrite returnResources_eq in H. unfold removeJobFromRunQ in H. simpl in H.
  destruct (find_if _ (runQ s)) as [i|]; injection H as <-; [right; by exists i|by left].
Qed.

Lemma equipped_step y y' :
  inv timed_request y → small_queue y → equipped y → step timed_request y y' → equipped y'.
Proof.
  intros Hinv Hsmall Heq Hstep. unfold equipped in *.
  destruct Hstep; cbn [sched pc running clients pending] in *.
  - unfold submit, getNextId in H0. inv_ret. done.
  - pose proof (inv_managed_wf _ Hinv Hsmall H H0) as Hm. cbn [sched] in Hm.
    rewrite (mwf_algs _ Hm) in H1. injection H1 as <-.
    destruct (managed_result s Hm) as (a' & s1 & Hrun & Hs1 & _ & Hne & _).
    rewrite H2 in Hrun. injection Hrun as <- <-. apply Forall_app. split; [done|].
    by destruct Hs1 as (pl & -> & _).
  - pose proof (inv_managed_wf _ Hinv Hsmall H H0) as Hm. cbn [sched] in Hm.
    rewrite (mwf_algs _ Hm) in H1. injection H1 as <-.
    destruct (managed_result s Hm) as (a' & s1 & Hrun & Hs1 & _ & Hne & _).
    rewrite H2 in Hrun. injection Hrun as <- <-. by destruct Hs1 as (pl & -> & _).
  - by rewrite (updateResourcePool_runQ s a s' H).
  - destruct (removeJobFromReadyQ_cases s p) as (q & E). rewrite E in H. injection H as <-.
    destruct (claimResources_cases (set_readyQ s q) (snd p)) as [(pl & E2 & _)|E2];
      rewrite E2 in H0; [|done]. injection H0 as <-. unfold addToRunQ, Deque.push_front. simpl.
    assert (Hp : js ++ p :: runQ s ++ run ≡ₚ p :: js ++ runQ s ++ run) by solve_Permutation.
    by rewrite Hp.
  - done.
  - destruct (dispatch_starts _ _ _ _ _ _ _ Hinv H) as (pr & q & Hq & [= <-] & ->). simpl.
    rewrite Hq in Heq.
    assert (Hp : pending pc0 ++ q ++ p :: run ≡ₚ pending pc0 ++ (p :: q) ++ run)
      by solve_Permutation. by rewrite Hp.
  - by destruct (dispatch_starts _ _ _ _ _ _ _ Hinv H) as (pr & q & Hq & ? & ->).
  - pose proof (runJob_runQ _ _ _ _ _ _ _ H) as Hq.
    assert (Hsub : pending pc0 ++ runQ s' ++ run1 ++ run2 ⊆+
      pending pc0 ++ runQ s ++ run1 ++ p :: run2).
    { apply submseteq_app; [done|]. apply submseteq_app.
      - destruct Hq as [->|[i ->]]; [done|apply submseteq_delete].
      - apply submseteq_app; [done|]. by apply submseteq_cons. }
    rewrite Forall_forall in Heq |- *. intros x Hx. apply Heq. by eapply elem_of_submseteq.
  - unfold finishedLoop_iter in H. destruct (finishedQ s) as [|k q]; [done|]. simpl in H.
    destruct (jobStates s !! jid k) as [js|]; [|done]. simpl in H.
    destruct (updateStatistics _ js now_t now_u) as [s1| | | |] eqn:Eup; try done.
    apply updateStatistics_stats in Eup as (st & ->). by injection H as <- <-.
  - done.
Qed.

Lemma reachable_small_equipped y : reachable_small y → equipped y.
Proof.
  induction 1 as [y Hi|y y' Hr IH Hs Hstep].
  - destruct Hi as (port & now & busy & s & Hs & ->). unfold main_Scheduler in Hs. inv_ret.
    unfold new_Scheduler, provisionResource, addNewResource in E. simpl in E. inv_ret. constructor.
  - eapply equipped_step; try done.
    by apply (reachable_inv _ timed_int), reachable_small_reachable.
Qed.

(** Job threads always have a resource to connect to.  When every request has a
    positive predicted time and the ready queue stays below 2^20 jobs, every pair in
    the run queue or with a job thread has at least one resource in every reachable
    state, so runJob's use of the first resource is defined, and the request it
    sends goes to that resource's host and port. *)
Theorem system_equipped y p :
  reachable_small y → p ∈ runQ (sched y) ++ running y →
  ∃ r rs req, snd p = r :: rs ∧ runJob_request p = Ret (port r, url r, req).
Proof.
  intros Hr Hp. pose proof (reachable_small_equipped y Hr) as Heq. unfold equipped in Heq.
  apply Forall_app in Heq as [_ Heq]. rewrite Forall_forall in Heq. specialize (Heq p Hp).
  destruct p as [j [|r rs]]; [done|]. exists r, rs. eexists. split; [done|]. reflexivity.
Qed.

End properties.

(** ** The loop body and the steps *)

Section loop_body.
Context `{Hsort : !StdSort} (adm : msg_t → Prop).

Lemma serve_steps s a js run cl now s' :
  serviceAllocations_loop s now js = Ret s' →
  rtc (step adm) (MkSys s (Serving a js) run cl) (MkSys s' (Serving a []) run cl).
Proof.
  revert s. induction js as [|p js IH]; intros s Hs; simpl in Hs.
  - injection Hs as <-. constructor.
  - apply bind_ret_inv in Hs as (s1 & Hs1 & Hs). apply bind_ret_inv in Hs as (s2 & Hs2 & Hs).
    eapply rtc_l; [by eapply step_serve|]. by apply IH.
Qed.

Lemma add_sched_stats_none s d : set_stats s (add_sched_stats (stats s) 0 d) = s.
Proof.
  destruct s as [? ? ? ? ? ? ? ? ? ? ? ? ? []]. unfold set_stats, add_sched_stats. simpl.
  by rewrite !Z.add_0_r.
Qed.


End loop_body.

(** ** A run *)

Lemma step_mono `{Hsort : !StdSort} (adm adm' : msg_t → Prop) y y' :
  (∀ req, adm req → adm' req) → step adm y y' → step adm' y y'.
Proof.
  intros Hm Hs. destruct Hs;
    [eapply step_submit|eapply step_plan|eapply step_plan_none|eapply step_adapt
    |eapply step_serve|eapply step_served|eapply step_dispatch|eapply step_drop|eapply step_run
    |eapply step_finished|eapply step_reply]; eauto.
Qed.

Lemma reachable_mono `{Hsort : !StdSort} (adm adm' : msg_t → Prop) y :
  (∀ req, adm req → adm' req) → reachable adm y → reachable adm' y.
Proof. intros Hm Hr. induction Hr; eauto using reachable_init, reachable_step, step_mono. Qed.

(** One client submits a job, which is scheduled and moved to the run queue. *)
Module Run.

Definition from_ret {A} (d : A) (m : outcome A) : A := match m with Ret a => a | _ => d end.

Definition request : msg_t := jreq tight_job.
Definition s0 : Sched := from_ret tight_sched (main_Scheduler 8111 0 f_zero).
Definition j1 : Job := fst (from_ret (tight_job, s0) (submit s0 0 request)).
Definition s1 : Sched := snd (from_ret (tight_job, s0) (submit s0 0 request)).
Definition a1 : Allocations := fst (from_ret (new_Allocations, s0) (run_alg 1 ManagedModeAlg s1)).
Definition s2 : Sched := snd (from_ret (new_Allocations, s0) (run_alg 1 ManagedModeAlg s1)).
Definition s3 : Sched := from_ret s0 (updateResourcePool s2 a1).
Definition p1 : JobResPair := (j1, resPool s0).
Definition s4 : Sched := from_ret s0 (removeJobFromReadyQ s3 p1).
Definition s5 : Sched := from_ret s0 (claimResources s4 (snd p1)).

Definition y0 : Sys := MkSys s0 Idle [] [].
Definition y1 : Sys := MkSys s1 Idle [] [j1].
Definition y2 : Sys := MkSys s2 (Adapting a1) [] [j1].
Definition y3 : Sys := MkSys s3 (Serving a1 [p1]) [] [j1].
Definition y4 : Sys := MkSys (addToRunQ s5 0 p1) (Serving a1 []) [] [j1].

Lemma run_y3 : reachable_small y3.
Proof.
  apply small_step with y2; [apply small_step with y1; [apply small_step with y0|..]|..].
  - apply small_init. exists 8111%Z, 0%Z, f_zero, s0. split; [vm_compute; reflexivity|reflexivity].
  - vm_compute. discriminate.
  - apply (step_submit timed_request s0 Idle [] [] 0 request).
    + unfold timed_request, INT_MAX. simpl. lia.
    + vm_compute. reflexivity.
  - vm_compute. discriminate.
  - apply (step_plan timed_request s1 [] [j1] ManagedModeAlg); [discriminate|..|].
    + vm_compute. lia.
    + reflexivity.
    + vm_compute. reflexivity.
    + vm_compute. lia.
  - vm_compute. discriminate.
  - apply (step_adapt timed_request s2 a1). vm_compute. reflexivity.
Qed.

Lemma run_y4 : reachable_small y4.
Proof.
  apply small_step with y3; [apply run_y3|vm_compute; discriminate|].
  apply (step_serve timed_request s3 a1 p1 [] [] [j1] 0 s4 s5); vm_compute; reflexivity.
Qed.

Lemma run_int y : reachable_small y → reachable int_request y.
Proof.
  intros Hr. apply (reachable_mono timed_request); [|by apply reachable_small_reachable].
  apply timed_int.
Qed.

End Run.

Lemma system_resources_witness :
  NoDup (rid <$> all_resources Run.y4) ∧
  Forall (λ r, rid r < resourceId (sched Run.y4))%Z (all_resources Run.y4) ∧
  Z.of_nat (length (all_resources Run.y4)) = provisionedResources (sched Run.y4).
Proof. apply (system_resources Run.y4), Run.run_int, Run.run_y4. Defined.

Lemma system_jobs_witness :
  NoDup (jid <$> clients Run.y4) ∧
  ∃ dones, clients Run.y4 ≡ₚ readyQ (sched Run.y4) ++ (runQ (sched Run.y4)).*1 ++
      (running Run.y4).*1 ++ finishedQ (sched Run.y4) ++ dones ∧
    Forall (has_flags (sched Run.y4) false false)
      (readyQ (sched Run.y4) ++ (runQ (sched Run.y4)).*1) ∧
    Forall (has_flags (sched Run.y4) true false)
      ((running Run.y4).*1 ++ finishedQ (sched Run.y4)) ∧
    Forall (is_done (sched Run.y4)) dones.
Proof. apply (system_jobs Run.y4), Run.run_int, Run.run_y4. Defined.

Lemma system_dispatch_witness :
  dispatcherLoop_iter (sched Run.y4) =
    Ret (Some Run.p1, update_job (set_runQ (sched Run.y4) []) (jid (fst Run.p1)) (setStarted true)).
Proof.
  apply (system_dispatch Run.y4 Run.p1 []); [apply Run.run_int, Run.run_y4|].
  vm_compute. reflexivity.
Defined.


Lemma system_equipped_witness :
  ∃ r rs req, snd Run.p1 = r :: rs ∧ runJob_request Run.p1 = Ret (port r, url r, req).
Proof.
  apply (system_equipped Run.y4 Run.p1); [apply Run.run_y4|].
  apply elem_of_app. left. vm_compute. constructor.
Defined.

