(* ===== verification/SystemCount.v ===== *)
(** * Counting jobs

    The ids, the queues and the statistics of the running scheduler agree on
    the number of jobs; what [Scheduler::stop] prints as their total leaves
    some of them out. *)

From S2P Require Import Prelude CxxFloat FloatRound FloatBounds StdAlg ConcurrentDeque Message.
From S2P Require Import Job Scheduler SchedulerFacts Algs ScoreFacts AlgFacts ManagedFacts.
From S2P Require Import SchedLoop System.

#[local] Open Scope Z_scope.

(** The jobs in the queues, with a thread, or recorded. *)
Definition accounted (y : Sys) : Z :=
  Z.of_nat (length (readyQ (sched y)) + length (runQ (sched y)) + length (running y) +
    length (finishedQ (sched y))) + totalCompletions (stats (sched y)).

Definition counted (y : Sys) : Prop :=
  nextJid (sched y) = 1 + accounted y ∧ nextJid (sched y) ≤ INT_MAX ∧
  0 ≤ totalCompletions (stats (sched y)).

(** ** Lemmas *)

Lemma updateResourcePool_queues s a s' :
  updateResourcePool s a = Ret s' →
  readyQ s' = readyQ s ∧ runQ s' = runQ s ∧ finishedQ s' = finishedQ s ∧
  nextJid s' = nextJid s ∧ stats s' = stats s.
Proof.
  unfold updateResourcePool. intros H.
  destruct (SFltb (getJLOMetric a) f_zero); [|destruct (SFltb _ (getJLOMetric a)); [|by simplify_eq]].
  - unfold provisionResource, addNewResource in H. inv_ret. done.
  - unfold deprovisionResource in H. destruct (0 <? provisionedResources s)%Z; [|by simplify_eq].
    apply bind_ret_inv in H as ([x pl] & _ & H). by simplify_eq.
Qed.

(** Recording a job counts it. *)
Lemma finishedLoop_counts s t u j s' :
  finishedLoop_iter s t u = Ret (j, s') → 0 ≤ totalCompletions (stats s) < 2 ^ 64 - 1 →
  ∃ q, finishedQ s = j :: q ∧ finishedQ s' = q ∧ readyQ s' = readyQ s ∧ runQ s' = runQ s ∧
    nextJid s' = nextJid s ∧ totalCompletions (stats s') = totalCompletions (stats s) + 1.
Proof.
  intros H Hb. unfold finishedLoop_iter in H. destruct (finishedQ s) as [|k q] eqn:Eq; [done|].
  simpl in H. destruct (jobStates s !! jid k) as [js|]; [|done]. simpl in H.
  destruct (updateStatistics (set_finishedQ s q) js t u) as [s1| | | |] eqn:Eup; try done.
  cbn [mbind outcome_bind] in H. injection H as <- <-.
  unfold updateStatistics in Eup. inv_ret. exists q.
  cbn [update_job set_stats set_jobStates finishedQ readyQ runQ nextJid stats set_finishedQ].
  split_and!; try done. apply wrap_small. lia.
Qed.

Lemma runJob_moves s p stream t0 t1 now s' :
  jid (fst p) ∉ jid <$> (runQ s).*1 → runJob s p stream t0 t1 now = Ret s' →
  readyQ s' = readyQ s ∧ runQ s' = runQ s ∧ finishedQ s' = fst p :: finishedQ s ∧
  nextJid s' = nextJid s ∧ stats s' = stats s.
Proof. intros Hn H. by destruct (runJob_effect _ _ _ _ _ _ _ Hn H) as (rsp & ->). Qed.

Section counting.
Context `{Hsort : !StdSort}.
Context (adm : msg_t → Prop).
Context (adm_int : ∀ req, adm req → INT_MIN ≤ predictedTimeMillis req ≤ INT_MAX).

Lemma running_not_queued s p run1 pr run2 cl :
  inv adm (MkSys s p (run1 ++ pr :: run2) cl) → jid (fst pr) ∉ jid <$> (runQ s).*1.
Proof.
  intros Hinv. destruct (inv_clients _ _ Hinv) as (dones & Hcl & _).
  destruct (inv_ids _ _ Hinv) as [Hnd _]. unfold active in Hcl. cbn [clients sched running] in *.
  rewrite (fmap_app fst run1) in Hcl. csimpl in Hcl. rewrite Hcl in Hnd. intros Hin.
  assert (Hp : (readyQ s ++ (runQ s).*1 ++ (run1.*1 ++ fst pr :: run2.*1) ++ finishedQ s) ++ dones
    ≡ₚ fst pr :: (runQ s).*1 ++ readyQ s ++ run1.*1 ++ run2.*1 ++ finishedQ s ++ dones)
    by solve_Permutation.
  rewrite Hp in Hnd. csimpl in Hnd. apply NoDup_cons in Hnd as [Hn _]. apply Hn.
  rewrite fmap_app. in_app.
Qed.

Lemma serve_moves s a p js run cl s1 s2 :
  inv adm (MkSys s (Serving a (p :: js)) run cl) →
  removeJobFromReadyQ s p = Ret s1 → claimResources s1 (snd p) = Ret s2 →
  length (readyQ s) = S (length (readyQ s2)) ∧ runQ s2 = runQ s ∧ finishedQ s2 = finishedQ s ∧
  nextJid s2 = nextJid s ∧ stats s2 = stats s.
Proof.
  intros Hinv Hrem Hclaim.
  destruct (serve_effect _ _ _ _ _ _ _ _ _ Hinv Hrem Hclaim) as (q & pl & -> & Hq & _).
  cbn. by rewrite Hq.
Qed.

Lemma counted_step y y' : inv adm y → counted y → step adm y y' → counted y'.
Proof.
  intros Hinv (Hn & Hmax & Hc) Hstep. unfold counted, accounted in *.
  destruct Hstep as [s p run cl now req j s' Ha H|s run cl alg a s' Hne Hpool Halg H _
    |s run cl alg a s' Hne Hpool Halg H _|s a run cl s' H|s a p js run cl now s1 s2 Hr Hcl
    |s a run cl d|s p run cl pr s' H|s p run cl s' H|s p run1 pr run2 cl str t0 t1 now s' H
    |s p run cl t u j s' H|s p run cl1 j cl2 js H _]; cbn [sched running] in *.
  - unfold submit, getNextId in H. inv_ret. apply int_of_inv in E0 as [-> [_ Hb]].
    cbn in *. lia.
  - pose proof (inv_sched_wf adm adm_int _ Hinv Hne) as Hwf.
    destruct (inv_config _ _ Hinv) as (Hcfg & _). cbn [sched] in *.
    rewrite Hcfg in Halg. injection Halg as <-.
    destruct (managed_returns s a s' Hwf Hcfg Hpool H) as ((pl & -> & _) & _ & _). done.
  - pose proof (inv_sched_wf adm adm_int _ Hinv Hne) as Hwf.
    destruct (inv_config _ _ Hinv) as (Hcfg & _). cbn [sched] in *.
    rewrite Hcfg in Halg. injection Halg as <-.
    destruct (managed_returns s a s' Hwf Hcfg Hpool H) as ((pl & -> & _) & _ & _). done.
  - by destruct (updateResourcePool_queues s a s' H) as (-> & -> & -> & -> & ->).
  - destruct (serve_moves s a p js run cl s1 s2 Hinv Hr Hcl) as (Hl & Hq & Hf & Hj & Hs).
    unfold addToRunQ, Deque.push_front. cbn. rewrite Hq, Hf, Hj, Hs. lia.
  - unfold add_sched_stats. by case_match.
  - destruct (dispatch_starts adm _ _ _ _ _ _ Hinv H) as (pr' & q & Hq & [= <-] & ->).
    cbn. rewrite Hq in *. cbn in *. lia.
  - by destruct (dispatch_starts adm _ _ _ _ _ _ Hinv H) as (pr' & q & _ & [=] & _).
  - destruct (runJob_moves s pr str t0 t1 now s') as (-> & -> & -> & -> & ->); [|done|].
    { by eapply running_not_queued. }
    rewrite !length_app in *. cbn in *. lia.
  - destruct (finishedLoop_counts s t u j s' H) as (q & Hq & -> & -> & -> & -> & ->).
    { unfold INT_MAX in *. lia. }
    rewrite Hq in *. cbn in *. lia.
  - done.
Qed.

Lemma counted_reachable y : reachable adm y → counted y.
Proof.
  induction 1 as [y Hi|y y' Hr IH Hstep].
  - destruct Hi as (port & now & busy & s & Hs & ->). unfold main_Scheduler in Hs. inv_ret.
    unfold new_Scheduler, provisionResource, addNewResource in E. simpl in E. inv_ret.
    by vm_compute.
  - eapply counted_step; try done. by apply (reachable_inv adm adm_int).
Qed.

End counting.

(** ** Properties *)


(** ** Witnesses *)

