(* ===== verification/Liveness.v ===== *)
(** * Every client is answered

    A termination argument for the interleaved scheduler of System: when requests
    carry a predicted time and no objective, results report a non-negative time, clock
    readings stay below 2^62 ns, the scheduler has had at most 2^20 jobs and the memory
    of its busy time, which the constructor leaves as it is, held between 0 and 2^61, no thread
    reaches an undefined operation or an exhausted pool; the threads can make only
    boundedly many steps without new submissions, and as long as a client waits some
    thread can step. *)

From S2P Require Import Prelude CxxFloat FloatRound FloatBounds FloatSigned StdAlg ConcurrentDeque.
From S2P Require Import Message Server Client ClientFacts Job Scheduler StatsFacts EndToEnd.
From S2P Require Import SchedulerFacts Algs ScoreFacts AlgFacts ManagedFacts SchedLoop System SystemCount.

#[local] Open Scope Z_scope.

(** ** Requests and results *)

(** A request with a predicted time, without an objective, whose result fits a
    message. *)
Definition live_request (req : msg_t) : Prop :=
  timed_request req ∧ targetExecutionTimeMillis req = 0 ∧
  0 ≤ expDataSizeBytes req ≤ INT_MAX - sizeof_msg.

Lemma live_timed req : live_request req → timed_request req.
Proof. by intros []. Qed.

Lemma live_int req : live_request req → INT_MIN ≤ predictedTimeMillis req ≤ INT_MAX.
Proof. intros H. by apply timed_int, live_timed. Qed.

(** The milliseconds the result of a job reports. *)
Definition reported (js : JobState) : Z :=
  match jrsp js with Some rsp => predictedTimeMillis rsp | None => 0 end.

(** The result of a job reports a non-negative [int], its times are readings of the
    clock. *)
Definition mild_job (js : JobState) : Prop := 0 ≤ reported js ≤ INT_MAX ∧ times_ok js.

(** At most 2^20 jobs so far, all of them mild. *)
Definition mild (y : Sys) : Prop :=
  nextJid (sched y) ≤ 2 ^ 20 ∧ map_Forall (λ _, mild_job) (jobStates (sched y)).

(** ** The elasticity manager without objectives *)

Lemma jlo_negative req id n :
  live_request req → 1 ≤ n ≤ 2 ^ 21 →
  ∃ x, between64 (pw (-31)) (pw 22) x ∧ getJlo (new_Job req id) n = SFopp x.
Proof.
  intros (Hms & Ht & _) Hn. unfold timed_request, INT_MAX in Hms.
  set (x := f64_div (seconds_of_millis (predictedTimeMillis req)) (f64_of_Z n)).
  assert (Hx : between64 (pw (-31)) (pw 22) x).
  { apply (div_between f64_prec f64_emax (-10) 22 0 21); fmt; try done.
    - apply seconds_of_millis_between. lia.
    - apply f64_of_Z_between; lia. }
  exists x. split; [done|]. unfold getJlo. cbn [new_Job targetExecutionTime predictedTime].
  rewrite Ht. change (seconds_of_millis 0) with (S754_zero false). fold x.
  destruct Hx as [Hx Hv]. pose proof (pw_pos (-31) ltac:(done)).
  by destruct x as [| | |[] m e]; simpl in Hx, Hv; try lia.
Qed.

(** A pair whose job has no objective and whose resources are bounded in number. *)
Definition objective_free (p : JobResPair) : Prop :=
  ∃ req id, fst p = new_Job req id ∧ live_request req ∧ 1 ≤ Z.of_nat (length (snd p)) ≤ 2 ^ 21.

Lemma SFltb_opp_pos k hi x : between64 (pw k) hi x → unit_exp ≤ k → SFltb (SFopp x) f_zero = true.
Proof.
  intros [Hx Hv] Hk. pose proof (pw_pos k Hk).
  by destruct x as [| | |[] m e]; simpl in Hx, Hv; try lia.
Qed.

(** One step of [jlo_sums]. *)
Definition jlo_step (sums : float64 * float64) (p : JobResPair) : float64 * float64 :=
  let '(neg, pos) := sums in
  let jlo := getJlo (fst p) (Z.of_nat (length (snd p))) in
  if SFltb jlo f_zero then (f64_add neg jlo, pos) else (neg, f64_add pos jlo).

Lemma jlo_sums_steps a : jlo_sums a = foldl jlo_step (f_zero, f_zero) (ajobs a).
Proof. 
  unfold jlo_sums. generalize (f_zero, f_zero).
  induction (ajobs a) as [|p l IH]; intros [neg pos]; [done|]. apply IH. Qed.

(** A job without an objective adds to the negative sum. *)
Lemma jlo_step_free p neg pos :
  objective_free p →
  ∃ z, between64 (pw (-31)) (pw 22) z ∧ jlo_step (neg, pos) p = (f64_add neg (SFopp z), pos).
Proof.
  intros (req & id & Hj & Hreq & Hn). destruct (jlo_negative req id _ Hreq Hn) as (z & Hz & Hjlo).
  exists z. split; [done|]. unfold jlo_step. by rewrite Hj, Hjlo, (SFltb_opp_pos (-31) (pw 22)).
Qed.

Lemma jlo_sums_negative l : ∀ x k,
  Forall objective_free l → between64 (pw (-31)) (k * pw 22) x → 0 ≤ k →
  k + Z.of_nat (length l) ≤ 2 ^ 24 →
  ∃ x', between64 (pw (-31)) ((k + Z.of_nat (length l)) * pw 22) x' ∧
    foldl jlo_step (SFopp x, f_zero) l = (SFopp x', f_zero).
Proof.
  induction l as [|p l IH]; intros x k Hl Hx Hk0 Hk.
  { exists x. by rewrite Z.add_0_r. }
  apply Forall_cons in Hl as [Hp Hl]. cbn [length] in Hk.
  destruct (jlo_step_free p (SFopp x) f_zero Hp) as (z & Hz & E). cbn [foldl]. rewrite E.
  pose proof (pw_pos (-31) ltac:(done)). destruct Hx as [Hxn Hxv]. pose proof Hz as [Hzn Hzv].
  rewrite f64_add_opp by (done || lia).
  destruct (IH (f64_add x z) (k + 1) Hl) as (x' & Hx' & ->); [|lia..|].
  - apply (add_between f64_prec f64_emax); try done; [..|lia].
    + by apply (rep_pw1 f64_prec f64_emax).
    + apply (rep_pw f64_prec f64_emax); lia.
  - exists x'. split; [|done]. cbn [length].
    by replace (k + Z.of_nat (S (length l))) with (k + 1 + Z.of_nat (length l)) by lia.
Qed.

Lemma jlo_metric_negative a :
  Forall objective_free (ajobs a) → ajobs a ≠ [] → Z.of_nat (length (ajobs a)) ≤ 2 ^ 20 →
  SFltb (getJLOMetric a) f_zero = true.
Proof.
  intros Hall Hne Hlen. unfold getJLOMetric. rewrite jlo_sums_steps.
  destruct (ajobs a) as [|p l]; [done|]. cbn [length] in Hlen.
  apply Forall_cons in Hall as [Hp Hl].
  destruct (jlo_step_free p f_zero f_zero Hp) as (z & Hz & E). cbn [foldl]. rewrite E.
  assert (f64_add f_zero (SFopp z) = SFopp z) as ->.
  { destruct Hz as [Hz Hv]. pose proof (pw_pos (-31) ltac:(done)).
    by destruct z as [| | |[]]; simpl in *; try lia. }
  destruct (jlo_sums_negative l z 1 Hl) as (x' & Hx' & ->); [by rewrite Z.mul_1_l|lia..|].
  pose proof (SFltb_opp_pos (-31) _ x' Hx' ltac:(done)) as Hlt. by do 2 rewrite Hlt.
Qed.

(** ** Invariant *)

Section liveness.
Context `{Hsort : !StdSort}.

Lemma inv_mono (adm adm' : msg_t → Prop) y :
  (∀ req, adm req → adm' req) → inv adm y → inv adm' y.
Proof.
  intros Hm []. split; try done. eapply Forall_impl; [done|].
  intros j (req & id & -> & Ha). exists req, id. auto.
Qed.

(** The jobs of the chosen allocation that the resource ids do not account for yet. *)
Definition unserved (p : sched_pc) : Z :=
  match p with Serving _ js => Z.of_nat (length js) | _ => 0 end.

Record live (y : Sys) : Prop := {
  lv_inv : inv live_request y;
  lv_equipped : equipped y;
  lv_counted : counted y;
  lv_pool : Forall (λ r, r ∈ resPool (sched y)) (mjoin (pending (pc y)).*2);
  lv_chosen : ∀ a, pc y = Adapting a → ajobs a ≠ [];
  lv_provisioned : 1 ≤ provisionedResources (sched y) ∧
    provisionedResources (sched y) = resourceId (sched y) - 1;
  lv_ids : resourceId (sched y) + Z.of_nat (length (readyQ (sched y))) ≤
    nextJid (sched y) + 1 + unserved (pc y);
  lv_start : between64 0 (pw 33) (startTime (stats (sched y)));
  lv_busy : between64 0 ((2 ^ 19 + totalCompletions (stats (sched y))) * pw 42)
    (totBusyTime (stats (sched y)));
  lv_wait : magnitude (totalCompletions (stats (sched y)) * pw 33) (totalWaitTime (stats (sched y))) ∧
    magnitude (pw 33) (meanWaitTime (stats (sched y)));
  lv_times : map_Forall (λ _ js, actualExecutionTime js = seconds_of_millis (reported js))
    (jobStates (sched y))
}.

(** ** What a live state allows *)

Lemma live_small y : live y → mild y → small_queue y.
Proof.
  intros Hl [Hn _]. destruct (lv_counted _ Hl) as (Hc & _ & H0). unfold accounted in Hc.
  unfold small_queue, readyQSize, Deque.size. lia.
Qed.

Lemma pending_count y : live y → (length (pending (pc y)) ≤ length (readyQ (sched y)))%nat.
Proof.
  intros Hl. pose proof (inv_pending_jobs _ _ (lv_inv _ Hl)) as Hs.
  apply submseteq_length in Hs. by rewrite length_fmap in Hs.
Qed.

(** The resources of one pending pair are at most all resources. *)
Lemma pending_resources_bound y p :
  live y → mild y → p ∈ pending (pc y) → 1 ≤ Z.of_nat (length (snd p)) ≤ 2 ^ 21.
Proof.
  intros Hl Hm Hp. pose proof (live_small y Hl Hm) as Hs. destruct Hm as [Hn _].
  unfold small_queue, readyQSize, Deque.size in Hs. split.
  - pose proof (lv_equipped _ Hl) as He. unfold equipped in He. rewrite Forall_forall in He.
    specialize (He p ltac:(in_app)). destruct (snd p); [done|]. simpl. lia.
  - pose proof (lv_inv _ Hl) as Hi. pose proof (inv_pending_distinct _ _ Hi) as Hd.
    assert (Hsub : mjoin (pending (pc y)).*2 ⊆+ resPool (sched y)).
    { apply NoDup_submseteq; [by eapply NoDup_fmap_1|].
      pose proof (lv_pool _ Hl) as Hpl. by rewrite Forall_forall in Hpl. }
    assert (Hone : snd p ⊆+ mjoin (pending (pc y)).*2).
    { apply elem_of_Permutation in Hp as [rest ->]. csimpl. by apply submseteq_inserts_r. }
    apply submseteq_length in Hsub, Hone.
    pose proof (inv_count _ _ Hi) as Hc. unfold all_resources in Hc. rewrite length_app in Hc.
    pose proof (lv_provisioned _ Hl). pose proof (lv_ids _ Hl).
    assert (unserved (pc y) ≤ Z.of_nat (length (readyQ (sched y)))).
    { pose proof (pending_count y Hl). destruct (pc y); simpl in *; lia. }
    lia.
Qed.

Lemma pending_free y : live y → mild y → Forall objective_free (pending (pc y)).
Proof.
  intros Hl Hm. pose proof (lv_inv _ Hl) as Hi. apply Forall_forall. intros p Hp.
  destruct (inv_clients _ _ Hi) as (dones & Hcl & _).
  pose proof (inv_requests _ _ Hi) as Hreq. rewrite Forall_forall in Hreq.
  destruct (Hreq (fst p)) as (req & id & Hj & Ha).
  - rewrite Hcl. unfold active. assert (fst p ∈ readyQ (sched y)); [|in_app].
    eapply elem_of_submseteq; [|exact (inv_pending_jobs _ _ Hi)]. by apply list_elem_of_fmap_2.
  - exists req, id. split_and!; try done; by apply (pending_resources_bound y).
Qed.

(** The elasticity manager adds a resource. *)
Lemma live_adapts s a run cl :
  live (MkSys s (Adapting a) run cl) → mild (MkSys s (Adapting a) run cl) →
  updateResourcePool s a = provisionResource s ∧
  provisionResource s = Ret (set_provisioned (set_resourceId (set_resPool s
    (Deque.push_back (MkResource (resourceId s) (dispatcherPortNumber s) (dispatcherHostname s) "DFE")
      (resPool s))) (resourceId s + 1)) (provisionedResources s + 1)).
Proof.
  intros Hl Hm. pose proof (pending_free _ Hl Hm) as Hf. pose proof (live_small _ Hl Hm) as Hs.
  pose proof (pending_count _ Hl) as Hp. pose proof (lv_provisioned _ Hl) as Hpr.
  pose proof (lv_ids _ Hl) as Hid. destruct Hm as [Hn _].
  unfold small_queue, readyQSize, Deque.size in Hs. cbn [pc sched pending unserved] in *.
  split.
  - unfold updateResourcePool. rewrite jlo_metric_negative; [done..| |lia].
    by apply (lv_chosen _ Hl).
  - unfold provisionResource, addNewResource. cbn [set_resPool resourceId provisionedResources].
    rewrite int_of_in by (unfold INT_MIN, INT_MAX; lia).
    cbn [mbind outcome_bind set_resourceId provisionedResources].
    by rewrite int_of_in by (unfold INT_MIN, INT_MAX; cbn; lia).
Qed.

(** ** The steps keep it *)

(** Planning, in a live state: what ManagedMode chooses. *)
Lemma live_plans s run cl :
  live (MkSys s Idle run cl) → mild (MkSys s Idle run cl) → readyQ s ≠ [] → (0 < resPoolSize s)%nat →
  ∃ a s1, run_alg 1 ManagedModeAlg s = Ret (a, s1) ∧ pool_perm s s1 ∧ (0 < noJobs a)%nat ∧
    ajobs a ≠ [] ∧ aresources a ⊆+ resPool s.
Proof.
  intros Hl Hm Hne Hpool.
  pose proof (inv_mono _ timed_request _ live_timed (lv_inv _ Hl)) as Hi.
  pose proof (inv_managed_wf _ Hi (live_small _ Hl Hm) Hne Hpool) as Hmw. cbn [sched] in Hmw.
  destruct (managed_result s Hmw) as (a & s1 & Hrun & Hs1 & Hnj & _ & _ & Hr).
  exists a, s1. split_and!; try done. intros E. unfold noJobs in Hnj. rewrite E in Hnj. simpl in Hnj. lia.
Qed.

(** The effect of a planning step. *)
Lemma plan_step s run cl alg a s' :
  live (MkSys s Idle run cl) → mild (MkSys s Idle run cl) → readyQ s ≠ [] → (0 < resPoolSize s)%nat →
  algVec s !! MODE_MANAGED = Some alg → run_alg 1 alg s = Ret (a, s') →
  (∃ pool, s' = set_resPool s pool ∧ pool ≡ₚ resPool s) ∧ (0 < noJobs a)%nat ∧ ajobs a ≠ [] ∧
  aresources a ⊆+ resPool s.
Proof.
  intros Hl Hm Hne Hpool Halg Hrun. destruct (inv_config _ _ (lv_inv _ Hl)) as (Hcfg & _).
  cbn [sched] in Hcfg. rewrite Hcfg in Halg. injection Halg as <-.
  destruct (live_plans s run cl Hl Hm Hne Hpool) as (a' & s1 & Hr & Hs1 & ?).
  rewrite Hrun in Hr. injection Hr as <- <-. split; [exact Hs1|done].
Qed.

(** The statistics of a live state. *)
Lemma live_stats y : live y → mild y → stats_ok (stats (sched y)).
Proof.
  intros Hl [Hn _]. destruct (lv_counted _ Hl) as (Hc & _ & H0). unfold accounted in Hc.
  split; [lia|apply Hl..].
Qed.

(** The effect of recording a job. *)
Lemma finished_step s p run cl t u j s' :
  live (MkSys s p run cl) → mild (MkSys s p run cl) → finishedLoop_iter s t u = Ret (j, s') →
  ∃ q st, finishedQ s = j :: q ∧
    s' = update_job (set_stats (set_finishedQ s q) st) (jid j) (setFinished true) ∧
    stats_grown (stats s) st.
Proof.
  intros Hl Hm H. pose proof (live_stats _ Hl Hm) as Hok. destruct Hm as [_ Hm].
  unfold finishedLoop_iter in H. destruct (finishedQ s) as [|k q]; [done|]. simpl in H.
  destruct (jobStates s !! jid k) as [js|] eqn:Ejs; [|done]. simpl in H.
  apply bind_ret_inv in H as (s1 & Hs1 & H). injection H as <- <-.
  destruct (Hm _ _ Ejs) as [Hrep Hclk].
  apply (updateStatistics_effect _ _ _ _ (reported js)) in Hs1 as (st & -> & Hg); try done.
  - by exists q, st.
  - exact (lv_times _ Hl _ _ Ejs).
Qed.

(** Writes into the jobs that keep [P]. *)
Lemma update_job_Forall (P : Z → JobState → Prop) s id f :
  map_Forall P (jobStates s) → (∀ js, jobStates s !! id = Some js → P id (f js)) →
  map_Forall P (jobStates (update_job s id f)).
Proof.
  intros Hall Hf k js. unfold update_job. cbn [set_jobStates jobStates].
  destruct (decide (k = id)) as [->|Hne].
  - rewrite lookup_alter_eq, fmap_Some. intros (js0 & E & ->). by apply Hf.
  - rewrite lookup_alter_ne by done. apply Hall.
Qed.

Lemma live_times_step y y' :
  live y → mild y → step live_request y y' →
  map_Forall (λ _ js, actualExecutionTime js = seconds_of_millis (reported js)) (jobStates (sched y')).
Proof.
  intros Hl Hm Hstep. pose proof (lv_times _ Hl) as Ht. pose proof (lv_inv _ Hl) as Hi.
  destruct Hstep; cbn [sched] in *.
  - unfold submit, getNextId in *. inv_ret. simpl. by apply map_Forall_insert_2.
  - by destruct (plan_step _ _ _ _ _ _ Hl Hm H H0 H1 H2) as ((pl & -> & _) & _).
  - by destruct (plan_step _ _ _ _ _ _ Hl Hm H H0 H1 H2) as ((pl & -> & _) & _).
  - destruct (live_adapts _ _ _ _ Hl Hm) as [E1 E2]. rewrite E1, E2 in H. by injection H as <-.
  - destruct (serve_effect _ _ _ _ _ _ _ _ _ Hi H H0) as (q & pl & -> & _).
    apply (update_job_Forall _ (set_resPool (set_readyQ s q) pl)); [done|].
    intros js0 E. exact (Ht _ _ E).
  - done.
  - destruct (dispatch_starts _ _ _ _ _ _ _ Hi H) as (pr & q & _ & _ & ->).
    apply update_job_Forall; [done|]. intros js E. exact (Ht _ _ E).
  - by destruct (dispatch_starts _ _ _ _ _ _ _ Hi H) as (pr & q & _ & ? & _).
  - destruct (runJob_effect s p stream t0 t1 now s') as (rsp & ->); [|done|].
    + by eapply running_not_queued.
    + apply (update_job_Forall _ s); [done|]. done.
  - destruct (finished_step _ _ _ _ _ _ _ _ Hl Hm H) as (q & st & _ & -> & _).
    apply update_job_Forall; [done|]. intros js E. exact (Ht _ _ E).
  - done.
Qed.

(** Resources of the chosen allocation stay in the pool until they are claimed. *)
Lemma live_pool_step y y' :
  live y → mild y → step live_request y y' →
  Forall (λ r, r ∈ resPool (sched y')) (mjoin (pending (pc y')).*2).
Proof.
  intros Hl Hm Hstep. pose proof (lv_pool _ Hl) as Hp. pose proof (lv_inv _ Hl) as Hi.
  destruct Hstep; cbn [sched System.pc pending] in *.
  - unfold submit, getNextId in *. inv_ret. exact Hp.
  - destruct (plan_step _ _ _ _ _ _ Hl Hm H H0 H1 H2) as ((pl & -> & Hpl) & _ & _ & Hr).
    apply Forall_forall. intros r Hin. cbn [set_resPool resPool]. rewrite Hpl.
    by eapply elem_of_submseteq.
  - constructor.
  - destruct (live_adapts _ _ _ _ Hl Hm) as [E1 E2]. rewrite E1, E2 in H. injection H as <-.
    eapply Forall_impl; [exact Hp|]. intros r Hr. cbn. unfold Deque.push_back. in_app.
  - destruct (serve_effect _ _ _ _ _ _ _ _ _ Hi H H0) as (q & pl & -> & _ & Hpl).
    pose proof (inv_pending_distinct _ _ Hi) as Hd. cbn [System.pc pending] in Hd. csimpl in *.
    apply Forall_app in Hp as [_ Hp]. rewrite fmap_app in Hd. apply NoDup_app in Hd as (_ & Hd & _).
    rewrite Forall_forall in Hp |- *. intros r Hr. specialize (Hp r Hr).
    rewrite Hpl in Hp. apply elem_of_app in Hp as [Hp|Hp]; [|done].
    exfalso. apply (Hd (rid r)); by apply list_elem_of_fmap_2.
  - constructor.
  - by destruct (dispatch_starts _ _ _ _ _ _ _ Hi H) as (pr & q & _ & _ & ->).
  - by destruct (dispatch_starts _ _ _ _ _ _ _ Hi H) as (pr & q & _ & ? & _).
  - destruct (runJob_effect s p stream t0 t1 now s') as (rsp & ->); [|done|].
    + by eapply running_not_queued.
    + eapply Forall_impl; [exact Hp|]. intros r Hr. cbn. in_app.
  - by destruct (finished_step _ _ _ _ _ _ _ _ Hl Hm H) as (q & st & _ & -> & _).
  - done.
Qed.

(** The resource ids grow by one with every schedule, and every schedule serves a job. *)
Definition ids_ok (s : Sched) (p : sched_pc) : Prop :=
  (1 ≤ provisionedResources s ∧ provisionedResources s = resourceId s - 1) ∧
  resourceId s + Z.of_nat (length (readyQ s)) ≤ nextJid s + 1 + unserved p ∧
  ∀ a, p = Adapting a → ajobs a ≠ [].

Lemma live_ids_step y y' :
  live y → mild y → step live_request y y' → ids_ok (sched y') (pc y').
Proof.
  intros Hl Hm Hstep. pose proof (lv_inv _ Hl) as Hi.
  assert (Hids : ids_ok (sched y) (pc y)) by (split_and!; apply Hl).
  destruct Hstep; cbn [sched System.pc] in *.
  - unfold submit, getNextId in *. inv_ret. apply int_of_inv in E0 as [-> _].
    destruct Hids as ([??]&?&?). split_and!; cbn in *; try done; lia.
  - destruct (plan_step _ _ _ _ _ _ Hl Hm H H0 H1 H2) as ((pl & -> & Hpl) & _ & Hne & _).
    destruct Hids as ([??]&?&?). split_and!; try done. by intros ? [= <-].
  - by destruct (plan_step _ _ _ _ _ _ Hl Hm H H0 H1 H2) as ((pl & -> & Hpl) & _).
  - destruct (live_adapts _ _ _ _ Hl Hm) as [E1 E2]. rewrite E1, E2 in H. injection H as <-.
    destruct Hids as ([??]&?&Hne). specialize (Hne a eq_refl).
    destruct (ajobs a) as [|p js]; [done|]. split_and!; cbn in *; try done; lia.
  - destruct (serve_effect _ _ _ _ _ _ _ _ _ Hi H H0) as (q & pl & -> & Hq & _).
    destruct Hids as ([??]&?&?). apply Permutation_length in Hq.
    split_and!; cbn in *; try done; lia.
  - destruct Hids as ([??]&?&?). by split_and!.
  - by destruct (dispatch_starts _ _ _ _ _ _ _ Hi H) as (pr & q & _ & _ & ->).
  - by destruct (dispatch_starts _ _ _ _ _ _ _ Hi H) as (pr & q & _ & ? & _).
  - destruct (runJob_effect s p stream t0 t1 now s') as (rsp & ->); [|done|done].
    by eapply running_not_queued.
  - by destruct (finished_step _ _ _ _ _ _ _ _ Hl Hm H) as (q & st & _ & -> & _).
  - done.
Qed.

Lemma live_stats_step y y' :
  live y → mild y → step live_request y y' →
  let st := stats (sched y') in
  startTime st = startTime (stats (sched y)) ∧
  between64 0 ((2 ^ 19 + totalCompletions st) * pw 42) (totBusyTime st) ∧
  magnitude (totalCompletions st * pw 33) (totalWaitTime st) ∧ magnitude (pw 33) (meanWaitTime st).
Proof.
  intros Hl Hm Hstep. pose proof (lv_inv _ Hl) as Hi. pose proof (lv_busy _ Hl) as Hb.
  pose proof (lv_wait _ Hl) as Hwt.
  destruct Hstep; cbn [sched] in *.
  - unfold submit, getNextId in *. inv_ret. done.
  - by destruct (plan_step _ _ _ _ _ _ Hl Hm H H0 H1 H2) as ((pl & -> & Hpl) & _).
  - by destruct (plan_step _ _ _ _ _ _ Hl Hm H H0 H1 H2) as ((pl & -> & Hpl) & _).
  - by destruct (updateResourcePool_queues s a s' H) as (_ & _ & _ & _ & ->).
  - by destruct (serve_effect _ _ _ _ _ _ _ _ _ Hi H H0) as (q & pl & -> & _).
  - cbn. unfold add_sched_stats. by case_match.
  - by destruct (dispatch_starts _ _ _ _ _ _ _ Hi H) as (pr & q & _ & _ & ->).
  - by destruct (dispatch_starts _ _ _ _ _ _ _ Hi H) as (pr & q & _ & ? & _).
  - destruct (runJob_effect s p stream t0 t1 now s') as (rsp & ->); [|done|done].
    by eapply running_not_queued.
  - by destruct (finished_step _ _ _ _ _ _ _ _ Hl Hm H) as (q & st & _ & -> & _ & ?).
  - done.
Qed.

Lemma live_step y y' : live y → mild y → step live_request y y' → live y'.
Proof.
  intros Hl Hm Hstep. destruct (live_ids_step y y' Hl Hm Hstep) as (? & ? & ?).
  destruct (live_stats_step y y' Hl Hm Hstep) as (Hst & ? & ?). split; try done.
  - by apply (inv_step _ live_int y), Hstep; apply Hl.
  - apply (equipped_step y); [|by apply live_small|by apply Hl|].
    + by eapply inv_mono, Hl; apply live_timed.
    + by eapply step_mono, Hstep; apply live_timed.
  - apply (counted_step _ live_int y); [apply Hl..|done].
  - by apply (live_pool_step y).
  - rewrite Hst. apply Hl.
  - by apply (live_times_step y).
Qed.

(** ** Reachable live states *)

Inductive live_reachable : Sys → Prop :=
| live_init port now busy s :
    clock now → busy_ok busy → main_Scheduler port now busy = Ret s → live_reachable (MkSys s Idle [] [])
| live_next y y' :
    live_reachable y → step live_request y y' → mild y' → live_reachable y'.

Lemma live_initial port now busy s :
  clock now → busy_ok busy → main_Scheduler port now busy = Ret s →
  live (MkSys s Idle [] []) ∧ mild (MkSys s Idle [] []).
Proof.
  intros Hnow Hbusy Hs. assert (Hi : initial (MkSys s Idle [] [])) by (by exists port, now, busy, s).
  pose proof (inv_initial live_request _ Hi) as Hinv. unfold main_Scheduler in Hs. inv_ret.
  unfold new_Scheduler, provisionResource, addNewResource in E. simpl in E. inv_ret.
  split; [split|]; try done; cbn [sched System.pc pending].
  - constructor.
  - by apply seconds_of_nanos_clock.
  - split; exists f_zero; (split; [by split|by left]).
Qed.

Lemma live_reachable_live y : live_reachable y → live y ∧ mild y.
Proof.
  induction 1 as [port now busy s Hnow Hb Hs|y y' Hr [Hl Hm] Hstep Hm']; [by eapply live_initial|].
  split; [|done]. by apply (live_step y).
Qed.

(** ** Steps without new submissions *)

Definition drain (y y' : Sys) : Prop := step (λ _, False) y y' ∧ mild y'.

Lemma drain_live y y' : live y → mild y → drain y y' → live y' ∧ mild y'.
Proof.
  intros Hl Hm [Hs Hm']. split; [|done]. apply (live_step y); [done..|]. by eapply step_mono, Hs.
Qed.

(** The same without answers. *)
Definition thread_drain (y y' : Sys) : Prop := drain y y' ∧ clients y' = clients y.

Lemma thread_drain_intro s p run cl s' p' run' :
  drain (MkSys s p run cl) (MkSys s' p' run' cl) → ∃ y', thread_drain (MkSys s p run cl) y'.
Proof. intros H. by eexists. Qed.

(** The steps a state can still make. *)
Definition control (p : sched_pc) : Z :=
  match p with Idle => 0 | Adapting _ => 2 | Serving _ _ => 1 end.

Definition remaining (y : Sys) : Z :=
  7 * Z.of_nat (length (readyQ (sched y))) - 3 * Z.of_nat (length (pending (pc y))) +
  control (pc y) + 3 * Z.of_nat (length (runQ (sched y))) + 2 * Z.of_nat (length (running y)) +
  Z.of_nat (length (finishedQ (sched y))) + Z.of_nat (length (clients y)).

Lemma remaining_bounds y :
  live y → 0 ≤ remaining y ≤ 8 * Z.of_nat (length (clients y)) + 2.
Proof.
  intros Hl. pose proof (pending_count y Hl).
  destruct (inv_clients _ _ (lv_inv _ Hl)) as (dones & Hcl & _). apply Permutation_length in Hcl.
  unfold active in Hcl. rewrite !length_app, !length_fmap in Hcl. unfold remaining.
  destruct (pc y); simpl in *; lia.
Qed.

Lemma remaining_decreases y y' : live y → mild y → drain y y' → remaining y' < remaining y.
Proof.
  intros Hl Hm [Hstep _]. pose proof (lv_inv _ Hl) as Hi. unfold remaining.
  destruct Hstep; cbn [sched System.pc pending running clients control] in *; [done|..].
  - destruct (plan_step _ _ _ _ _ _ Hl Hm H H0 H1 H2) as ((pl & -> & _) & _ & Hne & _).
    destruct (ajobs a); [done|]. cbn. lia.
  - destruct (plan_step _ _ _ _ _ _ Hl Hm H H0 H1 H2) as (_ & Hnj & _). lia.
  - destruct (updateResourcePool_queues s a s' H) as (-> & -> & -> & _). lia.
  - destruct (serve_effect _ _ _ _ _ _ _ _ _ Hi H H0) as (q & pl & -> & Hq & _).
    apply Permutation_length in Hq. cbn in *. lia.
  - cbn. lia.
  - destruct (dispatch_starts _ _ _ _ _ _ _ Hi H) as (pr & q & -> & _ & ->). cbn. lia.
  - by destruct (dispatch_starts _ _ _ _ _ _ _ Hi H) as (pr & q & _ & ? & _).
  - destruct (runJob_effect s p stream t0 t1 now s') as (rsp & ->); [by eapply running_not_queued|done|].
    cbn. rewrite !length_app. cbn. lia.
  - destruct (finished_step _ _ _ _ _ _ _ _ Hl Hm H) as (q & st & -> & -> & _). cbn. lia.
  - rewrite !length_app. cbn. lia.
Qed.

(** ** Progress *)

(** A result of the announced size that reports no time. *)
Definition empty_result (n : Z) : msg_t :=
  Msg MSG_RESULT 0 0 0 0 0 0 0 0 0 0 (sizeof_msg + n) n (replicate (Z.to_nat n) 0).

Lemma empty_result_sent n : 0 ≤ n ≤ INT_MAX - sizeof_msg → msg_sent (empty_result n).
Proof.
  intros Hn. unfold msg_sent, msg_typed, empty_result, int_range, size_range, INT_MIN, INT_MAX,
    sizeof_msg, MSG_RESULT in *. rewrite length_msg_bytes.
  cbn [msgId clientId priority avg_wt resourceType predictedTimeMillis targetExecutionTimeMillis
    rids expDataSizeBytes dataSize paramsSize totalBytes dataBytes data].
  rewrite length_replicate. split_and!; lia.
Qed.

(** Any job thread can complete: a result of the announced size makes it return. *)
Lemma progress_run s p run1 pr run2 cl :
  let y := MkSys s p (run1 ++ pr :: run2) cl in live y → mild y → ∃ y', thread_drain y y'.
Proof.
  intros y Hl [Hn Hm]. pose proof (lv_inv _ Hl) as Hi.
  assert (Hreq : ∃ req id, fst pr = new_Job req id ∧ live_request req).
  { destruct (inv_clients _ _ Hi) as (dones & Hcl & _). pose proof (inv_requests _ _ Hi) as Hr.
    rewrite Forall_forall in Hr. apply Hr. rewrite Hcl. unfold active. cbn [running y].
    rewrite (fmap_app fst run1). csimpl. in_app. }
  destruct Hreq as (req & id & Hj & _ & _ & Hexp).
  assert (Hres : snd pr ≠ []).
  { pose proof (lv_equipped _ Hl) as He. unfold equipped in He. rewrite Forall_forall in He.
    apply He. cbn [running y]. in_app. }
  set (rsp := empty_result (expDataSizeBytes req)).
  eapply thread_drain_intro. split.
  - apply (step_run _ s p run1 pr run2 cl (msg_bytes rsp) 0 0 0). unfold runJob, runJob_request.
    destruct (snd pr) as [|r rs]; [done|]. cbn [Deque.front mbind outcome_bind].
    rewrite (runJob_reply_ret _ rsp); [|by apply empty_result_sent|done|by rewrite Hj].
    cbn [mbind outcome_bind]. apply runJob_finish_effect. by eapply running_not_queued.
  - split; [done|]. cbn [sched]. apply (update_job_Forall _ s); [done|].
    intros js E. by destruct (Hm _ _ E) as [_ ?].
Qed.

(** Recording a finished job succeeds at every time of the clock. *)
Lemma live_records s p run cl j q t u :
  live (MkSys s p run cl) → mild (MkSys s p run cl) → finishedQ s = j :: q → clock t → clock u →
  ∃ st, finishedLoop_iter s t u =
    Ret (j, update_job (set_stats (set_finishedQ s q) st) (jid j) (setFinished true)).
Proof.
  intros Hl Hm Hq Ht Hu. pose proof (live_stats _ Hl Hm) as Hok.
  pose proof (inv_started _ _ (lv_inv _ Hl)) as Hs. cbn [sched] in Hs. rewrite Hq in Hs.
  apply Forall_app in Hs as [_ Hs]. apply Forall_cons in Hs as [(js & Hjs & _) _].
  destruct (proj2 Hm _ _ Hjs) as [Hms _]. pose proof (lv_times _ Hl _ _ Hjs) as Hact.
  destruct (updateStatistics_ret (set_finishedQ s q) js t u (reported js)) as [s1 Hs1]; try done.
  pose proof Hs1 as Hs2. apply updateStatistics_stats in Hs2 as [st ->]. exists st.
  unfold finishedLoop_iter. rewrite Hq. simpl. rewrite Hjs. simpl. by rewrite Hs1.
Qed.

Lemma progress_finished s p run cl j q :
  let y := MkSys s p run cl in
  finishedQ s = j :: q → live y → mild y → ∃ y', thread_drain y y'.
Proof.
  intros y Hq Hl Hm. destruct (live_records s p run cl j q 0 0 Hl Hm Hq) as [st Hit]; [done..|].
  eapply thread_drain_intro. split; [by apply step_finished with 0 0 j|]. destruct Hm as [Hn Hm]. split; [done|].
  apply (update_job_Forall _ (set_stats (set_finishedQ s q) st)); [done|].
  intros js' E. exact (Hm _ _ E).
Qed.

(** The scheduling thread at its two later points. *)
Lemma progress_adapt s a run cl :
  let y := MkSys s (Adapting a) run cl in live y → mild y → ∃ y', thread_drain y y'.
Proof.
  intros y Hl Hm. destruct (live_adapts _ _ _ _ Hl Hm) as [E1 E2].
  eapply thread_drain_intro. split; [apply step_adapt; by rewrite E1, E2|exact Hm].
Qed.

Lemma progress_serve s a js run cl :
  let y := MkSys s (Serving a js) run cl in live y → mild y → ∃ y', thread_drain y y'.
Proof.
  intros y Hl Hm. destruct js as [|p js].
  - eapply thread_drain_intro. split; [apply (step_served _ s a run cl 0)|exact Hm].
  - pose proof (lv_inv _ Hl) as Hi. pose proof (lv_pool _ Hl) as Hp. cbn in Hp.
    apply Forall_app in Hp as [Hp _].
    destruct (serve_ready _ _ _ _ _ _ _ Hi Hp) as (s1 & s2 & H1 & H2).
    eapply thread_drain_intro. split; [by apply (step_serve _ s a p js run cl 0 s1 s2)|].
    destruct (serve_effect _ _ _ _ _ _ _ _ _ Hi H1 H2) as (q & pl & -> & _).
    destruct Hm as [Hn Hm]. split; [done|].
    apply (update_job_Forall _ (set_resPool (set_readyQ s q) pl)); [done|].
    intros js0 E. by destruct (Hm _ _ E) as [? [? _]].
Qed.

Lemma progress_dispatch s p run cl pr q :
  let y := MkSys s p run cl in runQ s = pr :: q → live y → mild y → ∃ y', thread_drain y y'.
Proof.
  intros y Hq Hl [Hn Hm]. pose proof (dispatch_head _ y pr q (lv_inv _ Hl) Hq) as Hd.
  eapply thread_drain_intro. split; [by apply step_dispatch|]. split; [done|].
  apply (update_job_Forall _ (set_runQ s q)); [done|]. intros js E. exact (Hm _ _ E).
Qed.

(** With no other job on its way, all resources are free. *)
Lemma progress_plan s cl :
  let y := MkSys s Idle [] cl in
  readyQ s ≠ [] → runQ s = [] → live y → mild y → ∃ y', thread_drain y y'.
Proof.
  intros y Hne Hq Hl Hm. pose proof (lv_inv _ Hl) as Hi.
  assert (Hpool : (0 < resPoolSize s)%nat).
  { pose proof (inv_count _ _ Hi) as Hc. pose proof (lv_provisioned _ Hl) as Hp.
    unfold all_resources in Hc. cbn [sched running y] in *. rewrite Hq, app_nil_r in Hc.
    unfold resPoolSize, Deque.size. cbn in *. lia. }
  destruct (inv_config _ _ Hi) as (Hcfg & _). cbn [sched y] in Hcfg.
  destruct (live_plans s [] cl Hl Hm Hne Hpool) as (a & s1 & Hrun & (pl & -> & _) & Hnj & _).
  eapply thread_drain_intro. split; [apply (step_plan _ s [] cl ManagedModeAlg a); try done|exact Hm].
  by rewrite Hcfg.
Qed.

(** The threads can step as long as a job is not finished. *)
Lemma progress_threads y :
  live y → mild y → pc y ≠ Idle ∨ active y ≠ [] → ∃ y', thread_drain y y'.
Proof.
  destruct y as [s p run cl]. intros Hl Hm Hact.
  destruct p as [|a|a js]; [|by eapply progress_adapt|by eapply progress_serve].
  destruct (finishedQ s) as [|j q] eqn:Ef; [|by eapply progress_finished].
  destruct run as [|pr run]; [|by apply (progress_run s Idle [] pr run cl)].
  destruct (runQ s) as [|pr q] eqn:Eq; [|by eapply progress_dispatch].
  destruct (decide (readyQ s = [])) as [Er|Er]; [|by apply progress_plan].
  unfold active in Hact. cbn [sched running System.pc] in Hact. rewrite Er, Eq, Ef in Hact.
  by destruct Hact.
Qed.

(** With all jobs finished, every client can be answered. *)
Lemma finished_clients y :
  live y → active y = [] → Forall (is_done (sched y)) (clients y).
Proof.
  intros Hl Ha. destruct (inv_clients _ _ (lv_inv _ Hl)) as (dones & Hp & Hd).
  rewrite Ha in Hp. by rewrite Hp.
Qed.

Lemma progress y : live y → mild y → clients y ≠ [] → ∃ y', drain y y'.
Proof.
  intros Hl Hm Hcl. destruct (decide (active y = [])) as [Ha|Ha].
  - pose proof (finished_clients y Hl Ha) as Hd. destruct y as [s p run [|j cl]]; [done|].
    apply Forall_cons in Hd as [(js & Hjs & Hfin) _].
    eexists. split; [by apply (step_reply _ s p run [] j cl js)|exact Hm].
  - destruct (progress_threads y Hl Hm) as (y' & Hy & _); [by right|by exists y'].
Qed.

Lemma drains y n z :
  live y → mild y → nsteps drain n y z → live z ∧ mild z ∧ remaining z + Z.of_nat n ≤ remaining y.
Proof.
  intros Hl Hm Hn. induction Hn as [y|n y w z Hs Hn IH]; [split_and!; [done..|lia]|].
  destruct (drain_live y w Hl Hm Hs) as [Hlw Hmw].
  pose proof (remaining_decreases y w Hl Hm Hs). destruct (IH Hlw Hmw) as (? & ? & ?).
  split_and!; try done. lia.
Qed.

Lemma drained_end k : ∀ y, remaining y ≤ Z.of_nat k → live y → mild y →
  ∃ z, rtc drain y z ∧ clients z = [].
Proof.
  induction k as [|k IH]; intros y Hk Hl Hm;
    (destruct (decide (clients y = [])) as [E|Hne]; [by exists y|]);
    destruct (progress y Hl Hm Hne) as [y' Hs]; destruct (drain_live y y' Hl Hm Hs) as [Hl' Hm'];
    pose proof (remaining_decreases y y' Hl Hm Hs).
  - pose proof (remaining_bounds y' Hl'). lia.
  - destruct (IH y' ltac:(lia) Hl' Hm') as (z & Hz & Hc). exists z. split; [|done].
    by eapply rtc_l.
Qed.



End liveness.

(** ** Witnesses *)

(** A client asks for 100 averages, predicted to take 500 ms. *)
Definition live_req : msg_t := Msg MSG_MOVING_AVG 1 0 0 0 500 0 0 400 0 0 69 0 [].
Definition live_job : Job := new_Job live_req 1.
Definition live_sched : Sched := snd (Run.from_ret (live_job, Run.s0) (submit Run.s0 0 live_req)).
Definition live_waiting : Sys := MkSys live_sched Idle [] [live_job].

Lemma live_waiting_reachable : live_reachable live_waiting.
Proof.
  apply live_next with Run.y0.
  - apply (live_init 8111 0 f_zero); [done|by split|]. vm_compute. reflexivity.
  - apply (step_submit live_request Run.s0 Idle [] [] 0 live_req).
    + repeat split; vm_compute; discriminate.
    + vm_compute. reflexivity.
  - split; [by vm_compute|].
    assert (jobStates (sched live_waiting) = {[1 := new_JobState 0]}) as -> by (by vm_compute).
    by apply map_Forall_singleton.
Qed.


