(* ===== verification/MsgTypes.v ===== *)
(** * Types on the wire

    The handlers of the three servers and the loop of a connection keep the
    fields of messages within their C++ types and the data within bytes:
    [TypedHandler] is what a connection asks of its handler, the three handlers
    are instances, and the loop of [connection::handle_read] is verified against
    the interface. *)

From S2P Require Import Prelude CxxFloat StdAlg ConcurrentDeque Message Server Client ClientFacts.
From S2P Require Import Dispatcher DispatcherFacts Job Executor ExecutorFacts Scheduler EndToEnd.
From S2P Require Import Algs Requests.

#[local] Open Scope Z_scope.

(** ** The interface *)

Definition wf_msg (m : msg_t) : Prop := msg_typed m ∧ Forall byte_ok (data m).

Class TypedHandler (h : msg_t → outcome (option msg_t)) : Prop :=
  typed_reply m r : wf_msg m → h m = Ret (Some r) → wf_msg r.

Definition sock_ok (sk : TcpSocket) : Prop :=
  Forall (Forall byte_ok) (pieces sk) ∧ Forall byte_ok (written sk).

(** The fields of a message that is written out. *)
#[local] Ltac simpl_fields :=
  cbn [header_msg set_rids set_avg_wt msgId clientId priority avg_wt resourceType predictedTimeMillis
    targetExecutionTimeMillis rids expDataSizeBytes dataSize paramsSize totalBytes dataBytes].

(** ** Memory *)

Lemma read_bytes_ok off n d bs :
  Forall byte_ok d → read_bytes off n d = Ret bs → Forall byte_ok bs.
Proof.
  intros Hd. unfold read_bytes. case_match; [|done]. intros [= <-]. by apply Forall_slice.
Qed.

Lemma i32_int_range z : int_range (i32 z).
Proof. pose proof (swrap_range 32 z ltac:(lia)). unfold int_range, INT_MIN, INT_MAX. lia. Qed.

Lemma u64_size_range z : size_range (u64 z).
Proof. apply wrap_range. lia. Qed.

Lemma le_val_size_range bs : Forall byte_ok bs → (length bs ≤ 8)%nat → size_range (le_val bs).
Proof.
  intros Hb Hl. pose proof (le_val_range bs Hb) as Hr. unfold size_range.
  assert (2 ^ (8 * Z.of_nat (length bs)) ≤ 2 ^ 64) by (apply Z.pow_le_mono_r; lia). lia.
Qed.

#[local] Hint Resolve i32_int_range u64_size_range : hydrogen.

Lemma msg_of_bytes_wf b m : Forall byte_ok b → msg_of_bytes b = Ret m → wf_msg m.
Proof.
  intros Hb. unfold msg_of_bytes. case_match; [done|]. intros [= <-].
  assert (Hs : ∀ off, size_range (le_val (slice off 8 b))).
  { intros off. apply le_val_size_range; [by apply Forall_slice|].
    unfold slice. rewrite length_take. lia. }
  split; [|by apply Forall_drop]. unfold msg_typed.
  simpl_fields.
  split_and!; auto with hydrogen; pose proof (swrap_range 8 (le_val (slice 28 1 b))); simpl in *; lia.
Qed.

Lemma msg_bytes_ok m : wf_msg m → Forall byte_ok (msg_bytes m).
Proof.
  intros [_ Hd]. unfold msg_bytes, header_bytes. rewrite !Forall_app.
  split_and!; auto with hydrogen.
Qed.

Lemma zero_msg_wf d : Forall byte_ok d → wf_msg (Msg 0 0 0 0 0 0 0 0 0 0 0 0 0 d).
Proof.
  intros Hd. split; [|done]. unfold msg_typed, int_range, size_range. by vm_compute.
Qed.

Lemma calloc_msg_wf n m : calloc_msg n = Ret m → wf_msg m.
Proof.
  unfold calloc_msg, calloc. intros H. repeat case_match; simplify_eq.
  apply zero_msg_wf, Forall_drop, Forall_replicate. done.
Qed.

Lemma header_msg_wf id : int_range id → wf_msg (header_msg id).
Proof.
  intros Hid. split; [|constructor]. unfold msg_typed.
  simpl_fields.
  split; [exact Hid|]. unfold int_range, size_range. by vm_compute.
Qed.

(** ** The connection *)

Lemma read_some_ok n sk bs sk' : sock_ok sk → read_some n sk = Ret (bs, sk') →
  Forall byte_ok bs ∧ sock_ok sk'.
Proof.
  intros [Hp Hw]. unfold read_some. destruct (pieces sk) as [|p ps]; [done|].
  apply Forall_cons in Hp as [Hp Hps]. intros [= <- <-].
  split; [by apply Forall_take|]. split; [|done]. cbn.
  case_match; [constructor; [by apply Forall_drop|done]|done].
Qed.

Lemma read_pieces_ok n ps bs ps' :
  Forall (Forall byte_ok) ps → read_pieces n ps = Ret (bs, ps') →
  Forall byte_ok bs ∧ Forall (Forall byte_ok) ps'.
Proof.
  intros Hps. revert n bs ps'. induction Hps as [|p ps Hp Hps IH]; intros [|n] bs ps'; cbn [read_pieces].
  - intros [= <- <-]. by split.
  - done.
  - intros [= <- <-]. split; [done|by constructor].
  - case_match.
    + intros [= <- <-]. split; [by apply Forall_take|constructor; [by apply Forall_drop|done]].
    + destruct (read_pieces (S n - length p) ps) as [[bs1 ps1]| | | |] eqn:E; try done.
      cbn [mbind outcome_bind]. intros [= <- <-]. destruct (IH _ _ _ E) as [H1 H2].
      split; [by apply Forall_app|done].
Qed.

Lemma overlay_ok p buf : Forall byte_ok p → Forall byte_ok buf → Forall byte_ok (overlay p buf).
Proof. intros. unfold overlay. apply Forall_app. auto using Forall_drop. Qed.

Lemma full_request_ok buf bt sk m sk' :
  Forall byte_ok buf → sock_ok sk → full_request buf bt sk = Ret (m, sk') →
  wf_msg m ∧ sock_ok sk'.
Proof.
  intros Hb [Hp Hw] H. unfold full_request in H.
  apply bind_ret_inv in H as (request & Hr & H). case_match; [|].
  2: { simplify_eq. split; [by apply (msg_of_bytes_wf buf)|done]. }
  unfold calloc in H. repeat case_match; try done.
  apply bind_ret_inv in H as (head & Hh & H). apply bind_ret_inv in H as (full & Hf & H).
  apply bind_ret_inv in H as ([tail sk1] & Ht & H). apply bind_ret_inv in H as (full' & Hf' & H).
  apply bind_ret_inv in H as (fr & Hfr & H). simplify_eq.
  unfold read_exact in Ht. apply bind_ret_inv in Ht as ([bs ps] & Hps & Ht). simplify_eq.
  destruct (read_pieces_ok _ _ _ _ Hp Hps) as [Htl Hps'].
  split; [|by split].
  apply (msg_of_bytes_wf full'); [|done].
  refine (write_bytes_ok _ _ _ _ Htl _ Hf').
  refine (write_bytes_ok _ _ _ _ (read_bytes_ok _ _ _ _ Hb Hh) _ Hf).
  by apply Forall_replicate.
Qed.

Lemma write_reply_ok r buf sk buf' sk' :
  wf_msg r → Forall byte_ok buf → sock_ok sk → write_reply r buf sk = Ret (buf', sk') →
  Forall byte_ok buf' ∧ sock_ok sk'.
Proof.
  intros Hr Hb Hs H. unfold write_reply in H. apply bind_ret_inv in H as (bs & Hbs & H).
  assert (Hbs' : Forall byte_ok bs) by (eapply read_bytes_ok; [by apply msg_bytes_ok|done]).
  unfold write_socket in H. destruct (peer_open sk); [|by simplify_eq].
  assert (Hs1 : sock_ok (MkSocket (pieces sk) (written sk ++ bs) true)).
  { destruct Hs. split; [done|]. by apply Forall_app. }
  destruct (read_some _ _) as [[p sk1]| | | |] eqn:E; try (by simplify_eq).
  destruct (read_some_ok _ _ _ _ Hs1 E) as [Hp Hs2]. simplify_eq.
  split; [by apply overlay_ok|done].
Qed.

Section connection.
Context (h : msg_t → outcome (option msg_t)) `{!TypedHandler h}.

Lemma handle_read_loop_ok fuel : ∀ buf bt sk m sk',
  Forall byte_ok buf → sock_ok sk → handle_read_loop h fuel buf bt sk = Ret (m, sk') → sock_ok sk'.
Proof.
  induction fuel as [|fuel IH]; intros buf bt sk m sk' Hb Hs H; [done|]. cbn [handle_read_loop] in H.
  apply bind_ret_inv in H as ([fr sk1] & Hf & H).
  destruct (full_request_ok _ _ _ _ _ Hb Hs Hf) as [Hfr Hs1].
  apply bind_ret_inv in H as (reply & Hr & H).
  apply bind_ret_inv in H as ([buf2 sk2] & H2 & H).
  assert (Forall byte_ok buf2 ∧ sock_ok sk2) as [Hb2 Hs2].
  { destruct reply as [r|]; [|by simplify_eq].
    eapply write_reply_ok; [exact (typed_reply fr r Hfr Hr)|exact Hb|exact Hs1|exact H2]. }
  apply bind_ret_inv in H as (rq & _ & H). case_match; [by simplify_eq|].
  by eapply IH.
Qed.

Lemma handle_read_ok fuel buf bt sk b sk' :
  Forall byte_ok buf → sock_ok sk → handle_read h fuel buf bt sk = Ret (b, sk') → sock_ok sk'.
Proof.
  intros Hb Hs H. unfold handle_read in H.
  apply bind_ret_inv in H as ([rq sk1] & H1 & H). simplify_eq.
  eapply handle_read_loop_ok in H1 as [? ?]; [|done..]. by split.
Qed.

Lemma connection_start_ok fuel buf sk b sk' :
  Forall byte_ok buf → sock_ok sk → connection_start h fuel buf sk = Ret (b, sk') → sock_ok sk'.
Proof.
  intros Hb Hs H. unfold connection_start in H.
  destruct (read_some (length buf) sk) as [[p sk1]| | | |] eqn:E;
    try exact (handle_read_ok _ _ _ _ _ _ Hb Hs H).
  destruct (read_some_ok _ _ _ _ Hs E) as [Hp Hs1].
  refine (handle_read_ok _ _ _ _ _ _ _ Hs1 H). by apply overlay_ok.
Qed.

End connection.

(** ** The handlers *)

Lemma set_rids_wf m v : -128 ≤ v < 128 → wf_msg m → wf_msg (set_rids m v).
Proof.
  intros Hv [Ht Hd]. split; [|done]. unfold msg_typed in *. simpl_fields. tauto.
Qed.

Lemma set_avg_wt_wf m v : int_range v → wf_msg m → wf_msg (set_avg_wt m v).
Proof.
  intros Hv [Ht Hd]. split; [|done]. unfold msg_typed in *. simpl_fields. tauto.
Qed.

Lemma handle_request_wf lib m elapsed res r :
  wf_msg m → handle_request lib m elapsed res = Ret r → wf_msg r.
Proof.
  intros [Hty _] H. unfold handle_request in H. repeat case_match.
  - unfold handle_moving_avg in H. inv_ret.
    split; cbn [data].
    + unfold msg_typed.
      simpl_fields.
      split_and!; auto with hydrogen; try apply Hty; unfold int_range, size_range, INT_MIN, INT_MAX,
        MSG_RESULT; lia.
    + eapply write_bytes_ok; [| |done].
      * eapply read_bytes_ok; [apply ints_bytes_ok|done].
      * by eapply calloc_msg_wf.
  - unfold handle_option_price in H. inv_ret. split; cbn [data].
    + unfold msg_typed, int_range, size_range. by vm_compute.
    + eapply write_bytes_ok; [apply le_bytes_ok| |done]. by eapply calloc_msg_wf.
  - injection H as <-. by apply header_msg_wf.
Qed.

#[export] Instance dispatcher_typed lib elapsed res : TypedHandler (dispatcher_handler lib elapsed res).
Proof.
  intros m r Hm H. unfold dispatcher_handler in H. apply bind_ret_inv in H as (x & Hx & H).
  simplify_eq. by eapply handle_request_wf.
Qed.

Lemma client_read_ok s n bs rest :
  Forall byte_ok s → client_read s n = Ret (bs, rest) → Forall byte_ok bs ∧ Forall byte_ok rest.
Proof.
  intros Hs. unfold client_read. case_match; [done|]. intros [= <- <-].
  split; [by apply Forall_take|by apply Forall_drop].
Qed.

Lemma await_result_wf fuel n : ∀ s m rest,
  Forall byte_ok s → await_result fuel n s = Ret (m, rest) → wf_msg m.
Proof.
  induction fuel as [|fuel IH]; intros s m rest Hs H; [done|]. cbn [await_result] in H.
  apply bind_ret_inv in H as ([b s1] & H1 & H). apply bind_ret_inv in H as (r & Hr & H).
  destruct (client_read_ok _ _ _ _ Hs H1) as [Hb Hs1].
  case_match; [|exact (IH _ _ _ Hs1 H)].
  injection H as <- _. exact (msg_of_bytes_wf _ _ Hb Hr).
Qed.

Lemma fill_response_wf rsp r0 r :
  wf_msg rsp → wf_msg r0 → fill_response (Some rsp) r0 = Ret r → wf_msg r.
Proof.
  intros [Ht Hd] [Ht0 Hd0] H. unfold fill_response in H. inv_ret. split; cbn [data].
  - assert (size_range 0) by (unfold size_range; lia). unfold msg_typed in *. simpl_fields. tauto.
  - eapply write_bytes_ok; [|exact Hd0|done]. eapply read_bytes_ok; [exact Hd|done].
Qed.

Lemma cut_ok k bs : Forall byte_ok bs → Forall (Forall byte_ok) (cut k bs).
Proof.
  intros Hb. unfold cut. case_match; repeat constructor;
    auto using Forall_take, Forall_drop.
Qed.

Lemma answer_stream_ok h `{!TypedHandler h} k buf bs s :
  Forall byte_ok buf → Forall byte_ok bs → answer_stream h k buf bs = Ret s → Forall byte_ok s.
Proof.
  intros Hb Hs H. unfold answer_stream in H. apply bind_ret_inv in H as ([b sk] & H1 & H).
  injection H as <-. refine (proj2 (connection_start_ok h _ _ _ _ _ Hb _ H1)).
  split; [|constructor]. apply Forall_app. split; [by apply cut_ok|].
  apply Forall_singleton, msg_bytes_ok. by apply header_msg_wf.
Qed.

Lemma run_request_wf lib elapsed res k buf rs id request r0 r :
  Forall byte_ok buf → wf_msg request → wf_msg r0 →
  run_request lib elapsed res k buf rs id request r0 = Ret r → wf_msg r.
Proof.
  intros Hb Hrq Hr0 H. unfold run_request in H.
  apply bind_ret_inv in H as ([[port name] req] & Hreq & H).
  apply bind_ret_inv in H as (c & Hc & H). apply bind_ret_inv in H as (s & Hs & H).
  apply bind_ret_inv in H as (stream & Hst & H). apply bind_ret_inv in H as ([rsp rest] & Hrp & H).
  assert (Hwf : wf_msg req).
  { unfold runJob_request in Hreq. apply bind_ret_inv in Hreq as (r1 & _ & Hreq). simplify_eq.
    apply set_rids_wf; [apply pack_rids_range|done]. }
  assert (Hout : Forall byte_ok (outgoing s)).
  { unfold send in Hc. cbn [with_socket socket mbind outcome_bind] in Hc.
    apply bind_ret_inv in Hc as (bs & Hbs & Hc). simplify_eq. cbn in Hs. simplify_eq. cbn.
    eapply read_bytes_ok; [by apply msg_bytes_ok|done]. }
  assert (Hstream : Forall byte_ok stream) by (refine (answer_stream_ok _ _ _ _ _ Hb Hout Hst)).
  eapply fill_response_wf; [|exact Hr0|exact H]. unfold runJob_reply in Hrp.
  case_match; [|done]. exact (await_result_wf _ _ _ _ _ Hstream Hrp).
Qed.

Lemma scheduler_typed s now lib elapsed res k buf rs id :
  Forall byte_ok buf → TypedHandler (scheduler_handler s now lib elapsed res k buf rs id).
Proof.
  intros Hb m r Hm H. unfold scheduler_handler in H. case_match.
  - apply bind_ret_inv in H as (x & _ & H). done.
  - apply bind_ret_inv in H as (r0 & Hr0 & H). apply bind_ret_inv in H as (r1 & Hr1 & H).
    injection H as <-. exact (run_request_wf _ _ _ _ _ _ _ _ _ _ Hb Hm (calloc_msg_wf _ _ Hr0) Hr1).
  - apply bind_ret_inv in H as (r0 & Hr0 & H). apply bind_ret_inv in H as (r1 & Hr1 & H).
    apply bind_ret_inv in H as (wt & Hwt & H). injection H as <-.
    apply set_avg_wt_wf; [by eapply avg_wt_millis_range|].
    exact (run_request_wf _ _ _ _ _ _ _ _ _ _ Hb Hm (calloc_msg_wf _ _ Hr0) Hr1).
  - injection H as <-. by apply header_msg_wf.
Qed.

Lemma await_printed_result fuel n : ∀ s r,
  await_printed fuel n s = Ret r → await_result fuel n s = Ret r.
Proof.
  induction fuel as [|fuel IH]; intros s r H; [done|]. cbn [await_printed await_result] in *.
  apply bind_ret_inv in H as ([b s1] & -> & H). cbn [mbind outcome_bind].
  apply bind_ret_inv in H as (m & -> & H). cbn [mbind outcome_bind].
  apply bind_ret_inv in H as (x & _ & H). case_match; [done|]. by apply IH.
Qed.

Lemma forward_with_wf await network port host m n r c :
  (∀ k n s x, await k n s = Ret x → await_result k n s = Ret x) →
  (∀ p u x, network p u = Some x → Forall byte_ok (incoming x)) →
  forward_with network await port host m n = Ret (r, c) → wf_msg r.
Proof.
  intros Haw Hnet H. unfold forward_with in H. case_match; [|done].
  apply bind_ret_inv in H as (c1 & Hc1 & H). apply bind_ret_inv in H as (s & Hs & H).
  apply bind_ret_inv in H as ([rsp rest] & Hr & H). apply bind_ret_inv in H as (c2 & _ & H).
  simplify_eq. eapply await_result_wf; [|exact (Haw _ _ _ _ Hr)].
  unfold send, start, new_Client in Hc1. cbn [cport cname] in Hc1. unfold with_socket in Hc1.
  cbn [socket] in Hc1. destruct (network port host) as [x|] eqn:E; [|done].
  cbn [mbind outcome_bind] in Hc1. apply bind_ret_inv in Hc1 as (bs & _ & Hc1). simplify_eq.
  cbn in Hs. simplify_eq. cbn. by eapply Hnet.
Qed.

Lemma executor_typed pow network e :
  (∀ p u x, network p u = Some x → Forall byte_ok (incoming x)) →
  TypedHandler (executor_handler pow network e).
Proof.
  intros Hnet m r Hm H. unfold executor_handler in H.
  apply bind_ret_inv in H as ([[reply e'] c] & He & H). simplify_eq.
  unfold executor_handle in He. apply bind_ret_inv in He as (id & _ & He).
  repeat (case_match; [simplify_eq; by apply header_msg_wf || done|]).
  case_match; [|case_match].
  - apply bind_ret_inv in He as (c1 & _ & He). simplify_eq. by apply header_msg_wf.
  - apply bind_ret_inv in He as (p & _ & He). apply bind_ret_inv in He as (q & _ & He).
    apply bind_ret_inv in He as (t & _ & He). apply bind_ret_inv in He as ([imp time] & _ & He).
    apply bind_ret_inv in He as (rt & _ & He). apply bind_ret_inv in He as ([rsp c1] & Hr & He).
    simplify_eq. unfold runImp in Hr. apply bind_ret_inv in Hr as (rs & _ & Hr).
    unfold dispatch, forward in Hr. by eapply forward_with_wf.
  - apply bind_ret_inv in He as ([rsp c1] & Hr & He). simplify_eq. unfold proxy in Hr.
    eapply forward_with_wf; [|done|exact Hr]. apply await_printed_result.
Qed.

(** ** The servers *)

(** The handlers of the programs: the dispatcher's, the scheduler's (whose job
    threads read the dispatcher's answer into the buffer [buf]) and the
    executor's (whose peers send bytes). *)
Inductive server_handler : (msg_t → outcome (option msg_t)) → Prop :=
| dispatcher_server lib elapsed res : server_handler (dispatcher_handler lib elapsed res)
| scheduler_server s now lib elapsed res k buf rs id :
    Forall byte_ok buf →
    server_handler (scheduler_handler s now lib elapsed res k buf rs id)
| executor_server pow network e :
    (∀ port host c, network port host = Some c → Forall byte_ok (incoming c)) →
    server_handler (executor_handler pow network e).

Lemma server_typed h : server_handler h → TypedHandler h.
Proof.
  intros []; [apply dispatcher_typed|by apply scheduler_typed|by apply executor_typed].
Qed.


(** ** Witness *)


(** The first read of a connection has to deliver the header: when its first piece
    is shorter, the missing fields are read as zeros and the dispatcher divides
    by a width of zero. *)
Example split_header :
  connection_start (dispatcher_handler None 7 0) 2 (replicate 128 0)
    (MkSocket (cut 40 (msg_bytes (avg_request 3 ramp 1)) ++ [msg_bytes msg_done]) [] true)
  = Undef DivByZero.
Proof. vm_compute. reflexivity. Qed.
