(* ===== verification/Programs.v ===== *)
(** * The programs: dispatcher/main.cxx, Dispatcher.hpp, scheduler/main.cxx

    What [main] of the dispatcher and of the scheduler sets up from the command
    line, and that the dispatcher's program ends when a client tells its server
    to (the executor's [main] is in ModelFiles.v). *)

From S2P Require Import Prelude CxxFloat Message Server ServerLife Client ClientFacts Dispatcher Job.
From S2P Require Import Scheduler EndToEnd System Requests.

#[local] Open Scope Z_scope.

(** [NUM_THREADS] of Scheduler.hpp and of Executor.hpp *)
Definition scheduler_threads : nat := 4.
Definition executor_threads : nat := 10.

(** [Dispatcher::Dispatcher]: a server of four threads on the port. *)
Definition new_Dispatcher (port : Z) : outcome (Z * Srv) := srv ← new_server 4; Ret (port, srv).

(** [argv] includes the program's name; an exit code, or the port and the server that [run]s. *)
Definition dispatcher_main (argv : list string) : outcome (Z + Z * Srv) :=
  match argv with
  | _ :: port :: _ =>
      portnumber ← atoi port;
      d ← new_Dispatcher portnumber;
      Ret (inr d)
  | _ => Ret (inl 1)
  end.

(** An exit code, or the scheduler, its port and its server before [start]. *)
Definition scheduler_main (argv : list string) (now : Z) (busy : float64)
    : outcome (Z + Sched * string * Srv) :=
  match argv with
  | _ :: port :: dispatcher :: _ =>
      dispatcherPortNumber ← atoi dispatcher;
      srv ← new_server scheduler_threads;
      s ← main_Scheduler dispatcherPortNumber now busy;
      Ret (inr (s, port, srv))
  | _ => Ret (inl 1)
  end.

(** [Scheduler::start]: the three threads at the beginning of their loops, no job
    thread and no waiting handler; [run] serves the connections. *)
Definition Scheduler_start (s : Sched) : Sys := MkSys s Idle [] [].

(** ** Lemmas *)

Lemma new_server_ret n : ∃ srv, new_server n = Ret srv ∧ thread_pool_size_ srv = n ∧
  accepting srv = Some 0%nat.
Proof. by eexists. Qed.

(** The scheduler's program reaches the initial state of the running scheduler. *)
Theorem scheduler_main_initial argv now busy s port srv :
  scheduler_main argv now busy = Ret (inr (s, port, srv)) → initial (Scheduler_start s).
Proof.
  intros H. destruct argv as [|? [|p [|dp argv]]]; try done. cbn [scheduler_main] in H.
  apply bind_ret_inv in H as (dport & _ & H). apply bind_ret_inv in H as (srv' & _ & H).
  apply bind_ret_inv in H as (s' & Hs & H). simplify_eq. by exists dport, now, busy, s.
Qed.

(** The dispatcher's program: with a port it runs a server of four threads, and
    the terminating message on a connection can end it, in whatever state the
    DFE library is; without a port it prints its usage and returns 1. *)
Theorem dispatcher_program lib elapsed res name ports port p id buf :
  atoi port = Ret p → int_range id → (69 ≤ length buf)%nat →
  (∃ srv, dispatcher_main (name :: port :: ports) = Ret (inr (p, srv)) ∧ thread_pool_size_ srv = 4%nat) ∧
  dispatcher_main [name] = Ret (inl 1) ∧
  connection_start (dispatcher_handler lib elapsed res) 1 buf
    (MkSocket [msg_bytes (term_request id)] [] true) =
    Ret (true, MkSocket [] (msg_bytes msg_empty) false) ∧
  ∃ st, ServerLife.reachable (λ _, dispatcher_handler lib elapsed res) (λ _, buf) st ∧ run_returned st.
Proof.
  intros Hp Hid Hb. split.
  { destruct (new_server_ret 4) as (srv & Hs & Ht & _). exists srv. split; [|done].
    cbn [dispatcher_main]. rewrite Hp. cbn [mbind outcome_bind]. unfold new_Dispatcher.
    by rewrite Hs. }
  split; [done|].
  assert (Hc : connection_start (dispatcher_handler lib elapsed res) 1 buf
    (MkSocket [msg_bytes (term_request id)] [] true) =
    Ret (true, MkSocket [] (msg_bytes msg_empty) false)).
  { apply (connection_terminates _ id buf (Some msg_empty)); try done.
    intros r [= <-]. split; [|by vm_compute]. unfold msg_typed, int_range, size_range. by vm_compute. }
  split; [exact Hc|]. eapply (raise_ends_server _ _ 4); [lia|]. exists 1%nat. by split.
Qed.

(** ** Examples *)

Example programs_run :
  is_ret (dispatcher_main ["dispatcher"; "8122"]%string) = true ∧
  scheduler_main ["scheduler"; "8121"]%string 0 f_zero = Ret (inl 1) ∧
  match scheduler_main ["scheduler"; "8121"; "8122"]%string 0 f_zero with
  | Ret (inr (s, port, srv)) => dispatcherPortNumber s = 8122 ∧ port = "8121"%string ∧
      thread_pool_size_ srv = 4%nat ∧ length (resPool s) = 1%nat
  | _ => False
  end.
Proof. by vm_compute. Qed.
