(* ===== verification/Tests.v ===== *)
(** * The repository's tests: test/*.cpp

    The programs of the test directory as functions of the connections that their
    calls get, and what they return when the scheduler or the dispatcher of the
    other files is at the other end.  The reference functions [mavg_threept_exp]
    and [mavg_check] of TestLib.cpp are in DispatcherFacts. *)

From S2P Require Import Prelude CxxFloat ConcurrentDeque Message Server Client ClientFacts Executor.
From S2P Require Import Dispatcher DispatcherFacts Job Scheduler EndToEnd Requests.

#[local] Open Scope Z_scope.

(** ** TestLib *)

Definition dispatcherPort : Z := 8113.
Definition schedulerPort : Z := 8112.
Definition mavg_data_150K : Z := 384 * 100.
Definition mavg_data_size : Z := 384 * 100 * 10.
Definition mavg_data_15M : Z := 384 * 100 * 100.
Definition mavg_data_150M : Z := 384 * 100 * 100 * 10.

(** The elements 1, 2, ..., n. *)
Definition mavg_data (n : nat) : list Z := (λ i, Z.of_nat i + 1) <$> seq 0 n.

(** The buffer of a server's connection. *)
Definition buffer_size : Z := 192 * 1024 * 1024.

(** The connection that the [k]th call of a program gets. *)
Definition networks : Type := nat → Z → string → option Conn.

(** ** Moving averages *)

(** The loop of the tests: [t] calls, each with a zeroed array of [n] ints, whose
    results are compared with [exp]. *)
Fixpoint mavg_requests (call : nat → list Z → outcome (list Z * Client)) (n : nat) (exp : list Z)
    (k t : nat) (status : bool) : outcome bool :=
  match t with
  | O => Ret status
  | S t =>
      '(out, _) ← call k (replicate (4 * n) 0);
      mavg_requests call n exp (S k) t (status && mavg_check n (bytes_ints n out) exp)
  end.

Definition exit_code (status : bool) : Z := if status then 0 else 1.

(** MovingAverageOneDfe.cpp and its small, medium and large versions, which differ
    in [n]. *)
Definition MovingAverageOneDfe_main (nets : networks) (env : option string) (n : Z) : outcome Z :=
  let data := mavg_data (Z.to_nat n) in
  let exp := mavg_threept_exp (Z.to_nat n) data in
  status ← mavg_requests (λ k out, movingAverage (nets k) env n 3 data out) (Z.to_nat n) exp 0 100 true;
  Ret (exit_code status).

(** MovingAverageOneDfePriority.cpp: ten calls for the client of the command line. *)
Definition priority_calls (nets : networks) (cid n : Z) : outcome Z :=
  let data := mavg_data (Z.to_nat n) in
  let exp := mavg_threept_exp (Z.to_nat n) data in
  status ← mavg_requests (λ k out, movingAverage_p (nets k) n 3 data out cid) (Z.to_nat n) exp 0 10 true;
  Ret (exit_code status).

Definition MovingAverageOneDfePriority_main (nets : networks) (argv : list string) : outcome Z :=
  match argv with
  | [_; arg] => cid ← atoi arg; priority_calls nets cid mavg_data_size
  | _ => Ret 1
  end.

(** *** Several users *)

(** A child of the MultiUserSingleJobType programs. *)
Definition MultiUser_child (nets : networks) (env : option string) (n : Z) (numJobs : nat)
    : outcome Z :=
  let data := mavg_data (Z.to_nat n) in
  let exp := mavg_threept_exp (Z.to_nat n) data in
  correct ← mavg_requests (λ k out, movingAverage (nets k) env n 3 data out)
    (Z.to_nat n) exp 0 numJobs true;
  Ret (exit_code correct).

(** What [wait] stores for a child: its exit code in the second byte, or the signal
    of [abort] when an exception leaves its [main]. *)
Definition wait_status (child : outcome Z) : outcome Z :=
  match child with
  | Ret code => Ret (code mod 256 * 256)
  | Throw _ => Ret 6
  | Undef u => Undef u
  | Blocked => Blocked
  | OutOfFuel => OutOfFuel
  end.

(** The [p] waits of the parent; the statuses are those of the children that were
    forked, and a [wait] without a child fails and leaves [st] at 0. *)
Fixpoint wait_all (p : nat) (children : list (outcome Z)) (ok : bool) : outcome bool :=
  match p with
  | O => Ret ok
  | S p =>
      st ← match children with [] => Ret 0 | c :: _ => wait_status c end;
      wait_all p (tail children) (ok && (st =? 0))
  end.

(** MultiUserSingleJobType.cpp and its small and large versions: [forks] has the
    connections of each child, or [None] where [fork] fails. *)
Definition MultiUser_main (forks : list (option networks)) (env : option string) (numJobs : nat)
    : outcome Z :=
  let children := (λ nets, MultiUser_child nets env mavg_data_size numJobs) <$> omap id forks in
  ok ← wait_all (length forks) children true;
  Ret (exit_code ok).

(** ** The other programs *)

(** ConcurrentDequeTest.cpp *)
Definition ConcurrentDequeTest_main : outcome Z :=
  let cd := Deque.push_back 2 (Deque.push_back 1 []) in
  let cd := Deque.push_front 4 (Deque.push_front 3 cd) in
  '(last, cd) ← Deque.wait_pop_back cd;
  Ret (exit_code ((last =? 2) && (Deque.size cd =? 3)%nat)).

(** DispatcherTest.cpp: one request to the dispatcher's server. *)
Definition dispatcher_request (network : Z → string → option Conn) (n : Z) (a : list Z)
    : outcome (list Z * Client) :=
  msg ← msg_moving_avg n 3 a;
  _ ← read_bytes 0 (totalBytes msg) (msg_bytes msg);
  exchange network dispatcherPort msg (replicate (4 * Z.to_nat n) 0) (i32 (u64 (n * sizeof_int))).

Definition dispatcher_check (network : Z → string → option Conn) (n : Z) : outcome Z :=
  let a := mavg_data (Z.to_nat n) in
  let exp := mavg_threept_exp (Z.to_nat n) a in
  match dispatcher_request network n a with
  | Throw _ => Ret 1
  | Ret (out, _) => Ret (exit_code (mavg_check (Z.to_nat n) (bytes_ints (Z.to_nat n) out) exp))
  | Undef u => Undef u
  | Blocked => Blocked
  | OutOfFuel => OutOfFuel
  end.

Definition DispatcherTest_main (network : Z → string → option Conn) : outcome Z :=
  dispatcher_check network mavg_data_size.

(** The bits of the doubles 0.01, 0.02, 0.05 and 10. *)
Definition bits_0_01 : Z := 0x3F847AE147AE147B.
Definition bits_0_02 : Z := 0x3F947AE147AE147B.
Definition bits_0_05 : Z := 0x3FA999999999999A.
Definition bits_10 : Z := 0x4024000000000000.

(** OptionPricingTest.cpp: after the first price it prints a [double] with [%d]. *)
Definition OptionPricingTest_main (nets : networks) (env : option string) : outcome Z :=
  '(_, _) ← optionPricing_call (nets 0%nat) env bits_0_01 bits_0_02 bits_0_05 200 50 20 bits_10
    (replicate 8 0);
  Undef BadFormat.

(** OptionPricingJloTest.cpp *)
Definition perfModel : list Z := [5910; 5910; 11781; 11781; 17712; 17712; 11781; 11781; 5910; 5910].
Definition jlo_paths : list Z := [1; 1; 2; 2; 3; 3; 2; 2; 1; 1].
Definition jlo_target : list Z :=
  [5000; 5000; 5000; 5000; 16000; 16000; 11000; 11000; 5000; 5000].

Fixpoint jlo_requests (nets : networks) (env : option string) (i requestCount : nat) : outcome () :=
  match requestCount with
  | O => Ret ()
  | S requestCount =>
      request ← vec_at jlo_paths i;
      predicted ← vec_at perfModel i;
      target ← vec_at jlo_target i;
      '(_, _) ← optionPricingJlo (nets i) env bits_0_01 bits_0_02 bits_0_05 12 50
        (1000000 * request) bits_10 (replicate 8 0) predicted target;
      jlo_requests nets env (S i) requestCount
  end.

Definition OptionPricingJloTest_main (nets : networks) (env : option string) : outcome Z :=
  _ ← jlo_requests nets env 0 2;
  Ret (exit_code true).

(** TerminateServer.cpp *)
Definition TerminateServer_main (network : Z → string → option Conn) (env : option string)
    : outcome Z :=
  _ ← TerminateServer network env;
  Ret 0.

(** ** Lemmas *)

Lemma length_mavg_data n : length (mavg_data n) = n.
Proof. unfold mavg_data. by rewrite length_fmap, length_seq. Qed.

Lemma mavg_data_ints n : Z.of_nat n ≤ INT_MAX → Forall int_range (mavg_data n).
Proof.
  intros Hn. unfold mavg_data. apply Forall_fmap, Forall_seq. intros i Hi. simpl.
  unfold int_range, INT_MIN. lia.
Qed.

Lemma slice_mavg_data n i k :
  (i + k ≤ n)%nat → slice i k (mavg_data n) = (λ j, Z.of_nat j + 1) <$> seq i k.
Proof.
  intros Hik. unfold slice, mavg_data. rewrite <-fmap_drop, <-fmap_take. f_equal.
  rewrite drop_seq, take_seq. f_equal; lia.
Qed.

Lemma mavg_data_windows n : 3 * (Z.of_nat n + 1) ≤ INT_MAX → windows_ok 3 (mavg_data n).
Proof.
  intros Hn i k Hi Hk. rewrite length_mavg_data in Hi.
  rewrite !slice_mavg_data by lia. unfold INT_MIN.
  destruct k as [|[|[|[|k]]]]; [..|lia]; cbn; lia.
Qed.

(** A stream that the scheduler's server writes for the average request of the
    tests: its job runs on some resources, and the dispatcher's server answers it. *)
Inductive served (n : nat) (cid : Z) : list Z → Prop :=
| served_by s now elapsed res kc ks bufc bufs r rs jobid wt stream :
    (69 ≤ kc)%nat → (69 ≤ ks)%nat → avg_wt_millis s = Ret wt →
    Z.of_nat (length bufc) = buffer_size → Z.of_nat (length bufs) = buffer_size →
    answer_stream (scheduler_handler s now None elapsed res ks bufs (r :: rs) jobid) kc bufc
      (msg_bytes (avg_request 3 (mavg_data n) cid)) = Ret stream →
    served n cid stream.

(** The sizes whose requests fit the buffers. *)
Definition test_size (n : nat) : Prop := 3 ≤ Z.of_nat n ∧ 77 + 4 * Z.of_nat n ≤ buffer_size.

Lemma length_avg_request n cid :
  Z.of_nat (length (msg_bytes (avg_request 3 (mavg_data n) cid))) = 77 + 4 * Z.of_nat n.
Proof.
  rewrite length_msg_bytes. cbn [avg_request data].
  rewrite length_app, length_ints_bytes, length_le_bytes, length_mavg_data. lia.
Qed.

(** What such a stream holds, and that there is one. *)
Lemma scheduler_serves n cid s now elapsed res kc ks bufc bufs r rs jobid wt :
  test_size n → int_range cid → (69 ≤ kc)%nat → (69 ≤ ks)%nat → avg_wt_millis s = Ret wt →
  Z.of_nat (length bufc) = buffer_size → Z.of_nat (length bufs) = buffer_size →
  let reply := set_avg_wt (forwarded (result_msg (i32 elapsed) (kernel_result 3 (mavg_data n)))) wt in
  answer_stream (scheduler_handler s now None elapsed res ks bufs (r :: rs) jobid) kc bufc
    (msg_bytes (avg_request 3 (mavg_data n) cid)) = Ret (msg_bytes reply) ∧ msg_sent reply.
Proof.
  intros [H3 Hn] Hc Hkc Hks Hwt Hbc Hbs reply. unfold buffer_size in *.
  pose proof (length_mavg_data n) as Hlen. pose proof (length_avg_request n cid) as Hl.
  assert (Hm : msg_sent (avg_request 3 (mavg_data n) cid))
    by (apply avg_request_sent; [unfold MAX_N|]; (done || lia)).
  assert (Ha : answers (scheduler_handler s now None elapsed res ks bufs (r :: rs) jobid)
    (avg_request 3 (mavg_data n) cid) reply).
  { apply scheduler_answers; try done; try lia.
    - unfold MAX_N. lia.
    - apply mavg_data_ints. unfold INT_MAX. lia.
    - apply mavg_data_windows. unfold INT_MAX. lia. }
  split; [|apply Ha]. apply answer_stream_ret; [done..|lia].
Qed.

Lemma served_reply n cid stream :
  test_size n → int_range cid → served n cid stream →
  ∃ reply, stream = msg_bytes reply ∧ msg_sent reply ∧ dataBytes reply = 4 * Z.of_nat n ∧
    data reply = ints_bytes (kernel_result 3 (mavg_data n)).
Proof.
  intros Hn Hc [s now elapsed res kc ks bufc bufs r rs jobid wt st Hkc Hks Hwt Hbc Hbs Hst].
  destruct (scheduler_serves n cid s now elapsed res kc ks bufc bufs r rs jobid wt) as [H Hr]; try done.
  rewrite H in Hst. injection Hst as <-. eexists. split_and!; [done..| |done].
  cbn [set_avg_wt forwarded result_msg dataBytes]. destruct Hn.
  rewrite length_kernel_result; rewrite length_mavg_data; lia.
Qed.

Lemma averages_check n :
  test_size n →
  mavg_check n (bytes_ints n (ints_bytes (kernel_result 3 (mavg_data n))))
    (mavg_threept_exp n (mavg_data n)) = true.
Proof.
  intros [H3 Hn]. unfold buffer_size in Hn. pose proof (length_mavg_data n) as Hlen.
  assert (Hok : windows_ok 3 (mavg_data n)) by (apply mavg_data_windows; unfold INT_MAX; lia).
  assert (Hk : length (kernel_result 3 (mavg_data n)) = n) by (rewrite length_kernel_result; lia).
  pose proof (bytes_ints_bytes (kernel_result 3 (mavg_data n)) []) as Hb.
  rewrite app_nil_r, Hk in Hb. rewrite Hb by (apply kernel_result_range; [lia|done]).
  pose proof (movingAverage_cpu_passes_check (mavg_data n) (mavg_data n)) as Hc.
  rewrite Hlen in Hc. apply Hc; try done; try lia.
  pose proof (movingAverage_cpu_ret 3 (mavg_data n) (mavg_data n)) as Hr. rewrite Hlen in Hr.
  by apply Hr; [lia..| |].
Qed.

(** *** Calls and loops *)

(** Every call of a program finds a scheduler that serves it. *)
Definition all_served (nets : networks) (port : Z) (n : nat) (cid : Z) (t : nat) : Prop :=
  ∀ k, (k < t)%nat → ∃ stream, nets k port "localhost" = Some (MkConn stream []) ∧ served n cid stream.

Lemma served_call network env cid port n stream :
  test_size n → client_id env = Ret cid → client_port cid = Ret port →
  network port "localhost" = Some (MkConn stream []) → served n cid stream →
  ∃ c, movingAverage network env (Z.of_nat n) 3 (mavg_data n) (replicate (4 * n) 0) =
    Ret (ints_bytes (kernel_result 3 (mavg_data n)), c).
Proof.
  intros Hn Hid Hport Hnet Hst. pose proof Hn as [H3 Hb]. unfold buffer_size in Hb.
  destruct (served_reply n cid stream Hn (client_id_range _ _ Hid) Hst)
    as (reply & -> & Hs & Hdb & Hd).
  pose proof (movingAverage_ret network env cid port 3 (mavg_data n) (replicate (4 * n) 0) reply) as Hm.
  rewrite length_mavg_data, Hd in Hm. eexists. apply Hm; try done.
  - unfold MAX_N. lia.
  - rewrite length_ints_bytes, length_kernel_result; rewrite length_mavg_data; lia.
  - by rewrite length_replicate.
Qed.

(** The same with the port and the id of the command line. *)
Lemma served_call_p network cid n stream :
  test_size n → int_range cid → int_range (8110 + cid) →
  network (8110 + cid) "localhost" = Some (MkConn stream []) → served n cid stream →
  ∃ c, movingAverage_p network (Z.of_nat n) 3 (mavg_data n) (replicate (4 * n) 0) cid =
    Ret (ints_bytes (kernel_result 3 (mavg_data n)), c).
Proof.
  intros Hn Hid Hport Hnet Hst. pose proof Hn as [H3 Hb]. unfold buffer_size in Hb.
  destruct (served_reply n cid stream Hn Hid Hst) as (reply & -> & Hs & Hdb & Hd).
  pose proof (length_mavg_data n) as Hlen. unfold movingAverage_p.
  rewrite (swrap_small 32 (Z.of_nat n)) by lia.
  rewrite (msg_moving_avg_ret _ _ (mavg_data n)) by (unfold MAX_N; lia).
  cbn [mbind outcome_bind]. rewrite int_of_in by done. cbn [mbind outcome_bind].
  replace (i32 (u64 (Z.of_nat n * sizeof_int))) with (dataBytes reply)
    by (unfold sizeof_int; rewrite (wrap_small 64) by lia; rewrite swrap_small by lia; lia).
  destruct Hs as (Hty & _). assert (Hk : length (data reply) = (4 * n)%nat).
  { rewrite Hd, length_ints_bytes, length_kernel_result; lia. }
  eexists. rewrite (exchange_spec network _ _ reply); [by rewrite Hd|done| |done|lia| |].
  - pose proof (length_avg_request n cid) as Hl. unfold avg_request in Hl. rewrite Hlen in Hl.
    exact (eq_sym Hl).
  - by rewrite length_replicate.
  - unfold sizeof_msg, INT_MAX. lia.
Qed.

Lemma requests_pass call n t : ∀ k,
  test_size n →
  (∀ i, (k ≤ i < k + t)%nat → ∃ c, call i (replicate (4 * n) 0) =
    Ret (ints_bytes (kernel_result 3 (mavg_data n)), c)) →
  mavg_requests call n (mavg_threept_exp n (mavg_data n)) k t true = Ret true.
Proof.
  induction t as [|t IH]; intros k Hn Hcall; [done|]. cbn [mavg_requests].
  destruct (Hcall k ltac:(lia)) as [c ->]. cbn [mbind outcome_bind].
  rewrite averages_check by done. apply IH; [done|]. intros i Hi. apply Hcall. lia.
Qed.

Lemma env_requests_pass nets env cid port n t :
  test_size n → client_id env = Ret cid → client_port cid = Ret port →
  all_served nets port n cid t →
  mavg_requests (λ k out, movingAverage (nets k) env (Z.of_nat n) 3 (mavg_data n) out) n
    (mavg_threept_exp n (mavg_data n)) 0 t true = Ret true.
Proof.
  intros Hn Hid Hport Hall. apply requests_pass; [done|]. intros i Hi.
  destruct (Hall i ltac:(lia)) as (stream & Hnet & Hst). by eapply served_call.
Qed.

Lemma wait_all_zero p children :
  Forall (λ c, c = Ret 0) children → wait_all p children true = Ret true.
Proof.
  revert children. induction p as [|p IH]; intros children Hc; [done|].
  cbn [wait_all]. destruct Hc as [|c cs -> Hc]; cbn; by apply IH.
Qed.

Definition test_sizes : list Z := [mavg_data_150K; mavg_data_size; mavg_data_15M; mavg_data_150M].

Lemma test_sizes_fit n : n ∈ test_sizes → test_size (Z.to_nat n) ∧ Z.of_nat (Z.to_nat n) = n.
Proof.
  intros Hn. assert (3 ≤ n ∧ 77 + 4 * n ≤ buffer_size).
  { unfold test_sizes in Hn. rewrite !elem_of_cons in Hn.
    by destruct Hn as [->|[->|[->|[->|Hn]]]]; [..|by apply elem_of_nil in Hn]. }
  unfold test_size. rewrite Z2Nat.id by lia. done.
Qed.

(** ** Properties *)


Lemma priority_calls_pass nets cid n :
  test_size n → int_range cid → int_range (8110 + cid) → all_served nets (8110 + cid) n cid 10 →
  priority_calls nets cid (Z.of_nat n) = Ret 0.
Proof.
  intros Hs Hc Hport Hall. unfold priority_calls. rewrite Nat2Z.id.
  rewrite requests_pass; [done..|]. intros i Hi.
  destruct (Hall i ltac:(lia)) as (stream & Hnet & Hst). by eapply served_call_p.
Qed.

(** The test with priorities passes when its ten calls are served. *)
Theorem priority_test_passes nets prog arg cid :
  atoi arg = Ret cid → int_range (8110 + cid) →
  all_served nets (8110 + cid) (Z.to_nat mavg_data_size) cid 10 →
  MovingAverageOneDfePriority_main nets [prog; arg] = Ret 0.
Proof.
  intros Harg Hport Hall. destruct (test_sizes_fit mavg_data_size) as [Hs E]; [by do 2 constructor|].
  pose proof (client_id_range (Some arg) cid Harg) as Hc. cbn [MovingAverageOneDfePriority_main].
  rewrite Harg. pose proof (priority_calls_pass nets cid _ Hs Hc Hport Hall) as Hp.
  rewrite E in Hp. exact Hp.
Qed.

(** Without its argument it fails at once. *)
Theorem priority_test_usage nets prog : MovingAverageOneDfePriority_main nets [prog] = Ret 1.
Proof. done. Qed.

(** The exchange of the dispatcher's test. *)
Lemma dispatcher_exchange network n reply :
  test_size n → network dispatcherPort "localhost" = Some (MkConn (msg_bytes reply) []) →
  msg_typed reply → dataBytes reply = 4 * Z.of_nat n → length (data reply) = (4 * n)%nat →
  dispatcher_request network (Z.of_nat n) (mavg_data n) =
  Ret (data reply, MkClient dispatcherPort "localhost"
    (Connected (MkConn [] (msg_bytes (avg_request 3 (mavg_data n) 0) ++ msg_bytes msg_done)))).
Proof.
  intros [H3 Hn] Hnet Hty Hdb Hld. unfold buffer_size in Hn. pose proof (length_mavg_data n) as Hlen.
  unfold dispatcher_request. rewrite Nat2Z.id.
  pose proof (length_avg_request n 0) as Hl.
  rewrite (msg_moving_avg_ret _ _ (mavg_data n)) by (unfold MAX_N; lia). cbn [mbind outcome_bind].
  replace (Msg MSG_MOVING_AVG 0 0 0 0 0 0 0 _ _ _ _ _ _) with (avg_request 3 (mavg_data n) 0)
    by (unfold avg_request; by rewrite Hlen).
  pose proof (read_bytes_0 (msg_bytes (avg_request 3 (mavg_data n) 0)) []
    (totalBytes (avg_request 3 (mavg_data n) 0))) as Hr.
  rewrite app_nil_r in Hr. rewrite Hr.
  - cbn [mbind outcome_bind].
    replace (i32 (u64 (Z.of_nat n * sizeof_int))) with (dataBytes reply)
      by (unfold sizeof_int; rewrite (wrap_small 64) by lia; rewrite swrap_small by lia; lia).
    apply exchange_spec; try done; try lia.
    + rewrite Hl. unfold avg_request. cbn [totalBytes]. lia.
    + by rewrite length_replicate.
    + unfold sizeof_msg, INT_MAX. lia.
  - rewrite Hl. unfold avg_request. cbn [totalBytes]. lia.
Qed.

Lemma dispatcher_check_passes network n elapsed res k buf stream :
  test_size n → (69 ≤ k)%nat → Z.of_nat (length buf) = buffer_size →
  answer_stream (dispatcher_handler None elapsed res) k buf
    (msg_bytes (avg_request 3 (mavg_data n) 0)) = Ret stream →
  network dispatcherPort "localhost" = Some (MkConn stream []) →
  dispatcher_check network (Z.of_nat n) = Ret 0.
Proof.
  intros Hs Hk Hb Hst Hnet. pose proof Hs as [H3 Hn]. pose proof (length_mavg_data n) as Hlen.
  pose proof (length_avg_request n 0) as Hl. unfold buffer_size in *.
  set (reply := result_msg (i32 elapsed) (kernel_result 3 (mavg_data n))).
  assert (Hkr : length (kernel_result 3 (mavg_data n)) = n) by (rewrite length_kernel_result; lia).
  assert (Ha : answers (dispatcher_handler None elapsed res)
    (set_rids (avg_request 3 (mavg_data n) 0) 0) reply).
  { apply dispatcher_answers_average; try done; try lia.
    - unfold MAX_N. lia.
    - apply mavg_data_ints. unfold INT_MAX. lia.
    - apply mavg_data_windows. unfold INT_MAX. lia. }
  change (set_rids (avg_request 3 (mavg_data n) 0) 0) with (avg_request 3 (mavg_data n) 0) in Ha.
  assert (Hm : msg_sent (avg_request 3 (mavg_data n) 0))
    by (apply avg_request_sent; [unfold MAX_N|]; (done || lia)).
  rewrite (answer_stream_ret _ k buf _ reply) in Hst; [|done..|lia]. injection Hst as <-.
  unfold dispatcher_check. rewrite Nat2Z.id, (dispatcher_exchange network n reply); try done.
  - change (data reply) with (ints_bytes (kernel_result 3 (mavg_data n))). by rewrite averages_check.
  - apply Ha.
  - change (dataBytes reply) with (4 * Z.of_nat (length (kernel_result 3 (mavg_data n)))). lia.
  - change (data reply) with (ints_bytes (kernel_result 3 (mavg_data n))).
    rewrite length_ints_bytes. lia.
Qed.

(** The dispatcher's test passes against the dispatcher's server. *)
Theorem dispatcher_test_passes network elapsed res k buf stream :
  (69 ≤ k)%nat → Z.of_nat (length buf) = buffer_size →
  answer_stream (dispatcher_handler None elapsed res) k buf
    (msg_bytes (avg_request 3 (mavg_data (Z.to_nat mavg_data_size)) 0)) = Ret stream →
  network dispatcherPort "localhost" = Some (MkConn stream []) → DispatcherTest_main network = Ret 0.
Proof.
  intros Hk Hb Hst Hnet. destruct (test_sizes_fit mavg_data_size) as [Hs E]; [by do 2 constructor|].
  pose proof (dispatcher_check_passes network _ elapsed res k buf stream Hs Hk Hb Hst Hnet) as Hp.
  rewrite E in Hp. exact Hp.
Qed.

(** The deque's test passes. *)
Theorem deque_test_passes : ConcurrentDequeTest_main = Ret 0.
Proof. done. Qed.

(** The tests with several users do not notice that no child was forked. *)
Theorem unforked_children_pass env p numJobs : MultiUser_main (replicate p None) env numJobs = Ret 0.
Proof.
  unfold MultiUser_main. rewrite wait_all_zero; [done|].
  replace (omap id (replicate p (@None networks))) with (@nil networks) by (by induction p). constructor.
Qed.

(** The test of option prices is undefined once it gets a price. *)
Theorem option_test_undefined nets env out c :
  optionPricing_call (nets 0%nat) env bits_0_01 bits_0_02 bits_0_05 200 50 20 bits_10 (replicate 8 0) =
    Ret (out, c) → OptionPricingTest_main nets env = Undef BadFormat.
Proof. intros H. unfold OptionPricingTest_main. by rewrite H. Qed.

(** The test of option prices with objectives accepts every price. *)
Theorem jlo_test_accepts nets env cid port v1 v2 :
  client_id env = Ret cid → client_port cid = Ret port →
  nets 0%nat port "localhost" = Some (MkConn (msg_bytes (forwarded (price_result v1))) []) →
  nets 1%nat port "localhost" = Some (MkConn (msg_bytes (forwarded (price_result v2))) []) →
  OptionPricingJloTest_main nets env = Ret 0.
Proof.
  intros Hid Hport H1 H2.
  assert (Hcall : ∀ net v paths predicted target,
    net port "localhost"%string = Some (MkConn (msg_bytes (forwarded (price_result v))) []) →
    ∃ r, optionPricingJlo net env bits_0_01 bits_0_02 bits_0_05 12 50 paths bits_10 (replicate 8 0)
      predicted target = Ret r).
  { intros net v paths predicted target Hnet.
    pose proof (price_call_ret bits_0_01 bits_0_02 bits_0_05 12 50 paths bits_10 net env cid port
      (Some (predicted, target)) (replicate 8 0) (forwarded (price_result v))) as Hp.
    eexists. by apply Hp. }
  unfold OptionPricingJloTest_main. cbn [jlo_requests vec_at lookup list_lookup jlo_paths perfModel
    jlo_target mbind outcome_bind].
  destruct (Hcall _ v1 (1000000 * 1) 5910 5000 H1) as [[o1 c1] E1]. rewrite E1. cbn [mbind outcome_bind].
  destruct (Hcall _ v2 (1000000 * 1) 5910 5000 H2) as [[o2 c2] E2]. rewrite E2. done.
Qed.

(** ** Witnesses *)

Lemma served_exists n cid : test_size n → int_range cid → ∃ stream, served n cid stream.
Proof.
  intros Hn Hc. set (buf := replicate (Z.to_nat buffer_size) 0).
  assert (Hb : Z.of_nat (length buf) = buffer_size).
  { unfold buf. rewrite length_replicate. by apply Z2Nat.id. }
  clearbody buf.
  destruct (scheduler_serves n cid sample_sched 0 7 0 80 80 buf buf
    (MkResource 2 8111 "localhost" "DFE") [] 1 0) as [Ha _]; try (done || lia).
  eexists. eapply served_by; [..|exact Ha]; try done; lia.
Qed.

