(* ===== verification/Shutdown.v ===== *)
(** * The end of the scheduler: the destructor of Scheduler.hpp

    After [run] has returned no handler submits jobs any more; the destructor
    interrupts and joins the scheduling thread, then the dispatcher thread, then
    the finished thread.  A thread notices the interrupt only where it waits on a
    condition variable, that is, at the head of its loop when its queue is empty
    (and in [deprovisionResource] when the pool is), so that each of them first
    works its queue off.  The job threads are detached: nothing waits for them. *)

From S2P Require Import Prelude CxxFloat FloatRound FloatBounds StdAlg ConcurrentDeque Message.
From S2P Require Import Job Scheduler SchedulerFacts Algs ScoreFacts AlgFacts ManagedFacts.
From S2P Require Import SchedLoop System SystemCount.

(** ** Threads *)

Inductive actor : Type := SchedulerThread | DispatcherThread | FinishedThread | JobThread.

#[export] Instance actor_eq_dec : EqDecision actor.
Proof. solve_decision. Defined.

(** The statement of the destructor: the thread it waits for, or its end. *)
Inductive phase : Type := JoinScheduler | JoinDispatcher | JoinFinished | Destroyed.

(** The threads that have not been joined. *)
Definition alive (t : actor) (ph : phase) : bool :=
  match ph, t with
  | JoinScheduler, _ => true
  | JoinDispatcher, (DispatcherThread | FinishedThread | JobThread) => true
  | JoinFinished, (FinishedThread | JobThread) => true
  | _, _ => false
  end.

Section shutdown.
Context `{Hsort : !StdSort}.

(** The steps of the threads, as in System. *)
Inductive moves : actor → Sys → Sys → Prop :=
| move_plan s run cl alg a s' :
    readyQ s ≠ [] → (0 < resPoolSize s)%nat → algVec s !! MODE_MANAGED = Some alg →
    run_alg 1 alg s = Ret (a, s') → (0 < noJobs a)%nat →
    moves SchedulerThread (MkSys s Idle run cl) (MkSys s' (Adapting a) run cl)
| move_plan_none s run cl alg a s' :
    readyQ s ≠ [] → (0 < resPoolSize s)%nat → algVec s !! MODE_MANAGED = Some alg →
    run_alg 1 alg s = Ret (a, s') → noJobs a = 0%nat →
    moves SchedulerThread (MkSys s Idle run cl) (MkSys s' Idle run cl)
| move_adapt s a run cl s' :
    updateResourcePool s a = Ret s' →
    moves SchedulerThread (MkSys s (Adapting a) run cl) (MkSys s' (Serving a (ajobs a)) run cl)
| move_serve s a p js run cl now s1 s2 :
    removeJobFromReadyQ s p = Ret s1 → claimResources s1 (snd p) = Ret s2 →
    moves SchedulerThread (MkSys s (Serving a (p :: js)) run cl)
      (MkSys (addToRunQ s2 now p) (Serving a js) run cl)
| move_served s a run cl duration :
    moves SchedulerThread (MkSys s (Serving a []) run cl)
      (MkSys (set_stats s (add_sched_stats (stats s) (noJobs a) duration)) Idle run cl)
| move_dispatch s pc run cl p s' :
    dispatcherLoop_iter s = Ret (Some p, s') →
    moves DispatcherThread (MkSys s pc run cl) (MkSys s' pc (p :: run) cl)
| move_drop s pc run cl s' :
    dispatcherLoop_iter s = Ret (None, s') →
    moves DispatcherThread (MkSys s pc run cl) (MkSys s' pc run cl)
| move_run s pc run1 p run2 cl stream t0 t1 now s' :
    runJob s p stream t0 t1 now = Ret s' →
    moves JobThread (MkSys s pc (run1 ++ p :: run2) cl) (MkSys s' pc (run1 ++ run2) cl)
| move_finished s pc run cl now_t now_u j s' :
    finishedLoop_iter s now_t now_u = Ret (j, s') →
    moves FinishedThread (MkSys s pc run cl) (MkSys s' pc run cl).

(** [~Scheduler]: a thread that is not joined moves, or the one that is waited
    for finds its queue empty, waits, and ends by the interrupt. *)
Inductive destroying : Sys * phase → Sys * phase → Prop :=
| destroy_move t y y' ph :
    alive t ph = true → moves t y y' → destroying (y, ph) (y', ph)
| destroy_scheduler y :
    pc y = Idle → readyQ (sched y) = [] → destroying (y, JoinScheduler) (y, JoinDispatcher)
| destroy_scheduler_pool y a :
    pc y = Adapting a → updateResourcePool (sched y) a = Blocked →
    destroying (y, JoinScheduler) (y, JoinDispatcher)
| destroy_dispatcher y :
    runQ (sched y) = [] → destroying (y, JoinDispatcher) (y, JoinFinished)
| destroy_finished y :
    finishedQ (sched y) = [] → destroying (y, JoinFinished) (y, Destroyed).

(** ** Lemmas *)

(** The threads are those of the running scheduler. *)
Lemma moves_step adm t y y' : moves t y y' → System.step adm y y'.
Proof. intros []; by econstructor. Qed.

Lemma moves_inv t y y' : inv int_request y → moves t y y' → inv int_request y'.
Proof. intros Hi Hm. by eapply inv_step, moves_step. Qed.

(** What the other threads leave to the scheduling thread and to each other. *)
Lemma moves_others t y y' :
  inv int_request y → moves t y y' → t ≠ SchedulerThread →
  pc y' = pc y ∧ readyQ (sched y') = readyQ (sched y) ∧
  (length (resPool (sched y)) ≤ length (resPool (sched y')))%nat ∧
  (t ≠ DispatcherThread → runQ (sched y') = runQ (sched y)).
Proof.
  intros Hi Hm Ht. destruct Hm; try done; cbn [System.pc sched] in *.
  - destruct (dispatch_starts _ _ _ _ _ _ _ Hi H) as (pr & q & _ & _ & ->). by split_and!.
  - by destruct (dispatch_starts _ _ _ _ _ _ _ Hi H) as (? & ? & _ & ? & _).
  - destruct (runJob_effect s p stream t0 t1 now s') as (rsp & ->); [|done|].
    + by eapply (running_not_queued int_request).
    + cbn. rewrite length_app. split_and!; try done. lia.
  - unfold finishedLoop_iter in H. destruct (finishedQ s) as [|k q]; [done|]. simpl in H.
    apply bind_ret_inv in H as (js & _ & H). apply bind_ret_inv in H as (s1 & Hs1 & H).
    injection H as _ <-. apply updateStatistics_stats in Hs1 as [st ->]. by split_and!.
Qed.

(** While the scheduling thread adapts the pool, the pool holds the resources of the
    allocation it chose. *)
Definition planned (y : Sys) : Prop :=
  match pc y with Adapting _ => (0 < length (resPool (sched y)))%nat | _ => True end.

Lemma planned_scheduler y y' :
  inv int_request y → moves SchedulerThread y y' → planned y'.
Proof.
  intros Hi Hm. inversion Hm; subst; try done. unfold planned. cbn [pc sched].
  pose proof (inv_sched_wf int_request (λ _ H, H) _ Hi H) as Hwf.
  destruct (inv_config _ _ Hi) as (Hcfg & _). cbn [sched] in *. rewrite Hcfg in H1. injection H1 as <-.
  destruct (managed_returns s a s' Hwf Hcfg H0 H2) as (Hs & _).
  change (0 < resPoolSize s')%nat. by rewrite <-Hs.
Qed.

Lemma planned_moves t y y' :
  inv int_request y → planned y → moves t y y' → planned y'.
Proof.
  intros Hi Hp Hm. destruct (decide (t = SchedulerThread)) as [->|Ht].
  - by eapply planned_scheduler.
  - destruct (moves_others t y y' Hi Hm Ht) as (Hpc & _ & Hl & _).
    unfold planned in *. rewrite Hpc. case_match; try done. lia.
Qed.

Lemma planned_not_blocked s a :
  (0 < length (resPool s))%nat → updateResourcePool s a ≠ Blocked.
Proof.
  intros Hl. unfold updateResourcePool.
  case_match; [|case_match; [|done]].
  - unfold provisionResource, addNewResource, int_of.
    destruct (in_int _); [|done]. cbn [mbind outcome_bind]. by destruct (in_int _).
  - unfold deprovisionResource. case_match; [|done]. cbn [set_provisioned resPool].
    destruct (Deque.wait_pop_back_total (resPool s)) as (x & q & -> & _); [|done].
    by destruct (resPool s); [simpl in Hl; lia|].
Qed.

Lemma reachable_planned y : reachable int_request y → planned y.
Proof.
  induction 1 as [y (port & now & busy & s & _ & ->)|y y' Hr IH Hst]; [done|].
  pose proof (reachable_inv int_request (λ _ H, H) y Hr) as Hi.
  destruct Hst; try by (eapply planned_moves; [exact Hi|exact IH|by econstructor]).
  - unfold submit, getNextId in *. inv_ret. exact IH.
  - exact IH.
Qed.

(** The queues that the threads joined so far have left empty. *)
Record drained (y : Sys) (ph : phase) : Prop := {
  dr_inv : inv int_request y;
  dr_planned : planned y;
  dr_ready : ph ≠ JoinScheduler → pc y = Idle ∧ readyQ (sched y) = [];
  dr_run : ph = JoinFinished ∨ ph = Destroyed → runQ (sched y) = [];
  dr_finished : ph = Destroyed → finishedQ (sched y) = []
}.

Lemma drained_move t y y' ph :
  drained y ph → alive t ph = true → moves t y y' → drained y' ph.
Proof.
  intros [Hi Hp Hr Hq Hf] Ha Hm. split.
  - by eapply moves_inv.
  - by eapply planned_moves.
  - intros Hph. destruct (Hr Hph) as [Hpc Hrq].
    destruct (moves_others t y y' Hi Hm) as (-> & -> & _); [by intros ->; destruct ph|done].
  - intros Hph. destruct (moves_others t y y' Hi Hm) as (_ & _ & _ & Hrun).
    + intros ->. by destruct Hph as [->| ->].
    + rewrite Hrun; [by apply Hq|]. intros ->. by destruct Hph as [->| ->].
  - intros ->. by destruct t.
Qed.

Lemma drained_step y ph y' ph' : drained y ph → destroying (y, ph) (y', ph') → drained y' ph'.
Proof.
  intros Hd Hs. inversion Hs; subst; [by eapply drained_move|..]; destruct Hd as [Hi Hp Hr Hq Hf].
  - split; try done. by intros [|].
  - exfalso. eapply planned_not_blocked; [|eassumption]. unfold planned in Hp.
    by match goal with H : pc _ = _ |- _ => rewrite H in Hp end.
  - split; try done. intros _. by apply Hr.
  - split; try done; intros _; [by apply Hr|]. apply Hq. by left.
Qed.

Lemma drained_steps y ph z ph' :
  drained y ph → rtc destroying (y, ph) (z, ph') → drained z ph'.
Proof.
  intros Hd Hst. remember (y, ph) as u eqn:Hu. remember (z, ph') as v eqn:Hv.
  revert y ph Hu Hd. induction Hst as [u|u [w q] v Hs Hst IH]; intros y ph -> Hd.
  - by simplify_eq.
  - eapply (IH Hv); [done|]. by eapply drained_step.
Qed.

(** The dispatcher thread works the run queue off. *)
Lemma dispatch_all run : ∀ y ph,
  inv int_request y → alive DispatcherThread ph = true → runQ (sched y) = run →
  ∃ z, rtc destroying (y, ph) (z, ph) ∧ runQ (sched z) = [] ∧ readyQ (sched z) = readyQ (sched y) ∧
    finishedQ (sched z) = finishedQ (sched y) ∧ pc z = pc y ∧ running z ≡ₚ run ++ running y.
Proof.
  induction run as [|p run IH]; intros y ph Hi Ha Hq; [by exists y; split_and!|].
  destruct y as [s c r cl]. cbn [sched] in *.
  pose proof (dispatch_head int_request _ p run Hi Hq) as Hd. cbn [sched] in Hd.
  pose proof (move_dispatch s c r cl p _ Hd) as Hm.
  destruct (IH _ ph (moves_inv _ _ _ Hi Hm) Ha eq_refl) as (z & Hz & H1 & H2 & H3 & H4 & H5).
  exists z. split_and!; try done.
  - eapply rtc_l; [|exact Hz]. by eapply destroy_move.
  - rewrite H5. cbn [running]. solve_Permutation.
Qed.

(** ** Properties *)

(** C16: when the destructor of the scheduler ends, no job is left in a queue.  From
    every reachable state, however the threads interleave until they are joined,
    the ready, run and finished queues are empty at the end, and every job that
    was submitted is finished or still has its (detached) thread; and when no job
    waits to be scheduled or recorded, the destructor can end, with a thread for
    each job of the run queue still working on the destroyed scheduler. *)
Theorem shutdown_drains y :
  reachable int_request y →
  (∀ z, rtc destroying (y, JoinScheduler) (z, Destroyed) →
    readyQ (sched z) = [] ∧ runQ (sched z) = [] ∧ finishedQ (sched z) = [] ∧
    ∃ dones, clients z ≡ₚ (running z).*1 ++ dones ∧ Forall (is_done (sched z)) dones) ∧
  (pc y = Idle → readyQ (sched y) = [] → finishedQ (sched y) = [] →
    ∃ z, rtc destroying (y, JoinScheduler) (z, Destroyed) ∧
      running z ≡ₚ runQ (sched y) ++ running y).
Proof.
  intros Hr. pose proof (reachable_inv int_request (λ _ H, H) y Hr) as Hi. split.
  - intros z Hz.
    assert (Hd : drained y JoinScheduler).
    { split; try done; [by apply reachable_planned|by intros [|]]. }
    destruct (drained_steps _ _ _ _ Hd Hz) as [Hiz _ Hrq Hrun Hfin].
    destruct (Hrq ltac:(done)) as [_ Hrq']. specialize (Hrun (or_intror eq_refl)).
    specialize (Hfin eq_refl). split_and!; try done.
    destruct (inv_clients _ _ Hiz) as (dones & Hcl & Hdn). exists dones. split; [|done].
    unfold active in Hcl. rewrite Hrq', Hrun, Hfin in Hcl. cbn in Hcl.
    by rewrite app_nil_r in Hcl.
  - intros Hpc Hrq Hfin.
    destruct (dispatch_all (runQ (sched y)) y JoinScheduler Hi eq_refl eq_refl)
      as (z & Hz & H1 & H2 & H3 & H4 & H5).
    exists z. split; [|done]. etransitivity; [exact Hz|].
    eapply rtc_l; [apply destroy_scheduler; congruence|].
    eapply rtc_l; [by apply destroy_dispatcher|]. apply rtc_once, destroy_finished. congruence.
Qed.

(** A scheduler that is left with untimed jobs only. *)
Record starving (y : Sys) : Prop := {
  st_inv : inv int_request y;
  st_idle : pc y = Idle;
  st_jobs : readyQ (sched y) ≠ [];
  st_untimed : Forall untimed (readyQ (sched y));
  st_pool : (resPoolSize (sched y) ≤ 4)%nat;
  st_queue : runQ (sched y) = [];
  st_running : running y = []
}.

Lemma starving_moves t y y' : starving y → moves t y y' → starving y'.
Proof.
  intros [Hi Hidle Hne Hun Hp Hq Hrun] Hm. pose proof (moves_inv _ _ _ Hi Hm) as Hi'.
  pose proof (inv_sched_wf int_request (λ _ H, H) _ Hi Hne) as Hwf.
  destruct (inv_config _ _ Hi) as (Hcfg & Hst & _).
  destruct Hm as [s run cl alg a s' _ Hpos Halg Hr Hn|s run cl alg a s' _ Hpos Halg Hr Hn|
    | | | | | |]; cbn [System.pc sched running] in *; try discriminate.
  - exfalso. rewrite Hcfg in Halg. injection Halg as <-.
    destruct (managed_untimed s Hwf Hun Hcfg Hst ltac:(lia)) as (a0 & s0 & Hr0 & Ha0 & _).
    rewrite Hr in Hr0. injection Hr0 as <- <-. unfold noJobs in Hn. rewrite Ha0 in Hn. simpl in Hn. lia.
  - rewrite Hcfg in Halg. injection Halg as <-.
    destruct (managed_untimed s Hwf Hun Hcfg Hst ltac:(lia)) as (a0 & s0 & Hr0 & _ & Hs0).
    rewrite Hr in Hr0. injection Hr0 as <- <-. split; cbn [System.pc sched running]; try done.
    + by rewrite <-Hs0.
    + by rewrite <-Hs0.
    + by rewrite <-Hs0.
    + by destruct Hs0 as (pool & -> & _).
  - unfold dispatcherLoop_iter in *. rewrite Hq in *. done.
  - unfold dispatcherLoop_iter in *. rewrite Hq in *. done.
  - by destruct run1.
  - unfold finishedLoop_iter in *. destruct (finishedQ s) as [|k q]; [done|]. simpl in *.
    inv_ret. match goal with H : updateStatistics _ _ _ _ = _ |- _ =>
      apply updateStatistics_stats in H as [st ->] end. by split.
Qed.

(** C39: the destructor can hang.  If the ready queue holds jobs without a predicted
    time only, at most four resources are free and nothing runs, the scheduling
    thread neither schedules nor waits: it never reaches a point where it would
    notice the interrupt, so that in every interleaving the destructor is still
    waiting for it. *)
Theorem shutdown_hangs y z ph :
  reachable int_request y → pc y = Idle → readyQ (sched y) ≠ [] →
  Forall untimed (readyQ (sched y)) → (resPoolSize (sched y) ≤ 4)%nat →
  runQ (sched y) = [] → running y = [] →
  rtc destroying (y, JoinScheduler) (z, ph) → ph = JoinScheduler ∧ readyQ (sched z) ≠ [].
Proof.
  intros Hr Hpc Hne Hun Hp Hq Hrun Hst.
  assert (Hs : starving y) by (split; try done; by apply (reachable_inv int_request (λ _ H, H))).
  clear -Hs Hst. remember (y, JoinScheduler) as u eqn:Hu. remember (z, ph) as v eqn:Hv.
  revert y Hu Hs. induction Hst as [u|u [w q] v Hstep Hst IH]; intros y -> Hs.
  - simplify_eq. split; [done|apply Hs].
  - inversion Hstep; subst; destruct Hs as [? ? ? ? ? ? ?]; try congruence.
    eapply IH; [done|done|]. by eapply starving_moves.
Qed.

End shutdown.

(** ** Witnesses *)

(** The run of System after its allocation is served: one job in the run queue. *)
Definition served : Sys :=
  MkSys (set_stats (addToRunQ Run.s5 0 Run.p1)
    (add_sched_stats (stats (addToRunQ Run.s5 0 Run.p1)) (noJobs Run.a1) 0)) Idle [] [Run.j1].

Lemma served_reachable : reachable int_request served.
Proof. eapply reachable_step; [apply Run.run_int, Run.run_y4|]. apply step_served. Qed.

Lemma shutdown_drains_witness :
  ∃ z, rtc destroying (served, JoinScheduler) (z, Destroyed) ∧ running z ≡ₚ [Run.p1] ∧
    readyQ (sched z) = [].
Proof.
  destruct (shutdown_drains served served_reachable) as [H1 H2].
  destruct H2 as (z & Hz & Hr); [vm_compute; reflexivity..|].
  exists z. split; [exact Hz|]. split; [|by apply H1].
  rewrite Hr. vm_compute. reflexivity.
Defined.

(** A client that asks the scheduler for an average without a predicted time. *)
Definition untimed_request : msg_t := Msg MSG_MOVING_AVG 1 0 0 0 0 500 0 0 0 0 0 0 [].
Definition waiting_job : Job := new_Job untimed_request 1.
Definition waiting : Sys :=
  MkSys (snd (Run.from_ret (waiting_job, Run.s0) (submit Run.s0 0 untimed_request))) Idle [] [waiting_job].

Lemma waiting_reachable : reachable int_request waiting.
Proof.
  eapply reachable_step.
  - apply reachable_init. exists 8111%Z, 0%Z, f_zero, Run.s0. split; [vm_compute; reflexivity|reflexivity].
  - apply (step_submit int_request Run.s0 Idle [] [] 0 untimed_request).
    + unfold int_request, INT_MIN, INT_MAX. simpl. lia.
    + vm_compute. reflexivity.
Qed.

Lemma shutdown_hangs_witness :
  reachable int_request waiting ∧ ¬ ∃ z, rtc destroying (waiting, JoinScheduler) (z, Destroyed).
Proof.
  split; [apply waiting_reachable|]. intros [z Hz].
  destruct (shutdown_hangs waiting z Destroyed waiting_reachable) as [Hph _]; try done.
  - change (Forall untimed [waiting_job]). repeat constructor. by exists untimed_request, 1%Z.
  - vm_compute. lia.
Defined.
