(* ===== verification/Answers.v ===== *)
(** * Answers belong to their requests

    The result that a handler finds in its job when it is woken comes from the
    exchange of that job's own thread, in every interleaving of System: no client
    gets the result of another one. *)

From S2P Require Import Prelude CxxFloat FloatRound FloatBounds StdAlg ConcurrentDeque Message Client.
From S2P Require Import Job Scheduler SchedulerFacts Algs ScoreFacts AlgFacts ManagedFacts.
From S2P Require Import SchedLoop System SystemCount Shutdown.

#[local] Open Scope Z_scope.

(** [rsp] is what a thread of the job received, on some resources, for the request
    it sent. *)
Definition answered_by (j : Job) (rsp : msg_t) : Prop :=
  ∃ rs port host req stream rest,
    runJob_request (j, rs) = Ret (port, host, req) ∧ runJob_reply req stream = Ret (rsp, rest).

Record results_ok (y : Sys) : Prop := {
  ro_own : ∀ j js rsp, j ∈ clients y → jobStates (sched y) !! jid j = Some js →
    jrsp js = Some rsp → answered_by j rsp;
  ro_queue : ∀ j, j ∈ finishedQ (sched y) →
    ∃ js, jobStates (sched y) !! jid j = Some js ∧ is_Some (jrsp js);
  ro_finished : ∀ id js, jobStates (sched y) !! id = Some js → finished js = true → is_Some (jrsp js)
}.

(** ** Lemmas *)

(** Writes into a job that keep its result and do not finish it. *)
Definition keeps_result (f : JobState → JobState) : Prop :=
  ∀ js, jrsp (f js) = jrsp js ∧ finished (f js) = finished js.

Lemma results_keep s p run cl id f s' p' run' :
  results_ok (MkSys s p run cl) → keeps_result f →
  jobStates s' = jobStates (update_job s id f) → finishedQ s' = finishedQ s →
  results_ok (MkSys s' p' run' cl).
Proof.
  intros [Hown Hq Hfin] Hf E Ef.
  assert (Hl : ∀ k js', jobStates s' !! k = Some js' →
    ∃ js, jobStates s !! k = Some js ∧ jrsp js' = jrsp js ∧ finished js' = finished js).
  { intros k js'. rewrite E. unfold update_job. cbn [set_jobStates jobStates].
    destruct (decide (id = k)) as [->|Hne].
    - rewrite lookup_alter_eq, fmap_Some. intros (js & Hjs & ->). exists js. by split; [|apply Hf].
    - rewrite lookup_alter_ne by done. intros ?. by exists js'. }
  split; cbn [sched clients] in *.
  - intros j js' rsp Hj Hjs Hr. destruct (Hl _ _ Hjs) as (js & Hjs0 & Er & _). rewrite Er in Hr.
    by eapply Hown.
  - intros j. rewrite Ef. intros Hj. destruct (Hq j Hj) as (js & Hjs & Hs). rewrite E.
    unfold update_job. cbn [set_jobStates jobStates]. destruct (decide (id = jid j)) as [->|Hne].
    + rewrite lookup_alter_eq, Hjs. exists (f js). split; [done|]. by rewrite (proj1 (Hf js)).
    + rewrite lookup_alter_ne by done. by exists js.
  - intros k js' Hjs Hf'. destruct (Hl _ _ Hjs) as (js & Hjs0 & Er & Ee). rewrite Er.
    rewrite Ee in Hf'. by eapply Hfin.
Qed.

Lemma results_same s p run cl s' p' run' :
  results_ok (MkSys s p run cl) → jobStates s' = jobStates s → finishedQ s' = finishedQ s →
  results_ok (MkSys s' p' run' cl).
Proof.
  intros [Hown Hq Hfin] E Ef. split; cbn [sched clients] in *; rewrite E; [done| |done].
  by rewrite Ef.
Qed.

Lemma updateResourcePool_jobStates s a s' :
  updateResourcePool s a = Ret s' → jobStates s' = jobStates s.
Proof.
  unfold updateResourcePool. intros H.
  destruct (SFltb (getJLOMetric a) f_zero); [|destruct (SFltb _ (getJLOMetric a)); [|by simplify_eq]].
  - unfold provisionResource, addNewResource in H. inv_ret. done.
  - unfold deprovisionResource in H. destruct (0 <? provisionedResources s)%Z; [|by simplify_eq].
    apply bind_ret_inv in H as ([x pl] & _ & H). by simplify_eq.
Qed.

Section answers.
Context `{Hsort : !StdSort} (adm : msg_t → Prop).
Context (adm_int : ∀ req, adm req → INT_MIN ≤ predictedTimeMillis req ≤ INT_MAX).

Lemma results_submit s p run cl now req j s' :
  inv adm (MkSys s p run cl) → results_ok (MkSys s p run cl) → submit s now req = Ret (j, s') →
  results_ok (MkSys s' p run (j :: cl)).
Proof.
  intros Hi [Hown Hq Hfin] H. destruct (inv_ids _ _ Hi) as [_ Hlt]. rewrite Forall_forall in Hlt.
  unfold submit, getNextId in H. inv_ret. split; cbn [sched clients] in *.
  - intros k js rsp Hk Hjs Hr. simpl in Hjs. apply elem_of_cons in Hk as [->|Hk].
    + cbn in Hjs. rewrite lookup_insert_eq in Hjs. by injection Hjs as <-.
    + specialize (Hlt k Hk). rewrite lookup_insert_ne in Hjs by lia. by eapply Hown.
  - intros k Hk. simpl in *. destruct (Hq k Hk) as (js & Hjs & Hs).
    destruct (inv_clients _ _ Hi) as (dones & Hcl & _). cbn in Hcl.
    specialize (Hlt k). rewrite Hcl in Hlt. unfold active in Hlt. cbn in Hlt.
    specialize (Hlt ltac:(in_app)). rewrite lookup_insert_ne by lia. by exists js.
  - intros id js. simpl. destruct (decide (id = nextJid s)) as [->|Hne].
    + rewrite lookup_insert_eq. by intros [= <-].
    + rewrite lookup_insert_ne by done. by apply Hfin.
Qed.

(** A job thread that ends: its job's result is the reply it received. *)
Lemma runJob_answers s p stream t0 t1 now s' :
  jid (fst p) ∉ jid <$> (runQ s).*1 → runJob s p stream t0 t1 now = Ret s' →
  ∃ rsp, answered_by (fst p) rsp ∧
    s' = set_finishedQ (set_resPool
      (update_job s (jid (fst p)) (record_result rsp t0 t1 now)) (resPool s ++ snd p))
    (fst p :: finishedQ s).
Proof.
  intros Hnin H. unfold runJob in H. apply bind_ret_inv in H as ([[port host] req] & Hreq & H).
  apply bind_ret_inv in H as ([rsp rest] & Hrsp & H). rewrite runJob_finish_effect in H by done.
  injection H as <-. exists rsp. split; [|done]. destruct p as [j rs].
  by exists rs, port, host, req, stream, rest.
Qed.

Lemma results_run s p run1 pr run2 cl stream t0 t1 now s' :
  inv adm (MkSys s p (run1 ++ pr :: run2) cl) → results_ok (MkSys s p (run1 ++ pr :: run2) cl) →
  runJob s pr stream t0 t1 now = Ret s' → results_ok (MkSys s' p (run1 ++ run2) cl).
Proof.
  intros Hi [Hown Hq Hfin] H.
  destruct (runJob_answers s pr stream t0 t1 now s') as (rsp & Hans & ->); [|done|].
  { by eapply running_not_queued. }
  destruct (inv_ids _ _ Hi) as [Hnd _]. destruct (inv_clients _ _ Hi) as (dones & Hcl & _).
  assert (Hin : fst pr ∈ cl).
  { cbn in Hcl. rewrite Hcl. unfold active. cbn [running]. rewrite (fmap_app fst run1). csimpl. in_app. }
  assert (Hst : has_flags s true false (fst pr)).
  { pose proof (inv_started _ _ Hi) as Hs. cbn [sched running] in Hs. rewrite (fmap_app fst run1) in Hs.
    rewrite Forall_forall in Hs. apply Hs. csimpl. in_app. }
  destruct Hst as (js0 & Hjs0 & _ & Hnf).
  split; cbn [sched clients] in *; simpl.
  - intros j js r Hj Hjs Hr. destruct (decide (jid j = jid (fst pr))) as [E|Hne].
    + assert (j = fst pr) as ->.
      { apply list_elem_of_lookup in Hj as [a Ha], Hin as [b Hb].
        assert (a = b) as ->; [|by simplify_eq].
        eapply (NoDup_lookup (jid <$> cl)); [done|by rewrite list_lookup_fmap, Ha|].
        rewrite list_lookup_fmap, Hb, E. done. }
      rewrite lookup_alter_eq, Hjs0 in Hjs. injection Hjs as <-. cbn in Hr. by injection Hr as <-.
    + rewrite lookup_alter_ne in Hjs by done. by eapply Hown.
  - intros j Hj. destruct (decide (jid (fst pr) = jid j)) as [E|Hne].
    + rewrite <-E, lookup_alter_eq, Hjs0. by eexists.
    + rewrite lookup_alter_ne by done. apply elem_of_cons in Hj as [->|Hj]; [done|by apply Hq].
  - intros id js. destruct (decide (jid (fst pr) = id)) as [<-|Hne].
    + rewrite lookup_alter_eq, Hjs0. intros [= <-] _. by eexists.
    + rewrite lookup_alter_ne by done. by apply Hfin.
Qed.

Lemma results_finished s p run cl t u j s' :
  inv adm (MkSys s p run cl) → results_ok (MkSys s p run cl) →
  finishedLoop_iter s t u = Ret (j, s') → results_ok (MkSys s' p run cl).
Proof.
  intros Hi [Hown Hq Hfin] H. unfold finishedLoop_iter in H.
  destruct (finishedQ s) as [|k q] eqn:Eq; [done|]. simpl in H.
  apply bind_ret_inv in H as (js0 & Hd & H). apply bind_ret_inv in H as (s1 & Hs1 & H).
  injection H as <- <-. apply updateStatistics_stats in Hs1 as [st ->].
  destruct (Hq k) as (js1 & Hjs1 & Hsome); [cbn; rewrite Eq; left|]. cbn [sched] in *.
  rewrite Hjs1 in Hd. injection Hd as ->.
  split; cbn [sched clients] in *; simpl.
  - intros j js r Hj Hjs Hr. destruct (decide (jid k = jid j)) as [E|Hne].
    + rewrite E, lookup_alter_eq, <-E, Hjs1 in Hjs. injection Hjs as <-.
      apply (Hown j js0); [done|by rewrite <-E|done].
    + rewrite lookup_alter_ne in Hjs by done. by eapply Hown.
  - intros j Hj. destruct (Hq j) as (js & Hjs & Hs); [rewrite Eq; by right|].
    destruct (decide (jid k = jid j)) as [E|Hne].
    + rewrite E, lookup_alter_eq, Hjs. by eexists.
    + rewrite lookup_alter_ne by done. by exists js.
  - intros id js. destruct (decide (jid k = id)) as [<-|Hne].
    + rewrite lookup_alter_eq, Hjs1. by intros [= <-].
    + rewrite lookup_alter_ne by done. by apply Hfin.
Qed.

Lemma results_plan s run cl alg a s' p' :
  inv adm (MkSys s Idle run cl) → results_ok (MkSys s Idle run cl) → readyQ s ≠ [] →
  (0 < resPoolSize s)%nat → algVec s !! MODE_MANAGED = Some alg → run_alg 1 alg s = Ret (a, s') →
  results_ok (MkSys s' p' run cl).
Proof.
  intros Hi Hr Hne Hpool Halg H. pose proof (inv_sched_wf adm adm_int _ Hi Hne) as Hwf.
  destruct (inv_config _ _ Hi) as (Hcfg & _). cbn [sched] in *. rewrite Hcfg in Halg. injection Halg as <-.
  destruct (managed_returns s a s' Hwf Hcfg Hpool H) as ((pl & -> & _) & _). by eapply results_same.
Qed.

Lemma results_step y y' : inv adm y → results_ok y → step adm y y' → results_ok y'.
Proof.
  intros Hi Hr Hst. destruct Hst.
  - by eapply results_submit.
  - by eapply results_plan.
  - by eapply results_plan.
  - eapply results_same; [exact Hr| |].
    + by eapply updateResourcePool_jobStates.
    + by destruct (updateResourcePool_queues s a s' H) as (_ & _ & -> & _).
  - destruct (serve_effect _ _ _ _ _ _ _ _ _ Hi H H0) as (q & pl & -> & _).
    by apply (results_keep s (Serving a (p :: js)) run cl (jid (fst p)) (setDispatchTime now)).
  - by eapply results_same.
  - destruct (dispatch_starts _ _ _ _ _ _ _ Hi H) as (pr & q & _ & _ & ->).
    by apply (results_keep s pc run cl (jid (fst pr)) (setStarted true)).
  - by destruct (dispatch_starts _ _ _ _ _ _ _ Hi H) as (? & ? & _ & ? & _).
  - by eapply results_run.
  - by eapply results_finished.
  - destruct Hr as [Hown Hq Hfin]. split; try done. cbn [sched clients] in *.
    intros k js' r Hk. apply Hown. apply elem_of_app in Hk as [?|?]; in_app.
Qed.

Lemma reachable_results y : reachable adm y → results_ok y.
Proof.
  induction 1 as [y (port & now & busy & s & Hs & ->)|y y' Hr IH Hst].
  - unfold main_Scheduler in Hs. inv_ret.
    unfold new_Scheduler, provisionResource, addNewResource in E. simpl in E. inv_ret.
    split; cbn.
    + intros j js rsp Hj. by apply elem_of_nil in Hj.
    + intros j Hj. by apply elem_of_nil in Hj.
    + intros id js Hjs. by rewrite lookup_empty in Hjs.
  - eapply results_step; try done. by apply (reachable_inv adm adm_int).
Qed.

End answers.

(** ** Properties *)


(** ** Witnesses *)

(** The run of Shutdown goes on: the job is started, its thread gets a result without
    data, and the finished thread records it. *)
Definition result : msg_t := Msg MSG_RESULT 0 0 0 0 7 0 0 0 0 0 69 0 [].
Definition s6 : Sched := snd (Run.from_ret (None, Run.s0) (dispatcherLoop_iter (sched served))).
Definition s7 : Sched := Run.from_ret Run.s0 (runJob s6 Run.p1 (msg_bytes result) 0 0 0).
Definition s8 : Sched := snd (Run.from_ret (Run.j1, Run.s0) (finishedLoop_iter s7 0 0)).
Definition recorded : Sys := MkSys s8 Idle [] [Run.j1].

Lemma recorded_reachable : reachable int_request recorded.
Proof.
  eapply reachable_step; [eapply reachable_step; [eapply reachable_step; [apply served_reachable|]|]|].
  - apply (step_dispatch int_request (sched served) Idle [] [Run.j1] Run.p1 s6). vm_compute. reflexivity.
  - apply (step_run int_request s6 Idle [] Run.p1 [] [Run.j1] (msg_bytes result) 0 0 0 s7).
    vm_compute. reflexivity.
  - apply (step_finished int_request s7 Idle [] [Run.j1] 0 0 Run.j1 s8). vm_compute. reflexivity.
Qed.

