(* ===== verification/Waiting.v ===== *)
(** * Handlers that wait: System and Handshake composed

    In System a handler answers as soon as its job is finished.  Here it is the
    loop of concurrentHandler: it tests the flag, enters the wait of its condition
    variable, sleeps until the finished thread notifies it, and tests again; the
    finished thread sets the flag of a job and notifies its handler in two steps.
    The composed system refines System, and what one client sees of it refines
    Handshake.  Every client is answered that is not forgotten in the sense of
    Handshake, and one that is about to sleep can be forgotten. *)

From S2P Require Import Prelude CxxFloat FloatRound FloatBounds StdAlg ConcurrentDeque Message.
From S2P Require Import Job Scheduler SchedulerFacts Algs ScoreFacts AlgFacts ManagedFacts SchedLoop.
From S2P Require Import StatsFacts Handshake System SystemCount Liveness Shutdown Answers.

(** ** State *)

Record Full := MkFull {
  base : Sys;
  waits : gmap Z handler_pc;  (** the handlers, by the ids of their jobs *)
  notifying : option Z        (** the job whose flag is set and whose handler is notified next *)
}.

(** [isFinished()] of a job's info. *)
Definition is_set (s : Sched) (id : Z) : bool :=
  match jobStates s !! id with Some js => finished js | None => false end.

(** [notify_all()] for a handler. *)
Definition wake (h : handler_pc) : handler_pc := match h with Asleep => Testing | _ => h end.

(** ** Steps *)

Section waiting.
Context `{Hsort : !StdSort}.
Context (adm : msg_t → Prop).

Inductive full_step : Full → Full → Prop :=
| full_submit s p run cl hs n now req j s' :
    adm req → submit s now req = Ret (j, s') →
    full_step (MkFull (MkSys s p run cl) hs n)
      (MkFull (MkSys s' p run (j :: cl)) (<[jid j := Testing]> hs) n)
| full_move t y y' hs n :
    t ≠ FinishedThread → moves t y y' → full_step (MkFull y hs n) (MkFull y' hs n)
| full_record s p run cl hs now_t now_u j s' :
    finishedLoop_iter s now_t now_u = Ret (j, s') →
    full_step (MkFull (MkSys s p run cl) hs None) (MkFull (MkSys s' p run cl) hs (Some (jid j)))
| full_notify y hs id :
    full_step (MkFull y hs (Some id)) (MkFull y (alter wake id hs) None)
| full_test y hs n j :
    j ∈ clients y → hs !! jid j = Some Testing →
    full_step (MkFull y hs n)
      (MkFull y (<[jid j := if is_set (sched y) (jid j) then Answering else Entering]> hs) n)
| full_enter y hs n j :
    j ∈ clients y → hs !! jid j = Some Entering →
    full_step (MkFull y hs n) (MkFull y (<[jid j := Asleep]> hs) n)
| full_reply s p run cl1 j cl2 hs n :
    hs !! jid j = Some Answering →
    full_step (MkFull (MkSys s p run (cl1 ++ j :: cl2)) hs n)
      (MkFull (MkSys s p run (cl1 ++ cl2)) (delete (jid j) hs) n).

(** A handler that wakes up without a notification. *)
Inductive full_spurious : Full → Full → Prop :=
| spurious_wake y hs n j :
    j ∈ clients y → hs !! jid j = Some Asleep →
    full_spurious (MkFull y hs n) (MkFull y (<[jid j := Testing]> hs) n).

Inductive full_reachable : Full → Prop :=
| full_init y : initial y → full_reachable (MkFull y ∅ None)
| full_next f f' : full_reachable f → full_step f f' ∨ full_spurious f f' → full_reachable f'.

End waiting.

(** ** What one client sees *)

Definition finisher_of (f : Full) (id : Z) : finisher_pc :=
  if is_set (sched (base f)) id
  then if decide (notifying f = Some id) then Notifying else Gone
  else Working.

Definition view (f : Full) (id : Z) : wait_state :=
  MkWait (default Testing (waits f !! id)) (finisher_of f id) (is_set (sched (base f)) id).

(** ** Lemmas: flags *)

Lemma is_set_update s id f id' :
  (∀ js, finished (f js) = finished js) → is_set (update_job s id f) id' = is_set s id'.
Proof.
  intros Hf. unfold is_set, update_job. cbn. destruct (decide (id = id')) as [->|Hne].
  - rewrite lookup_alter_eq. destruct (jobStates s !! id') as [js|]; [|done]. cbn. apply Hf.
  - by rewrite lookup_alter_ne.
Qed.

Lemma is_set_finish s j q st id :
  is_Some (jobStates s !! jid j) →
  is_set (update_job (set_stats (set_finishedQ s q) st) (jid j) (setFinished true)) id =
    bool_decide (id = jid j) || is_set s id.
Proof.
  intros [js Hjs]. unfold is_set, update_job. cbn. case_bool_decide as E.
  - subst. by rewrite lookup_alter_eq, Hjs.
  - by rewrite lookup_alter_ne.
Qed.

(** A job that is recorded: its flag was not set, and it is set now. *)
Lemma finished_effect s p run cl t u j s' :
  inv int_request (MkSys s p run cl) → finishedLoop_iter s t u = Ret (j, s') →
  j ∈ finishedQ s ∧ nextJid s' = nextJid s ∧ is_set s (jid j) = false ∧
  ∀ id, is_set s' id = bool_decide (id = jid j) || is_set s id.
Proof.
  intros Hi H. pose proof (inv_started _ _ Hi) as Hs. cbn [sched running] in Hs.
  unfold finishedLoop_iter in H. destruct (finishedQ s) as [|k q] eqn:Eq; [done|]. simpl in H.
  apply Forall_app in Hs as [_ Hs]. apply Forall_cons in Hs as [(js & Hjs & _ & Hf) _].
  rewrite Hjs in H. simpl in H. apply bind_ret_inv in H as (s1 & Hs1 & H). injection H as <- <-.
  apply updateStatistics_stats in Hs1 as [st ->]. split_and!; [by left|done| |].
  - unfold is_set. by rewrite Hjs.
  - intros id. by apply (is_set_finish s k q st id).
Qed.

Section facts.
Context `{Hsort : !StdSort}.

Lemma plan_keeps s run cl alg a s' id :
  inv int_request (MkSys s Idle run cl) → readyQ s ≠ [] → (0 < resPoolSize s)%nat →
  algVec s !! MODE_MANAGED = Some alg → run_alg 1 alg s = Ret (a, s') →
  nextJid s' = nextJid s ∧ is_set s' id = is_set s id.
Proof.
  intros Hi Hne Hpool Halg Hrun. pose proof (inv_sched_wf int_request (λ _ H, H) _ Hi Hne) as Hwf.
  destruct (inv_config _ _ Hi) as (Hcfg & _). cbn [sched] in *. rewrite Hcfg in Halg.
  injection Halg as <-. by destruct (managed_returns s a s' Hwf Hcfg Hpool Hrun) as ((pl & -> & _) & _).
Qed.

(** The other threads leave the flags and the clients as they are. *)
Lemma moves_keep t y y' :
  inv int_request y → t ≠ FinishedThread → moves t y y' →
  clients y' = clients y ∧ nextJid (sched y') = nextJid (sched y) ∧
  ∀ id, is_set (sched y') id = is_set (sched y) id.
Proof.
  intros Hi Ht Hm. destruct Hm; cbn [clients sched]; (split; [done|]); try done.
  - split; [by eapply (plan_keeps s run cl alg a s' 0)|intros id; by eapply plan_keeps].
  - split; [by eapply (plan_keeps s run cl alg a s' 0)|intros id; by eapply plan_keeps].
  - destruct (updateResourcePool_queues s a s' H) as (_ & _ & _ & -> & _). split; [done|]. intros id. unfold is_set.
    by rewrite (updateResourcePool_jobStates s a s').
  - destruct (serve_effect _ _ _ _ _ _ _ _ _ Hi H H0) as (q & pl & -> & _). split; [done|].
    intros id. by apply (is_set_update (set_resPool (set_readyQ s q) pl)).
  - destruct (dispatch_starts _ _ _ _ _ _ _ Hi H) as (pr & q & _ & _ & ->). split; [done|].
    intros id. by apply (is_set_update (set_runQ s q)).
  - by destruct (dispatch_starts _ _ _ _ _ _ _ Hi H) as (pr & q & _ & ? & _).
  - destruct (runJob_effect s p stream t0 t1 now s') as (rsp & ->).
    { by eapply (running_not_queued int_request). } { done. }
    split; [done|]. intros id. by apply (is_set_update s).
Qed.

(** ** Simulation *)

Context (adm : msg_t → Prop) (adm_int : ∀ req, adm req → int_request req).

(** The notified job is a finished one. *)
Definition notifies_done (f : Full) : Prop :=
  ∀ id, notifying f = Some id →
    is_set (sched (base f)) id = true ∧ (id < nextJid (sched (base f)))%Z.

(** A step is one of System or leaves its state as it is. *)
Lemma base_step f f' :
  (∀ j, j ∈ clients (base f) → wait_inv (view f (jid j))) → full_step adm f f' →
  base f' = base f ∨ step adm (base f) (base f').
Proof.
  intros Hw Hs. destruct Hs; cbn [base] in *; try by left.
  - right. by eapply step_submit.
  - right. by eapply moves_step.
  - right. by eapply step_finished.
  - right. destruct (Hw j) as [_ Ha]; [cbn; in_app|]. unfold view, is_set in Ha. cbn in Ha.
    rewrite H in Ha. specialize (Ha eq_refl).
    destruct (jobStates s !! jid j) as [js|] eqn:Ejs; [|done]. by eapply step_reply.
Qed.

(** What one client sees of a step is a step of Handshake, or nothing. *)
Lemma view_step f f' j :
  inv int_request (base f) → notifies_done f → full_step adm f f' →
  j ∈ clients (base f) → j ∈ clients (base f') →
  view f' (jid j) = view f (jid j) ∨ wait_step (view f (jid j)) (view f' (jid j)).
Proof.
  intros Hi Hn Hs Hj Hj'. destruct Hs; cbn [base clients] in *.
  - (* submit *) left. unfold submit, getNextId in H0. inv_ret. apply int_of_inv in E0 as [-> _].
    destruct (inv_ids _ _ Hi) as [_ Hlt]. cbn [clients sched] in Hlt. rewrite Forall_forall in Hlt.
    assert (Hne : nextJid s ≠ jid j) by (specialize (Hlt j Hj); simpl in Hlt; lia).
    unfold view, finisher_of, is_set. cbn. by rewrite !lookup_insert_ne.
  - left. destruct (moves_keep t y y' Hi H H0) as (_ & _ & Hset).
    unfold view, finisher_of. cbn. by rewrite Hset.
  - destruct (finished_effect _ _ _ _ _ _ _ _ Hi H) as (_ & _ & Hf & Hset).
    unfold view, finisher_of. cbn. rewrite !Hset. case_bool_decide as E; cbn.
    + right. rewrite E, Hf, decide_True by done. constructor.
    + left. rewrite (decide_False (P := Some _ = Some _)) by congruence. done.
  - unfold view, finisher_of. cbn. destruct (decide (id = jid j)) as [->|Hne].
    + right. destruct (Hn (jid j) eq_refl) as [Hset _]. cbn in Hset. rewrite Hset, decide_True by done.
      rewrite lookup_alter_eq. destruct (hs !! jid j) as [h|]; cbn; [apply (wait_notify h true)|apply (wait_notify Testing true)].
    + left. rewrite lookup_alter_ne by done. by rewrite (decide_False (P := Some id = _)) by congruence.
  - unfold view, finisher_of. cbn. destruct (decide (jid j0 = jid j)) as [E|Hne].
    + right. rewrite E, lookup_insert_eq. rewrite E in H0. rewrite H0. cbn. apply wait_test.
    + left. by rewrite lookup_insert_ne.
  - unfold view, finisher_of. cbn. destruct (decide (jid j0 = jid j)) as [E|Hne].
    + right. rewrite E, lookup_insert_eq. rewrite E in H0. rewrite H0. cbn. apply wait_enter.
    + left. by rewrite lookup_insert_ne.
  - left. destruct (inv_ids _ _ Hi) as [Hnd _]. cbn [clients] in Hnd.
    pose proof (NoDup_fmap_ne jid cl1 j0 cl2 j Hnd Hj'). unfold view, finisher_of. cbn.
    by rewrite lookup_delete_ne.
Qed.

(** Every client has a handler, whose state is one of Handshake. *)
Record good (f : Full) : Prop := {
  good_handlers : ∀ j, j ∈ clients (base f) → is_Some (waits f !! jid j);
  good_views : ∀ j, j ∈ clients (base f) → rtc any_step submitted (view f (jid j));
  good_notify : notifies_done f
}.

Lemma good_wait f j : good f → j ∈ clients (base f) → wait_inv (view f (jid j)).
Proof. intros Hg Hj. by apply wait_inv_reachable, (good_views f Hg). Qed.

(** A client that comes with a step has a handler at its first test. *)
Lemma new_client f f' j :
  full_step adm f f' → j ∈ clients (base f') →
  j ∈ clients (base f) ∨ (waits f' !! jid j = Some Testing ∧ view f' (jid j) = submitted).
Proof.
  intros Hs Hj. destruct Hs; cbn [base clients waits] in *; try (by left).
  - apply elem_of_cons in Hj as [->|Hj]; [right|by left].
    unfold submit, getNextId in H0. inv_ret. unfold view, finisher_of, is_set. cbn.
    by rewrite !lookup_insert_eq.
  - left. pose proof (moves_step adm _ _ _ H0) as Hst. by destruct H0.
  - left. rewrite !elem_of_app in *. set_solver.
Qed.

Lemma handlers_step f f' :
  inv int_request (base f) → full_step adm f f' → good f →
  ∀ j, j ∈ clients (base f') → is_Some (waits f' !! jid j).
Proof.
  intros Hi Hs Hg j Hj. destruct (new_client f f' j Hs Hj) as [Hold|[Hn _]]; [|by rewrite Hn].
  pose proof (good_handlers f Hg j Hold) as Hh.
  destruct Hs; cbn [base clients waits] in *; try done.
  - apply lookup_insert_is_Some'. by right.
  - by apply lookup_alter_is_Some.
  - apply lookup_insert_is_Some'. by right.
  - apply lookup_insert_is_Some'. by right.
  - destruct (inv_ids _ _ Hi) as [Hnd _]. cbn [clients] in Hnd.
    pose proof (NoDup_fmap_ne jid cl1 j0 cl2 j Hnd Hj). by rewrite lookup_delete_ne.
Qed.

Lemma notify_step f f' :
  inv int_request (base f) → full_step adm f f' → notifies_done f → notifies_done f'.
Proof.
  intros Hi Hs Hn id Hid. destruct Hs; cbn [notifying base sched] in *;
    try (exact (Hn id Hid)); try done.
  - unfold submit, getNextId in H0. inv_ret. apply int_of_inv in E0 as [-> _].
    destruct (Hn id eq_refl) as [Hset Hlt]. cbn [base sched] in Hset, Hlt. cbn. split; [|lia].
    unfold is_set in *. cbn. by rewrite lookup_insert_ne by lia.
  - destruct (moves_keep t y y' Hi H H0) as (_ & -> & ->). exact (Hn id Hid).
  - destruct (finished_effect _ _ _ _ _ _ _ _ Hi H) as (Hj & -> & _ & ->). injection Hid as <-.
    split; [by rewrite bool_decide_true|]. destruct (inv_ids _ _ Hi) as [_ Hlt].
    rewrite Forall_forall in Hlt. apply Hlt. destruct (inv_clients _ _ Hi) as (dones & -> & _).
    unfold active. cbn [sched]. in_app.
Qed.

Lemma good_step f f' :
  inv int_request (base f) → full_step adm f f' → good f → good f'.
Proof.
  intros Hi Hs Hg. split.
  - by apply (handlers_step f).
  - intros j Hj. destruct (new_client f f' j Hs Hj) as [Hold|[_ ->]]; [|done].
    pose proof (good_views f Hg j Hold) as Hv.
    destruct (view_step f f' j Hi (good_notify f Hg) Hs Hold Hj) as [->|Hst]; [done|].
    eapply rtc_r; [exact Hv|by left].
  - by apply (notify_step f), Hg.
Qed.

Lemma good_spurious f f' : full_spurious f f' → good f → base f' = base f ∧ good f'.
Proof.
  intros Hs Hg. destruct Hs. split; [done|]. split; [| |exact (good_notify _ Hg)]; cbn [base waits].
  - intros k Hk. apply lookup_insert_is_Some'. right. by apply (good_handlers _ Hg).
  - intros k Hk. pose proof (good_views _ Hg k Hk) as Hv. unfold view, finisher_of in *. cbn in *.
    destruct (decide (jid j = jid k)) as [E|Hne]; [|by rewrite lookup_insert_ne].
    rewrite E, lookup_insert_eq. rewrite E in H0. rewrite H0 in Hv. cbn in *.
    eapply rtc_r; [exact Hv|]. right. constructor.
Qed.

Lemma full_reachable_good f : full_reachable adm f → reachable adm (base f) ∧ good f.
Proof.
  induction 1 as [y Hy|f f' Hr [IHr IHg] [Hs|Hs]].
  - split; [by constructor|]. destruct Hy as (port & now & busy & s & _ & ->).
    split; [by intros j Hj%elem_of_nil..|by intros id].
  - assert (Hi : inv int_request (base f)) by
      (by apply (reachable_inv int_request (λ _ H, H)), (reachable_mono adm)).
    split; [|by apply (good_step f)].
    destruct (base_step f f') as [->|Hst]; [|done..|by apply (reachable_step _ (base f))].
    intros j. by apply good_wait.
  - destruct (good_spurious f f' Hs IHg) as [-> Hg]. done.
Qed.


(** A client leaves by its answer only. *)
Lemma leaving_client f f' j :
  full_step adm f f' → j ∈ clients (base f) → j ∉ clients (base f') →
  waits f !! jid j = Some Answering.
Proof.
  intros Hs Hj Hj'. destruct Hs; cbn [base clients waits] in *; try done.
  - by destruct Hj'; right.
  - by destruct H0.
  - assert (j = j0) as ->; [|done]. rewrite elem_of_app, elem_of_cons in Hj.
    rewrite elem_of_app in Hj'. naive_solver.
Qed.

(** A forgotten client is not answered. *)
Lemma forgotten_client f f' j :
  inv int_request (base f) → good f → full_step adm f f' → j ∈ clients (base f) →
  forgotten (view f (jid j)) → j ∈ clients (base f') ∧ forgotten (view f' (jid j)).
Proof.
  intros Hi Hg Hs Hj Hf.
  assert (Hj' : j ∈ clients (base f')).
  { destruct (decide (j ∈ clients (base f'))) as [|Hn]; [done|].
    pose proof (leaving_client f f' j Hs Hj Hn) as Ha. destruct Hf as [_ Hh]. unfold view in Hh.
    cbn in Hh. rewrite Ha in Hh. by destruct Hh. }
  split; [done|]. destruct (view_step f f' j Hi (good_notify f Hg) Hs Hj Hj') as [->|Hst]; [done|].
  by eapply forgotten_step.
Qed.

End facts.

Lemma full_step_mono `{Hsort : !StdSort} (adm adm' : msg_t → Prop) f f' :
  (∀ req, adm req → adm' req) → full_step adm f f' → full_step adm' f f'.
Proof.
  intros Hm Hs. destruct Hs; [by eapply full_submit; eauto|by eapply full_move
    |by eapply full_record|by eapply full_notify|by eapply full_test|by eapply full_enter
    |by eapply full_reply].
Qed.

(** ** Executions in which every thread succeeds *)

Section live.
Context `{Hsort : !StdSort}.

Inductive full_live : Full → Prop :=
| full_live_init port now busy s :
    clock now → busy_ok busy → main_Scheduler port now busy = Ret s → full_live (MkFull (MkSys s Idle [] []) ∅ None)
| full_live_next f f' :
    full_live f → full_step live_request f f' ∨ full_spurious f f' → mild (base f') → full_live f'.

(** The states of such executions. *)
Record sound (f : Full) : Prop := {
  sound_live : live (base f);
  sound_mild : mild (base f);
  sound_good : good f
}.

Lemma sound_inv f : sound f → inv int_request (base f).
Proof. intros Hs. eapply inv_mono, lv_inv, Hs. apply live_int. Qed.

Lemma sound_step f f' : sound f → full_step live_request f f' → mild (base f') → sound f'.
Proof.
  intros Hf Hs Hm. split; [|done|].
  - destruct (base_step live_request f f') as [->|Hst]; [|done|apply Hf|].
    + intros j. by apply good_wait, Hf.
    + by apply (live_step (base f)); [apply Hf..|].
  - apply (good_step live_request live_int f); [by apply sound_inv|done|apply Hf].
Qed.

Lemma full_live_sound f : full_live f → sound f.
Proof.
  induction 1 as [port now busy s Hnow Hb Hs|f f' _ IH [Hs|Hs] Hm].
  - destruct (live_initial port now busy s Hnow Hb Hs). split; try done.
    split; [by intros j Hj%elem_of_nil..|by intros id].
  - by apply (sound_step f).
  - destruct (good_spurious f f' Hs (sound_good _ IH)) as [E Hg]. split; [rewrite E; apply IH|done..].
Qed.

(** Steps without new submissions and without spurious wake-ups. *)
Definition full_drain (f f' : Full) : Prop := full_step (λ _, False) f f' ∧ mild (base f').

Lemma full_drain_step f f' : full_drain f f' → full_step live_request f f'.
Proof. intros [Hs _]. by eapply full_step_mono, Hs. Qed.

Lemma full_drain_sound f f' : sound f → full_drain f f' → sound f'.
Proof. intros Hf Hd. apply (sound_step f); [done|by apply full_drain_step|apply Hd]. Qed.

(** *** A measure *)

(** The steps a handler can make before it is notified or answers. *)
Definition weight (h : handler_pc) : nat :=
  match h with Testing => 2 | Entering => 1 | Asleep | Answering => 0 end.

Definition handler_of (hs : gmap Z handler_pc) (j : Job) : handler_pc := default Testing (hs !! jid j).

Definition weights (hs : gmap Z handler_pc) (cl : list Job) : nat :=
  sum_list_with (λ j, weight (handler_of hs j)) cl.

Definition full_remaining (f : Full) : Z :=
  (4 * remaining (base f) + Z.of_nat (weights (waits f) (clients (base f))) +
   match notifying f with Some _ => 3 | None => 0 end)%Z.

Lemma weights_bound hs cl : (weights hs cl ≤ 2 * length cl)%nat.
Proof.
  unfold weights. induction cl as [|j cl IH]; [done|]. cbn.
  destruct (handler_of hs j); cbn; lia.
Qed.

Lemma weights_ext hs hs' cl :
  (∀ j, j ∈ cl → handler_of hs' j = handler_of hs j) → weights hs' cl = weights hs cl.
Proof.
  unfold weights. induction cl as [|j cl IH]; intros H; [done|]. cbn.
  rewrite (H j) by (by left). rewrite IH; [done|]. intros k Hk. apply H. by right.
Qed.

Lemma handler_of_insert hs id h j :
  handler_of (<[id := h]> hs) j = if decide (id = jid j) then h else handler_of hs j.
Proof.
  unfold handler_of. case_decide as E; [by rewrite E, lookup_insert_eq|by rewrite lookup_insert_ne].
Qed.

Lemma weights_le hs hs' cl :
  (∀ j, weight (handler_of hs' j) ≤ weight (handler_of hs j))%nat → (weights hs' cl ≤ weights hs cl)%nat.
Proof.
  intros H. unfold weights. induction cl as [|j cl IH]; [done|]. cbn. specialize (H j). lia.
Qed.

Lemma weights_app hs l1 l2 : weights hs (l1 ++ l2) = (weights hs l1 + weights hs l2)%nat.
Proof. apply sum_list_with_app. Qed.

(** A handler of one client moves on. *)
Lemma weights_insert hs h h' j cl :
  j ∈ cl → hs !! jid j = Some h → (weight h' < weight h)%nat →
  (weights (<[jid j := h']> hs) cl < weights hs cl)%nat.
Proof.
  intros Hj Hh Hlt. apply list_elem_of_split in Hj as (l1 & l2 & ->).
  assert (Hold : handler_of hs j = h) by (unfold handler_of; by rewrite Hh).
  assert (Hle : ∀ k, (weight (handler_of (<[jid j := h']> hs) k) ≤ weight (handler_of hs k))%nat).
  { intros k. rewrite handler_of_insert. case_decide as E; [|done].
    assert (handler_of hs k = h) as -> by (unfold handler_of; by rewrite <-E, Hh). lia. }
  pose proof (weights_le _ _ l1 Hle). pose proof (weights_le _ _ l2 Hle).
  assert (Hnew : handler_of (<[jid j := h']> hs) j = h')
    by (by rewrite handler_of_insert, decide_True).
  rewrite !weights_app. unfold weights in *. cbn. rewrite Hold, Hnew. lia.
Qed.

(** At most one handler is woken. *)
Lemma weights_alter hs id cl :
  NoDup (jid <$> cl) → (weights (alter wake id hs) cl ≤ weights hs cl + 2)%nat.
Proof.
  assert (Hother : ∀ j, jid j ≠ id → handler_of (alter wake id hs) j = handler_of hs j).
  { intros j Hj. unfold handler_of. by rewrite lookup_alter_ne. }
  unfold weights. induction cl as [|j cl IH]; intros Hnd; [cbn; lia|].
  rewrite fmap_cons in Hnd. apply NoDup_cons in Hnd as [Hj Hnd]. cbn.
  destruct (decide (jid j = id)) as [E|Hne].
  - assert (Hsame : weights (alter wake id hs) cl = weights hs cl).
    { apply weights_ext. intros k Hk. apply Hother. intros Hk'. apply Hj. rewrite E, <-Hk'.
      by apply list_elem_of_fmap_2. }
    unfold weights in Hsame. rewrite Hsame. destruct (handler_of (alter wake id hs) j); cbn; lia.
  - rewrite Hother by done. specialize (IH Hnd). lia.
Qed.

Lemma full_remaining_bounds f :
  sound f → (0 ≤ full_remaining f ≤ 34 * Z.of_nat (length (clients (base f))) + 11)%Z.
Proof.
  intros Hf. pose proof (remaining_bounds (base f) (sound_live f Hf)).
  pose proof (weights_bound (waits f) (clients (base f))). unfold full_remaining.
  destruct (notifying f); lia.
Qed.

Lemma full_remaining_decreases f f' :
  sound f → full_drain f f' → (full_remaining f' < full_remaining f)%Z.
Proof.
  intros Hf [Hs Hm]. pose proof (sound_inv f Hf) as Hi. destruct (inv_ids _ _ Hi) as [Hnd _].
  assert (Hbase : step (λ _, False) (base f) (base f') → (remaining (base f') < remaining (base f))%Z).
  { intros Hst. by apply remaining_decreases; [apply Hf..|]. }
  pose proof (base_step (λ _, False) f f' (λ j, good_wait f j (sound_good f Hf)) Hs) as Hb.
  unfold full_remaining. destruct Hs; cbn [base waits notifying clients] in *; try done.
  - destruct (moves_keep t y y' Hi H H0) as (-> & _).
    pose proof (Hbase (moves_step _ _ _ _ H0)). lia.
  - pose proof (Hbase (step_finished _ _ _ _ _ _ _ _ _ H)). lia.
  - pose proof (weights_alter hs id (clients y) Hnd). lia.
  - assert (weights (<[jid j := if is_set (sched y) (jid j) then Answering else Entering]> hs) (clients y)
      < weights hs (clients y))%nat; [|lia].
    apply (weights_insert hs Testing); try done. destruct (is_set _ _); cbn; lia.
  - assert (weights (<[jid j := Asleep]> hs) (clients y) < weights hs (clients y))%nat; [|lia].
    apply (weights_insert hs Entering); try done. cbn. lia.
  - destruct Hb as [Hb|Hb].
    { apply (f_equal (length ∘ clients)) in Hb. cbn in Hb. rewrite !length_app in Hb. cbn in Hb. lia. }
    specialize (Hbase Hb). rewrite (weights_ext hs (delete (jid j) hs)).
    + rewrite !weights_app. unfold weights. cbn. lia.
    + intros k Hk. unfold handler_of. rewrite lookup_delete_ne; [done|].
      intros E. by apply (NoDup_fmap_ne jid cl1 j cl2 k Hnd Hk).
Qed.

(** *** Progress *)

Lemma thread_drain_moves y y' : thread_drain y y' → ∃ t, moves t y y'.
Proof.
  intros [[Hs _] Hc]. destruct Hs; cbn [clients] in Hc; try by (eexists; econstructor).
  - done.
  - apply (f_equal length) in Hc. rewrite !length_app in Hc. cbn in Hc. lia.
Qed.

(** The threads of the composed system can step as long as a job is not finished
    or a notification is due. *)
Lemma threads_progress f :
  sound f → notifying f ≠ None ∨ active (base f) ≠ [] →
  ∃ f', full_drain f f' ∧ clients (base f') = clients (base f) ∧
    ∀ id, (waits f' !! id = waits f !! id ∧ (finisher_of f' id = Gone → finisher_of f id = Gone)) ∨
      (notifying f = Some id ∧ waits f' !! id = wake <$> waits f !! id).
Proof.
  intros Hf Hact. destruct f as [y hs [id|]].
  - exists (MkFull y (alter wake id hs) None). split; [split; [constructor|apply Hf]|].
    split; [done|]. intros k. cbn [waits notifying]. destruct (decide (id = k)) as [->|Hne].
    + right. by rewrite lookup_alter_eq.
    + left. rewrite lookup_alter_ne by done. split; [done|]. unfold finisher_of. cbn.
      by rewrite (decide_False (P := Some id = _)) by congruence.
  - destruct Hact as [?|Hact]; [done|]. cbn [base] in Hact.
    destruct (progress_threads y (sound_live _ Hf) (sound_mild _ Hf)) as (y' & Hd); [by right|].
    destruct (thread_drain_moves y y' Hd) as [t Hm]. destruct Hd as [[_ Hmild] Hc].
    pose proof (sound_inv _ Hf) as Hi. destruct (decide (t = FinishedThread)) as [->|Ht].
    + inversion Hm; subst.
      destruct (finished_effect _ _ _ _ _ _ _ _ Hi H) as (_ & _ & _ & Hset).
      eexists. split; [split; [by eapply full_record|done]|]. split; [done|]. intros k. left.
      split; [done|]. unfold finisher_of. cbn. rewrite Hset. case_bool_decide as E; cbn.
      * by rewrite decide_True by congruence.
      * by rewrite decide_False by congruence.
    + destruct (moves_keep t y y' Hi Ht Hm) as (_ & _ & Hset).
      exists (MkFull y' hs None). split; [split; [by eapply full_move|done]|]. split; [done|].
      intros k. left. split; [done|]. unfold finisher_of. cbn. by rewrite Hset.
Qed.

(** No client is forgotten by a step that was not before. *)
Definition forgets_none (f f' : Full) : Prop :=
  ∀ k, k ∈ clients (base f') → forgotten (view f' (jid k)) → forgotten (view f (jid k)).

Lemma forgets_none_insert y hs n j h :
  let f' := MkFull y (<[jid j := h]> hs) n in
  ¬ forgotten (view f' (jid j)) → forgets_none (MkFull y hs n) f'.
Proof.
  intros f' Hn k _ Hk. destruct (decide (jid j = jid k)) as [E|Hne]; [by rewrite E in Hn|].
  unfold f', view, finisher_of in Hk. cbn in Hk. by rewrite lookup_insert_ne in Hk.
Qed.

Lemma test_careful f j :
  sound f → j ∈ clients (base f) → waits f !! jid j = Some Testing →
  ∃ f', full_drain f f' ∧ forgets_none f f'.
Proof.
  intros Hf Hj Hh. pose proof (sound_mild f Hf). destruct f as [y hs n]. cbn in *.
  eexists. split; [split; [by apply full_test|done]|]. apply forgets_none_insert.
  unfold view, finisher_of, forgotten. cbn. rewrite lookup_insert_eq. cbn.
  destruct (is_set (sched y) (jid j)); naive_solver.
Qed.

Lemma enter_careful f j :
  sound f → j ∈ clients (base f) → waits f !! jid j = Some Entering → ¬ forgotten (view f (jid j)) →
  ∃ f', full_drain f f' ∧ forgets_none f f'.
Proof.
  intros Hf Hj Hh Hn. pose proof (sound_mild f Hf). destruct f as [y hs n]. cbn in *.
  eexists. split; [split; [by apply full_enter|done]|]. apply forgets_none_insert.
  unfold view, finisher_of, forgotten in *. cbn in *. rewrite lookup_insert_eq. rewrite Hh in Hn.
  cbn in *. naive_solver.
Qed.

Lemma reply_careful f j :
  sound f → j ∈ clients (base f) → waits f !! jid j = Some Answering →
  ∃ f', full_drain f f' ∧ forgets_none f f'.
Proof.
  intros Hf Hj Hh. pose proof (sound_mild f Hf) as Hm. pose proof (sound_inv f Hf) as Hi.
  destruct (inv_ids _ _ Hi) as [Hnd _]. destruct f as [[s p run cl] hs n]. cbn in *.
  apply list_elem_of_split in Hj as (l1 & l2 & ->).
  eexists. split; [split; [by apply full_reply|exact Hm]|]. intros k Hk. cbn [base clients] in Hk.
  pose proof (NoDup_fmap_ne jid l1 j l2 k Hnd Hk). unfold view, finisher_of. cbn.
  by rewrite lookup_delete_ne.
Qed.

Lemma threads_careful f :
  sound f → notifying f ≠ None ∨ active (base f) ≠ [] →
  (∀ k, k ∈ clients (base f) → notifying f = Some (jid k) → waits f !! jid k ≠ Some Entering) →
  ∃ f', full_drain f f' ∧ forgets_none f f'.
Proof.
  intros Hf Hact Hno. destruct (threads_progress f Hf Hact) as (f' & Hd & Hc & Hk).
  exists f'. split; [done|]. intros k Hin [Hgone Hh]. rewrite Hc in Hin. unfold view in *. cbn in *.
  destruct (Hk (jid k)) as [[Hw Hg]|[Hn Hw]].
  - rewrite Hw in Hh. split; [by apply Hg|done].
  - exfalso. destruct (good_handlers f (sound_good f Hf) k Hin) as [h E]. specialize (Hno k Hin Hn).
    rewrite Hw, E in Hh. rewrite E in Hno. destruct h; cbn in Hh; naive_solver.
Qed.

(** As long as a client is not forgotten some step brings the answers closer. *)
Lemma careful_step f j :
  sound f → j ∈ clients (base f) → ¬ forgotten (view f (jid j)) →
  ∃ f', full_drain f f' ∧ forgets_none f f'.
Proof.
  intros Hf Hj Hn. destruct (good_handlers f (sound_good f Hf) j Hj) as [h Hh].
  destruct h; [by eapply test_careful|by eapply enter_careful| |by eapply reply_careful].
  destruct (decide (Exists (λ k, notifying f = Some (jid k) ∧ waits f !! jid k = Some Entering)
    (clients (base f)))) as [He|He].
  - apply Exists_exists in He as (k & Hk & Hnk & Hwk). apply (enter_careful f k); try done.
    intros [Hg _]. unfold view, finisher_of in Hg. cbn in Hg.
    rewrite (decide_True (P := notifying f = _)) in Hg by done. by destruct (is_set _ _).
  - apply threads_careful; [done| |].
    + destruct (notifying f) as [id|] eqn:En; [by left|right]. intros Ha.
      pose proof (finished_clients _ (sound_live f Hf) Ha) as Hd. rewrite Forall_forall in Hd.
      destruct (Hd j Hj) as (js & Hjs & Hfin). apply Hn. unfold forgotten, view, finisher_of, is_set.
      cbn. rewrite Hjs, Hfin, En, Hh. cbn. auto.
    + intros k Hk Hnk Hwk. apply He, Exists_exists. by exists k.
Qed.

(** *** Runs *)

Lemma full_drains f n g :
  sound f → nsteps full_drain n f g →
  sound g ∧ (full_remaining g + Z.of_nat n ≤ full_remaining f)%Z.
Proof.
  intros Hf Hn. induction Hn as [f|n f w g Hs Hn IH]; [split; [done|lia]|].
  pose proof (full_remaining_decreases f w Hf Hs). destruct (IH (full_drain_sound f w Hf Hs)).
  split; [done|lia].
Qed.

Lemma drain_clients f f' j :
  full_drain f f' → j ∈ clients (base f') → j ∈ clients (base f).
Proof.
  intros [Hs _] Hj. destruct Hs; cbn [base clients] in *; try done.
  - by destruct H0.
  - rewrite elem_of_app in Hj. rewrite elem_of_app, elem_of_cons. tauto.
Qed.

Lemma forgotten_or f :
  (∀ j, j ∈ clients (base f) → forgotten (view f (jid j))) ∨
  ∃ j, j ∈ clients (base f) ∧ ¬ forgotten (view f (jid j)).
Proof.
  destruct (decide (Forall (λ j, forgotten (view f (jid j))) (clients (base f)))) as [Ha|Ha].
  - left. by apply Forall_forall.
  - right. apply not_Forall_Exists in Ha; [|apply _]. by apply Exists_exists in Ha.
Qed.

(** Every client that is not forgotten is answered in some run. *)
Lemma careful_run k : ∀ f, (full_remaining f ≤ Z.of_nat k)%Z → sound f →
  ∃ g, rtc full_drain f g ∧
    ∀ j, j ∈ clients (base g) → j ∈ clients (base f) ∧ forgotten (view f (jid j)).
Proof.
  induction k as [|k IH]; intros f Hk Hf;
    (destruct (forgotten_or f) as [Ha|(j & Hj & Hn)]; [exists f; by split; [|split; auto]|]);
    destruct (careful_step f j Hf Hj Hn) as (f' & Hd & Hno);
    pose proof (full_drain_sound f f' Hf Hd) as Hf'; pose proof (full_remaining_decreases f f' Hf Hd).
  - pose proof (full_remaining_bounds f' Hf'). lia.
  - destruct (IH f' ltac:(lia) Hf') as (g & Hg & Hcl). exists g. split; [by eapply rtc_l|].
    intros i Hi. destruct (Hcl i Hi) as [Hi' Hfi]. split; [by eapply drain_clients|by apply Hno].
Qed.

Lemma forgotten_run f g j :
  sound f → rtc full_drain f g → j ∈ clients (base f) → forgotten (view f (jid j)) →
  j ∈ clients (base g) ∧ forgotten (view g (jid j)).
Proof.
  intros Hf Hr Hj Hn. induction Hr as [|f f' g Hd _ IH]; [done|].
  destruct (forgotten_client live_request f f' j) as [Hj' Hn']; try done.
  - by apply sound_inv.
  - apply Hf.
  - by apply full_drain_step.
  - apply IH; [by eapply full_drain_sound|done..].
Qed.

(** All jobs can be finished and all notifications sent while a handler that is
    about to wait does not move. *)
Lemma settle k j : ∀ f, (full_remaining f ≤ Z.of_nat k)%Z → sound f →
  waits f !! jid j = Some Entering →
  ∃ g, rtc full_drain f g ∧ sound g ∧ active (base g) = [] ∧ notifying g = None ∧
    clients (base g) = clients (base f) ∧ waits g !! jid j = Some Entering.
Proof.
  induction k as [|k IH]; intros f Hk Hf Hw;
    (destruct (decide (notifying f = None ∧ active (base f) = [])) as [[Hn Ha]|Hna]; [by exists f|]);
    (destruct (threads_progress f Hf) as (f' & Hd & Hc & Hh);
      [destruct (decide (notifying f = None)); [right; tauto|by left]|]);
    pose proof (full_drain_sound f f' Hf Hd) as Hf'; pose proof (full_remaining_decreases f f' Hf Hd).
  - pose proof (full_remaining_bounds f' Hf'). lia.
  - destruct (IH f' ltac:(lia) Hf') as (g & Hg & Hsg & Ha & Hn & Hcg & Hwg).
    { destruct (Hh (jid j)) as [[-> _]|[_ ->]]; [done|by rewrite Hw]. }
    exists g. rewrite <-Hc. split_and!; try done. by eapply rtc_l.
Qed.

(** ** Properties *)

(** C5: the composed system implements System and, for each client, Handshake.  In
    every reachable state with handlers that test, wait and are notified: the shared
    state is a reachable state of System; what each client sees is a reachable state
    of Handshake; every step of the composed system is a step of System or leaves its
    state as it is, and for each client that stays a step of Handshake or none; and a
    client leaves only when its handler is past its loop and its job is finished. *)
Theorem waiting_refines adm f :
  (∀ req, adm req → int_request req) → full_reachable adm f →
  reachable adm (base f) ∧
  (∀ j, j ∈ clients (base f) → rtc any_step submitted (view f (jid j))) ∧
  ∀ f', full_step adm f f' →
    (base f' = base f ∨ step adm (base f) (base f')) ∧
    ∀ j, j ∈ clients (base f) →
      (j ∈ clients (base f') ∧
        (view f' (jid j) = view f (jid j) ∨ wait_step (view f (jid j)) (view f' (jid j)))) ∨
      (j ∉ clients (base f') ∧ handler (view f (jid j)) = Answering ∧
        is_finished (view f (jid j)) = true).
Proof.
  intros Hadm Hr. destruct (full_reachable_good adm Hadm f Hr) as [Hb Hg].
  assert (Hi : inv int_request (base f)) by
    (by apply (reachable_inv int_request (λ _ H, H)), (reachable_mono adm)).
  split_and!; [done|apply Hg|]. intros f' Hs. split.
  - apply (base_step adm); [|done]. intros j. by apply good_wait.
  - intros j Hj. destruct (decide (j ∈ clients (base f'))) as [Hj'|Hj']; [left|right].
    + split; [done|]. by apply (view_step adm f f' j Hi (good_notify f Hg)).
    + pose proof (leaving_client adm f f' j Hs Hj Hj') as Hw.
      destruct (good_wait f j Hg Hj) as [_ Ha]. unfold view in *. cbn in *. rewrite Hw in *. auto.
Qed.

(** C6: every client that is not forgotten is answered.  In the executions of
    [system_answers], now with handlers that wait: at most 34 n + 11 steps are possible
    without a new submission, n being the number of clients; as long as a client is
    not forgotten some thread or handler can make a step; and there is a run after
    which exactly the clients that were forgotten at its start still wait. *)
Theorem waiting_answers f :
  full_live f →
  (∀ n g, nsteps full_drain n f g →
    (n ≤ 34 * length (clients (base f)) + 11)%nat ∧
    ((∃ j, j ∈ clients (base g) ∧ ¬ forgotten (view g (jid j))) → ∃ g', full_drain g g')) ∧
  ∃ g, rtc full_drain f g ∧
    ∀ j, j ∈ clients (base g) ↔ j ∈ clients (base f) ∧ forgotten (view f (jid j)).
Proof.
  intros Hl. pose proof (full_live_sound f Hl) as Hf. pose proof (full_remaining_bounds f Hf). split.
  - intros n g Hn. destruct (full_drains f n g Hf Hn) as [Hg Hle].
    pose proof (full_remaining_bounds g Hg). split; [lia|]. intros (j & Hj & Hnf).
    destruct (careful_step g j Hg Hj Hnf) as (g' & ? & _). by exists g'.
  - destruct (careful_run (Z.to_nat (full_remaining f)) f) as (g & Hg & Hcl); [lia|done|].
    exists g. split; [done|]. intros j. split; [apply Hcl|]. intros [Hj Hn].
    by apply (forgotten_run f g j).
Qed.

(** C37: a client can wait for ever for a finished job.  In the same executions,
    whenever a handler has found its job unfinished and is about to wait, there is a run
    in which its job is finished and notified before it waits; from then on the
    client is still waiting after every sequence of steps, new submissions included,
    until a spurious wake-up. *)
Theorem waiting_can_forget f j :
  full_live f → j ∈ clients (base f) → handler (view f (jid j)) = Entering →
  is_finished (view f (jid j)) = false →
  ∃ g, rtc full_drain f g ∧ forgotten (view g (jid j)) ∧ is_finished (view g (jid j)) = true ∧
    ∀ g', rtc (full_step live_request) g g' → j ∈ clients (base g') ∧ forgotten (view g' (jid j)).
Proof.
  intros Hl Hj Hh Hs. pose proof (full_live_sound f Hl) as Hf.
  pose proof (full_remaining_bounds f Hf) as Hb.
  destruct (good_handlers f (sound_good f Hf) j Hj) as [h Hw]. unfold view in Hh. cbn in Hh.
  rewrite Hw in Hh. cbn in Hh. subst h.
  destruct (settle (Z.to_nat (full_remaining f)) j f) as (g & Hg & Hsg & Ha & Hn & Hc & Hwg); [lia|done..|].
  pose proof (finished_clients _ (sound_live g Hsg) Ha) as Hd. rewrite Hc, Forall_forall in Hd.
  destruct (Hd j Hj) as (js & Hjs & Hfin).
  assert (Hset : is_set (sched (base g)) (jid j) = true) by (unfold is_set; by rewrite Hjs).
  assert (Hfor : forgotten (view g (jid j))).
  { unfold forgotten, view, finisher_of. cbn. rewrite Hset, Hn, Hwg. cbn. auto. }
  exists g. split_and!; try done. intros g' Hr. rewrite <-Hc in Hj.
  pose proof (sound_inv g Hsg) as Hi. pose proof (sound_good g Hsg) as Hgood.
  clear -Hr Hj Hfor Hi Hgood. induction Hr as [|g g1 g2 Hst _ IH]; [done|].
  destruct (forgotten_client live_request g g1 j Hi Hgood Hst Hj Hfor) as [Hj1 Hf1].
  apply IH; try done; [|by apply (good_step live_request live_int g)].
  destruct (base_step live_request g g1) as [->|Hs]; [|done..|].
  - intros k. by apply good_wait.
  - eapply inv_step, step_mono, Hs; [apply (λ _ H, H)|exact Hi|apply live_int].
Qed.

End live.

(** ** Witnesses *)

(** The client of Liveness, whose handler tests its flag, and then is about to wait. *)
Definition one_testing : Full := MkFull live_waiting (<[jid live_job := Testing]> ∅) None.
Definition one_entering : Full :=
  MkFull live_waiting (<[jid live_job := Entering]> (waits one_testing)) None.

Lemma live_waiting_mild : mild live_waiting.
Proof. by apply live_reachable_live, live_waiting_reachable. Qed.

Lemma one_submitted : full_step live_request (MkFull Run.y0 ∅ None) one_testing.
Proof.
  apply (full_submit live_request Run.s0 Idle [] [] ∅ None 0 live_req live_job live_sched).
  - repeat split; vm_compute; discriminate.
  - vm_compute. reflexivity.
Qed.

Lemma one_testing_live : full_live one_testing.
Proof.
  apply full_live_next with (MkFull Run.y0 ∅ None); [|left; exact one_submitted|exact live_waiting_mild].
  apply (full_live_init 8111 0 f_zero); [done|by split|]. vm_compute. reflexivity.
Qed.

Lemma one_entering_live : full_live one_entering.
Proof.
  apply full_live_next with one_testing; [exact one_testing_live| |exact live_waiting_mild].
  left. apply (full_test live_request live_waiting (waits one_testing) None live_job); [left|].
  vm_compute. reflexivity.
Qed.

Lemma waiting_refines_witness :
  reachable live_request live_waiting ∧ rtc any_step submitted (view one_testing (jid live_job)).
Proof.
  destruct (waiting_refines live_request one_testing live_int) as (H1 & H2 & _).
  - apply full_next with (MkFull Run.y0 ∅ None); [|left; exact one_submitted].
    apply full_init. exists 8111%Z, 0%Z, f_zero, Run.s0. split; [vm_compute; reflexivity|reflexivity].
  - split; [exact H1|]. apply H2. left.
Defined.

Lemma waiting_answers_witness :
  ∃ g, rtc full_drain one_entering g ∧ live_job ∉ clients (base g).
Proof.
  destruct (waiting_answers one_entering one_entering_live) as (_ & g & Hg & Hcl).
  exists g. split; [exact Hg|]. intros Hj. apply Hcl in Hj as [_ [Hgone _]].
  revert Hgone. vm_compute. discriminate.
Defined.

Lemma waiting_can_forget_witness :
  ∃ g, rtc full_drain one_entering g ∧ forgotten (view g (jid live_job)).
Proof.
  destruct (waiting_can_forget one_entering live_job one_entering_live) as (g & Hg & Hf & _).
  - left.
  - vm_compute. reflexivity.
  - vm_compute. reflexivity.
  - exists g. split; [exact Hg|exact Hf].
Defined.
